(** * A shallow embedding of the fuzzing engine (fuzzer.cpp)

    The engine keeps a corpus of samples, a global set of known coverage
    edges, a registry of crashes and a small phase machine that hands jobs
    to worker threads.  This file embeds the member functions of [Fuzzer]
    as functions over an explicit machine state and proves the properties
    the engine's specification states about them.

    One worker is modelled: a call of a member function is a state
    transformer run from its first statement to its return.  The mutexes of
    the source delimit exactly such blocks; interleavings of several
    workers are outside this model. *)

From Stdlib Require Import ZArith Lia List String Ascii.
From Stdlib.Strings Require Import Byte.
From stdpp Require Import base option list gmap sets strings pretty numbers.

Open Scope Z_scope.

(** ** Basic data *)

(** Result of one execution of the target (the [RunResult] enumeration). *)
Inductive RunResult : Set := OK | CRASH | HANG | ERROR.

(** Global phase of the engine. *)
Inductive FuzzerState : Set :=
  INPUT_SAMPLE_PROCESSING | SERVER_SAMPLE_PROCESSING | FUZZING.

(** Kind of work handed to a worker. *)
Inductive JobType : Set := WAIT | PROCESS_SAMPLE | FUZZ.

#[global] Instance RunResult_eq_dec : EqDecision RunResult.
Proof. solve_decision. Defined.
#[global] Instance FuzzerState_eq_dec : EqDecision FuzzerState.
Proof. solve_decision. Defined.
#[global] Instance JobType_eq_dec : EqDecision JobType.
Proof. solve_decision. Defined.
#[global] Instance byte_eq_dec : EqDecision byte.
Proof.
  intros x y. destruct (Byte.eqb x y) eqn:Hxy.
  - left. by apply Byte.byte_dec_bl.
  - right. intros ->. by rewrite Byte.byte_dec_lb in Hxy.
Defined.

(** Counters printed with [%lld] and stored with [sizeof] 8 are unsigned
    64-bit integers: [x++] wraps. *)
Definition u64 (z : Z) : Z := z mod 2 ^ 64.

(** Reading of an unsigned 64-bit value by a [%lld] conversion. *)
Definition as_signed64 (z : Z) : Z :=
  if decide (z < 2 ^ 63) then z else z - 2 ^ 64.

(** *** Coverage *)

(** An edge is a pair of a module name and an offset in that module. *)
Abbreviation Edge := (string * Z)%type.

(** Modelled from the spec: the [Coverage] type and its operations
    (coverage.h) are not part of the sources.  The spec describes a
    coverage as a set of edges, with union in place, difference and
    intersection into a third set, containment and emptiness. *)
Abbreviation Coverage := (gset Edge).

(** Modelled from the spec: [MergeCoverage(A, B)] (coverage.h, not part of
    the sources) is A <- A ∪ B. *)
Definition MergeCoverage (A B : Coverage) : Coverage := A ∪ B.

(** Modelled from the spec: [CoverageDifference(A, B, C)] (coverage.h, not
    part of the sources) is C <- B \ A, the edges of B not in A. *)
Definition CoverageDifference (A B : Coverage) : Coverage := B ∖ A.

(** Modelled from the spec: [CoverageIntersection(A, B, C)] (coverage.h,
    not part of the sources) is C <- A ∩ B. *)
Definition CoverageIntersection (A B : Coverage) : Coverage := A ∩ B.

(** Modelled from the spec: [CoverageContains(super, sub)] (coverage.h, not
    part of the sources) is true iff sub ⊆ super. *)
Definition CoverageContains (super sub : Coverage) : bool :=
  bool_decide (sub ⊆ super).

(** Modelled from the spec: [A.empty()] on a coverage (coverage.h, not part
    of the sources) is true iff A has no edge. *)
Definition coverage_empty (A : Coverage) : bool := bool_decide (A = ∅).

(** *** Samples *)

(** A sample is an owned byte buffer; [size] is its length. *)
Abbreviation Sample := (list byte).

Definition size (s : Sample) : nat := length s.

(** Modelled from the spec: [Sample::Trim] (sample.h) is not part of the
    sources.  The spec gives it as truncation to a length, and truncation
    only: a length beyond the size changes nothing. *)
Definition Trim (new_size : nat) (s : Sample) : Sample := take new_size s.

(** *** Paths and formatted names *)

(** A path is kept as the list of its components. *)
Abbreviation Path := (list string).

(** Modelled from the spec: [DirJoin] (directory.h) is not part of the
    sources.  [DirJoin dir name] is the entry [name] of the directory
    [dir]. *)
Definition DirJoin (dir : Path) (name : string) : Path := dir ++ [name].

(** [std::to_string] on an integer: its decimal digits. *)
Definition to_string (z : Z) : string := pretty z.

(** Left padding with zeros up to a width. *)
Definition pad0 (width : nat) (s : string) : string :=
  String.concat "" (replicate (width - String.length s)%nat "0"%string) +:+ s.

(** [sprintf(buf, "%05lld", n)] for a 64-bit [n]: signed reading, zero
    padding to five characters, the sign counted in the width. *)
Definition fmt_05lld (n : Z) : string :=
  let v := as_signed64 n in
  if decide (v < 0) then "-" +:+ pad0 4 (pretty (- v)) else pad0 5 (pretty v).

Definition sample_filename (n : Z) : string := "sample_" +:+ fmt_05lld n.

(** *** Corpus entries and jobs *)

(** Modelled from the spec: the declaration of [SampleQueueEntry]
    (fuzzer.h) is not part of the sources.  The spec gives the four
    counters as starting at zero; [context] is the mutator's state for the
    sample, absent until it is created.  The spec calls [priority] a signed
    integer, but [RestoreState] stores [min_priority] in it as it is, and
    [min_priority] is a [double]: [Run] gives it [1.79e+308] and the
    snapshot holds it as such.  So [priority] is taken to be a [double].
    Every value that the code gives it is an integer (0, a restored
    [min_priority], and what decrements make of those), and a [double]
    that holds an integer is kept as this integer, in [Z]; the arithmetic
    on it rounds as that of a [double] does (see [double_round]). *)
Module SampleQueueEntry.
Record t (Context : Type) : Type := mk {
  sample : Sample;
  context : option Context;
  context_initialized : bool;
  priority : Z;
  sample_index : Z;
  num_runs : Z;
  num_newcoverage : Z;
  num_hangs : Z;
  num_crashes : Z
}.
Arguments mk {Context}.
Arguments sample {Context}.
Arguments context {Context}.
Arguments context_initialized {Context}.
Arguments priority {Context}.
Arguments sample_index {Context}.
Arguments num_runs {Context}.
Arguments num_newcoverage {Context}.
Arguments num_hangs {Context}.
Arguments num_crashes {Context}.

(** [new SampleQueueEntry()] *)
Definition new {Context : Type} : t Context :=
  mk [] None false 0 0 0 0 0 0.

Definition set_sample {Context} (v : Sample) (e : t Context) : t Context :=
  mk v (context e) (context_initialized e) (priority e) (sample_index e)
     (num_runs e) (num_newcoverage e) (num_hangs e) (num_crashes e).
Definition set_context {Context} (v : option Context) (e : t Context) :
  t Context :=
  mk (sample e) v (context_initialized e) (priority e) (sample_index e)
     (num_runs e) (num_newcoverage e) (num_hangs e) (num_crashes e).
Definition set_context_initialized {Context} (v : bool) (e : t Context) :
  t Context :=
  mk (sample e) (context e) v (priority e) (sample_index e)
     (num_runs e) (num_newcoverage e) (num_hangs e) (num_crashes e).
Definition set_priority {Context} (v : Z) (e : t Context) : t Context :=
  mk (sample e) (context e) (context_initialized e) v (sample_index e)
     (num_runs e) (num_newcoverage e) (num_hangs e) (num_crashes e).
Definition set_sample_index {Context} (v : Z) (e : t Context) : t Context :=
  mk (sample e) (context e) (context_initialized e) (priority e) v
     (num_runs e) (num_newcoverage e) (num_hangs e) (num_crashes e).
End SampleQueueEntry.

(** The [double] nearest to the integer [x]: an integer below 2^53 in
    magnitude is a [double]; a larger one keeps its 53 leading binary
    digits, rounded to the nearest, and to the even one of two that are
    equally near.  The largest [double] is (2^53 - 1) * 2^971; no
    decrement of a [double] leaves this range. *)
Definition double_round (x : Z) : Z :=
  let a := Z.abs x in
  if decide (a < 2 ^ 53) then x else
  let ulp := 2 ^ (Z.log2 a - 52) in
  let q := a / ulp in
  let r := a mod ulp in
  let q' := if decide (2 * r < ulp) then q
            else if decide (ulp < 2 * r) then q + 1
            else if Z.even q then q else q + 1 in
  Z.sgn x * (q' * ulp).
Arguments double_round : simpl never.


Module FuzzerJob.
(** The fields [entry] and [sample] are pointers that are set only for
    the job types that use them. *)
Record t (Context : Type) : Type := mk {
  type : JobType;
  entry : option (SampleQueueEntry.t Context);
  sample : option Sample;
  discard_sample : bool
}.
Arguments mk {Context}.
Arguments type {Context}.
Arguments entry {Context}.
Arguments sample {Context}.
Arguments discard_sample {Context}.

Definition set_type {Context} (v : JobType) (j : t Context) : t Context :=
  mk v (entry j) (sample j) (discard_sample j).
Definition set_entry {Context} (v : option (SampleQueueEntry.t Context))
  (j : t Context) : t Context :=
  mk (type j) v (sample j) (discard_sample j).
Definition set_sample {Context} (v : option Sample) (j : t Context) :
  t Context :=
  mk (type j) (entry j) v (discard_sample j).
End FuzzerJob.

(** *** Options *)

(** What [ParseOptions] and [SetupDirectories] fix before any worker runs.
    [server] tells whether a coverage server is configured
    ([server != NULL]). *)
Record Options : Type := {
  server : bool;
  save_hangs : bool;
  server_update_interval_ms : Z;
  out_dir : Path
}.

Definition crash_dir (o : Options) : Path := DirJoin (out_dir o) "crashes".
Definition hangs_dir (o : Options) : Path := DirJoin (out_dir o) "hangs".
Definition sample_dir (o : Options) : Path := DirJoin (out_dir o) "samples".

(** *** Collaborators *)

(** The instrumentation, the sample delivery, the mutator, the server
    client and the clock are outside the engine.  They are taken as
    operations on a state [E] that the engine threads through its calls. *)
Record Collaborators (E Context : Type) : Type := {
  DeliverSample : Sample → E → bool * E;
  Run : Z → Z → E → RunResult * E;
  RunWithCrashAnalysis : Z → Z → E → RunResult * E;
  GetCoverage : E → Coverage * E;
  ClearCoverage : E → E;
  CleanTarget : E → E;
  GetCrashName : E → string;
  IgnoreCoverage : Coverage → E → E;
  CreateSampleContext : Sample → E → Context * E;
  GetCurTime : E → Z * E;
  ReportNewCoverage : Coverage → option Sample → E → E;
  ReportCrash : Sample → string → E → E;
  GetUpdates : list Sample → Z → E → list Sample * E
}.
Arguments DeliverSample {E Context}.
Arguments Run {E Context}.
Arguments RunWithCrashAnalysis {E Context}.
Arguments GetCoverage {E Context}.
Arguments ClearCoverage {E Context}.
Arguments CleanTarget {E Context}.
Arguments GetCrashName {E Context}.
Arguments IgnoreCoverage {E Context}.
Arguments CreateSampleContext {E Context}.
Arguments GetCurTime {E Context}.
Arguments ReportNewCoverage {E Context}.
Arguments ReportCrash {E Context}.
Arguments GetUpdates {E Context}.

(** ** The machine *)

(** Outcome of a computation: a value, the process aborted by [FATAL], or
    the iteration bound of a modelled [while (1)] loop exhausted. *)
Inductive Res (A : Type) : Type :=
  | Ok (a : A)
  | Fatal (msg : string)
  | OutOfFuel.
Arguments Ok {A}.
Arguments Fatal {A}.
Arguments OutOfFuel {A}.

(** One classified execution: the sample that was run, the result and the
    coverage that was collected. *)
Abbreviation Execution := (Sample * RunResult * Coverage)%type.

(** The members of [Fuzzer] that the modelled functions use, the worker's
    local view of the corpus and its collaborators, and the files written
    so far.  [min_priority] is compared with and assigned to priorities and
    is carried at their type.  [history] is a ghost field: the executions
    classified by [RunSampleAndGetCoverage] so far, the latest last; no
    function reads it. *)
Record Machine (E Context : Type) : Type := {
  opts : Options;
  state : FuzzerState;
  fuzzer_coverage : Coverage;
  sample_queue : list (SampleQueueEntry.t Context);
  all_samples : list Sample;
  input_files : list Path;
  server_samples : list Sample;
  samples_pending : Z;
  min_priority : Z;
  unique_crashes : gmap string Z;
  num_crashes : Z;
  num_unique_crashes : Z;
  num_hangs : Z;
  num_samples : Z;
  num_samples_discarded : Z;
  total_execs : Z;
  last_server_update_time_ms : Z;
  all_samples_local : list Sample;
  collab : E;
  files : gmap Path Sample;
  history : list Execution
}.
Arguments opts {E Context}.
Arguments state {E Context}.
Arguments fuzzer_coverage {E Context}.
Arguments sample_queue {E Context}.
Arguments all_samples {E Context}.
Arguments input_files {E Context}.
Arguments server_samples {E Context}.
Arguments samples_pending {E Context}.
Arguments min_priority {E Context}.
Arguments unique_crashes {E Context}.
Arguments num_crashes {E Context}.
Arguments num_unique_crashes {E Context}.
Arguments num_hangs {E Context}.
Arguments num_samples {E Context}.
Arguments num_samples_discarded {E Context}.
Arguments total_execs {E Context}.
Arguments last_server_update_time_ms {E Context}.
Arguments all_samples_local {E Context}.
Arguments collab {E Context}.
Arguments files {E Context}.
Arguments history {E Context}.

Definition set_state {E Context : Type} (v : FuzzerState)
    (s : Machine E Context) : Machine E Context :=
  {| opts := opts s; state := v; fuzzer_coverage := fuzzer_coverage s;
     sample_queue := sample_queue s; all_samples := all_samples s;
     input_files := input_files s; server_samples := server_samples s;
     samples_pending := samples_pending s; min_priority := min_priority s;
     unique_crashes := unique_crashes s; num_crashes := num_crashes s;
     num_unique_crashes := num_unique_crashes s; num_hangs := num_hangs s;
     num_samples := num_samples s;
     num_samples_discarded := num_samples_discarded s;
     total_execs := total_execs s;
     last_server_update_time_ms := last_server_update_time_ms s;
     all_samples_local := all_samples_local s; collab := collab s;
     files := files s; history := history s |}.
Definition set_fuzzer_coverage {E Context : Type} (v : Coverage)
    (s : Machine E Context) : Machine E Context :=
  {| opts := opts s; state := state s; fuzzer_coverage := v;
     sample_queue := sample_queue s; all_samples := all_samples s;
     input_files := input_files s; server_samples := server_samples s;
     samples_pending := samples_pending s; min_priority := min_priority s;
     unique_crashes := unique_crashes s; num_crashes := num_crashes s;
     num_unique_crashes := num_unique_crashes s; num_hangs := num_hangs s;
     num_samples := num_samples s;
     num_samples_discarded := num_samples_discarded s;
     total_execs := total_execs s;
     last_server_update_time_ms := last_server_update_time_ms s;
     all_samples_local := all_samples_local s; collab := collab s;
     files := files s; history := history s |}.
Definition set_sample_queue {E Context : Type} (v : list (SampleQueueEntry.t Context))
    (s : Machine E Context) : Machine E Context :=
  {| opts := opts s; state := state s; fuzzer_coverage := fuzzer_coverage s;
     sample_queue := v; all_samples := all_samples s;
     input_files := input_files s; server_samples := server_samples s;
     samples_pending := samples_pending s; min_priority := min_priority s;
     unique_crashes := unique_crashes s; num_crashes := num_crashes s;
     num_unique_crashes := num_unique_crashes s; num_hangs := num_hangs s;
     num_samples := num_samples s;
     num_samples_discarded := num_samples_discarded s;
     total_execs := total_execs s;
     last_server_update_time_ms := last_server_update_time_ms s;
     all_samples_local := all_samples_local s; collab := collab s;
     files := files s; history := history s |}.
Definition set_all_samples {E Context : Type} (v : list Sample)
    (s : Machine E Context) : Machine E Context :=
  {| opts := opts s; state := state s; fuzzer_coverage := fuzzer_coverage s;
     sample_queue := sample_queue s; all_samples := v;
     input_files := input_files s; server_samples := server_samples s;
     samples_pending := samples_pending s; min_priority := min_priority s;
     unique_crashes := unique_crashes s; num_crashes := num_crashes s;
     num_unique_crashes := num_unique_crashes s; num_hangs := num_hangs s;
     num_samples := num_samples s;
     num_samples_discarded := num_samples_discarded s;
     total_execs := total_execs s;
     last_server_update_time_ms := last_server_update_time_ms s;
     all_samples_local := all_samples_local s; collab := collab s;
     files := files s; history := history s |}.
Definition set_input_files {E Context : Type} (v : list Path)
    (s : Machine E Context) : Machine E Context :=
  {| opts := opts s; state := state s; fuzzer_coverage := fuzzer_coverage s;
     sample_queue := sample_queue s; all_samples := all_samples s;
     input_files := v; server_samples := server_samples s;
     samples_pending := samples_pending s; min_priority := min_priority s;
     unique_crashes := unique_crashes s; num_crashes := num_crashes s;
     num_unique_crashes := num_unique_crashes s; num_hangs := num_hangs s;
     num_samples := num_samples s;
     num_samples_discarded := num_samples_discarded s;
     total_execs := total_execs s;
     last_server_update_time_ms := last_server_update_time_ms s;
     all_samples_local := all_samples_local s; collab := collab s;
     files := files s; history := history s |}.
Definition set_server_samples {E Context : Type} (v : list Sample)
    (s : Machine E Context) : Machine E Context :=
  {| opts := opts s; state := state s; fuzzer_coverage := fuzzer_coverage s;
     sample_queue := sample_queue s; all_samples := all_samples s;
     input_files := input_files s; server_samples := v;
     samples_pending := samples_pending s; min_priority := min_priority s;
     unique_crashes := unique_crashes s; num_crashes := num_crashes s;
     num_unique_crashes := num_unique_crashes s; num_hangs := num_hangs s;
     num_samples := num_samples s;
     num_samples_discarded := num_samples_discarded s;
     total_execs := total_execs s;
     last_server_update_time_ms := last_server_update_time_ms s;
     all_samples_local := all_samples_local s; collab := collab s;
     files := files s; history := history s |}.
Definition set_samples_pending {E Context : Type} (v : Z)
    (s : Machine E Context) : Machine E Context :=
  {| opts := opts s; state := state s; fuzzer_coverage := fuzzer_coverage s;
     sample_queue := sample_queue s; all_samples := all_samples s;
     input_files := input_files s; server_samples := server_samples s;
     samples_pending := v; min_priority := min_priority s;
     unique_crashes := unique_crashes s; num_crashes := num_crashes s;
     num_unique_crashes := num_unique_crashes s; num_hangs := num_hangs s;
     num_samples := num_samples s;
     num_samples_discarded := num_samples_discarded s;
     total_execs := total_execs s;
     last_server_update_time_ms := last_server_update_time_ms s;
     all_samples_local := all_samples_local s; collab := collab s;
     files := files s; history := history s |}.
Definition set_min_priority {E Context : Type} (v : Z)
    (s : Machine E Context) : Machine E Context :=
  {| opts := opts s; state := state s; fuzzer_coverage := fuzzer_coverage s;
     sample_queue := sample_queue s; all_samples := all_samples s;
     input_files := input_files s; server_samples := server_samples s;
     samples_pending := samples_pending s; min_priority := v;
     unique_crashes := unique_crashes s; num_crashes := num_crashes s;
     num_unique_crashes := num_unique_crashes s; num_hangs := num_hangs s;
     num_samples := num_samples s;
     num_samples_discarded := num_samples_discarded s;
     total_execs := total_execs s;
     last_server_update_time_ms := last_server_update_time_ms s;
     all_samples_local := all_samples_local s; collab := collab s;
     files := files s; history := history s |}.
Definition set_unique_crashes {E Context : Type} (v : gmap string Z)
    (s : Machine E Context) : Machine E Context :=
  {| opts := opts s; state := state s; fuzzer_coverage := fuzzer_coverage s;
     sample_queue := sample_queue s; all_samples := all_samples s;
     input_files := input_files s; server_samples := server_samples s;
     samples_pending := samples_pending s; min_priority := min_priority s;
     unique_crashes := v; num_crashes := num_crashes s;
     num_unique_crashes := num_unique_crashes s; num_hangs := num_hangs s;
     num_samples := num_samples s;
     num_samples_discarded := num_samples_discarded s;
     total_execs := total_execs s;
     last_server_update_time_ms := last_server_update_time_ms s;
     all_samples_local := all_samples_local s; collab := collab s;
     files := files s; history := history s |}.
Definition set_num_crashes {E Context : Type} (v : Z)
    (s : Machine E Context) : Machine E Context :=
  {| opts := opts s; state := state s; fuzzer_coverage := fuzzer_coverage s;
     sample_queue := sample_queue s; all_samples := all_samples s;
     input_files := input_files s; server_samples := server_samples s;
     samples_pending := samples_pending s; min_priority := min_priority s;
     unique_crashes := unique_crashes s; num_crashes := v;
     num_unique_crashes := num_unique_crashes s; num_hangs := num_hangs s;
     num_samples := num_samples s;
     num_samples_discarded := num_samples_discarded s;
     total_execs := total_execs s;
     last_server_update_time_ms := last_server_update_time_ms s;
     all_samples_local := all_samples_local s; collab := collab s;
     files := files s; history := history s |}.
Definition set_num_unique_crashes {E Context : Type} (v : Z)
    (s : Machine E Context) : Machine E Context :=
  {| opts := opts s; state := state s; fuzzer_coverage := fuzzer_coverage s;
     sample_queue := sample_queue s; all_samples := all_samples s;
     input_files := input_files s; server_samples := server_samples s;
     samples_pending := samples_pending s; min_priority := min_priority s;
     unique_crashes := unique_crashes s; num_crashes := num_crashes s;
     num_unique_crashes := v; num_hangs := num_hangs s;
     num_samples := num_samples s;
     num_samples_discarded := num_samples_discarded s;
     total_execs := total_execs s;
     last_server_update_time_ms := last_server_update_time_ms s;
     all_samples_local := all_samples_local s; collab := collab s;
     files := files s; history := history s |}.
Definition set_num_hangs {E Context : Type} (v : Z)
    (s : Machine E Context) : Machine E Context :=
  {| opts := opts s; state := state s; fuzzer_coverage := fuzzer_coverage s;
     sample_queue := sample_queue s; all_samples := all_samples s;
     input_files := input_files s; server_samples := server_samples s;
     samples_pending := samples_pending s; min_priority := min_priority s;
     unique_crashes := unique_crashes s; num_crashes := num_crashes s;
     num_unique_crashes := num_unique_crashes s; num_hangs := v;
     num_samples := num_samples s;
     num_samples_discarded := num_samples_discarded s;
     total_execs := total_execs s;
     last_server_update_time_ms := last_server_update_time_ms s;
     all_samples_local := all_samples_local s; collab := collab s;
     files := files s; history := history s |}.
Definition set_num_samples {E Context : Type} (v : Z)
    (s : Machine E Context) : Machine E Context :=
  {| opts := opts s; state := state s; fuzzer_coverage := fuzzer_coverage s;
     sample_queue := sample_queue s; all_samples := all_samples s;
     input_files := input_files s; server_samples := server_samples s;
     samples_pending := samples_pending s; min_priority := min_priority s;
     unique_crashes := unique_crashes s; num_crashes := num_crashes s;
     num_unique_crashes := num_unique_crashes s; num_hangs := num_hangs s;
     num_samples := v; num_samples_discarded := num_samples_discarded s;
     total_execs := total_execs s;
     last_server_update_time_ms := last_server_update_time_ms s;
     all_samples_local := all_samples_local s; collab := collab s;
     files := files s; history := history s |}.
Definition set_num_samples_discarded {E Context : Type} (v : Z)
    (s : Machine E Context) : Machine E Context :=
  {| opts := opts s; state := state s; fuzzer_coverage := fuzzer_coverage s;
     sample_queue := sample_queue s; all_samples := all_samples s;
     input_files := input_files s; server_samples := server_samples s;
     samples_pending := samples_pending s; min_priority := min_priority s;
     unique_crashes := unique_crashes s; num_crashes := num_crashes s;
     num_unique_crashes := num_unique_crashes s; num_hangs := num_hangs s;
     num_samples := num_samples s; num_samples_discarded := v;
     total_execs := total_execs s;
     last_server_update_time_ms := last_server_update_time_ms s;
     all_samples_local := all_samples_local s; collab := collab s;
     files := files s; history := history s |}.
Definition set_total_execs {E Context : Type} (v : Z)
    (s : Machine E Context) : Machine E Context :=
  {| opts := opts s; state := state s; fuzzer_coverage := fuzzer_coverage s;
     sample_queue := sample_queue s; all_samples := all_samples s;
     input_files := input_files s; server_samples := server_samples s;
     samples_pending := samples_pending s; min_priority := min_priority s;
     unique_crashes := unique_crashes s; num_crashes := num_crashes s;
     num_unique_crashes := num_unique_crashes s; num_hangs := num_hangs s;
     num_samples := num_samples s;
     num_samples_discarded := num_samples_discarded s; total_execs := v;
     last_server_update_time_ms := last_server_update_time_ms s;
     all_samples_local := all_samples_local s; collab := collab s;
     files := files s; history := history s |}.
Definition set_last_server_update_time_ms {E Context : Type} (v : Z)
    (s : Machine E Context) : Machine E Context :=
  {| opts := opts s; state := state s; fuzzer_coverage := fuzzer_coverage s;
     sample_queue := sample_queue s; all_samples := all_samples s;
     input_files := input_files s; server_samples := server_samples s;
     samples_pending := samples_pending s; min_priority := min_priority s;
     unique_crashes := unique_crashes s; num_crashes := num_crashes s;
     num_unique_crashes := num_unique_crashes s; num_hangs := num_hangs s;
     num_samples := num_samples s;
     num_samples_discarded := num_samples_discarded s;
     total_execs := total_execs s; last_server_update_time_ms := v;
     all_samples_local := all_samples_local s; collab := collab s;
     files := files s; history := history s |}.
Definition set_all_samples_local {E Context : Type} (v : list Sample)
    (s : Machine E Context) : Machine E Context :=
  {| opts := opts s; state := state s; fuzzer_coverage := fuzzer_coverage s;
     sample_queue := sample_queue s; all_samples := all_samples s;
     input_files := input_files s; server_samples := server_samples s;
     samples_pending := samples_pending s; min_priority := min_priority s;
     unique_crashes := unique_crashes s; num_crashes := num_crashes s;
     num_unique_crashes := num_unique_crashes s; num_hangs := num_hangs s;
     num_samples := num_samples s;
     num_samples_discarded := num_samples_discarded s;
     total_execs := total_execs s;
     last_server_update_time_ms := last_server_update_time_ms s;
     all_samples_local := v; collab := collab s; files := files s;
     history := history s |}.
Definition set_collab {E Context : Type} (v : E)
    (s : Machine E Context) : Machine E Context :=
  {| opts := opts s; state := state s; fuzzer_coverage := fuzzer_coverage s;
     sample_queue := sample_queue s; all_samples := all_samples s;
     input_files := input_files s; server_samples := server_samples s;
     samples_pending := samples_pending s; min_priority := min_priority s;
     unique_crashes := unique_crashes s; num_crashes := num_crashes s;
     num_unique_crashes := num_unique_crashes s; num_hangs := num_hangs s;
     num_samples := num_samples s;
     num_samples_discarded := num_samples_discarded s;
     total_execs := total_execs s;
     last_server_update_time_ms := last_server_update_time_ms s;
     all_samples_local := all_samples_local s; collab := v; files := files s;
     history := history s |}.
Definition set_files {E Context : Type} (v : gmap Path Sample)
    (s : Machine E Context) : Machine E Context :=
  {| opts := opts s; state := state s; fuzzer_coverage := fuzzer_coverage s;
     sample_queue := sample_queue s; all_samples := all_samples s;
     input_files := input_files s; server_samples := server_samples s;
     samples_pending := samples_pending s; min_priority := min_priority s;
     unique_crashes := unique_crashes s; num_crashes := num_crashes s;
     num_unique_crashes := num_unique_crashes s; num_hangs := num_hangs s;
     num_samples := num_samples s;
     num_samples_discarded := num_samples_discarded s;
     total_execs := total_execs s;
     last_server_update_time_ms := last_server_update_time_ms s;
     all_samples_local := all_samples_local s; collab := collab s;
     files := v; history := history s |}.
Definition set_history {E Context : Type} (v : list Execution)
    (s : Machine E Context) : Machine E Context :=
  {| opts := opts s; state := state s; fuzzer_coverage := fuzzer_coverage s;
     sample_queue := sample_queue s; all_samples := all_samples s;
     input_files := input_files s; server_samples := server_samples s;
     samples_pending := samples_pending s; min_priority := min_priority s;
     unique_crashes := unique_crashes s; num_crashes := num_crashes s;
     num_unique_crashes := num_unique_crashes s; num_hangs := num_hangs s;
     num_samples := num_samples s;
     num_samples_discarded := num_samples_discarded s;
     total_execs := total_execs s;
     last_server_update_time_ms := last_server_update_time_ms s;
     all_samples_local := all_samples_local s; collab := collab s;
     files := files s; history := v |}.

(** ** An example configuration *)

(** Collaborators that replay a script: the outcomes of the coming runs,
    the coverage of the latest run, the clock, and the samples that the
    server hands out at the next update. *)
Abbreviation ScriptEnv :=
  (list (RunResult * Coverage) * Coverage * Z * list Sample)%type.

Definition script_ops : Collaborators ScriptEnv unit :=
  {| DeliverSample := fun _ e => (true, e);
     Run := fun _ _ '(runs, latest, now, remote) =>
       match runs with
       | [] => (OK, ([], ∅, now, remote))
       | (r, c) :: runs' => (r, (runs', c, now, remote))
       end;
     RunWithCrashAnalysis := fun _ _ e => (CRASH, e);
     GetCoverage := fun '(runs, latest, now, remote) =>
       (latest, (runs, ∅, now, remote));
     ClearCoverage := fun '(runs, latest, now, remote) =>
       (runs, ∅, now, remote);
     CleanTarget := fun e => e;
     GetCrashName := fun _ => "crash"%string;
     IgnoreCoverage := fun _ e => e;
     CreateSampleContext := fun _ e => (tt, e);
     GetCurTime := fun '(runs, latest, now, remote) =>
       (now, (runs, latest, now, remote));
     ReportNewCoverage := fun _ _ e => e;
     ReportCrash := fun _ _ e => e;
     GetUpdates := fun pending _ '(runs, latest, now, remote) =>
       (pending ++ remote, (runs, latest, now, []))
  |}.

Definition script_options : Options :=
  {| server := false; save_hangs := true;
     server_update_interval_ms := 300000; out_dir := ["out"%string] |}.

(** The state that [Fuzzer::Run] sets up before it starts the workers,
    with the given inputs to process and the given script; [min_priority]
    starts at 1.79e+308. *)
Definition script_machine (inputs : list Path)
    (runs : list (RunResult * Coverage)) : Machine ScriptEnv unit :=
  {| opts := script_options; state := INPUT_SAMPLE_PROCESSING;
     fuzzer_coverage := ∅; sample_queue := []; all_samples := [];
     input_files := inputs; server_samples := []; samples_pending := 0;
     min_priority := double_round (179 * 10 ^ 306); unique_crashes := ∅;
     num_crashes := 0; num_unique_crashes := 0; num_hangs := 0;
     num_samples := 0; num_samples_discarded := 0; total_execs := 0;
     last_server_update_time_ms := 0; all_samples_local := [];
     collab := (runs, ∅, 0, []); files := ∅; history := [] |}.

Definition edge1 : Edge := ("target"%string, 16).
Definition edge2 : Edge := ("target"%string, 32).
Definition edge3 : Edge := ("target"%string, 48).

Definition bytes4 : Sample := ["a"; "b"; "c"; "d"]%byte.

(** The state in which a computation returns, or [s] when it does not. *)
Definition final {E Context A : Type}
    (r : Res (A * Machine E Context)) (s : Machine E Context) :
    Machine E Context :=
  match r with Ok (_, s') => s' | _ => s end.

(** The value that a computation returns, or [d] when it does not. *)
Definition returned {E Context A : Type}
    (r : Res (A * Machine E Context)) (d : A) : A :=
  match r with Ok (a, _) => a | _ => d end.

(** A corpus entry that has never been fuzzed, and a machine that is
    fuzzing with this entry alone in its queue. *)
Definition fresh_entry : SampleQueueEntry.t unit :=
  SampleQueueEntry.mk bytes4 None false 0 0 0 0 0 0.

Definition fuzzing_machine : Machine ScriptEnv unit :=
  set_state FUZZING
    (set_sample_queue [fresh_entry]
       (set_all_samples [bytes4] (script_machine [] []))).

(** A job whose fields no one has set. *)
Definition blank_job : FuzzerJob.t unit := FuzzerJob.mk WAIT None None false.

(** A binary form for the coverages of the example, which are empty or
    hold [edge1] alone, and one for small priorities. *)
Definition example_write_coverage (c : Coverage) : list byte :=
  if decide (c = ∅) then ["000"%byte] else ["001"%byte].

Definition example_read_coverage (stream : list byte) :
    Coverage * list byte :=
  match stream with
  | "001"%byte :: rest => ({[edge1]}, rest)
  | _ :: rest => (∅, rest)
  | [] => (∅, [])
  end.

Definition example_double_bytes (p : Z) : list byte :=
  [ match p with 0 => "000" | 1 => "001" | 2 => "002" | _ => "003" end%byte;
    "000"; "000"; "000"; "000"; "000"; "000"; "000" ]%byte.

Definition example_double_of_bytes (object : list byte) : Z :=
  match object with
  | "000"%byte :: _ => 0
  | "001"%byte :: _ => 1
  | "002"%byte :: _ => 2
  | _ => 3
  end.

(** A machine that is fuzzing after it has accepted one sample. *)
Definition accepted_machine : Machine ScriptEnv unit :=
  set_files {[ DirJoin (sample_dir script_options) (sample_filename 0)
               := bytes4 ]}
    (set_num_samples 1
       (set_total_execs 3
          (set_min_priority 0
             (set_fuzzer_coverage {[edge1]} fuzzing_machine)))).

(** A machine in the input phase that has no input left and one entry in
    its queue. *)
Definition drained_machine : Machine ScriptEnv unit :=
  set_sample_queue [fresh_entry] (script_machine [] []).

(** The options of the example with a server. *)
Definition served_options : Options :=
  {| server := true; save_hangs := true;
     server_update_interval_ms := 300000; out_dir := ["out"%string] |}.

(** A fuzzer with a server at the end of the processing of its input: it
    has accepted one sample, the server has one sample to hand out, and
    [min_priority] is still what [Run] gave it. *)
Definition served_machine : Machine ScriptEnv unit :=
  {| opts := served_options; state := INPUT_SAMPLE_PROCESSING;
     fuzzer_coverage := {[edge1]};
     sample_queue := [SampleQueueEntry.mk bytes4 (Some tt) true 0 0 0 0 0 0];
     all_samples := [bytes4];
     input_files := []; server_samples := []; samples_pending := 0;
     min_priority := double_round (179 * 10 ^ 306); unique_crashes := ∅;
     num_crashes := 0; num_unique_crashes := 0; num_hangs := 0;
     num_samples := 1; num_samples_discarded := 0; total_execs := 3;
     last_server_update_time_ms := 0; all_samples_local := [];
     collab := ([], ∅, 0, [bytes4]);
     files := {[ DirJoin (sample_dir served_options) (sample_filename 0)
                 := bytes4 ]};
     history := [] |}.

(** A binary form for the priorities of the example that also holds the
    value that [Run] gives [min_priority]. *)
Definition fresh_double_bytes (p : Z) : list byte :=
  if decide (p = double_round (179 * 10 ^ 306))
  then ["255"; "255"; "255"; "255"; "255"; "255"; "255"; "255"]%byte
  else example_double_bytes p.

Definition fresh_double_of_bytes (object : list byte) : Z :=
  match object with
  | "255"%byte :: _ => double_round (179 * 10 ^ 306)
  | _ => example_double_of_bytes object
  end.

(** Collaborators that behave as [script_ops] do and keep a log of what is
    reported to the server. *)
Abbreviation ReportEnv := (ScriptEnv * list (Coverage * option Sample))%type.

Definition reporting_ops : Collaborators ReportEnv unit :=
  {| DeliverSample := fun sample '(e, log) =>
       let '(ok, e) := DeliverSample script_ops sample e in (ok, (e, log));
     Run := fun init_timeout timeout '(e, log) =>
       let '(r, e) := Run script_ops init_timeout timeout e in (r, (e, log));
     RunWithCrashAnalysis := fun init_timeout timeout '(e, log) =>
       let '(r, e) := RunWithCrashAnalysis script_ops init_timeout timeout e in
       (r, (e, log));
     GetCoverage := fun '(e, log) =>
       let '(c, e) := GetCoverage script_ops e in (c, (e, log));
     ClearCoverage := fun '(e, log) => (ClearCoverage script_ops e, log);
     CleanTarget := fun '(e, log) => (CleanTarget script_ops e, log);
     GetCrashName := fun '(e, log) => GetCrashName script_ops e;
     IgnoreCoverage := fun c '(e, log) => (IgnoreCoverage script_ops c e, log);
     CreateSampleContext := fun sample '(e, log) =>
       let '(context, e) := CreateSampleContext script_ops sample e in
       (context, (e, log));
     GetCurTime := fun '(e, log) =>
       let '(now, e) := GetCurTime script_ops e in (now, (e, log));
     ReportNewCoverage := fun c sample '(e, log) => (e, log ++ [(c, sample)]);
     ReportCrash := fun sample name '(e, log) =>
       (ReportCrash script_ops sample name e, log);
     GetUpdates := fun pending execs '(e, log) =>
       let '(samples, e) := GetUpdates script_ops pending execs e in
       (samples, (e, log))
  |}.

(** The state that [Fuzzer::Run] sets up for a fuzzer with a server, with
    the given script and nothing reported yet. *)
Definition reporting_machine (runs : list (RunResult * Coverage)) :
    Machine ReportEnv unit :=
  {| opts := served_options; state := INPUT_SAMPLE_PROCESSING;
     fuzzer_coverage := ∅; sample_queue := []; all_samples := [];
     input_files := []; server_samples := []; samples_pending := 0;
     min_priority := double_round (179 * 10 ^ 306); unique_crashes := ∅;
     num_crashes := 0; num_unique_crashes := 0; num_hangs := 0;
     num_samples := 0; num_samples_discarded := 0; total_execs := 0;
     last_server_update_time_ms := 0; all_samples_local := [];
     collab := ((runs, ∅, 0, []), []); files := ∅; history := [] |}.

(** ** The worker *)

(** The mutator of a worker, with its generator of random numbers, is
    outside the engine as the other collaborators are.  A mutator context
    is a handle: what it stands for is part of the state [E], so that
    [InitRound] and [NotifyResult] are called for their effect, and
    [Mutate] returns its verdict and the sample that it has rewritten in
    place. *)
Record Mutator (E Context : Type) : Type := {
  InitRound : Sample → option Context → E → E;
  Mutate : Sample → list Sample → E → bool * Sample * E;
  NotifyResult : RunResult → Z → E → E
}.
Arguments InitRound {E Context}.
Arguments Mutate {E Context}.
Arguments NotifyResult {E Context}.

(** The statistics of an entry, which [FuzzJob] keeps. *)
Definition set_num_runs {Context : Type} (v : Z)
    (e : SampleQueueEntry.t Context) : SampleQueueEntry.t Context :=
  SampleQueueEntry.mk (SampleQueueEntry.sample e) (SampleQueueEntry.context e)
    (SampleQueueEntry.context_initialized e) (SampleQueueEntry.priority e)
    (SampleQueueEntry.sample_index e) v (SampleQueueEntry.num_newcoverage e)
    (SampleQueueEntry.num_hangs e) (SampleQueueEntry.num_crashes e).

Definition set_num_newcoverage {Context : Type} (v : Z)
    (e : SampleQueueEntry.t Context) : SampleQueueEntry.t Context :=
  SampleQueueEntry.mk (SampleQueueEntry.sample e) (SampleQueueEntry.context e)
    (SampleQueueEntry.context_initialized e) (SampleQueueEntry.priority e)
    (SampleQueueEntry.sample_index e) (SampleQueueEntry.num_runs e) v
    (SampleQueueEntry.num_hangs e) (SampleQueueEntry.num_crashes e).

Definition set_entry_num_hangs {Context : Type} (v : Z)
    (e : SampleQueueEntry.t Context) : SampleQueueEntry.t Context :=
  SampleQueueEntry.mk (SampleQueueEntry.sample e) (SampleQueueEntry.context e)
    (SampleQueueEntry.context_initialized e) (SampleQueueEntry.priority e)
    (SampleQueueEntry.sample_index e) (SampleQueueEntry.num_runs e)
    (SampleQueueEntry.num_newcoverage e) v (SampleQueueEntry.num_crashes e).

Definition set_entry_num_crashes {Context : Type} (v : Z)
    (e : SampleQueueEntry.t Context) : SampleQueueEntry.t Context :=
  SampleQueueEntry.mk (SampleQueueEntry.sample e) (SampleQueueEntry.context e)
    (SampleQueueEntry.context_initialized e) (SampleQueueEntry.priority e)
    (SampleQueueEntry.sample_index e) (SampleQueueEntry.num_runs e)
    (SampleQueueEntry.num_newcoverage e) (SampleQueueEntry.num_hangs e) v.

Definition set_discard_sample {Context : Type} (v : bool)
    (j : FuzzerJob.t Context) : FuzzerJob.t Context :=
  FuzzerJob.mk (FuzzerJob.type j) (FuzzerJob.entry j) (FuzzerJob.sample j) v.

(** ** The command line of the target *)

(** The loop of [ParseOptions] that looks for the separator:
    [for (i = 1; i < argc; i++)], with [n] the iterations that remain;
    it yields [target_opt_ind], which is 0 when there is no separator. *)
Fixpoint ParseOptions_separator (n i : nat) (argv : list string) : nat :=
  match n with
  | O => 0
  | S n' =>
      match argv !! i with
      | Some arg =>
          if decide (arg = "--"%string) then i + 1
          else ParseOptions_separator n' (S i) argv
      | None => ParseOptions_separator n' (S i) argv
      end
  end.

(** The lines of [ParseOptions] that find the command line of the target,
    after the options [-in] and [-out] have been found: [target_argc] and
    [target_argv], the latter as the list of the arguments that it points
    to ([NULL] has none). *)
Definition ParseOptions_target (argv : list string) : Z * list string :=
  let argc := length argv in
  let target_opt_ind := ParseOptions_separator (argc - 1) 1 argv in
  if decide (target_opt_ind ≠ 0%nat)
  then (Z.of_nat argc - Z.of_nat target_opt_ind, drop target_opt_ind argv)
  else (0, []).

(** What [ParseOptions] sets.  The options that the engine reads while
    it runs are those of [Options]; the two ratios that it sets, 0.01 for
    the hangs and 0.02 for the crashes, are the constants of the
    comparisons that [FuzzJob] makes. *)
Module ParsedOptions.
Record t : Type := mk {
  options : Options;
  in_dir : string;
  num_threads : Z;
  target_argc : Z;
  target_argv : list string;
  timeout : Z;
  init_timeout : Z;
  corpus_timeout : Z;
  should_restore_state : bool
}.
End ParsedOptions.

Section Parsing.

(** The functions that read one option off the command line (common.h)
    are not part of the sources.  [GetOption] yields the value of an
    option, or the null pointer, for which [None] stands; [GetIntOption]
    and [GetBinaryOption] take the value to yield when the option is
    absent. *)
Variable GetOption : string → list string → option string.
Variable GetIntOption : string → list string → Z → Z.
Variable GetBinaryOption : string → list string → bool → bool.

(** [ParseOptions] yields nothing when [PrintUsage] ends the process,
    which it does with [exit(0)] when [-in] or [-out] is missing. *)
Definition ParseOptions (argv : list string) : option ParsedOptions.t :=
  let save_hangs := false in
  let server_update_interval_ms := 5 * 60 * 1000 in
  match GetOption "-in" argv with
  | None => None
  | Some in_dir =>
      match GetOption "-out" argv with
      | None => None
      | Some out_dir =>
          let num_threads := GetIntOption "-nthreads" argv 1 in
          let '(target_argc, target_argv) := ParseOptions_target argv in
          let timeout := GetIntOption "-t" argv 0x7FFFFFFF in
          let init_timeout := GetIntOption "-t1" argv timeout in
          let corpus_timeout := GetIntOption "-t_corpus" argv timeout in
          let server :=
            match GetOption "-server" argv with
            | Some _ => true
            | None => false
            end in
          let should_restore_state :=
            bool_decide (in_dir = "-"%string)
            || GetBinaryOption "-restore" argv false
            || GetBinaryOption "-resume" argv false in
          Some (ParsedOptions.mk
                  {| server := server; save_hangs := save_hangs;
                     server_update_interval_ms := server_update_interval_ms;
                     out_dir := [out_dir] |}
                  in_dir num_threads target_argc target_argv timeout
                  init_timeout corpus_timeout should_restore_state)
      end
  end.

End Parsing.

(** The loop of [ReplaceTargetCmdArg]: [for (i = 0; i < target_argc; i++)],
    with [n] the iterations that remain.  An argument that is equal to
    [search] is made to point to a copy of [replace]. *)
Fixpoint ReplaceTargetCmdArg_loop (n i : nat) (search replace : string)
    (target_argv : list string) : list string :=
  match n with
  | O => target_argv
  | S n' =>
      let target_argv :=
        match target_argv !! i with
        | Some arg =>
            if decide (arg = search) then <[i := replace]> target_argv
            else target_argv
        | None => target_argv
        end in
      ReplaceTargetCmdArg_loop n' (S i) search replace target_argv
  end.

(** The arguments of the target of a worker are kept as the list of the
    [target_argc] strings that [target_argv] points to. *)
Definition ReplaceTargetCmdArg (target_argv : list string)
    (search replace : string) : list string :=
  ReplaceTargetCmdArg_loop (length target_argv) 0 search replace target_argv.

(** How a worker hands a sample to the target: through a file, or
    through shared memory of a given name and size. *)
Inductive SampleDelivery : Type :=
  | FileSampleDelivery (filename : Path)
  | SHMSampleDelivery (name : string) (size : Z).

(** A mutator for the example configuration: it doubles the sample, as
    long as the script has runs left. *)
Definition script_mutator : Mutator ScriptEnv unit :=
  {| InitRound := fun _ _ e => e;
     Mutate := fun sample _ '(runs, latest, now, remote) =>
       match runs with
       | [] => (false, sample, (runs, latest, now, remote))
       | _ => (true, sample ++ sample, (runs, latest, now, remote))
       end;
     NotifyResult := fun _ _ e => e
  |}.

(** Comparisons that stand for [count > runs * 0.01] and
    [count > runs * 0.02] in the example. *)
Definition example_exceeds_hang_ratio (count runs : Z) : bool :=
  bool_decide (runs < 100 * count).

Definition example_exceeds_crash_ratio (count runs : Z) : bool :=
  bool_decide (runs < 50 * count).

(** The machine that is fuzzing, with a script of runs. *)
Definition fuzzing_script (runs : list (RunResult * Coverage)) :
    Machine ScriptEnv unit :=
  set_collab (runs, ∅, 0, []) fuzzing_machine.

(** A [FUZZ] job for the entry of the example. *)
Definition fuzz_job : FuzzerJob.t unit :=
  FuzzerJob.mk FUZZ (Some fresh_entry) None false.

(** A machine that processes its input, with one input file that holds
    four bytes. *)
Definition input_machine : Machine ScriptEnv unit :=
  set_files {[ ["in"; "seed"]%string := bytes4 ]}
    (script_machine [["in"; "seed"]%string] []).

(** Readers of the command line for the example: the value of an option
    is the argument that follows its name, and the options that are
    numbers or switches are taken to be absent. *)
Fixpoint example_GetOption (name : string) (argv : list string) :
    option string :=
  match argv with
  | [] => None
  | arg :: rest =>
      if decide (arg = name) then head rest else example_GetOption name rest
  end.

Definition example_GetIntOption (name : string) (argv : list string)
    (default_value : Z) : Z := default_value.

Definition example_GetBinaryOption (name : string) (argv : list string)
    (default_value : bool) : bool := default_value.

Section Engine.

Context {E Context : Type}.
Variable ops : Collaborators E Context.

(** Constants of the headers, which are not part of the sources. *)
Variable MAX_IDENTICAL_CRASHES : Z.
Variable CRASH_REPRODUCE_TIMES : nat.
Variable SAMPLE_RETRY_TIMES : nat.
Variable TRIM_STEP_INITIAL : Z.
Variable MAX_SAMPLE_SIZE : nat.

Local Abbreviation SampleQueueEntry := (SampleQueueEntry.t Context).
Local Abbreviation FuzzerJob := (FuzzerJob.t Context).
Local Abbreviation machine := (Machine E Context).

(** *** Computations *)

Definition M (A : Type) : Type := machine → Res (A * machine).

Definition ret {A} (a : A) : M A := fun s => Ok (a, s).

Definition bind {A B} (m : M A) (k : A → M B) : M B :=
  fun s => match m s with
           | Ok (a, s') => k a s'
           | Fatal msg => Fatal msg
           | OutOfFuel => OutOfFuel
           end.

Definition FATAL {A} (msg : string) : M A := fun _ => Fatal msg.

Definition get {A} (f : machine → A) : M A := fun s => Ok (f s, s).

Definition modify (f : machine → machine) : M unit := fun s => Ok (tt, f s).

(** A call of a collaborator that returns a value. *)
Definition call {A} (f : E → A * E) : M A :=
  fun s => let '(a, e) := f (collab s) in Ok (a, set_collab e s).

(** A call of a collaborator for its effect only. *)
Definition tell (f : E → E) : M unit :=
  modify (fun s => set_collab (f (collab s)) s).

Notation "'do' x <- m ; k" := (bind m (fun x => k))
  (at level 10, x name, m at level 100, k at level 200, only parsing).
Notation "'do' ' p <- m ; k" := (bind m (fun '(p) => k))
  (at level 10, p pattern, m at level 100, k at level 200, only parsing).
Notation "m ;;; k" := (bind m (fun _ => k))
  (at level 100, k at level 200, right associativity, only parsing).

(** [sample->Save(path)] *)
Definition Save (path : Path) (sample : Sample) : M unit :=
  modify (fun s => set_files (<[path := sample]> (files s)) s).

(** Modelled from the spec: [Sample::Load] (sample.h) is not part of the
    sources.  A fresh sample that is loaded from a path takes the bytes of
    the file; it stays empty when there is no such file. *)
Definition Load (path : Path) : M Sample :=
  get (fun s => default [] (files s !! path)).


(** ** The member functions *)

(** *** Output filters *)

(** [memcmp(a, b, n) == 0] on two buffers that hold at least [n] bytes. *)
Definition memcmp_eq (a b : list byte) (n : nat) : bool :=
  bool_decide (take n a = take n b).

(** The loop of [MagicOutputFilter]: [for (i = 0; i < magic_size; i++)],
    with [n] the iterations that remain, left through [break] once [i]
    reaches the size of the output. *)
Fixpoint MagicOutputFilter_loop (n i : nat) (magic : list byte)
    (output_sample : Sample) : Sample :=
  match n with
  | O => output_sample
  | S n' =>
      if decide (size output_sample ≤ i)%nat then output_sample
      else MagicOutputFilter_loop n' (S i) magic
             (<[i := default "000"%byte (magic !! i)]> output_sample)
  end.

(** The output sample is an out-parameter: the function returns its
    verdict and the value the output sample has afterwards. *)
Definition MagicOutputFilter (original_sample output_sample : Sample)
    (magic : list byte) (magic_size : nat) : bool * Sample :=
  if bool_decide (magic_size ≤ size original_sample)%nat
     && memcmp_eq original_sample magic magic_size
  then (false, output_sample)
  else (true, MagicOutputFilter_loop magic_size 0 magic original_sample).

(** [Fuzzer::OutputFilter]: use the original sample. *)
Definition OutputFilter (original_sample output_sample : Sample) :
    bool * Sample :=
  (false, output_sample).

(** *** Priorities *)

(** [found_new_coverage] is an [int] used as a condition; [priority--]
    subtracts 1 from a [double]. *)
Definition AdjustSamplePriority (entry : SampleQueueEntry)
    (found_new_coverage : Z) : SampleQueueEntry :=
  if decide (found_new_coverage ≠ 0)
  then SampleQueueEntry.set_priority 0 entry
  else SampleQueueEntry.set_priority
         (double_round (SampleQueueEntry.priority entry - 1)) entry.

(** *** Coverage bookkeeping *)

(** The two coverage arguments are rewritten in place; they are returned
    next to the verdict. *)
Definition InterestingSample (sample : Sample)
    (stableCoverage variableCoverage : Coverage) :
    M (Z * Coverage * Coverage) :=
  do fc <- get fuzzer_coverage;
  let new_stable_coverage := CoverageDifference fc stableCoverage in
  let new_variable_coverage := CoverageDifference fc variableCoverage in
  modify (fun s => set_fuzzer_coverage
            (MergeCoverage (fuzzer_coverage s) new_stable_coverage) s) ;;;
  modify (fun s => set_fuzzer_coverage
            (MergeCoverage (fuzzer_coverage s) new_variable_coverage) s) ;;;
  ret (if coverage_empty new_stable_coverage then 0 else 1,
       new_stable_coverage, new_variable_coverage).

(** *** One execution *)

(** Delivery of the sample to the target, with one retry on a clean
    target (the block is written out in both functions that run the
    target). *)
Definition deliver (sample : Sample) : M unit :=
  do ok <- call (DeliverSample ops sample);
  if ok then ret tt
  else
    tell (CleanTarget ops) ;;;
    do ok' <- call (DeliverSample ops sample);
    if ok' then ret tt else FATAL "Repeatedly failed to deliver sample".

(** The local [result] of [TryReproduceCrash] has no initial value; the
    value it holds when the loop body never runs is taken as given. *)
Variable TryReproduceCrash_uninitialized : RunResult.

Fixpoint TryReproduceCrash_loop (n : nat) (result : RunResult)
    (sample : Sample) (init_timeout timeout : Z) : M RunResult :=
  match n with
  | O => ret result
  | S n' =>
      modify (fun s => set_total_execs (u64 (total_execs s + 1)) s) ;;;
      deliver sample ;;;
      do result <- call (RunWithCrashAnalysis ops init_timeout timeout);
      tell (ClearCoverage ops) ;;;
      if decide (result = CRASH) then ret result
      else TryReproduceCrash_loop n' result sample init_timeout timeout
  end.

Definition TryReproduceCrash (sample : Sample) (init_timeout timeout : Z) :
    M RunResult :=
  TryReproduceCrash_loop CRASH_REPRODUCE_TIMES TryReproduceCrash_uninitialized
    sample init_timeout timeout.

(** The block of [RunSampleAndGetCoverage] between [crash_mutex.Lock()]
    and [crash_mutex.Unlock()], with the two locals it sets. *)
Definition record_crash (crash_desc : string) : M (bool * Z) :=
  modify (fun s => set_num_crashes (u64 (num_crashes s + 1)) s) ;;;
  do reg <- get unique_crashes;
  match reg !! crash_desc with
  | None =>
      modify (fun s => set_unique_crashes (<[crash_desc := 1]> (unique_crashes s)) s) ;;;
      modify (fun s => set_num_unique_crashes (u64 (num_unique_crashes s + 1)) s) ;;;
      ret (true, 1)
  | Some count =>
      if decide (count < MAX_IDENTICAL_CRASHES) then
        modify (fun s => set_unique_crashes
                  (<[crash_desc := count + 1]> (unique_crashes s)) s) ;;;
        ret (true, count + 1)
      else ret (false, 0)
  end.

Definition crash_filename (crash_desc : string) (duplicates : Z) : string :=
  crash_desc +:+ "_" +:+ to_string duplicates.

Definition hang_filename (num_hangs : Z) : string :=
  "hang_" +:+ to_string num_hangs.

(** The body of [if (result == CRASH)] in [RunSampleAndGetCoverage]. *)
Definition RunSampleAndGetCoverage_crash (sample : Sample)
    (init_timeout timeout : Z) : M unit :=
  do crash_desc <- get (fun s => GetCrashName ops (collab s));
  do reproduced <- TryReproduceCrash sample init_timeout timeout;
  do crash_desc <-
    (if decide (reproduced = CRASH)
     then get (fun s => GetCrashName ops (collab s))
     else ret ("flaky_" +:+ crash_desc));
  do '(should_save_crash, duplicates) <- record_crash crash_desc;
  if should_save_crash : bool then
    do o <- get opts;
    Save (DirJoin (crash_dir o) (crash_filename crash_desc duplicates))
         sample ;;;
    if server o then tell (ReportCrash ops sample crash_desc) else ret tt
  else ret tt.

(** The body of [if (result == HANG)] in [RunSampleAndGetCoverage]. *)
Definition RunSampleAndGetCoverage_hang (sample : Sample) : M unit :=
  do o <- get opts;
  (if save_hangs o then
     do n <- get num_hangs;
     Save (DirJoin (hangs_dir o) (hang_filename n)) sample
   else ret tt) ;;;
  modify (fun s => set_num_hangs (u64 (num_hangs s + 1)) s).

(** The coverage is an out-parameter that every caller passes empty; it is
    returned with the result.  The last step records the execution in the
    ghost history. *)
Definition RunSampleAndGetCoverage (sample : Sample)
    (init_timeout timeout : Z) : M (RunResult * Coverage) :=
  modify (fun s => set_total_execs (u64 (total_execs s + 1)) s) ;;;
  deliver sample ;;;
  do result <- call (Run ops init_timeout timeout);
  do coverage <- call (GetCoverage ops);
  (if decide (result = CRASH)
   then RunSampleAndGetCoverage_crash sample init_timeout timeout
   else ret tt) ;;;
  (if decide (result = HANG)
   then RunSampleAndGetCoverage_hang sample
   else ret tt) ;;;
  modify (fun s => set_history (history s ++ [(sample, result, coverage)]) s) ;;;
  ret (result, coverage).

(** *** Trimming *)

(** [size_t] is 64 bits wide; an [int] compared with or subtracted from a
    size is first converted to it. *)
Definition as_size_t (z : Z) : Z := z mod 2 ^ 64.

(** The inner loop [while (trim_step >= test_sample.size) trim_step /= 2],
    with a bound on its iterations. *)
Fixpoint TrimSample_halve (fuel : nat) (trim_step : Z) (test_size : nat) : Z :=
  match fuel with
  | O => trim_step
  | S fuel' =>
      if decide (as_size_t trim_step >= Z.of_nat test_size)
      then TrimSample_halve fuel' (trim_step ÷ 2) test_size
      else trim_step
  end.

Definition out_of_fuel {A} : M A := fun _ => OutOfFuel.

(** The loop [while (1)] of [TrimSample], with a bound on its iterations;
    [break] returns the size accepted last. *)
Fixpoint TrimSample_loop (fuel : nat) (sample : Sample)
    (stable_coverage : Coverage) (init_timeout timeout : Z)
    (trim_step : Z) (trimmed_size : nat) (test_sample : Sample) : M nat :=
  match fuel with
  | O => out_of_fuel
  | S fuel' =>
      if decide (size test_sample ≤ 1)%nat then ret trimmed_size else
      let trim_step :=
        TrimSample_halve (S (Z.to_nat (Z.abs trim_step))) trim_step
          (size test_sample) in
      if decide (trim_step = 0) then ret trimmed_size else
      let test_sample :=
        Trim (Z.to_nat (Z.of_nat (size test_sample) - as_size_t trim_step))
          test_sample in
      do '(result, test_coverage) <-
        RunSampleAndGetCoverage test_sample init_timeout timeout;
      if decide (result ≠ OK) then ret trimmed_size else
      if negb (CoverageContains test_coverage stable_coverage) then
        let trim_step := trim_step ÷ 2 in
        if decide (trim_step = 0) then ret trimmed_size else
        TrimSample_loop fuel' sample stable_coverage init_timeout timeout
          trim_step trimmed_size (Trim trimmed_size sample)
      else
        TrimSample_loop fuel' sample stable_coverage init_timeout timeout
          trim_step (size test_sample) test_sample
  end.

(** Iterations that the loop is given: every iteration that goes on either
    shortens the test sample or halves the step. *)
Definition TrimSample_fuel (sample : Sample) : nat :=
  (Z.to_nat (Z.abs TRIM_STEP_INITIAL) * S (size sample) + S (size sample))%nat.

(** The sample is trimmed in place; its new value is returned. *)
Definition TrimSample (sample : Sample) (stable_coverage : Coverage)
    (init_timeout timeout : Z) : M Sample :=
  if decide (size sample ≤ 1)%nat then ret sample else
  do trimmed_size <-
    TrimSample_loop (TrimSample_fuel sample) sample stable_coverage
      init_timeout timeout TRIM_STEP_INITIAL (size sample) sample;
  ret (if decide (trimmed_size < size sample)%nat
       then Trim trimmed_size sample else sample).

(** *** Stabilization and acceptance *)

(** Modelled from the spec: the comparator of [sample_queue] (fuzzer.h) is
    not part of the sources.  The spec gives a min-heap on [priority] with
    ties broken arbitrarily.  The queue is kept as a list; [queue_extract]
    yields the first entry of least priority and the rest. *)
Fixpoint queue_extract (q : list SampleQueueEntry) :
    option (SampleQueueEntry * list SampleQueueEntry) :=
  match q with
  | [] => None
  | e :: q' =>
      match queue_extract q' with
      | None => Some (e, [])
      | Some (m, rest) =>
          if decide (SampleQueueEntry.priority e ≤ SampleQueueEntry.priority m)
          then Some (e, q') else Some (m, e :: rest)
      end
  end.

Definition queue_push (e : SampleQueueEntry) (q : list SampleQueueEntry) :
    list SampleQueueEntry := e :: q.

(** The retry loop of [RunSample]: an early return carries the result to
    return, a completed loop the stable and the total coverage. *)
Fixpoint RunSample_retry (n : nat) (sample : Sample)
    (result : RunResult) (stableCoverage totalCoverage : Coverage)
    (init_timeout timeout : Z) :
    M (RunResult + RunResult * Coverage * Coverage) :=
  match n with
  | O => ret (inr (result, stableCoverage, totalCoverage))
  | S n' =>
      do '(result, retryCoverage) <-
        RunSampleAndGetCoverage sample init_timeout timeout;
      if decide (result ≠ OK) then ret (inl result) else
      let totalCoverage := MergeCoverage totalCoverage retryCoverage in
      let tmpCoverage := CoverageIntersection stableCoverage retryCoverage in
      RunSample_retry n' sample result tmpCoverage totalCoverage
        init_timeout timeout
  end.

(** The body of [if (InterestingSample(...))] in [RunSample]: the sample
    is trimmed, saved and queued.  It returns the sample, which trimming
    changes in place, and the pointee of [has_new_coverage]. *)
Definition RunSample_accept (sample : Sample) (has_new_coverage : option Z)
    (stableCoverage : Coverage) (trim report_to_server : bool)
    (init_timeout timeout : Z) : M (Sample * option Z) :=
  let has_new_coverage := (fun _ => 1) <$> has_new_coverage in
  do sample <-
    (if trim
     then TrimSample sample stableCoverage init_timeout timeout
     else ret sample);
  do o <- get opts;
  do n <- get num_samples;
  Save (DirJoin (sample_dir o) (sample_filename n)) sample ;;;
  modify (fun s => set_num_samples (u64 (num_samples s + 1)) s) ;;;
  (if server o && report_to_server
   then tell (ReportNewCoverage ops stableCoverage (Some sample))
   else ret tt) ;;;
  do context <- call (CreateSampleContext ops sample);
  do n <- get num_samples;
  let new_entry :=
    SampleQueueEntry.set_sample_index (u64 (n - 1))
      (SampleQueueEntry.set_priority 0
         (SampleQueueEntry.set_context_initialized true
            (SampleQueueEntry.set_context (Some context)
               (SampleQueueEntry.set_sample sample
                  SampleQueueEntry.new)))) in
  modify (fun s => set_all_samples (all_samples s ++ [sample]) s) ;;;
  modify (fun s => set_sample_queue
            (queue_push new_entry (sample_queue s)) s) ;;;
  ret (sample, has_new_coverage).

(** [has_new_coverage] is a pointer that may be null: [None] stands for the
    null pointer, [Some v] for a pointer to an [int] that holds [v].  The
    function returns its result, the caller's sample and the pointee as
    they are when it returns. *)
Definition RunSample (sample : Sample) (has_new_coverage : option Z)
    (trim report_to_server : bool) (init_timeout timeout : Z) :
    M (RunResult * Sample * option Z) :=
  let '(filtered, filteredSample) := OutputFilter sample [] in
  let original := sample in
  let sample := if filtered then filteredSample else sample in
  let caller's (x : Sample) := if filtered then original else x in
  let has_new_coverage := (fun _ => 0) <$> has_new_coverage in
  do '(result, initialCoverage) <-
    RunSampleAndGetCoverage sample init_timeout timeout;
  if decide (result ≠ OK) then ret (result, caller's sample, has_new_coverage) else
  if coverage_empty initialCoverage
  then ret (result, caller's sample, has_new_coverage) else
  tell (CleanTarget ops) ;;;
  do retried <-
    RunSample_retry SAMPLE_RETRY_TIMES sample result initialCoverage
      initialCoverage init_timeout timeout;
  match retried with
  | inl result => ret (result, caller's sample, has_new_coverage)
  | inr (result, stableCoverage, totalCoverage) =>
      let variableCoverage := CoverageDifference stableCoverage totalCoverage in
      do '(interesting, stableCoverage, variableCoverage) <-
        InterestingSample sample stableCoverage variableCoverage;
      do '(sample, has_new_coverage) <-
        (if decide (interesting ≠ 0)
         then RunSample_accept sample has_new_coverage stableCoverage trim
                report_to_server init_timeout timeout
         else ret (sample, has_new_coverage));
      do o <- get opts;
      (if negb (coverage_empty variableCoverage) && server o && report_to_server
       then tell (ReportNewCoverage ops variableCoverage None)
       else ret tt) ;;;
      tell (IgnoreCoverage ops totalCoverage) ;;;
      ret (result, caller's sample, has_new_coverage)
  end.

(** *** Scheduling *)

(** [server->GetUpdates(&server_samples, total_execs)] *)
Definition pull_updates : M unit :=
  do pending <- get server_samples;
  do execs <- get total_execs;
  do pending <- call (GetUpdates ops pending execs);
  modify (set_server_samples pending).

(** [SynchronizeAndGetJob] is a sequence of five blocks, all under
    [queue_mutex]; each is given here under its own name.  The first
    extends the worker's local view of the corpus. *)
Definition SynchronizeAndGetJob_sync : M unit :=
  modify (fun s =>
    let old_size := length (all_samples_local s) in
    if decide (old_size < length (all_samples s))%nat
    then set_all_samples_local
           (all_samples_local s ++ drop old_size (all_samples s)) s
    else s).

(** While fuzzing with a server, an update that is due. *)
Definition SynchronizeAndGetJob_update : M unit :=
  do o <- get opts;
  do st <- get state;
  if bool_decide (st = FUZZING) && server o then
    do now <- call (GetCurTime ops);
    do last <- get last_server_update_time_ms;
    if decide (now > last + server_update_interval_ms o) then
      do now <- call (GetCurTime ops);
      modify (set_last_server_update_time_ms now) ;;;
      pull_updates ;;;
      modify (set_state SERVER_SAMPLE_PROCESSING)
    else ret tt
  else ret tt.

(** The end of the processing of the input samples. *)
Definition SynchronizeAndGetJob_input : M unit :=
  do o <- get opts;
  do st <- get state;
  if decide (st = INPUT_SAMPLE_PROCESSING) then
    do inputs <- get input_files;
    do pending <- get samples_pending;
    if bool_decide (inputs = []) && bool_decide (pending = 0) then
      do queue <- get sample_queue;
      (if decide (queue = []) then FATAL "No interesting input files"
       else ret tt) ;;;
      if server o then
        do coverage <- get fuzzer_coverage;
        tell (ReportNewCoverage ops coverage None) ;;;
        do now <- call (GetCurTime ops);
        modify (set_last_server_update_time_ms now) ;;;
        pull_updates ;;;
        modify (set_state SERVER_SAMPLE_PROCESSING)
      else modify (set_state FUZZING)
    else ret tt
  else ret tt.

(** The end of the processing of the server samples. *)
Definition SynchronizeAndGetJob_server : M unit :=
  do st <- get state;
  if decide (st = SERVER_SAMPLE_PROCESSING) then
    do remote <- get server_samples;
    do pending <- get samples_pending;
    if bool_decide (remote = []) && bool_decide (pending = 0)
    then modify (set_state FUZZING)
    else ret tt
  else ret tt.

(** The job that the state calls for.  The job is an out-parameter whose
    fields the caller has not set; it is returned with the fields that the
    block assigns. *)
Definition SynchronizeAndGetJob_dispense (job : FuzzerJob) : M FuzzerJob :=
  do st <- get state;
  match st with
  | FUZZING =>
      do queue <- get sample_queue;
      match queue_extract queue with
      | None => ret (FuzzerJob.set_type WAIT job)
      | Some (top, rest) =>
          modify (set_sample_queue rest) ;;;
          modify (fun s =>
            if decide (SampleQueueEntry.priority top < min_priority s)
            then set_min_priority (SampleQueueEntry.priority top) s
            else s) ;;;
          ret (FuzzerJob.set_entry (Some top) (FuzzerJob.set_type FUZZ job))
      end
  | INPUT_SAMPLE_PROCESSING =>
      do inputs <- get input_files;
      match inputs with
      | [] => ret (FuzzerJob.set_type WAIT job)
      | filename :: rest =>
          modify (set_input_files rest) ;;;
          do sample <- Load filename;
          let sample :=
            if decide (MAX_SAMPLE_SIZE < size sample)%nat
            then Trim MAX_SAMPLE_SIZE sample else sample in
          modify (fun s => set_samples_pending (samples_pending s + 1) s) ;;;
          ret (FuzzerJob.set_sample (Some sample)
                 (FuzzerJob.set_type PROCESS_SAMPLE job))
      end
  | SERVER_SAMPLE_PROCESSING =>
      do remote <- get server_samples;
      match remote with
      | [] => ret (FuzzerJob.set_type WAIT job)
      | sample :: rest =>
          modify (set_server_samples rest) ;;;
          modify (fun s => set_samples_pending (samples_pending s + 1) s) ;;;
          ret (FuzzerJob.set_sample (Some sample)
                 (FuzzerJob.set_type PROCESS_SAMPLE job))
      end
  end.

Definition SynchronizeAndGetJob (job : FuzzerJob) : M FuzzerJob :=
  SynchronizeAndGetJob_sync ;;;
  SynchronizeAndGetJob_update ;;;
  SynchronizeAndGetJob_input ;;;
  SynchronizeAndGetJob_server ;;;
  SynchronizeAndGetJob_dispense job.

Definition JobDone (job : FuzzerJob) : M unit :=
  match FuzzerJob.type job with
  | FUZZ =>
      if FuzzerJob.discard_sample job then
        modify (fun s =>
          set_num_samples_discarded (u64 (num_samples_discarded s + 1)) s)
      else
        match FuzzerJob.entry job with
        | Some entry =>
            modify (fun s => set_sample_queue
                      (queue_push entry (sample_queue s)) s)
        | None => ret tt
        end
  | PROCESS_SAMPLE =>
      modify (fun s => set_samples_pending (samples_pending s - 1) s)
  | WAIT => ret tt
  end.

(** *** Persistence *)

Definition byte_of_Z (z : Z) : byte :=
  default "000"%byte (Byte.of_N (Z.to_N (z mod 256))).

Definition Z_of_byte (b : byte) : Z := Z.of_N (Byte.to_N b).

(** Little-endian object representation of an unsigned integer of [n]
    bytes. *)
Fixpoint encode_le (n : nat) (z : Z) : list byte :=
  match n with
  | O => []
  | S n' => byte_of_Z z :: encode_le n' (z / 256)
  end.

Fixpoint decode_le (l : list byte) : Z :=
  match l with
  | [] => 0
  | b :: l' => Z_of_byte b + 256 * decode_le l'
  end.

(** Modelled from the spec: the binary form of a coverage
    ([WriteCoverageBinary], [ReadCoverageBinary], coverage.h) is not part of
    the sources; the spec leaves the format opaque.  So is the object
    representation of [min_priority], a [double] of 8 bytes.  Both are taken
    as given; reading a coverage yields the coverage and the rest of the
    stream. *)
Variable WriteCoverageBinary : Coverage → list byte.
Variable ReadCoverageBinary : list byte → Coverage * list byte.
Variable double_bytes : Z → list byte.
Variable double_of_bytes : list byte → Z.

(** [fopen(path, "wb")] creates the file or cuts it to length zero.  The
    file store never refuses a file, so the abort that follows a failed
    [fopen] in the source has no counterpart here. *)
Definition fopen_wb (path : Path) : M unit :=
  modify (fun s => set_files (<[path := []]> (files s)) s).

(** [fwrite] at the end of a file opened for writing. *)
Definition fwrite (path : Path) (data : list byte) : M unit :=
  modify (fun s =>
    set_files (<[path := default [] (files s !! path) ++ data]> (files s)) s).

(** [fread(&x, 8, 1, fp)]: the object and the rest of the stream.  When
    fewer than 8 bytes are left nothing is stored in [x]. *)
Definition fread8 {A} (decode : list byte → A) (old : A)
    (stream : list byte) : A * list byte :=
  if decide (8 ≤ length stream)%nat
  then (decode (take 8 stream), drop 8 stream)
  else (old, []).

Definition state_file (o : Options) : Path := DirJoin (out_dir o) "state.dat".

Definition SaveState : M unit :=
  do st <- get state;
  (* don't save during input sample processing *)
  if decide (st = INPUT_SAMPLE_PROCESSING) then ret tt else
  do o <- get opts;
  let out_file := state_file o in
  fopen_wb out_file ;;;
  do n <- get num_samples;
  fwrite out_file (encode_le 8 n) ;;;
  do n <- get total_execs;
  fwrite out_file (encode_le 8 n) ;;;
  do p <- get min_priority;
  fwrite out_file (double_bytes p) ;;;
  do coverage <- get fuzzer_coverage;
  fwrite out_file (WriteCoverageBinary coverage).

(** The loop of [RestoreState]: [for (i = ...; i < num_samples; i++)], with
    [n] the iterations that remain. *)
Fixpoint RestoreState_loop (n : nat) (i : Z) : M unit :=
  match n with
  | O => ret tt
  | S n' =>
      do o <- get opts;
      do sample <- Load (DirJoin (sample_dir o) (sample_filename i));
      do p <- get min_priority;
      let new_entry :=
        SampleQueueEntry.set_sample_index i
          (SampleQueueEntry.set_priority p
             (SampleQueueEntry.set_context_initialized false
                (SampleQueueEntry.set_context None
                   (SampleQueueEntry.set_sample sample
                      SampleQueueEntry.new)))) in
      modify (fun s => set_all_samples (all_samples s ++ [sample]) s) ;;;
      modify (fun s => set_sample_queue
                (queue_push new_entry (sample_queue s)) s) ;;;
      RestoreState_loop n' (i + 1)
  end.

Definition RestoreState : M unit :=
  do o <- get opts;
  do content <- get (fun s => files s !! state_file o);
  match content with
  | None =>
      FATAL "Error restoring state. Did the previous session run long enough for state to be saved?"
  | Some stream =>
      do old <- get num_samples;
      let '(n, stream) := fread8 decode_le old stream in
      modify (set_num_samples n) ;;;
      do old <- get total_execs;
      let '(n, stream) := fread8 decode_le old stream in
      modify (set_total_execs n) ;;;
      do old <- get min_priority;
      let '(p, stream) := fread8 double_of_bytes old stream in
      modify (set_min_priority p) ;;;
      let '(coverage, _) := ReadCoverageBinary stream in
      modify (set_fuzzer_coverage coverage) ;;;
      do n <- get num_samples;
      RestoreState_loop (Z.to_nat n) 0
  end.



(** ** Reasoning about computations *)

(** Partial correctness of a computation: from a state that satisfies [P],
    a normal return yields a value and a state that satisfy [Q]. *)
Definition hoare {A} (P : machine → Prop) (m : M A)
    (Q : A → machine → Prop) : Prop :=
  ∀ s, P s → match m s with Ok (a, s') => Q a s' | _ => True end.

(** A computation preserves a relation to an earlier state. *)
Definition preserves {A} (R : machine → machine → Prop) (m : M A) : Prop :=
  ∀ s0, hoare (R s0) m (fun _ => R s0).

(** The value of an observation is the one of the earlier state. *)
Definition keeps {B} (f : machine → B) (s0 s : machine) : Prop := f s = f s0.

(** Only the collaborators have moved. *)
Definition only_collab (s0 s : machine) : Prop := s = set_collab (collab s) s0.

(** Observations that the handling of a crash or of a hang does not
    change: they do not depend on the execution counter, the
    collaborators, the crash registry and its counters, the hang counter
    and the files. *)
Definition block_independent {B} (f : machine → B) : Prop :=
  (∀ v s, f (set_total_execs v s) = f s)
  ∧ (∀ v s, f (set_collab v s) = f s)
  ∧ (∀ v s, f (set_unique_crashes v s) = f s)
  ∧ (∀ v s, f (set_num_crashes v s) = f s)
  ∧ (∀ v s, f (set_num_unique_crashes v s) = f s)
  ∧ (∀ v s, f (set_num_hangs v s) = f s)
  ∧ (∀ v s, f (set_files v s) = f s).

(** Observations that no execution of the target changes: they do not
    depend on the history either. *)
Definition execution_independent {B} (f : machine → B) : Prop :=
  block_independent f ∧ (∀ v s, f (set_history v s) = f s).

(** Observations that [RunSample] does not change: they moreover do not
    depend on the known coverage, the corpus and the sample counter. *)
Definition run_independent {B} (f : machine → B) : Prop :=
  execution_independent f
  ∧ (∀ v s, f (set_fuzzer_coverage v s) = f s)
  ∧ (∀ v s, f (set_num_samples v s) = f s)
  ∧ (∀ v s, f (set_all_samples v s) = f s)
  ∧ (∀ v s, f (set_sample_queue v s) = f s).

(** ** The crash cap *)

(** Every count of the registry is between 1 and the maximum. *)
Definition crash_registry_ok (s : machine) : Prop :=
  ∀ crash_desc count,
    unique_crashes s !! crash_desc = Some count →
    1 ≤ count ≤ MAX_IDENTICAL_CRASHES.

(** Every file of the crash directory is a copy of a registered crash, and
    its number is at most the count of that crash. *)
Definition crash_files_ok (s : machine) : Prop :=
  ∀ name,
    is_Some (files s !! DirJoin (crash_dir (opts s)) name) →
    ∃ crash_desc n count,
      name = crash_filename crash_desc n
      ∧ unique_crashes s !! crash_desc = Some count
      ∧ 1 ≤ n ≤ count.

Definition crash_cap (s : machine) : Prop :=
  crash_registry_ok s ∧ crash_files_ok s.

(** The character occurs in the string. *)
Fixpoint occurs (c : ascii) (s : string) : bool :=
  match s with
  | EmptyString => false
  | String c' s' => bool_decide (c = c') || occurs c s'
  end.

(** ** Trimming, as the specification words it *)

(** [while trim_step >= size: halve trim_step] *)
Inductive halved : Z → Z → Z → Prop :=
  | halved_done step n : step < n → halved step n step
  | halved_more step n r : step >= n → halved (step / 2) n r → halved step n r.

(** [trim_runs sample stable step k runs k']: from the accepted size [k]
    and the step [step], the search runs the candidates [runs] in this
    order and ends with the accepted size [k'].  A candidate is the sample
    cut to the accepted size less the fitted step; a run that is not OK
    ends the search; a run whose coverage contains [stable] makes its size
    the accepted one; any other run halves the step and goes back to the
    accepted size, or ends the search when the step reaches 0. *)
Inductive trim_runs (sample : Sample) (stable : Coverage) :
    Z → nat → list Execution → nat → Prop :=
  | trim_small step k :
      (k ≤ 1)%nat → trim_runs sample stable step k [] k
  | trim_no_step step k :
      (1 < k)%nat → halved step (Z.of_nat k) 0 →
      trim_runs sample stable step k [] k
  | trim_not_OK step k step' result coverage :
      (1 < k)%nat → halved step (Z.of_nat k) step' → step' ≠ 0 →
      result ≠ OK →
      trim_runs sample stable step k
        [(take (k - Z.to_nat step') sample, result, coverage)] k
  | trim_reject_last step k step' coverage :
      (1 < k)%nat → halved step (Z.of_nat k) step' → step' ≠ 0 →
      ¬ stable ⊆ coverage → step' / 2 = 0 →
      trim_runs sample stable step k
        [(take (k - Z.to_nat step') sample, OK, coverage)] k
  | trim_reject step k step' coverage runs k' :
      (1 < k)%nat → halved step (Z.of_nat k) step' → step' ≠ 0 →
      ¬ stable ⊆ coverage → step' / 2 ≠ 0 →
      trim_runs sample stable (step' / 2) k runs k' →
      trim_runs sample stable step k
        ((take (k - Z.to_nat step') sample, OK, coverage) :: runs) k'
  | trim_accept step k step' coverage runs k' :
      (1 < k)%nat → halved step (Z.of_nat k) step' → step' ≠ 0 →
      stable ⊆ coverage →
      trim_runs sample stable step' (k - Z.to_nat step') runs k' →
      trim_runs sample stable step k
        ((take (k - Z.to_nat step') sample, OK, coverage) :: runs) k'.

(** A computation never exhausts the iteration bound of the model. *)
Definition within_fuel {A} (m : M A) : Prop := ∀ s, m s ≠ OutOfFuel.

(** ** Stabilization *)

(** The history has grown from the one of the earlier state. *)
Definition grows (s0 s : machine) : Prop := history s0 `prefix_of` history s.

(** Executions of one sample that all returned OK, with their coverages. *)
Definition OK_runs (sample : Sample) (coverages : list Coverage) :
    list Execution :=
  map (fun c => (sample, OK, c)) coverages.

(** The edge is covered by every run, by some run. *)
Definition in_every (coverages : list Coverage) (e : Edge) : Prop :=
  ∀ c, c ∈ coverages → e ∈ c.

Definition in_some (coverages : list Coverage) (e : Edge) : Prop :=
  ∃ c, c ∈ coverages ∧ e ∈ c.

(** Steps 9 and 10 of the stabilization in the spec, which end
    [RunSample]: the variable coverage is reported to the server with no
    sample when it is not empty, there is a server and reporting is asked
    for, and the instrumentation is told to ignore the total coverage. *)
Definition reported (variable total : Coverage) (report_to_server : bool)
    (s : machine) : machine :=
  set_collab
    (IgnoreCoverage ops total
       (if negb (coverage_empty variable) && server (opts s)
           && report_to_server
        then ReportNewCoverage ops variable None (collab s)
        else collab s)) s.

(** The known coverage and the corpus. *)
Definition corpus (s : machine) :
    Coverage * list SampleQueueEntry * list Sample * Z :=
  (fuzzer_coverage s, sample_queue s, all_samples s, num_samples s).

(** ** The end of the input phase *)

(** The state when the input phase ends with a server configured: the
    known coverage has been reported to the server with no sample, the
    time of the update has been taken, a batch of samples has been pulled
    into [server_samples], and the phase is the processing of server
    samples. *)
Definition input_phase_ended_with_server (s : machine) : machine :=
  let reported := ReportNewCoverage ops (fuzzer_coverage s) None (collab s) in
  let now := (GetCurTime ops reported).1 in
  let asked := (GetCurTime ops reported).2 in
  let pulled := (GetUpdates ops (server_samples s) (total_execs s) asked).1 in
  let answered := (GetUpdates ops (server_samples s) (total_execs s) asked).2 in
  set_state SERVER_SAMPLE_PROCESSING
    (set_server_samples pulled
       (set_last_server_update_time_ms now (set_collab answered s))).

(** ** Entries outside the queue *)

(** The shared state together with the entries that workers hold, each
    with the priority it had when it was popped. *)
Abbreviation System := (machine * list (SampleQueueEntry * Z))%type.




(** ** Persistence *)

(** The bytes of a snapshot: the two counters, [min_priority], and the
    known coverage in its binary form. *)
Definition snapshot (s : machine) : list byte :=
  encode_le 8 (num_samples s) ++ encode_le 8 (total_execs s)
  ++ double_bytes (min_priority s) ++ WriteCoverageBinary (fuzzer_coverage s).

(** The sample stored under an index in the sample directory. *)
Definition stored_sample (o : Options) (stored : gmap Path Sample) (i : Z) :
    Sample :=
  default [] (stored !! DirJoin (sample_dir o) (sample_filename i)).

(** The entry that a restore builds for an index: the stored sample, no
    mutator context, the given priority, and counters at zero. *)
Definition restored_entry (o : Options) (stored : gmap Path Sample)
    (priority : Z) (i : Z) : SampleQueueEntry :=
  SampleQueueEntry.mk (stored_sample o stored i) None false priority i 0 0 0 0.

(** The crash cap holds now if it held in the earlier state. *)
Definition still_capped (s0 s : machine) : Prop := crash_cap s0 → crash_cap s.

(** One call, by any worker or by the main loop, of a function of the
    engine that returns. *)
Inductive engine_call : machine → machine → Prop :=
  | call_RunSampleAndGetCoverage sample init_timeout timeout s x s' :
      RunSampleAndGetCoverage sample init_timeout timeout s = Ok (x, s') →
      engine_call s s'
  | call_RunSample sample has_new_coverage trim report_to_server init_timeout
      timeout s x s' :
      RunSample sample has_new_coverage trim report_to_server init_timeout
        timeout s = Ok (x, s') →
      engine_call s s'
  | call_SynchronizeAndGetJob job s job' s' :
      SynchronizeAndGetJob job s = Ok (job', s') → engine_call s s'
  | call_JobDone job s s' :
      JobDone job s = Ok (tt, s') → engine_call s s'
  | call_SaveState s s' :
      SaveState s = Ok (tt, s') → engine_call s s'.

(** ** Normal return *)

(** A computation never aborts the process. *)
Definition never_fatal {A} (m : M A) : Prop := ∀ s msg, m s ≠ Fatal msg.

(** The delivery of a sample to the target always succeeds. *)
Definition reliable_delivery : Prop :=
  ∀ sample e, (DeliverSample ops sample e).1 = true.

(** ** Invariants of the engine *)

(** The known coverage has not lost an edge. *)
Definition covers (s0 s : machine) : Prop :=
  fuzzer_coverage s0 ⊆ fuzzer_coverage s.

(** Observations that job acquisition does not change: they do not depend
    on the worker's view of the corpus, the collaborators, the time of the
    last update, the samples of the server, the phase, the queue,
    [min_priority], the input files and the number of pending samples. *)
Definition acquisition_independent {B} (f : machine → B) : Prop :=
  (∀ v s, f (set_all_samples_local v s) = f s)
  ∧ (∀ v s, f (set_collab v s) = f s)
  ∧ (∀ v s, f (set_last_server_update_time_ms v s) = f s)
  ∧ (∀ v s, f (set_server_samples v s) = f s)
  ∧ (∀ v s, f (set_state v s) = f s)
  ∧ (∀ v s, f (set_sample_queue v s) = f s)
  ∧ (∀ v s, f (set_min_priority v s) = f s)
  ∧ (∀ v s, f (set_input_files v s) = f s)
  ∧ (∀ v s, f (set_samples_pending v s) = f s).

(** Observations that the first four blocks of job acquisition do not
    change: they do not depend on the worker's view of the corpus, the
    collaborators, the time of the last update, the samples of the server
    and the phase. *)
Definition phase_independent {B} (f : machine → B) : Prop :=
  (∀ v s, f (set_all_samples_local v s) = f s)
  ∧ (∀ v s, f (set_collab v s) = f s)
  ∧ (∀ v s, f (set_last_server_update_time_ms v s) = f s)
  ∧ (∀ v s, f (set_server_samples v s) = f s)
  ∧ (∀ v s, f (set_state v s) = f s).

(** The phase has not gone back: the processing of the input samples is
    not entered again, and without a server the processing of server
    samples is not entered at all. *)
Definition phase_advances (s0 s : machine) : Prop :=
  (state s0 ≠ INPUT_SAMPLE_PROCESSING → state s ≠ INPUT_SAMPLE_PROCESSING)
  ∧ (server (opts s0) = false → state s0 ≠ SERVER_SAMPLE_PROCESSING →
     state s ≠ SERVER_SAMPLE_PROCESSING).

(** ** The stored corpus *)

(** The number that a string of decimal digits denotes, on top of the
    digits [acc] read so far. *)
Fixpoint digits_value (acc : N) (s : string) : N :=
  match s with
  | EmptyString => acc
  | String c s' => digits_value (acc * 10 + (N_of_ascii c - 48)) s'
  end.

(** The file of the sample directory for an index. *)
Definition sample_file (o : Options) (i : Z) : Path :=
  DirJoin (sample_dir o) (sample_filename i).

(** The corpus is stored: as long as the number of samples fits the
    64-bit counter, [num_samples] is the length of [all_samples], and
    every sample of [all_samples] is in the sample directory in the file
    of its index. *)
Definition corpus_stored (s : machine) : Prop :=
  Z.of_nat (length (all_samples s)) < 2 ^ 64 →
  num_samples s = Z.of_nat (length (all_samples s))
  ∧ ∀ i sample,
      all_samples s !! i = Some sample →
      files s !! sample_file (opts s) (Z.of_nat i) = Some sample.

(** A path that is neither in the crash directory nor in the hangs
    directory. *)
Definition outside_crashes_and_hangs (o : Options) (path : Path) : Prop :=
  (∀ name, path ≠ DirJoin (crash_dir o) name)
  ∧ (∀ name, path ≠ DirJoin (hangs_dir o) name).

(** The options are those of the earlier state and so are the files
    outside of the crash and the hangs directory. *)
Definition quiet_outside (s0 s : machine) : Prop :=
  opts s = opts s0
  ∧ ∀ path, outside_crashes_and_hangs (opts s0) path →
            files s !! path = files s0 !! path.

(** Executions have been made since the earlier state, and nothing else
    that bears on the corpus: the options, the corpus and its counter are
    the same, and so are the files outside of the crash and the hangs
    directory. *)
Definition only_executions (s0 s : machine) : Prop :=
  quiet_outside s0 s
  ∧ all_samples s = all_samples s0
  ∧ num_samples s = num_samples s0
  ∧ sample_queue s = sample_queue s0.

(** The entry that [RunSample] queues for a sample that it accepts. *)
Definition accepted_entry (sample : Sample) (context : Context)
    (index : Z) : SampleQueueEntry :=
  SampleQueueEntry.mk sample (Some context) true 0 index 0 0 0 0.

(** ** The jobs of a worker *)

Variable mutator : Mutator E Context.

(** The declarations of the statistics of an entry and of the two
    acceptable ratios (fuzzer.h) are not part of the sources, and so the
    arithmetic of [num_hangs > num_runs * acceptable_hang_ratio] and of
    [num_crashes > num_runs * acceptable_crash_ratio] is not known.  The
    two comparisons are taken as given, as functions of the counts that
    they compare. *)
Variable exceeds_hang_ratio : Z → Z → bool.
Variable exceeds_crash_ratio : Z → Z → bool.

(** The statistics that [FuzzJob] updates after a run, with the two tests
    that end the job: the entry, and whether it is to be discarded. *)
Definition FuzzJob_account (entry : SampleQueueEntry) (result : RunResult)
    (has_new_coverage : Z) : SampleQueueEntry * option bool :=
  let entry :=
    set_num_runs (SampleQueueEntry.num_runs entry + 1) entry in
  let entry :=
    if decide (has_new_coverage ≠ 0)
    then set_num_newcoverage (SampleQueueEntry.num_newcoverage entry + 1) entry
    else entry in
  let entry :=
    if decide (result = HANG)
    then set_entry_num_hangs (SampleQueueEntry.num_hangs entry + 1) entry
    else entry in
  let entry :=
    if decide (result = CRASH)
    then set_entry_num_crashes (SampleQueueEntry.num_crashes entry + 1) entry
    else entry in
  if bool_decide (SampleQueueEntry.num_hangs entry > 10)
     && exceeds_hang_ratio (SampleQueueEntry.num_hangs entry)
          (SampleQueueEntry.num_runs entry)
  then (entry, Some true)
  else if bool_decide (SampleQueueEntry.num_crashes entry > 100)
          && exceeds_crash_ratio (SampleQueueEntry.num_crashes entry)
               (SampleQueueEntry.num_runs entry)
  then (entry, Some true)
  else (entry, None).

(** The loop [while (1)] of [FuzzJob], with a bound on its iterations.
    [init_timeout] and [timeout] are the members of the fuzzer that
    [ParseOptions] sets.  The local [has_new_coverage] has no initial
    value; [RunSample] sets it before it reads it.  The loop returns the
    entry, which it updates in place, and [discard_sample]. *)
Fixpoint FuzzJob_loop (fuel : nat) (init_timeout timeout : Z)
    (entry : SampleQueueEntry) : M (SampleQueueEntry * bool) :=
  match fuel with
  | O => out_of_fuel
  | S fuel' =>
      let mutated_sample := SampleQueueEntry.sample entry in
      do view <- get all_samples_local;
      do '(mutated, mutated_sample) <-
        call (Mutate mutator mutated_sample view);
      if negb mutated then ret (entry, false) else
      let mutated_sample :=
        if decide (MAX_SAMPLE_SIZE < size mutated_sample)%nat
        then Trim MAX_SAMPLE_SIZE mutated_sample else mutated_sample in
      do '(result, run_sample, has_new_coverage) <-
        RunSample mutated_sample (Some 0) true true init_timeout timeout;
      let has_new_coverage := default 0 has_new_coverage in
      let entry := AdjustSamplePriority entry has_new_coverage in
      tell (NotifyResult mutator result has_new_coverage) ;;;
      match FuzzJob_account entry result has_new_coverage with
      | (entry, Some discard_sample) => ret (entry, discard_sample)
      | (entry, None) => FuzzJob_loop fuel' init_timeout timeout entry
      end
  end.

(** [FuzzJob] works on the entry that the job points to.  A [FUZZ] job
    always carries one; no value is given to the call on a job without an
    entry, where the source dereferences a null pointer. *)
Definition FuzzJob (fuel : nat) (init_timeout timeout : Z)
    (job : FuzzerJob) : M FuzzerJob :=
  match FuzzerJob.entry job with
  | None => out_of_fuel
  | Some entry =>
      do entry <-
        (if SampleQueueEntry.context_initialized entry then ret entry
         else
           do context <-
             call (CreateSampleContext ops (SampleQueueEntry.sample entry));
           ret (SampleQueueEntry.set_context_initialized true
                  (SampleQueueEntry.set_context (Some context) entry)));
      tell (InitRound mutator (SampleQueueEntry.sample entry)
              (SampleQueueEntry.context entry)) ;;;
      let job := set_discard_sample false job in
      do '(entry, discard_sample) <-
        FuzzJob_loop fuel init_timeout timeout entry;
      ret (set_discard_sample discard_sample
             (FuzzerJob.set_entry (Some entry) job))
  end.

(** One turn of the loop of [RunFuzzerThread]: a job is acquired, carried
    out and given back.  The local [job] starts with fields that no one
    has set.  [corpus_timeout] is a member of the fuzzer as the other two
    timeouts are. *)
Definition RunFuzzerThread_iteration (fuel : nat)
    (init_timeout timeout corpus_timeout : Z) (job : FuzzerJob) : M unit :=
  do job <- SynchronizeAndGetJob job;
  do job <-
    match FuzzerJob.type job with
    | WAIT => ret job
    | PROCESS_SAMPLE =>
        match FuzzerJob.sample job with
        | Some sample =>
            RunSample sample None false false init_timeout corpus_timeout ;;;
            ret job
        | None => out_of_fuel
        end
    | FUZZ => FuzzJob fuel init_timeout timeout job
    end;
  JobDone job.

(** ** Executions that are counted *)

(** One attempt to reproduce a crash, as [TryReproduceCrash] makes it: the
    execution is counted, the sample is delivered, the target runs under
    crash analysis, which gives the result, and the coverage is
    cleared. *)
Definition attempt (sample : Sample) (init_timeout timeout : Z)
    (s : machine) (result : RunResult) (s' : machine) : Prop :=
  ∃ s1,
    deliver sample (set_total_execs (u64 (total_execs s + 1)) s) = Ok (tt, s1)
    ∧ result = (RunWithCrashAnalysis ops init_timeout timeout (collab s1)).1
    ∧ s' = set_collab
             (ClearCoverage ops
                (RunWithCrashAnalysis ops init_timeout timeout (collab s1)).2)
             s1.

(** Attempts that follow one another, with their results in order. *)
Inductive attempts (sample : Sample) (init_timeout timeout : Z) :
    machine → list RunResult → machine → Prop :=
  | attempts_nil s : attempts sample init_timeout timeout s [] s
  | attempts_cons s result s1 results s' :
      attempt sample init_timeout timeout s result s1 →
      attempts sample init_timeout timeout s1 results s' →
      attempts sample init_timeout timeout s (result :: results) s'.

(** [total_execs] has been advanced [n] times since the earlier state:
    [n] executions of the target have been counted. *)
Definition counted (n : nat) (s0 s : machine) : Prop :=
  total_execs s = Nat.iter n (fun x => u64 (x + 1)) (total_execs s0).

(** ** What a worker does to the engine *)

(** One step of a worker or of the main loop: a call of a function of the
    engine, or a call of a collaborator. *)
Inductive engine_step : machine → machine → Prop :=
  | step_engine_call s s' : engine_call s s' → engine_step s s'
  | step_collaborator e s : engine_step s (set_collab e s).

(** The executions since the earlier state were all of samples of at most
    [n] bytes. *)
Definition bounded_runs (n : nat) (s0 s : machine) : Prop :=
  ∃ runs, history s = history s0 ++ runs
          ∧ Forall (fun x : Execution => (size x.1.1 ≤ n)%nat) runs.

(** What fuzzing does to an entry: the sample, its index and the mutator
    context stay, and the statistics do not go down. *)
Definition entry_fuzzed (entry entry' : SampleQueueEntry) : Prop :=
  SampleQueueEntry.sample entry' = SampleQueueEntry.sample entry
  ∧ SampleQueueEntry.sample_index entry' = SampleQueueEntry.sample_index entry
  ∧ SampleQueueEntry.context entry' = SampleQueueEntry.context entry
  ∧ SampleQueueEntry.context_initialized entry'
    = SampleQueueEntry.context_initialized entry
  ∧ SampleQueueEntry.num_runs entry ≤ SampleQueueEntry.num_runs entry'
  ∧ SampleQueueEntry.num_newcoverage entry
    ≤ SampleQueueEntry.num_newcoverage entry'
  ∧ SampleQueueEntry.num_hangs entry ≤ SampleQueueEntry.num_hangs entry'
  ∧ SampleQueueEntry.num_crashes entry ≤ SampleQueueEntry.num_crashes entry'.

(** What identifies an entry of the corpus: its sample and its index. *)
Definition entry_id (entry : SampleQueueEntry) : Sample * Z :=
  (SampleQueueEntry.sample entry, SampleQueueEntry.sample_index entry).

(** ** The delivery of a worker *)

(** [DirJoin] yields a string in the source, which is what the target is
    given on its command line; a path is kept as the list of its
    components here, and the string that stands for it is taken as
    given. *)
Variable path_string : Path → string.

(** [delivery_option] is the local [option] of the source, which holds what
    [GetOption("-delivery", argc, argv)] returns, [None] for the null
    pointer, and [pid] is the identifier of the process.  The branch for
    the systems other than Windows is the one that is modelled.  The
    function returns the delivery that it creates and the arguments of the
    target of the worker, in which it replaces [@@]. *)
Definition CreateSampleDelivery (delivery_option : option string) (pid : Z)
    (o : Options) (thread_id : Z) (target_argv : list string) :
    Res (SampleDelivery * list string) :=
  if bool_decide (delivery_option = None)
     || bool_decide (delivery_option = Some "file"%string)
  then
    let outfile := DirJoin (out_dir o) ("input_" +:+ to_string thread_id) in
    Ok (FileSampleDelivery outfile,
        ReplaceTargetCmdArg target_argv "@@" (path_string outfile))
  else if bool_decide (delivery_option = Some "shmem"%string) then
    let shm_name :=
      "/shm_fuzz_" +:+ to_string pid +:+ "_" +:+ to_string thread_id in
    Ok (SHMSampleDelivery shm_name (Z.of_nat MAX_SAMPLE_SIZE + 4),
        ReplaceTargetCmdArg target_argv "@@" shm_name)
  else Fatal "Unknown sample delivery option".

(** ** The start of the fuzzer *)

(** What [Run] does before it starts the workers, for a fuzzer that does
    not run as a server: the counters are reset, and the corpus is
    restored or the input files are listed.  [ParseOptions] and
    [SetupDirectories], which come in between, fix the options, which are
    part of the state here; [should_restore_state] is what [ParseOptions]
    finds, and [listing] the list of input files that
    [GetFilesInDirectory] leaves in [input_files]. *)
Definition Run_setup (should_restore_state : bool) (listing : list Path) :
    M unit :=
  modify (set_samples_pending 0) ;;;
  modify (set_num_crashes 0) ;;;
  modify (set_num_unique_crashes 0) ;;;
  modify (set_num_hangs 0) ;;;
  modify (set_num_samples 0) ;;;
  modify (set_num_samples_discarded 0) ;;;
  modify (set_total_execs 0) ;;;
  modify (set_min_priority (double_round (179 * 10 ^ 306))) ;;;
  (if should_restore_state then RestoreState
   else
     modify (set_input_files listing) ;;;
     do inputs <- get input_files;
     if decide (inputs = []) then FATAL "Error: no input files read"
     else ret tt) ;;;
  (* in case of state restoring, input_files is empty, so this is fine *)
  modify (set_state INPUT_SAMPLE_PROCESSING).

(** ** Lemmas on computations *)

Lemma bind_Ok {A B} (m : M A) (k : A → M B) s b s' :
  bind m k s = Ok (b, s') ↔ ∃ a s1, m s = Ok (a, s1) ∧ k a s1 = Ok (b, s').
Proof.
  unfold bind. split.
  - destruct (m s) as [[a s1]| |]; [|done..]. eauto.
  - intros (a & s1 & -> & Hk). done.
Qed.

Lemma hoare_ret {A} (P : machine → Prop) (a : A) (Q : A → machine → Prop) :
  (∀ s, P s → Q a s) → hoare P (ret a) Q.
Proof. intros H s Hs. by apply H. Qed.

Lemma hoare_bind {A B} (P : machine → Prop) (m : M A) (k : A → M B) Q R :
  hoare P m Q → (∀ a, hoare (Q a) (k a) R) → hoare P (bind m k) R.
Proof.
  intros Hm Hk s Hs. unfold bind. specialize (Hm s Hs).
  destruct (m s) as [[a s1]| |]; [|done..]. by apply Hk.
Qed.

Lemma hoare_conseq {A} (P P' : machine → Prop) (m : M A)
    (Q Q' : A → machine → Prop) :
  hoare P' m Q' → (∀ s, P s → P' s) → (∀ a s, Q' a s → Q a s) → hoare P m Q.
Proof.
  intros Hm HP HQ s Hs. specialize (Hm s (HP s Hs)).
  destruct (m s) as [[a s1]| |]; [|done..]. by apply HQ.
Qed.

Lemma hoare_elim {A} (P : machine → Prop) (m : M A) Q s a s' :
  hoare P m Q → P s → m s = Ok (a, s') → Q a s'.
Proof. intros Hm Hs Hrun. specialize (Hm s Hs). by rewrite Hrun in Hm. Qed.

Lemma preserves_elim {A} R (m : M A) s a s' :
  preserves R m → R s s → m s = Ok (a, s') → R s s'.
Proof. intros Hm Hs Hrun. by apply (hoare_elim _ _ _ _ _ _ (Hm s) Hs Hrun). Qed.

Lemma preserves_ret {A} R (a : A) : preserves R (ret a).
Proof. intros s0 s Hs. done. Qed.

Lemma preserves_get {A} R (f : machine → A) : preserves R (get f).
Proof. intros s0 s Hs. done. Qed.

Lemma preserves_FATAL {A} R msg : preserves R (FATAL (A := A) msg).
Proof. intros s0 s Hs. done. Qed.

Lemma preserves_out_of_fuel {A} R : preserves R (out_of_fuel (A := A)).
Proof. intros s0 s Hs. done. Qed.

Lemma preserves_bind {A B} R (m : M A) (k : A → M B) :
  preserves R m → (∀ a, preserves R (k a)) → preserves R (bind m k).
Proof. intros Hm Hk s0. eapply hoare_bind; [apply Hm|]. intros a. apply Hk. Qed.

Lemma preserves_modify R (f : machine → machine) :
  (∀ s0 s, R s0 s → R s0 (f s)) → preserves R (modify f).
Proof. intros Hf s0 s Hs. by apply Hf. Qed.

Lemma preserves_call {A} R (f : E → A * E) :
  (∀ s0 s e, R s0 s → R s0 (set_collab e s)) → preserves R (call f).
Proof.
  intros Hf s0 s Hs. unfold call. destruct (f (collab s)) as [a e].
  by apply Hf.
Qed.

Lemma preserves_tell R (f : E → E) :
  (∀ s0 s e, R s0 s → R s0 (set_collab e s)) → preserves R (tell f).
Proof. intros Hf. apply preserves_modify. intros s0 s Hs. by apply Hf. Qed.

(** Goals [preserves R m] are solved along the structure of [m]; the
    steps that change the state are left to the hints of the base. *)
Create HintDb frame.

Ltac frame_step :=
  lazymatch goal with
  | |- preserves _ (bind _ _) => apply preserves_bind; [|intros]
  | |- preserves _ (ret _) => apply preserves_ret
  | |- preserves _ (get _) => apply preserves_get
  | |- preserves _ (FATAL _) => apply preserves_FATAL
  | |- preserves _ out_of_fuel => apply preserves_out_of_fuel
  | |- preserves _ (Save _ _) => unfold Save
  | |- preserves _ (Load _) => unfold Load
  | |- preserves _ (let '(_, _) := ?x in _) => destruct x
  | |- preserves _ (if ?b then _ else _) => destruct b
  | |- preserves _ (match ?x with _ => _ end) => destruct x
  end.

Ltac frame := repeat frame_step; auto with frame.

(** A step that sets a field keeps every observation that does not depend
    on that field. *)
Ltac keeps_step :=
  first [apply preserves_modify; intros ? ? | apply preserves_call; intros ? ? ?
        | apply preserves_tell; intros ? ? ?];
  unfold keeps; intros;
  repeat case_decide;
  repeat match goal with
         | H : ∀ v s, _ = _ |- _ => progress (rewrite H)
         end;
  assumption.

Ltac keeps_frame := repeat frame_step; auto with frame; try keeps_step.

Section Frames.

Context {B : Type} (f : machine → B).

Lemma keeps_deliver sample :
  (∀ v s, f (set_collab v s) = f s) → preserves (keeps f) (deliver sample).
Proof. intros Hf. unfold deliver. keeps_frame. Qed.

Lemma keeps_TryReproduceCrash_loop n result sample init_timeout timeout :
  (∀ v s, f (set_total_execs v s) = f s) →
  (∀ v s, f (set_collab v s) = f s) →
  preserves (keeps f)
    (TryReproduceCrash_loop n result sample init_timeout timeout).
Proof.
  intros ? ?. revert result.
  induction n as [|n IH]; intros result; simpl; [apply preserves_ret|].
  pose proof (keeps_deliver sample). keeps_frame.
Qed.

Lemma keeps_record_crash crash_desc :
  block_independent f → preserves (keeps f) (record_crash crash_desc).
Proof.
  intros (? & ? & ? & ? & ? & ? & ?). unfold record_crash. keeps_frame.
Qed.

Lemma keeps_crash_block sample init_timeout timeout :
  block_independent f →
  preserves (keeps f)
    (RunSampleAndGetCoverage_crash sample init_timeout timeout).
Proof.
  intros Hf.
  pose proof (keeps_record_crash) as Hrecord.
  pose proof (keeps_TryReproduceCrash_loop) as Hrepro.
  destruct Hf as (? & ? & ? & ? & ? & ? & ?).
  assert (block_independent f) by done.
  unfold RunSampleAndGetCoverage_crash, TryReproduceCrash. keeps_frame.
Qed.

Lemma keeps_hang_block sample :
  block_independent f →
  preserves (keeps f) (RunSampleAndGetCoverage_hang sample).
Proof.
  intros (? & ? & ? & ? & ? & ? & ?).
  unfold RunSampleAndGetCoverage_hang. keeps_frame.
Qed.

Lemma keeps_RunSampleAndGetCoverage sample init_timeout timeout :
  execution_independent f →
  preserves (keeps f) (RunSampleAndGetCoverage sample init_timeout timeout).
Proof.
  intros [Hf ?].
  pose proof (keeps_crash_block sample init_timeout timeout Hf).
  pose proof (keeps_hang_block sample Hf).
  destruct Hf as (? & ? & ? & ? & ? & ? & ?).
  pose proof (keeps_deliver sample).
  unfold RunSampleAndGetCoverage. keeps_frame.
Qed.

Lemma keeps_TrimSample_loop fuel sample stable_coverage init_timeout timeout
    trim_step trimmed_size test_sample :
  execution_independent f →
  preserves (keeps f)
    (TrimSample_loop fuel sample stable_coverage init_timeout timeout
       trim_step trimmed_size test_sample).
Proof.
  intros Hf. revert trim_step trimmed_size test_sample.
  induction fuel as [|fuel IH]; intros trim_step trimmed_size test_sample;
    simpl; [apply preserves_out_of_fuel|].
  pose proof (keeps_RunSampleAndGetCoverage) as Hrun.
  keeps_frame.
Qed.

Lemma keeps_TrimSample sample stable_coverage init_timeout timeout :
  execution_independent f →
  preserves (keeps f)
    (TrimSample sample stable_coverage init_timeout timeout).
Proof.
  intros Hf. unfold TrimSample.
  pose proof (keeps_TrimSample_loop) as Hloop. keeps_frame.
Qed.

Lemma keeps_RunSample_retry n sample result stableCoverage totalCoverage
    init_timeout timeout :
  execution_independent f →
  preserves (keeps f)
    (RunSample_retry n sample result stableCoverage totalCoverage
       init_timeout timeout).
Proof.
  intros Hf. revert result stableCoverage totalCoverage.
  induction n as [|n IH]; intros result stableCoverage totalCoverage;
    simpl; [apply preserves_ret|].
  pose proof (keeps_RunSampleAndGetCoverage) as Hrun.
  keeps_frame.
Qed.

Lemma keeps_RunSample sample has_new_coverage trim report_to_server
    init_timeout timeout :
  run_independent f →
  preserves (keeps f)
    (RunSample sample has_new_coverage trim report_to_server
       init_timeout timeout).
Proof.
  intros (Hf & ? & ? & ? & ?).
  pose proof (keeps_RunSampleAndGetCoverage) as Hrun.
  pose proof (keeps_RunSample_retry) as Hretry.
  pose proof (keeps_TrimSample) as Htrim.
  assert (execution_independent f) by done.
  destruct Hf as ((? & ? & ? & ? & ? & ? & ?) & ?).
  unfold RunSample, RunSample_accept, InterestingSample. simpl. keeps_frame.
Qed.

End Frames.

(** *** The shape of one execution *)

Lemma modify_Ok (f : machine → machine) s a s' :
  modify f s = Ok (a, s') → s' = f s.
Proof. unfold modify. by intros [= _ <-]. Qed.

Lemma ret_Ok {A} (a b : A) (s s' : machine) :
  ret a s = Ok (b, s') → b = a ∧ s' = s.
Proof. unfold ret. by intros [= <- <-]. Qed.

Lemma get_Ok {A} (f : machine → A) b (s s' : machine) :
  get f s = Ok (b, s') → b = f s ∧ s' = s.
Proof. unfold get. by intros [= <- <-]. Qed.

Lemma only_collab_refl s : only_collab s s.
Proof. unfold only_collab. by destruct s. Qed.

Lemma only_collab_deliver sample : preserves only_collab (deliver sample).
Proof.
  unfold deliver.
  assert (∀ s0 s e, only_collab s0 s → only_collab s0 (set_collab e s)) as H.
  { unfold only_collab. intros s0 s e ->. done. }
  repeat frame_step; (apply preserves_call || apply preserves_tell); done.
Qed.

(** One execution advances the counter, lets the collaborators deliver
    and run the sample, then handles a crash, then a hang, and records the
    execution. *)
Lemma RunSampleAndGetCoverage_inv sample init_timeout timeout s result
    coverage s' :
  RunSampleAndGetCoverage sample init_timeout timeout s
  = Ok ((result, coverage), s') →
  ∃ s1 s2 s3,
    only_collab (set_total_execs (u64 (total_execs s + 1)) s) s1
    ∧ (if decide (result = CRASH)
       then RunSampleAndGetCoverage_crash sample init_timeout timeout
       else ret tt) s1 = Ok (tt, s2)
    ∧ (if decide (result = HANG)
       then RunSampleAndGetCoverage_hang sample
       else ret tt) s2 = Ok (tt, s3)
    ∧ s' = set_history (history s3 ++ [(sample, result, coverage)]) s3.
Proof.
  unfold RunSampleAndGetCoverage. intros Hrun.
  apply bind_Ok in Hrun as ([] & s1 & H1 & Hrun). apply modify_Ok in H1.
  apply bind_Ok in Hrun as ([] & s2 & H2 & Hrun).
  apply bind_Ok in Hrun as (r & s3 & H3 & Hrun).
  apply bind_Ok in Hrun as (c & s4 & H4 & Hrun).
  apply bind_Ok in Hrun as ([] & s5 & H5 & Hrun).
  apply bind_Ok in Hrun as ([] & s6 & H6 & Hrun).
  apply bind_Ok in Hrun as ([] & s7 & H7 & Hrun). apply modify_Ok in H7.
  apply ret_Ok in Hrun as [[= -> ->] ->].
  exists s4, s5, s6. split; [|done].
  assert (only_collab s1 s2) as Hd.
  { eapply preserves_elim; [apply only_collab_deliver|apply only_collab_refl|done]. }
  unfold call in H3, H4.
  destruct (Run _ _ _ _) as [r' e3]. destruct (GetCoverage _ _) as [c' e4].
  injection H3 as _ <-. injection H4 as _ <-.
  unfold only_collab in *. rewrite Hd, H1. done.
Qed.

(** *** File names of crashes *)

Lemma append_String c s1 s2 : String c s1 +:+ s2 = String c (s1 +:+ s2).
Proof. reflexivity. Qed.

Lemma append_empty s : "" +:+ s = s.
Proof. reflexivity. Qed.

Lemma occurs_app c s1 s2 : occurs c (s1 +:+ s2) = occurs c s1 || occurs c s2.
Proof.
  induction s1 as [|c' s1 IH]; [done|].
  rewrite append_String. simpl. by rewrite IH, orb_assoc.
Qed.

Lemma occurs_pretty_N_go x s : occurs "_" (pretty_N_go x s) = occurs "_" s.
Proof.
  revert s. induction (N.lt_wf_0 x) as [x _ IH]; intros s.
  destruct (decide (x = 0)%N) as [->|Hx]; [by rewrite pretty_N_go_0|].
  rewrite pretty_N_go_step by lia. rewrite IH by (apply N.div_lt; lia).
  simpl. assert (x `mod` 10 < 10)%N as Hlt by (apply N.mod_lt; lia).
  destruct (x `mod` 10)%N as [|p]; [done|].
  do 4 (destruct p as [p|p|]; try done); lia.
Qed.

Lemma occurs_to_string z : occurs "_" (to_string z) = false.
Proof.
  unfold to_string, pretty, pretty_Z.
  destruct z as [|p|p]; [done| |].
  - unfold pretty, pretty_positive, pretty, pretty_N.
    case_decide; [done|]. by rewrite occurs_pretty_N_go.
  - rewrite occurs_app.
    unfold pretty, pretty_positive, pretty, pretty_N.
    case_decide; [done|]. by rewrite occurs_pretty_N_go.
Qed.

Lemma append_underscore_inj s1 s2 t1 t2 :
  occurs "_" t1 = false → occurs "_" t2 = false →
  s1 +:+ "_" +:+ t1 = s2 +:+ "_" +:+ t2 → s1 = s2 ∧ t1 = t2.
Proof.
  intros H1 H2. revert s2.
  induction s1 as [|c1 s1 IH]; intros [|c2 s2];
    rewrite ?append_String, ?append_empty; intros Heq.
  - by injection Heq as ->.
  - injection Heq as _ Ht. rewrite Ht, occurs_app in H1.
    simpl in H1.
    by rewrite orb_true_r in H1.
  - injection Heq as _ Ht. rewrite <- Ht, occurs_app in H2.
    simpl in H2.
    by rewrite orb_true_r in H2.
  - injection Heq as -> Heq. destruct (IH _ Heq) as [-> ->]. done.
Qed.

Lemma crash_filename_inj crash_desc crash_desc' n n' :
  crash_filename crash_desc n = crash_filename crash_desc' n' →
  crash_desc = crash_desc' ∧ n = n'.
Proof.
  unfold crash_filename. intros Heq.
  apply append_underscore_inj in Heq as [-> Heq];
    [|apply occurs_to_string..].
  split; [done|]. by apply (inj pretty).
Qed.

Lemma DirJoin_inj dir name name' :
  DirJoin dir name = DirJoin dir name' → name = name'.
Proof. unfold DirJoin. intros Heq. by apply app_inv_head in Heq as [= ->]. Qed.

Lemma crash_dir_not_hangs_dir o name name' :
  DirJoin (crash_dir o) name ≠ DirJoin (hangs_dir o) name'.
Proof.
  unfold crash_dir, hangs_dir, DirJoin. rewrite <- !app_assoc. simpl.
  intros Heq. by apply app_inv_head in Heq.
Qed.

(** *** The crash registry *)

Lemma record_crash_unseen crash_desc s :
  unique_crashes s !! crash_desc = None →
  record_crash crash_desc s
  = Ok ((true, 1),
        set_num_unique_crashes (u64 (num_unique_crashes s + 1))
          (set_unique_crashes (<[crash_desc := 1]> (unique_crashes s))
             (set_num_crashes (u64 (num_crashes s + 1)) s))).
Proof.
  intros Hnone. unfold record_crash, bind, modify, get. simpl.
  by rewrite Hnone.
Qed.

Lemma record_crash_below crash_desc count s :
  unique_crashes s !! crash_desc = Some count →
  count < MAX_IDENTICAL_CRASHES →
  record_crash crash_desc s
  = Ok ((true, count + 1),
        set_unique_crashes (<[crash_desc := count + 1]> (unique_crashes s))
          (set_num_crashes (u64 (num_crashes s + 1)) s)).
Proof.
  intros Hsome Hlt. unfold record_crash, bind, modify, get. simpl.
  rewrite Hsome. by rewrite decide_True by done.
Qed.

Lemma record_crash_capped crash_desc count s :
  unique_crashes s !! crash_desc = Some count →
  ¬ count < MAX_IDENTICAL_CRASHES →
  record_crash crash_desc s
  = Ok ((false, 0), set_num_crashes (u64 (num_crashes s + 1)) s).
Proof.
  intros Hsome Hge. unfold record_crash, bind, modify, get. simpl.
  rewrite Hsome. by rewrite decide_False by done.
Qed.

(** What recording a crash does to the invariant: the registry stays
    within bounds, no count goes down, the files are untouched, and a
    positive answer comes with a number that the new count covers. *)
Lemma record_crash_cap crash_desc s should_save duplicates s' :
  1 ≤ MAX_IDENTICAL_CRASHES →
  crash_registry_ok s →
  record_crash crash_desc s = Ok ((should_save, duplicates), s') →
  opts s' = opts s ∧ files s' = files s
  ∧ crash_registry_ok s'
  ∧ (∀ d c, unique_crashes s !! d = Some c →
            ∃ c', unique_crashes s' !! d = Some c' ∧ c ≤ c')
  ∧ (should_save = true →
     ∃ count, unique_crashes s' !! crash_desc = Some count
              ∧ 1 ≤ duplicates ≤ count).
Proof.
  intros Hmax Hreg Hrun. unfold crash_registry_ok in *.
  destruct (unique_crashes s !! crash_desc) as [count|] eqn:Hlook.
  - destruct (decide (count < MAX_IDENTICAL_CRASHES)) as [Hlt|Hge].
    + rewrite (record_crash_below _ _ _ Hlook Hlt) in Hrun.
      injection Hrun as <- <- <-. simpl.
      pose proof (Hreg _ _ Hlook) as Hc.
      split_and!; try done.
      * intros d c. destruct (decide (crash_desc = d)) as [<-|Hne].
        -- rewrite lookup_insert_eq. intros [= <-]. lia.
        -- rewrite lookup_insert_ne by done. apply Hreg.
      * intros d c Hd. destruct (decide (crash_desc = d)) as [<-|Hne].
        -- rewrite lookup_insert_eq. exists (count + 1).
           split; [done|]. rewrite Hlook in Hd. injection Hd as <-. lia.
        -- rewrite lookup_insert_ne by done. exists c. split; [done|lia].
      * intros _. exists (count + 1). rewrite lookup_insert_eq.
        split; [done|lia].
    + rewrite (record_crash_capped _ _ _ Hlook Hge) in Hrun.
      injection Hrun as <- <- <-. simpl.
      split_and!; try done.
      intros d c Hd. exists c. split; [done|lia].
  - rewrite (record_crash_unseen _ _ Hlook) in Hrun.
    injection Hrun as <- <- <-. simpl.
    split_and!; try done.
    + intros d c. destruct (decide (crash_desc = d)) as [<-|Hne].
      * rewrite lookup_insert_eq. intros [= <-]. lia.
      * rewrite lookup_insert_ne by done. apply Hreg.
    + intros d c Hd. destruct (decide (crash_desc = d)) as [<-|Hne].
      * congruence.
      * rewrite lookup_insert_ne by done. exists c. split; [done|lia].
    + intros _. exists 1. rewrite lookup_insert_eq. split; [done|lia].
Qed.

Lemma crash_cap_ext s s' :
  opts s' = opts s → unique_crashes s' = unique_crashes s →
  files s' = files s → crash_cap s → crash_cap s'.
Proof.
  unfold crash_cap, crash_registry_ok, crash_files_ok.
  intros -> -> ->. done.
Qed.

Lemma crash_cap_crash_block sample init_timeout timeout s s' :
  1 ≤ MAX_IDENTICAL_CRASHES →
  crash_cap s →
  RunSampleAndGetCoverage_crash sample init_timeout timeout s = Ok (tt, s') →
  crash_cap s'.
Proof.
  intros Hmax Hcap. unfold RunSampleAndGetCoverage_crash. intros Hrun.
  apply bind_Ok in Hrun as (desc0 & s1 & H1 & Hrun).
  apply get_Ok in H1 as [_ ->].
  apply bind_Ok in Hrun as (reproduced & s2 & H2 & Hrun).
  assert (crash_cap s2) as Hcap2.
  { pose proof (preserves_elim _ _ _ _ _
      (keeps_TryReproduceCrash_loop
         (fun s => (opts s, unique_crashes s, files s))
         CRASH_REPRODUCE_TIMES TryReproduceCrash_uninitialized sample
         init_timeout timeout ltac:(done) ltac:(done))
      eq_refl H2) as Hk.
    unfold keeps in Hk. injection Hk as Ho Hu Hf.
    by apply (crash_cap_ext s). }
  clear H2 Hcap. 
  apply bind_Ok in Hrun as (crash_desc & s3 & H3 & Hrun).
  assert (s3 = s2) as ->.
  { destruct (decide (reproduced = CRASH)).
    - by apply get_Ok in H3 as [_ ->].
    - by apply ret_Ok in H3 as [_ ->]. }
  clear H3.
  apply bind_Ok in Hrun as ([should_save duplicates] & s4 & H4 & Hrun).
  destruct Hcap2 as [Hreg Hfiles].
  apply record_crash_cap in H4 as (Ho & Hf & Hreg4 & Hmono & Hsave); [|done..].
  assert (crash_files_ok s4) as Hfiles4.
  { intros name. rewrite Ho, Hf. intros Hname.
    destruct (Hfiles name Hname) as (d & n & c & -> & Hd & Hn).
    destruct (Hmono d c Hd) as (c' & Hc' & Hle).
    exists d, n, c'. repeat split; try done; lia. }
  destruct should_save.
  - destruct (Hsave eq_refl) as (count & Hcount & Hdup).
    apply bind_Ok in Hrun as (o & s5 & H5 & Hrun).
    apply get_Ok in H5 as [-> ->].
    apply bind_Ok in Hrun as ([] & s6 & H6 & Hrun).
    apply modify_Ok in H6.
    assert (crash_cap s6) as Hcap6.
    { subst s6. split; [done|]. intros name. simpl.
      destruct (decide (name = crash_filename crash_desc duplicates))
        as [->|Hne].
      - intros _. exists crash_desc, duplicates, count. done.
      - rewrite lookup_insert_ne; [|by intros Heq%DirJoin_inj].
        apply Hfiles4. }
    destruct (server (opts s4)).
    + apply modify_Ok in Hrun. subst s'. revert Hcap6. by apply crash_cap_ext.
    + apply ret_Ok in Hrun as [_ ->]. done.
  - apply ret_Ok in Hrun as [_ ->]. done.
Qed.

Lemma crash_cap_hang_block sample s s' :
  crash_cap s → RunSampleAndGetCoverage_hang sample s = Ok (tt, s') →
  crash_cap s'.
Proof.
  intros [Hreg Hfiles]. unfold RunSampleAndGetCoverage_hang. intros Hrun.
  unfold bind, get, modify, Save, ret in Hrun. simpl in Hrun.
  destruct (save_hangs (opts s)); injection Hrun as <-; [|done].
  split; [done|]. intros name. simpl.
  rewrite lookup_insert_ne; [apply Hfiles|].
  intros Heq. symmetry in Heq. by apply crash_dir_not_hangs_dir in Heq.
Qed.

Lemma crash_cap_RunSampleAndGetCoverage sample init_timeout timeout s r s' :
  1 ≤ MAX_IDENTICAL_CRASHES →
  crash_cap s →
  RunSampleAndGetCoverage sample init_timeout timeout s = Ok (r, s') →
  crash_cap s'.
Proof.
  intros Hmax Hcap Hrun. destruct r as [result coverage].
  apply RunSampleAndGetCoverage_inv in Hrun
    as (s1 & s2 & s3 & H1 & H2 & H3 & ->).
  assert (crash_cap s1) as Hcap1.
  { unfold only_collab in H1. rewrite H1. revert Hcap. by apply crash_cap_ext. }
  assert (crash_cap s2) as Hcap2.
  { destruct (decide (result = CRASH)).
    - by eapply crash_cap_crash_block.
    - by apply ret_Ok in H2 as [_ ->]. }
  assert (crash_cap s3) as Hcap3.
  { destruct (decide (result = HANG)).
    - by eapply crash_cap_hang_block.
    - by apply ret_Ok in H3 as [_ ->]. }
  revert Hcap3. by apply crash_cap_ext.
Qed.

Lemma record_crash_num_crashes crash_desc s r s' :
  record_crash crash_desc s = Ok (r, s') →
  num_crashes s' = u64 (num_crashes s + 1).
Proof.
  destruct (unique_crashes s !! crash_desc) as [count|] eqn:Hlook.
  - destruct (decide (count < MAX_IDENTICAL_CRASHES)) as [Hlt|Hge].
    + rewrite (record_crash_below _ _ _ Hlook Hlt). by intros [= <- <-].
    + rewrite (record_crash_capped _ _ _ Hlook Hge). by intros [= <- <-].
  - rewrite (record_crash_unseen _ _ Hlook). by intros [= <- <-].
Qed.

Lemma crash_block_num_crashes sample init_timeout timeout s s' :
  RunSampleAndGetCoverage_crash sample init_timeout timeout s = Ok (tt, s') →
  num_crashes s' = u64 (num_crashes s + 1).
Proof.
  unfold RunSampleAndGetCoverage_crash. intros Hrun.
  apply bind_Ok in Hrun as (desc0 & s1 & H1 & Hrun).
  apply get_Ok in H1 as [_ ->].
  apply bind_Ok in Hrun as (reproduced & s2 & H2 & Hrun).
  pose proof (preserves_elim _ _ _ _ _
    (keeps_TryReproduceCrash_loop num_crashes
       CRASH_REPRODUCE_TIMES TryReproduceCrash_uninitialized sample
       init_timeout timeout ltac:(done) ltac:(done))
    eq_refl H2) as Hk.
  unfold keeps in Hk. rewrite <- Hk. clear H2 Hk.
  apply bind_Ok in Hrun as (crash_desc & s3 & H3 & Hrun).
  assert (s3 = s2) as ->.
  { destruct (decide (reproduced = CRASH)).
    - by apply get_Ok in H3 as [_ ->].
    - by apply ret_Ok in H3 as [_ ->]. }
  apply bind_Ok in Hrun as ([should_save duplicates] & s4 & H4 & Hrun).
  apply record_crash_num_crashes in H4. rewrite <- H4.
  destruct should_save.
  - unfold bind, get, Save, modify, tell, ret in Hrun. simpl in Hrun.
    destruct (server (opts s4)); by injection Hrun as <-.
  - by apply ret_Ok in Hrun as [_ ->].
Qed.

(** *** The iteration bounds *)

Lemma within_fuel_bind {A B} (m : M A) (k : A → M B) :
  within_fuel m → (∀ a, within_fuel (k a)) → within_fuel (bind m k).
Proof.
  intros Hm Hk s. unfold bind. specialize (Hm s).
  destruct (m s) as [[a s1]| |]; [apply Hk|done..].
Qed.

Lemma within_fuel_ret {A} (a : A) : within_fuel (ret a).
Proof. done. Qed.

Lemma within_fuel_get {A} (f : machine → A) : within_fuel (get f).
Proof. done. Qed.

Lemma within_fuel_modify f : within_fuel (modify f).
Proof. done. Qed.

Lemma within_fuel_FATAL {A} msg : within_fuel (FATAL (A := A) msg).
Proof. done. Qed.

Lemma within_fuel_call {A} (f : E → A * E) : within_fuel (call f).
Proof. intros s. unfold call. by destruct (f (collab s)). Qed.

Lemma within_fuel_tell f : within_fuel (tell f).
Proof. done. Qed.

Ltac fuel_step :=
  lazymatch goal with
  | |- within_fuel (bind _ _) => apply within_fuel_bind; [|intros]
  | |- within_fuel (ret _) => apply within_fuel_ret
  | |- within_fuel (get _) => apply within_fuel_get
  | |- within_fuel (modify _) => apply within_fuel_modify
  | |- within_fuel (FATAL _) => apply within_fuel_FATAL
  | |- within_fuel (call _) => apply within_fuel_call
  | |- within_fuel (tell _) => apply within_fuel_tell
  | |- within_fuel (Save _ _) => unfold Save
  | |- within_fuel (Load _) => unfold Load
  | |- within_fuel (let '(_, _) := ?x in _) => destruct x
  | |- within_fuel (if ?b then _ else _) => destruct b
  | |- within_fuel (match ?x with _ => _ end) => destruct x
  end.

Ltac fuel := repeat fuel_step; auto.

Lemma within_fuel_deliver sample : within_fuel (deliver sample).
Proof. unfold deliver. fuel. Qed.

Lemma within_fuel_TryReproduceCrash_loop n result sample init_timeout timeout :
  within_fuel (TryReproduceCrash_loop n result sample init_timeout timeout).
Proof.
  revert result. induction n as [|n IH]; intros result; simpl.
  - apply within_fuel_ret.
  - pose proof (within_fuel_deliver sample). fuel.
Qed.

Lemma within_fuel_RunSampleAndGetCoverage sample init_timeout timeout :
  within_fuel (RunSampleAndGetCoverage sample init_timeout timeout).
Proof.
  pose proof (within_fuel_deliver sample).
  pose proof (within_fuel_TryReproduceCrash_loop).
  unfold RunSampleAndGetCoverage, RunSampleAndGetCoverage_crash,
    RunSampleAndGetCoverage_hang, TryReproduceCrash, record_crash.
  fuel.
Qed.

(** *** No abort *)

Lemma never_fatal_bind {A B} (m : M A) (k : A → M B) :
  never_fatal m → (∀ a, never_fatal (k a)) → never_fatal (bind m k).
Proof.
  intros Hm Hk s msg. unfold bind. specialize (Hm s).
  destruct (m s) as [[a s1]|msg'|]; [apply Hk|by destruct (Hm msg')|done].
Qed.

Lemma never_fatal_ret {A} (a : A) : never_fatal (ret a).
Proof. done. Qed.

Lemma never_fatal_get {A} (f : machine → A) : never_fatal (get f).
Proof. done. Qed.

Lemma never_fatal_modify f : never_fatal (modify f).
Proof. done. Qed.

Lemma never_fatal_out_of_fuel {A} : never_fatal (out_of_fuel (A := A)).
Proof. done. Qed.

Lemma never_fatal_call {A} (f : E → A * E) : never_fatal (call f).
Proof. intros s msg. unfold call. by destruct (f (collab s)). Qed.

Lemma never_fatal_tell f : never_fatal (tell f).
Proof. done. Qed.

Ltac fatal_step :=
  lazymatch goal with
  | |- never_fatal (bind _ _) => apply never_fatal_bind; [|intros]
  | |- never_fatal (ret _) => apply never_fatal_ret
  | |- never_fatal (get _) => apply never_fatal_get
  | |- never_fatal (modify _) => apply never_fatal_modify
  | |- never_fatal out_of_fuel => apply never_fatal_out_of_fuel
  | |- never_fatal (call _) => apply never_fatal_call
  | |- never_fatal (tell _) => apply never_fatal_tell
  | |- never_fatal (Save _ _) => unfold Save
  | |- never_fatal (Load _) => unfold Load
  | |- never_fatal (let '(_, _) := ?x in _) => destruct x
  | |- never_fatal (if ?b then _ else _) => destruct b
  | |- never_fatal (match ?x with _ => _ end) => destruct x
  end.

Ltac no_abort := repeat fatal_step; auto.

Lemma never_fatal_deliver sample :
  reliable_delivery → never_fatal (deliver sample).
Proof.
  intros Hdeliver s msg. unfold deliver, bind, call.
  specialize (Hdeliver sample (collab s)).
  destruct (DeliverSample ops sample (collab s)) as [ok e].
  simpl in Hdeliver. by rewrite Hdeliver.
Qed.

Lemma never_fatal_TryReproduceCrash_loop n result sample init_timeout timeout :
  reliable_delivery →
  never_fatal (TryReproduceCrash_loop n result sample init_timeout timeout).
Proof.
  intros Hdeliver. revert result.
  induction n as [|n IH]; intros result; simpl.
  - apply never_fatal_ret.
  - pose proof (never_fatal_deliver sample Hdeliver). no_abort.
Qed.

Lemma never_fatal_RunSampleAndGetCoverage sample init_timeout timeout :
  reliable_delivery →
  never_fatal (RunSampleAndGetCoverage sample init_timeout timeout).
Proof.
  intros Hdeliver.
  pose proof (never_fatal_deliver sample Hdeliver).
  pose proof (fun n r => never_fatal_TryReproduceCrash_loop n r sample
                           init_timeout timeout Hdeliver).
  unfold RunSampleAndGetCoverage, RunSampleAndGetCoverage_crash,
    RunSampleAndGetCoverage_hang, TryReproduceCrash, record_crash.
  no_abort.
Qed.

Lemma never_fatal_TrimSample_loop fuel sample stable_coverage init_timeout
    timeout :
  reliable_delivery →
  ∀ trim_step trimmed_size test_sample,
    never_fatal
      (TrimSample_loop fuel sample stable_coverage init_timeout timeout
         trim_step trimmed_size test_sample).
Proof.
  intros Hdeliver.
  induction fuel as [|fuel IH]; intros trim_step trimmed_size test_sample;
    simpl; [apply never_fatal_out_of_fuel|].
  pose proof (fun sample => never_fatal_RunSampleAndGetCoverage sample
                              init_timeout timeout Hdeliver).
  no_abort.
Qed.

Lemma never_fatal_TrimSample sample stable_coverage init_timeout timeout :
  reliable_delivery →
  never_fatal (TrimSample sample stable_coverage init_timeout timeout).
Proof.
  intros Hdeliver.
  pose proof (fun fuel => never_fatal_TrimSample_loop fuel sample
                            stable_coverage init_timeout timeout Hdeliver).
  unfold TrimSample. no_abort.
Qed.

Lemma never_fatal_RunSample_retry n sample init_timeout timeout :
  reliable_delivery →
  ∀ result stableCoverage totalCoverage,
    never_fatal
      (RunSample_retry n sample result stableCoverage totalCoverage
         init_timeout timeout).
Proof.
  intros Hdeliver.
  induction n as [|n IH]; intros result stableCoverage totalCoverage; simpl.
  - apply never_fatal_ret.
  - pose proof (never_fatal_RunSampleAndGetCoverage sample init_timeout
                  timeout Hdeliver).
    no_abort.
Qed.

Lemma never_fatal_RunSample sample has_new_coverage trim report_to_server
    init_timeout timeout :
  reliable_delivery →
  never_fatal
    (RunSample sample has_new_coverage trim report_to_server init_timeout
       timeout).
Proof.
  intros Hdeliver.
  pose proof (never_fatal_RunSampleAndGetCoverage sample init_timeout
                timeout Hdeliver).
  pose proof (never_fatal_RunSample_retry SAMPLE_RETRY_TIMES sample
                init_timeout timeout Hdeliver).
  pose proof (fun stable => never_fatal_TrimSample sample stable init_timeout
                              timeout Hdeliver).
  unfold RunSample, RunSample_accept, InterestingSample. simpl. no_abort.
Qed.

(** *** The history *)

Lemma RunSampleAndGetCoverage_history sample init_timeout timeout s result
    coverage s' :
  RunSampleAndGetCoverage sample init_timeout timeout s
  = Ok ((result, coverage), s') →
  history s' = history s ++ [(sample, result, coverage)].
Proof.
  intros Hrun.
  apply RunSampleAndGetCoverage_inv in Hrun
    as (s1 & s2 & s3 & H1 & H2 & H3 & ->).
  assert (block_independent (history (E := E) (Context := Context))) as Hb
    by done.
  assert (history s1 = history s) as E1.
  { unfold only_collab in H1. by rewrite H1. }
  assert (history s2 = history s1) as E2.
  { destruct (decide (result = CRASH)).
    - eapply (preserves_elim (keeps history)); [|done|done].
      by apply keeps_crash_block.
    - by apply ret_Ok in H2 as [_ ->]. }
  assert (history s3 = history s2) as E3.
  { destruct (decide (result = HANG)).
    - eapply (preserves_elim (keeps history)); [|done|done].
      by apply keeps_hang_block.
    - by apply ret_Ok in H3 as [_ ->]. }
  simpl. by rewrite E3, E2, E1.
Qed.

(** *** Trimming *)

Lemma TrimSample_halve_halved fuel step n :
  0 ≤ step < 2 ^ 64 → (Z.to_nat step < fuel)%nat → (0 < n)%nat →
  let r := TrimSample_halve fuel step n in
  halved step (Z.of_nat n) r ∧ 0 ≤ r ≤ step ∧ r < Z.of_nat n.
Proof.
  revert step. induction fuel as [|fuel IH]; intros step Hstep Hfuel Hn;
    [lia|].
  simpl. unfold as_size_t. rewrite Z.mod_small by lia.
  destruct (decide (step >= Z.of_nat n)) as [Hge|Hlt].
  - rewrite Z.quot_div_nonneg by lia.
    assert (0 ≤ step / 2 < step) as Hhalf.
    { split; [apply Z.div_pos; lia|apply Z.div_lt; lia]. }
    destruct (IH (step / 2)) as (Hh & Hr & Hrn); [lia..|].
    split; [by apply halved_more|]. lia.
  - split; [apply halved_done; lia|lia].
Qed.

Lemma TrimSample_loop_unfold fuel sample stable_coverage init_timeout timeout
    trim_step trimmed_size test_sample :
  TrimSample_loop (S fuel) sample stable_coverage init_timeout timeout
    trim_step trimmed_size test_sample
  = if decide (size test_sample ≤ 1)%nat then ret trimmed_size else
    let trim_step :=
      TrimSample_halve (S (Z.to_nat (Z.abs trim_step))) trim_step
        (size test_sample) in
    if decide (trim_step = 0) then ret trimmed_size else
    let test_sample :=
      Trim (Z.to_nat (Z.of_nat (size test_sample) - as_size_t trim_step))
        test_sample in
    bind (RunSampleAndGetCoverage test_sample init_timeout timeout)
      (fun '(result, test_coverage) =>
         if decide (result ≠ OK) then ret trimmed_size else
         if negb (CoverageContains test_coverage stable_coverage) then
           let trim_step := trim_step ÷ 2 in
           if decide (trim_step = 0) then ret trimmed_size else
           TrimSample_loop fuel sample stable_coverage init_timeout timeout
             trim_step trimmed_size (Trim trimmed_size sample)
         else
           TrimSample_loop fuel sample stable_coverage init_timeout timeout
             trim_step (size test_sample) test_sample).
Proof. reflexivity. Qed.

(** The loop ends within its bound, and the executions it adds to the
    history are a search as the specification words it. *)
Lemma TrimSample_loop_spec sample stable init_timeout timeout fuel :
  ∀ step trimmed s,
    0 ≤ step < 2 ^ 64 → (trimmed ≤ size sample)%nat →
    (Z.to_nat step * S (size sample) + trimmed < fuel)%nat →
    match TrimSample_loop fuel sample stable init_timeout timeout step
            trimmed (take trimmed sample) s with
    | OutOfFuel => False
    | Fatal _ => True
    | Ok (k, s') =>
        ∃ runs, history s' = history s ++ runs
                ∧ trim_runs sample stable step trimmed runs k
    end.
Proof.
  induction fuel as [|fuel IH]; intros step trimmed s Hstep Htrimmed Hfuel;
    [lia|].
  rewrite TrimSample_loop_unfold.
  assert (size (take trimmed sample) = trimmed) as Hsize.
  { unfold size in *. rewrite length_take. lia. }
  rewrite Hsize.
  destruct (decide (trimmed ≤ 1)%nat) as [Hsmall|Hbig].
  { exists []. rewrite app_nil_r. split; [done|]. by apply trim_small. }
  rewrite Z.abs_eq by lia.
  destruct (TrimSample_halve_halved (S (Z.to_nat step)) step trimmed)
    as (Hhalved & Hr & Hrn); [lia..|].
  set (step' := TrimSample_halve (S (Z.to_nat step)) step trimmed) in *.
  cbv zeta.
  destruct (decide (step' = 0)) as [Hzero|Hnz].
  { exists []. rewrite app_nil_r. split; [done|].
    apply trim_no_step; [lia|]. by rewrite <- Hzero. }
  assert (as_size_t step' = step') as Has.
  { unfold as_size_t. apply Z.mod_small. lia. }
  rewrite Has.
  assert (Trim (Z.to_nat (Z.of_nat trimmed - step')) (take trimmed sample)
          = take (trimmed - Z.to_nat step') sample) as Hcand.
  { unfold Trim. rewrite take_take. f_equal. lia. }
  rewrite Hcand.
  set (k' := (trimmed - Z.to_nat step')%nat) in *.
  assert (size (take k' sample) = k') as Hsize'.
  { unfold size in *. rewrite length_take. lia. }
  unfold bind.
  pose proof (within_fuel_RunSampleAndGetCoverage (take k' sample)
                init_timeout timeout s) as Hwf.
  destruct (RunSampleAndGetCoverage (take k' sample) init_timeout timeout s)
    as [[[result coverage] s1]|msg|] eqn:Hrun; [|done|done].
  apply RunSampleAndGetCoverage_history in Hrun.
  destruct (decide (result ≠ OK)) as [Hne|Heq].
  { exists [(take k' sample, result, coverage)]. split; [done|].
    subst k'. by apply trim_not_OK; [lia|..]. }
  assert (result = OK) as ->
    by (destruct (decide (result = OK)); [done|by destruct Heq]).
  unfold CoverageContains.
  destruct (bool_decide_reflect (stable ⊆ coverage)) as [Hsub|Hnsub]; simpl.
  - rewrite Hsize'.
    specialize (IH step' k' s1).
    destruct (TrimSample_loop fuel sample stable init_timeout timeout step' k'
                (take k' sample) s1) as [[k s2]|msg|];
      [|done|apply IH; subst k'; [lia|lia|nia]].
    destruct IH as (runs & Hhist & Hruns); [lia|subst k'; lia|subst k'; nia|].
    exists ((take k' sample, OK, coverage) :: runs). split.
    + rewrite Hhist, Hrun, <- app_assoc. done.
    + subst k'. by apply trim_accept; [lia|..].
  - rewrite Z.quot_div_nonneg by lia.
    destruct (decide (step' / 2 = 0)) as [Hlast|Hmore].
    { exists [(take k' sample, OK, coverage)]. split; [done|].
      subst k'. by apply trim_reject_last; [lia|..]. }
    assert (0 ≤ step' / 2 < step') as Hhalf.
    { split; [apply Z.div_pos; lia|apply Z.div_lt; lia]. }
    unfold Trim.
    specialize (IH (step' / 2) trimmed s1).
    destruct (TrimSample_loop fuel sample stable init_timeout timeout
                (step' / 2) trimmed (take trimmed sample) s1)
      as [[k s2]|msg|]; [|done|apply IH; [lia|lia|nia]].
    destruct IH as (runs & Hhist & Hruns); [lia|lia|nia|].
    exists ((take k' sample, OK, coverage) :: runs). split.
    + rewrite Hhist, Hrun, <- app_assoc. done.
    + subst k'. by apply trim_reject; [lia|..].
Qed.

Lemma halved_bounds step n r : 0 ≤ step → halved step n r → 0 ≤ r < n.
Proof.
  intros Hstep Hh. induction Hh as [step n Hlt|step n r Hge Hh IH]; [lia|].
  apply IH. apply Z.div_pos; lia.
Qed.

Lemma halved_le step n r : 0 ≤ step → halved step n r → r ≤ step.
Proof.
  intros Hstep Hh. induction Hh as [step n Hlt|step n r Hge Hh IH]; [lia|].
  assert (0 ≤ step / 2 ≤ step).
  { split; [apply Z.div_pos; lia|]. apply Z.div_le_upper_bound; lia. }
  lia.
Qed.

Lemma trim_runs_le sample stable step k runs k' :
  trim_runs sample stable step k runs k' → (k' ≤ k)%nat.
Proof. induction 1; lia. Qed.

Lemma trim_runs_accepted sample stable step k runs k' :
  trim_runs sample stable step k runs k' → (k' < k)%nat →
  ∃ coverage, (take k' sample, OK, coverage) ∈ runs ∧ stable ⊆ coverage.
Proof.
  induction 1 as [| | | |step k step' coverage runs k' ? ? ? ? ? Hruns IH
                  |step k step' coverage runs k' ? ? ? ? Hruns IH];
    intros Hlt; try lia.
  - destruct (IH Hlt) as (c & Hin & Hsub). exists c.
    split; [by apply list_elem_of_further|done].
  - apply trim_runs_le in Hruns as Hle.
    destruct (decide (k' = k - Z.to_nat step')%nat) as [->|Hne].
    + exists coverage. split; [apply list_elem_of_here|done].
    + destruct IH as (c & Hin & Hsub); [lia|]. exists c.
      split; [by apply list_elem_of_further|done].
Qed.

Lemma trim_runs_candidates sample stable step k runs k' :
  0 ≤ step → trim_runs sample stable step k runs k' →
  Forall (fun x : Execution =>
            ∃ j, (0 < j < k)%nat ∧ x.1.1 = take j sample) runs.
Proof.
  intros Hstep Hruns.
  induction Hruns as [| |step k step' result coverage ? Hh ? ?
                      |step k step' coverage ? Hh ? ? ?
                      |step k step' coverage runs k' ? Hh ? ? ? Hruns IH
                      |step k step' coverage runs k' ? Hh ? ? Hruns IH];
    try (by constructor);
    pose proof (halved_bounds _ _ _ Hstep Hh);
    pose proof (halved_le _ _ _ Hstep Hh).
  - constructor; [|by constructor].
    exists (k - Z.to_nat step')%nat. split; [lia|done].
  - constructor; [|by constructor].
    exists (k - Z.to_nat step')%nat. split; [lia|done].
  - constructor.
    + exists (k - Z.to_nat step')%nat. split; [lia|done].
    + apply IH. apply Z.div_pos; lia.
  - constructor.
    + exists (k - Z.to_nat step')%nat. split; [lia|done].
    + assert (0 ≤ step') as Hpos by lia. specialize (IH Hpos).
      revert IH. apply Forall_impl.
      intros x (j & Hj & Hx). exists j. split; [lia|done].
Qed.

Lemma trim_runs_OK_until_last sample stable step k runs k' :
  trim_runs sample stable step k runs k' →
  ∀ pre x, runs = pre ++ [x] → Forall (fun y : Execution => y.1.2 = OK) pre.
Proof.
  induction 1 as [| | | |step k step' coverage runs k' ? ? ? ? ? Hruns IH
                  |step k step' coverage runs k' ? ? ? ? Hruns IH];
    intros pre x Heq.
  - by destruct pre.
  - by destruct pre.
  - destruct pre as [|y pre]; [by constructor|].
    injection Heq as _ Heq. by destruct pre.
  - destruct pre as [|y pre]; [by constructor|].
    injection Heq as _ Heq. by destruct pre.
  - destruct pre as [|y pre]; [by constructor|].
    injection Heq as <- Heq. constructor; [done|].
    by apply (IH pre x).
  - destruct pre as [|y pre]; [by constructor|].
    injection Heq as <- Heq. constructor; [done|].
    by apply (IH pre x).
Qed.

(** *** Stabilization *)

Lemma execution_independent_intro {B} (f : machine → B) :
  (∀ v s, f (set_total_execs v s) = f s) →
  (∀ v s, f (set_collab v s) = f s) →
  (∀ v s, f (set_unique_crashes v s) = f s) →
  (∀ v s, f (set_num_crashes v s) = f s) →
  (∀ v s, f (set_num_unique_crashes v s) = f s) →
  (∀ v s, f (set_num_hangs v s) = f s) →
  (∀ v s, f (set_files v s) = f s) →
  (∀ v s, f (set_history v s) = f s) →
  execution_independent f.
Proof. intros. by split_and!. Qed.

Lemma elem_of_foldl_intersection (c0 : Coverage) (coverages : list Coverage) e :
  e ∈ foldl (∩) c0 coverages ↔ in_every (c0 :: coverages) e.
Proof.
  unfold in_every. revert c0.
  induction coverages as [|c cs IH]; intros c0; simpl.
  - split.
    + intros He c' Hc'. by apply list_elem_of_singleton in Hc' as ->.
    + intros H. apply H, list_elem_of_here.
  - rewrite IH. split.
    + intros H c' Hc'.
      assert (e ∈ c0 ∩ c) as [? ?]%elem_of_intersection
        by apply H, list_elem_of_here.
      apply elem_of_cons in Hc' as [->|Hc']; [done|].
      apply elem_of_cons in Hc' as [->|Hc']; [done|].
      by apply H, list_elem_of_further.
    + intros H c' Hc'. apply elem_of_cons in Hc' as [->|Hc'].
      * apply elem_of_intersection. split; apply H.
        -- apply list_elem_of_here.
        -- apply list_elem_of_further, list_elem_of_here.
      * by apply H, list_elem_of_further, list_elem_of_further.
Qed.

Lemma elem_of_foldl_union (c0 : Coverage) (coverages : list Coverage) e :
  e ∈ foldl (∪) c0 coverages ↔ in_some (c0 :: coverages) e.
Proof.
  unfold in_some. revert c0.
  induction coverages as [|c cs IH]; intros c0; simpl.
  - split.
    + intros He. exists c0. split; [apply list_elem_of_here|done].
    + intros (c' & Hc' & He). by apply list_elem_of_singleton in Hc' as ->.
  - rewrite IH. split.
    + intros (c' & Hc' & He). apply elem_of_cons in Hc' as [->|Hc'].
      * apply elem_of_union in He as [He|He].
        -- exists c0. split; [apply list_elem_of_here|done].
        -- exists c. split; [apply list_elem_of_further, list_elem_of_here|done].
      * exists c'. split; [|done].
        by apply list_elem_of_further, list_elem_of_further.
    + intros (c' & Hc' & He). apply elem_of_cons in Hc' as [->|Hc'].
      * exists (c0 ∪ c). split; [apply list_elem_of_here|].
        apply elem_of_union. by left.
      * apply elem_of_cons in Hc' as [->|Hc'].
        -- exists (c0 ∪ c). split; [apply list_elem_of_here|].
           apply elem_of_union. by right.
        -- exists c'. split; [by apply list_elem_of_further|done].
Qed.

Lemma RunSample_retry_spec n sample init_timeout timeout :
  ∀ result stable total s x s',
    RunSample_retry n sample result stable total init_timeout timeout s
    = Ok (x, s') →
    match x with
    | inl r =>
        r ≠ OK
        ∧ ∃ pre c, (length pre < n)%nat
                   ∧ history s'
                     = history s ++ OK_runs sample pre ++ [(sample, r, c)]
    | inr (r, stable', total') =>
        (r = result ∨ r = OK)
        ∧ ∃ coverages, length coverages = n
                       ∧ history s' = history s ++ OK_runs sample coverages
                       ∧ stable' = foldl (∩) stable coverages
                       ∧ total' = foldl (∪) total coverages
    end.
Proof.
  induction n as [|n IH]; intros result stable total s x s' Hrun; simpl in Hrun.
  - apply ret_Ok in Hrun as [-> ->]. split; [by left|].
    exists []. by rewrite app_nil_r.
  - apply bind_Ok in Hrun as ([r1 c1] & s1 & H1 & Hrun).
    apply RunSampleAndGetCoverage_history in H1.
    destruct (decide (r1 ≠ OK)) as [Hne|Heq].
    + apply ret_Ok in Hrun as [-> ->]. split; [done|].
      exists [], c1. split; [simpl; lia|done].
    + assert (r1 = OK) as ->
        by (destruct (decide (r1 = OK)); [done|by destruct Heq]).
      apply IH in Hrun. destruct x as [r|[[r stable'] total']].
      * destruct Hrun as (Hr & pre & c & Hlen & Hhist). split; [done|].
        exists (c1 :: pre), c. split; [simpl; lia|].
        rewrite Hhist, H1, <- app_assoc. done.
      * destruct Hrun as (Hr & coverages & Hlen & Hhist & -> & ->).
        split; [by destruct Hr; right|].
        exists (c1 :: coverages). split_and!; [simpl; lia| |done|done].
        rewrite Hhist, H1, <- app_assoc. done.
Qed.

Lemma grows_refl s : grows s s.
Proof. by unfold grows. Qed.

Lemma grows_RunSampleAndGetCoverage sample init_timeout timeout :
  preserves grows (RunSampleAndGetCoverage sample init_timeout timeout).
Proof.
  intros s0 s Hs.
  destruct (RunSampleAndGetCoverage sample init_timeout timeout s)
    as [[[r c] s']| |] eqn:Hrun; [|done..].
  apply RunSampleAndGetCoverage_history in Hrun. unfold grows in *.
  rewrite Hrun. by apply prefix_app_r.
Qed.

(** A step that does not touch the history lets it grow. *)
Ltac grows_step :=
  first [apply preserves_modify; intros ? ? | apply preserves_call; intros ? ? ?
        | apply preserves_tell; intros ? ? ?];
  unfold grows; simpl; done.

Ltac grows_frame := repeat frame_step; auto with frame; try grows_step.

Lemma grows_TrimSample_loop fuel sample stable_coverage init_timeout timeout :
  ∀ trim_step trimmed_size test_sample,
    preserves grows
      (TrimSample_loop fuel sample stable_coverage init_timeout timeout
         trim_step trimmed_size test_sample).
Proof.
  induction fuel as [|fuel IH]; intros trim_step trimmed_size test_sample;
    simpl; [apply preserves_out_of_fuel|].
  pose proof grows_RunSampleAndGetCoverage. grows_frame.
Qed.

Lemma grows_RunSample_accept sample has_new_coverage stableCoverage trim
    report_to_server init_timeout timeout :
  preserves grows
    (RunSample_accept sample has_new_coverage stableCoverage trim
       report_to_server init_timeout timeout).
Proof.
  pose proof grows_TrimSample_loop.
  unfold RunSample_accept, TrimSample. grows_frame.
Qed.

Lemma keeps_fuzzer_coverage_RunSample_accept sample has_new_coverage
    stableCoverage trim report_to_server init_timeout timeout :
  preserves (keeps fuzzer_coverage)
    (RunSample_accept sample has_new_coverage stableCoverage trim
       report_to_server init_timeout timeout).
Proof.
  pose proof (keeps_TrimSample (fuzzer_coverage (E := E) (Context := Context))
                sample stableCoverage init_timeout timeout
                ltac:(by apply execution_independent_intro)).
  unfold RunSample_accept.
  repeat frame_step; auto;
    (first [apply preserves_modify; intros ? ? | apply preserves_call; intros ? ? ?
           | apply preserves_tell; intros ? ? ?]; unfold keeps; simpl; done).
Qed.

Lemma corpus_execution_independent : execution_independent corpus.
Proof. by apply execution_independent_intro. Qed.

Lemma InterestingSample_run sample stableCoverage variableCoverage s :
  InterestingSample sample stableCoverage variableCoverage s
  = Ok ((if coverage_empty (stableCoverage ∖ fuzzer_coverage s) then 0 else 1,
         stableCoverage ∖ fuzzer_coverage s,
         variableCoverage ∖ fuzzer_coverage s),
        set_fuzzer_coverage
          (fuzzer_coverage s ∪ stableCoverage ∖ fuzzer_coverage s
           ∪ variableCoverage ∖ fuzzer_coverage s) s).
Proof. reflexivity. Qed.

Lemma RunSample_accept_pointee sample has_new_coverage stableCoverage trim
    report_to_server init_timeout timeout s sample' pointee s' :
  RunSample_accept sample has_new_coverage stableCoverage trim
    report_to_server init_timeout timeout s = Ok ((sample', pointee), s') →
  pointee = (fun _ => 1) <$> has_new_coverage.
Proof.
  unfold RunSample_accept. intros Hrun.
  repeat (apply bind_Ok in Hrun as (? & ? & _ & Hrun)).
  by apply ret_Ok in Hrun as [[= _ ->] _].
Qed.

(** *** Scheduling *)

Lemma SynchronizeAndGetJob_dispense_FUZZ job s job' s' :
  SynchronizeAndGetJob_dispense job s = Ok (job', s') →
  FuzzerJob.type job' = FUZZ →
  state s = FUZZING ∧ state s' = FUZZING
  ∧ ∃ top rest,
      queue_extract (sample_queue s) = Some (top, rest)
      ∧ FuzzerJob.entry job' = Some top
      ∧ s' = (if decide (SampleQueueEntry.priority top < min_priority s)
              then set_min_priority (SampleQueueEntry.priority top)
                     (set_sample_queue rest s)
              else set_sample_queue rest s).
Proof.
  unfold SynchronizeAndGetJob_dispense, bind, get, modify, ret, Load. simpl.
  destruct (state s) eqn:Hstate.
  - destruct (input_files s); intros [= <- <-]; done.
  - destruct (server_samples s); intros [= <- <-]; done.
  - destruct (queue_extract (sample_queue s)) as [[top rest]|];
      intros [= <- <-]; [|done].
    intros _. split; [done|]. split.
    + by destruct (decide _).
    + exists top, rest. split_and!; try done; by destruct (decide _).
Qed.

(** A step that sets a field keeps a given observation of other fields. *)
Ltac keeps_field :=
  first [apply preserves_modify; intros ? ? | apply preserves_call; intros ? ? ?
        | apply preserves_tell; intros ? ? ?];
  unfold keeps; simpl; repeat case_decide; simpl; done.

Ltac keeps_fields := repeat frame_step; auto with frame; try keeps_field.

Lemma keeps_state_dispense job :
  preserves (keeps state) (SynchronizeAndGetJob_dispense job).
Proof. unfold SynchronizeAndGetJob_dispense. keeps_fields. Qed.

(** The whole of [TrimSample]: it ends within its bound, and what it
    returns comes from a search as the specification words it. *)
Lemma TrimSample_search (sample : Sample) (stable_coverage : Coverage)
    (init_timeout timeout : Z) (s : machine) :
  0 ≤ TRIM_STEP_INITIAL < 2 ^ 31 →
  match TrimSample sample stable_coverage init_timeout timeout s with
  | OutOfFuel => False
  | Fatal _ => True
  | Ok (sample', s') =>
      ∃ runs trimmed_size,
        history s' = history s ++ runs
        ∧ trim_runs sample stable_coverage TRIM_STEP_INITIAL (size sample)
            runs trimmed_size
        ∧ (trimmed_size ≤ size sample)%nat
        ∧ sample' = take trimmed_size sample
        ∧ (size sample' ≤ size sample)%nat
        ∧ Forall (fun x : Execution =>
                    ∃ j, (0 < j < size sample)%nat ∧ x.1.1 = take j sample)
            runs
        ∧ (∀ pre x, runs = pre ++ [x] →
                    Forall (fun y : Execution => y.1.2 = OK) pre)
        ∧ ((trimmed_size < size sample)%nat →
           ∃ coverage, (take trimmed_size sample, OK, coverage) ∈ runs
                       ∧ stable_coverage ⊆ coverage)
  end.
Proof.
  intros Hstep. unfold TrimSample.
  assert (∀ runs k,
            trim_runs sample stable_coverage TRIM_STEP_INITIAL (size sample)
              runs k →
            (k ≤ size sample)%nat
            ∧ (size (take k sample) ≤ size sample)%nat
            ∧ Forall (fun x : Execution =>
                        ∃ j, (0 < j < size sample)%nat ∧ x.1.1 = take j sample)
                runs
            ∧ (∀ pre x, runs = pre ++ [x] →
                        Forall (fun y : Execution => y.1.2 = OK) pre)
            ∧ ((k < size sample)%nat →
               ∃ coverage, (take k sample, OK, coverage) ∈ runs
                           ∧ stable_coverage ⊆ coverage)) as Hfacts.
  { intros runs k Hruns. split_and!.
    - by eapply trim_runs_le.
    - unfold size. rewrite length_take. lia.
    - eapply trim_runs_candidates; [|done]. lia.
    - by eapply trim_runs_OK_until_last.
    - by eapply trim_runs_accepted. }
  destruct (decide (size sample ≤ 1)%nat) as [Hsmall|Hbig].
  { exists [], (size sample). rewrite app_nil_r.
    assert (trim_runs sample stable_coverage TRIM_STEP_INITIAL (size sample)
              [] (size sample)) as Hruns by (by apply trim_small).
    destruct (Hfacts _ _ Hruns) as (? & ? & ? & ? & ?).
    split_and!; first [done | by rewrite take_ge | simpl; lia]. }
  pose proof (TrimSample_loop_spec sample stable_coverage init_timeout timeout
                (TrimSample_fuel sample) TRIM_STEP_INITIAL (size sample) s)
    as Hloop.
  rewrite take_ge in Hloop by done. unfold bind.
  destruct (TrimSample_loop _ _ _ _ _ _ _ _ s) as [[k s']|msg|];
    [|done|apply Hloop; unfold TrimSample_fuel; lia].
  destruct Hloop as (runs & Hhist & Hruns); [lia|lia|unfold TrimSample_fuel; lia|].
  destruct (Hfacts _ _ Hruns) as (Hle & Hsz & Hcand & Hok & Hacc).
  simpl. exists runs, k.
  assert ((if decide (k < size sample)%nat then Trim k sample else sample)
          = take k sample) as ->.
  { destruct (decide (k < size sample)%nat); [done|].
    rewrite take_ge; [done|]. unfold size in *. lia. }
  split_and!; done.
Qed.

(** *** The lowest priority seen *)










(** *** Persistence *)

Lemma Z_of_byte_of_Z z : Z_of_byte (byte_of_Z z) = z mod 256.
Proof.
  unfold Z_of_byte, byte_of_Z.
  assert (0 ≤ z mod 256 < 256) as Hz by (apply Z.mod_pos_bound; lia).
  destruct (Byte.of_N (Z.to_N (z mod 256))) as [b|] eqn:Hb; simpl.
  - apply Byte.to_of_N in Hb. rewrite Hb. lia.
  - apply Byte.of_N_None_iff in Hb. lia.
Qed.

Lemma length_encode_le n z : length (encode_le n z) = n.
Proof. revert z. induction n as [|n IH]; intros z; simpl; [done|]. by rewrite IH. Qed.

Lemma decode_encode_le n z : decode_le (encode_le n z) = z mod 256 ^ Z.of_nat n.
Proof.
  revert z. induction n as [|n IH]; intros z.
  - simpl. by rewrite Z.mod_1_r.
  - cbn [encode_le decode_le]. rewrite IH, Z_of_byte_of_Z.
    rewrite Nat2Z.inj_succ, Z.pow_succ_r by lia.
    rewrite (Z.rem_mul_r z 256 (256 ^ Z.of_nat n)) by lia. done.
Qed.

Lemma decode_encode_u64 z : 0 ≤ z < 2 ^ 64 → decode_le (encode_le 8 z) = z.
Proof. intros Hz. rewrite decode_encode_le. apply Z.mod_small. simpl. lia. Qed.

Lemma fread8_app {A} (decode : list byte → A) old (object rest : list byte) :
  length object = 8%nat →
  fread8 decode old (object ++ rest) = (decode object, rest).
Proof.
  intros Hlen. unfold fread8.
  rewrite decide_True by (rewrite length_app; lia).
  rewrite take_app_length' by done. by rewrite drop_app_length' by done.
Qed.

Opaque encode_le.

Lemma SaveState_run s :
  state s ≠ INPUT_SAMPLE_PROCESSING →
  SaveState s
  = Ok (tt, set_files (<[state_file (opts s) := snapshot s]> (files s)) s).
Proof.
  intros Hstate. unfold SaveState, bind, get, fopen_wb, fwrite, modify.
  rewrite decide_False by done. simpl.
  rewrite !lookup_insert_eq, !insert_insert_eq. simpl.
  unfold snapshot. by rewrite <- !app_assoc.
Qed.

Lemma RestoreState_loop_run n :
  ∀ i r,
    RestoreState_loop n i r
    = Ok (tt,
          set_sample_queue
            (rev (map (restored_entry (opts r) (files r) (min_priority r))
                    (seqZ i (Z.of_nat n)))
             ++ sample_queue r)
            (set_all_samples
               (all_samples r
                ++ map (stored_sample (opts r) (files r)) (seqZ i (Z.of_nat n)))
               r)).
Proof.
  induction n as [|n IH]; intros i r.
  - simpl. rewrite app_nil_r. by destruct r.
  - cbn [RestoreState_loop]. unfold bind, get, modify, Load. simpl.
    rewrite IH. simpl.
    rewrite (seqZ_cons i (Z.of_nat (S n))) by lia.
    replace (Z.pred (Z.of_nat (S n))) with (Z.of_nat n) by lia.
    replace (Z.succ i) with (i + 1) by lia.
    simpl. unfold queue_push. rewrite <- !app_assoc. done.
Qed.

(** *** The crash cap across the engine *)

Lemma crash_cap_Save_elsewhere path sample s :
  (∀ name, path ≠ DirJoin (crash_dir (opts s)) name) →
  crash_cap s → crash_cap (set_files (<[path := sample]> (files s)) s).
Proof.
  intros Hpath [Hreg Hfiles]. split; [done|]. intros name. simpl.
  rewrite lookup_insert_ne by done. apply Hfiles.
Qed.

Lemma crash_dir_not_sample_dir o name name' :
  DirJoin (sample_dir o) name' ≠ DirJoin (crash_dir o) name.
Proof.
  unfold crash_dir, sample_dir, DirJoin. rewrite <- !app_assoc. simpl.
  intros Heq. by apply app_inv_head in Heq.
Qed.

Lemma crash_dir_not_state_file o name :
  state_file o ≠ DirJoin (crash_dir o) name.
Proof.
  unfold state_file, crash_dir, DirJoin. rewrite <- !app_assoc. simpl.
  intros Heq. by apply app_inv_head in Heq.
Qed.

(** A step that leaves the options, the registry and the files alone
    leaves the crash cap alone. *)
Ltac capped_step :=
  first [apply preserves_modify; intros ? ? | apply preserves_call; intros ? ? ?
        | apply preserves_tell; intros ? ? ?];
  unfold still_capped;
  let H := fresh in let Hc := fresh in
  intros H Hc; specialize (H Hc); revert H;
  repeat case_decide; apply crash_cap_ext; reflexivity.

Ltac capped_frame := repeat frame_step; auto with frame; try capped_step.

Lemma still_capped_RunSampleAndGetCoverage sample init_timeout timeout :
  1 ≤ MAX_IDENTICAL_CRASHES →
  preserves still_capped
    (RunSampleAndGetCoverage sample init_timeout timeout).
Proof.
  intros Hmax s0 s Hs.
  destruct (RunSampleAndGetCoverage sample init_timeout timeout s)
    as [[r s']| |] eqn:Hrun; [|done..].
  intros Hcap. eapply crash_cap_RunSampleAndGetCoverage; [done| |done].
  by apply Hs.
Qed.

Lemma still_capped_TrimSample_loop fuel sample stable_coverage init_timeout
    timeout :
  1 ≤ MAX_IDENTICAL_CRASHES →
  ∀ trim_step trimmed_size test_sample,
    preserves still_capped
      (TrimSample_loop fuel sample stable_coverage init_timeout timeout
         trim_step trimmed_size test_sample).
Proof.
  intros Hmax.
  induction fuel as [|fuel IH]; intros trim_step trimmed_size test_sample;
    simpl; [apply preserves_out_of_fuel|].
  pose proof (still_capped_RunSampleAndGetCoverage) as Hrun. capped_frame.
Qed.

Lemma still_capped_RunSample_retry n sample init_timeout timeout :
  1 ≤ MAX_IDENTICAL_CRASHES →
  ∀ result stableCoverage totalCoverage,
    preserves still_capped
      (RunSample_retry n sample result stableCoverage totalCoverage
         init_timeout timeout).
Proof.
  intros Hmax.
  induction n as [|n IH]; intros result stableCoverage totalCoverage;
    simpl; [apply preserves_ret|].
  pose proof (still_capped_RunSampleAndGetCoverage) as Hrun. capped_frame.
Qed.

Lemma still_capped_elim {A} (m : M A) s a s' :
  preserves still_capped m → crash_cap s → m s = Ok (a, s') → crash_cap s'.
Proof.
  intros Hm Hcap Hrun.
  by apply (preserves_elim still_capped m s a s' Hm (fun H => H) Hrun).
Qed.

Lemma crash_cap_RunSample_accept sample has_new_coverage stableCoverage
    trim report_to_server init_timeout timeout s x s' :
  1 ≤ MAX_IDENTICAL_CRASHES →
  crash_cap s →
  RunSample_accept sample has_new_coverage stableCoverage trim
    report_to_server init_timeout timeout s = Ok (x, s') →
  crash_cap s'.
Proof.
  intros Hmax Hcap Hrun. unfold RunSample_accept in Hrun.
  apply bind_Ok in Hrun as (sample' & s1 & H1 & Hrun).
  assert (crash_cap s1) as Hcap1.
  { revert H1. apply still_capped_elim; [|done].
    pose proof (still_capped_TrimSample_loop) as Hloop.
    unfold TrimSample. capped_frame. }
  apply bind_Ok in Hrun as (o & s2 & H2 & Hrun). apply get_Ok in H2 as [-> ->].
  apply bind_Ok in Hrun as (n & s3 & H3 & Hrun). apply get_Ok in H3 as [-> ->].
  apply bind_Ok in Hrun as ([] & s4 & H4 & Hrun). apply modify_Ok in H4.
  assert (crash_cap s4) as Hcap4.
  { subst s4. apply crash_cap_Save_elsewhere; [|done].
    intros name'. apply crash_dir_not_sample_dir. }
  revert Hrun. apply still_capped_elim; [|done]. capped_frame.
Qed.

Lemma crash_cap_RunSample sample has_new_coverage trim report_to_server
    init_timeout timeout s x s' :
  1 ≤ MAX_IDENTICAL_CRASHES →
  crash_cap s →
  RunSample sample has_new_coverage trim report_to_server init_timeout
    timeout s = Ok (x, s') →
  crash_cap s'.
Proof.
  intros Hmax Hcap. apply still_capped_elim; [|done].
  pose proof (still_capped_RunSampleAndGetCoverage) as Hrun.
  pose proof (still_capped_RunSample_retry) as Hretry.
  assert (∀ sample has_new_coverage stableCoverage,
            preserves still_capped
              (RunSample_accept sample has_new_coverage stableCoverage trim
                 report_to_server init_timeout timeout)) as Haccept.
  { intros sample0 hnc stable s0 s1 Hs.
    destruct (RunSample_accept _ _ _ _ _ _ _ s1) as [[y s2]| |] eqn:Hacc;
      [|done..].
    intros Hcap0. eapply crash_cap_RunSample_accept; [done| |done].
    by apply Hs. }
  unfold RunSample, InterestingSample. simpl. capped_frame.
Qed.

Lemma crash_cap_SaveState s s' :
  crash_cap s → SaveState s = Ok (tt, s') → crash_cap s'.
Proof.
  intros Hcap.
  destruct (decide (state s = INPUT_SAMPLE_PROCESSING)) as [Hstate|Hstate].
  - unfold SaveState, bind, get. rewrite Hstate. simpl. by intros [= <-].
  - rewrite SaveState_run by done. intros [= <-].
    apply crash_cap_Save_elsewhere; [|done].
    intros name. apply crash_dir_not_state_file.
Qed.

Lemma crash_cap_SynchronizeAndGetJob job s job' s' :
  crash_cap s → SynchronizeAndGetJob job s = Ok (job', s') → crash_cap s'.
Proof.
  intros Hcap. apply still_capped_elim; [|done].
  unfold SynchronizeAndGetJob, SynchronizeAndGetJob_sync,
    SynchronizeAndGetJob_update, SynchronizeAndGetJob_input,
    SynchronizeAndGetJob_server, SynchronizeAndGetJob_dispense, pull_updates.
  capped_frame.
Qed.

Lemma crash_cap_JobDone job s s' :
  crash_cap s → JobDone job s = Ok (tt, s') → crash_cap s'.
Proof.
  intros Hcap. apply still_capped_elim; [|done]. unfold JobDone. capped_frame.
Qed.

(** *** [RunSample] within the iteration bounds *)

Lemma within_fuel_RunSample_retry n sample init_timeout timeout :
  ∀ result stableCoverage totalCoverage,
    within_fuel
      (RunSample_retry n sample result stableCoverage totalCoverage
         init_timeout timeout).
Proof.
  induction n as [|n IH]; intros result stableCoverage totalCoverage; simpl.
  - apply within_fuel_ret.
  - pose proof (within_fuel_RunSampleAndGetCoverage sample init_timeout timeout).
    fuel.
Qed.

Lemma within_fuel_TrimSample sample stable_coverage init_timeout timeout :
  0 ≤ TRIM_STEP_INITIAL < 2 ^ 31 →
  within_fuel (TrimSample sample stable_coverage init_timeout timeout).
Proof.
  intros Hstep s Hrun.
  pose proof (TrimSample_search sample stable_coverage init_timeout timeout s
                Hstep) as Hsearch.
  by rewrite Hrun in Hsearch.
Qed.

Lemma within_fuel_RunSample sample has_new_coverage trim report_to_server
    init_timeout timeout :
  0 ≤ TRIM_STEP_INITIAL < 2 ^ 31 →
  within_fuel
    (RunSample sample has_new_coverage trim report_to_server init_timeout
       timeout).
Proof.
  intros Hstep.
  pose proof (within_fuel_RunSampleAndGetCoverage sample init_timeout timeout).
  pose proof (within_fuel_RunSample_retry SAMPLE_RETRY_TIMES sample
                init_timeout timeout).
  pose proof (fun sample stable => within_fuel_TrimSample sample stable
                                     init_timeout timeout Hstep).
  unfold RunSample, RunSample_accept, InterestingSample. simpl. fuel.
Qed.

(** *** The arithmetic of priorities *)

Lemma double_round_small (x : Z) : Z.abs x < 2 ^ 53 → double_round x = x.
Proof. intros Hx. unfold double_round. by rewrite decide_True. Qed.

(** What [double_round] does to a large integer: it yields a multiple of
    the unit in the last place, next to the integer. *)
Lemma double_round_large (x : Z) :
  2 ^ 53 ≤ Z.abs x →
  let ulp := 2 ^ (Z.log2 (Z.abs x) - 52) in
  let q := Z.abs x / ulp in
  let r := Z.abs x mod ulp in
  2 ≤ ulp ∧ Z.abs x = q * ulp + r ∧ 0 ≤ r < ulp
  ∧ ∃ q', double_round x = Z.sgn x * (q' * ulp)
          ∧ (q' = q ∧ 2 * r ≤ ulp ∨ q' = q + 1 ∧ ulp ≤ 2 * r).
Proof.
  intros Hx ulp q r.
  assert (53 ≤ Z.log2 (Z.abs x)) as Hlog.
  { change 53 with (Z.log2 (2 ^ 53)). by apply Z.log2_le_mono. }
  assert (2 ≤ ulp) as Hulp.
  { unfold ulp. change 2 with (2 ^ 1) at 1.
    apply Z.pow_le_mono_r; lia. }
  split; [exact Hulp|]. split.
  { unfold q, r. pose proof (Z.div_mod (Z.abs x) ulp). lia. }
  split; [apply Z.mod_pos_bound; lia|].
  unfold double_round. rewrite decide_False by lia. fold ulp q r.
  destruct (decide (2 * r < ulp)); [exists q; split; [done|left; lia]|].
  destruct (decide (ulp < 2 * r)); [exists (q + 1); split; [done|right; lia]|].
  destruct (Z.even q);
    [exists q; split; [done|left; lia]|exists (q + 1); split; [done|right; lia]].
Qed.

(** A large [double] is a multiple of every unit in the last place of an
    integer that is not larger in magnitude. *)
Lemma double_multiple (p a : Z) :
  double_round p = p → 2 ^ 53 ≤ Z.abs p →
  0 < a → Z.log2 a ≤ Z.log2 (Z.abs p) → 52 ≤ Z.log2 a →
  Z.abs p mod 2 ^ (Z.log2 a - 52) = 0.
Proof.
  intros Hp Hlarge Ha Hlog H52.
  destruct (double_round_large p Hlarge) as (Hulp & _ & _ & q' & Hq' & _).
  rewrite Hp in Hq'.
  assert (Z.abs p = q' * 2 ^ (Z.log2 (Z.abs p) - 52)) as Habs.
  { revert Hq'. generalize (2 ^ (Z.log2 (Z.abs p) - 52)). intros u Hq'.
    destruct (Z.sgn_spec p) as [[? Hs]|[[? Hs]|[? Hs]]];
      rewrite Hs in Hq'; lia. }
  rewrite Habs.
  replace (Z.log2 (Z.abs p) - 52)
    with ((Z.log2 (Z.abs p) - Z.log2 a) + (Z.log2 a - 52)) by lia.
  rewrite Z.pow_add_r by lia. rewrite Z.mul_assoc.
  apply Z.mod_mul. apply Z.pow_nonzero; lia.
Qed.

Lemma double_round_pred_exact (p : Z) :
  - 2 ^ 53 < p ≤ 2 ^ 53 → double_round (p - 1) = p - 1.
Proof.
  intros Hp. destruct (decide (p - 1 = - 2 ^ 53)) as [->|Hne].
  - vm_compute. reflexivity.
  - apply double_round_small. lia.
Qed.

(** Subtracting 1 from a [double] never gives a larger one. *)
Lemma double_round_pred_le (p : Z) :
  double_round p = p → double_round (p - 1) ≤ p.
Proof.
  intros Hp.
  destruct (decide (Z.abs (p - 1) < 2 ^ 53)) as [Hsmall|Hlarge].
  { rewrite double_round_small by done. lia. }
  assert (2 ^ 53 ≤ Z.abs (p - 1)) as Hx by lia.
  destruct (double_round_large (p - 1) Hx)
    as (Hulp & Hdiv & Hr & q' & -> & Hq').
  set (a := Z.abs (p - 1)) in *.
  set (ulp := 2 ^ (Z.log2 a - 52)) in *.
  set (q := a / ulp) in *. set (r := a mod ulp) in *.
  assert (53 ≤ Z.log2 a) as Hlog.
  { change 53 with (Z.log2 (2 ^ 53)). by apply Z.log2_le_mono. }
  destruct (decide (0 < p - 1)) as [Hpos|Hneg].
  - (* p = a + 1 *)
    assert (a = p - 1) as Ha by lia.
    rewrite Z.sgn_pos by done.
    destruct Hq' as [[-> _]|[-> Hhalf]]; [nia|].
    assert (Z.abs p mod ulp = 0) as Hmul.
    { apply double_multiple; try done; try lia.
      apply Z.log2_le_mono. lia. }
    rewrite Z.abs_eq in Hmul by lia.
    assert (p = q * ulp + (r + 1)) as Hp' by lia.
    rewrite Hp' in Hmul.
    rewrite Z.add_comm, Z.mod_add in Hmul by lia.
    destruct (decide (r + 1 = ulp)) as [Heq|Hne]; [nia|].
    rewrite Z.mod_small in Hmul by lia. lia.
  - (* p = 1 - a *)
    assert (a = 1 - p) as Ha by lia.
    rewrite Z.sgn_neg by lia.
    destruct Hq' as [[-> Hhalf]|[-> _]]; [|nia].
    enough (r ≤ 1) by nia.
    destruct (decide (Z.abs p < 2 ^ 53)) as [Hp53|Hp53].
    { assert (a = 2 ^ 53) as Ha53 by lia.
      unfold r, ulp. rewrite Ha53. vm_compute. discriminate. }
    destruct (decide (Z.log2 (Z.abs p) = Z.log2 a)) as [Hsame|Hless].
    + assert (Z.abs p mod ulp = 0) as Hmul
        by (apply double_multiple; try done; lia).
      rewrite Z.abs_neq in Hmul by lia.
      assert (- p = q * ulp + (r - 1)) as Hp' by lia.
      rewrite Hp' in Hmul.
      rewrite Z.add_comm, Z.mod_add in Hmul by lia.
      destruct (decide (r = 0)) as [->|Hr0]; [lia|].
      rewrite Z.mod_small in Hmul by lia. lia.
    + (* a is a power of two *)
      assert (Z.log2 (Z.abs p) < Z.log2 a) as Hlt.
      { assert (Z.log2 (Z.abs p) ≤ Z.log2 a)
          by (apply Z.log2_le_mono; lia). lia. }
      assert (a = 2 ^ Z.log2 a) as Hpow.
      { pose proof (Z.log2_spec a ltac:(lia)) as [Hlo Hhi].
        destruct (decide (a = 2 ^ Z.log2 a)) as [|Hne']; [done|].
        assert (2 ^ Z.log2 a ≤ Z.abs p) as Hle by lia.
        apply Z.log2_le_mono in Hle.
        rewrite Z.log2_pow2 in Hle by lia. lia. }
      unfold r, ulp. rewrite Hpow at 1.
      replace (Z.log2 a) with (52 + (Z.log2 a - 52)) at 1 by lia.
      rewrite Z.pow_add_r by lia.
      rewrite Z.mod_mul by (apply Z.pow_nonzero; lia). lia.
Qed.

(** ** Properties *)

(** *** The magic filter *)

Lemma MagicOutputFilter_loop_length n i magic (output_sample : Sample) :
  length (MagicOutputFilter_loop n i magic output_sample)
  = length output_sample.
Proof.
  revert i output_sample. induction n as [|n IH]; intros i out; simpl; [done|].
  destruct (decide _); [done|]. by rewrite IH, length_insert.
Qed.

Lemma MagicOutputFilter_loop_lookup n i magic (output_sample : Sample) j :
  (i + n ≤ length magic)%nat →
  MagicOutputFilter_loop n i magic output_sample !! j
  = if decide ((i ≤ j < i + n)%nat ∧ (j < size output_sample)%nat)
    then magic !! j else output_sample !! j.
Proof.
  revert i output_sample. induction n as [|n IH]; intros i out Hlen; simpl.
  - destruct (decide _) as [[? ?]|]; [lia|done].
  - unfold size in *. destruct (decide (length out ≤ i)%nat) as [Hge|Hlt].
    + destruct (decide _) as [[? ?]|]; [lia|done].
    + rewrite IH by lia. rewrite length_insert.
      destruct (lookup_lt_is_Some_2 magic i) as [b Hb]; [lia|].
      rewrite Hb. simpl.
      destruct (decide (i = j)) as [->|Hne].
      * rewrite list_lookup_insert_eq by lia.
        destruct (decide _) as [[? ?]|]; [lia|].
        destruct (decide _) as [[? ?]|]; [done|lia].
      * rewrite list_lookup_insert_ne by done.
        destruct (decide _) as [[? ?]|]; destruct (decide _) as [[? ?]|];
          done || lia.
Qed.

Lemma MagicOutputFilter_loop_overwrite (magic : list byte)
    (original_sample : Sample) :
  let n := (length magic `min` size original_sample)%nat in
  MagicOutputFilter_loop (length magic) 0 magic original_sample
  = take n magic ++ drop n original_sample.
Proof.
  intros n. apply list_eq; intros j.
  rewrite MagicOutputFilter_loop_lookup by lia.
  unfold size in *. subst n.
  destruct (decide ((0 ≤ j < 0 + length magic)%nat
                    ∧ (j < length original_sample)%nat)) as [[Hj Hlt]|Hn].
  - rewrite lookup_app_l by (rewrite length_take; lia).
    by rewrite lookup_take_lt by lia.
  - rewrite lookup_app_r by (rewrite length_take; lia).
    rewrite length_take, lookup_drop. f_equal. lia.
Qed.

(** C10: [MagicOutputFilter] returns false, and leaves the output sample
    as it was, exactly when the original sample is at least as long as the
    magic and starts with it; otherwise it returns true and the output
    sample is the original with its first min(k, size) bytes replaced by
    those of the magic, the other bytes and the size unchanged. *)
Theorem MagicOutputFilter_spec (original_sample output_sample : Sample)
    (magic : list byte) :
  let k := length magic in
  let r := MagicOutputFilter original_sample output_sample magic k in
  let n := (k `min` size original_sample)%nat in
  (r.1 = false ↔ (k ≤ size original_sample)%nat ∧ take k original_sample = magic)
  ∧ (if r.1 then
       r.2 = take n magic ++ drop n original_sample
       ∧ size r.2 = size original_sample
     else r.2 = output_sample).
Proof.
  intros k r n. subst r. unfold MagicOutputFilter, memcmp_eq.
  rewrite (take_ge magic k) by (subst k; lia).
  destruct (bool_decide_reflect (k ≤ size original_sample)%nat) as [Hk|Hk];
    [destruct (bool_decide_reflect (take k original_sample = magic))
       as [Hm|Hm]|]; simpl.
  - done.
  - split; [split; [discriminate|by intros [_ ?]]|].
    split; [apply MagicOutputFilter_loop_overwrite
           |apply MagicOutputFilter_loop_length].
  - split; [split; [discriminate|by intros [? _]]|].
    split; [apply MagicOutputFilter_loop_overwrite
           |apply MagicOutputFilter_loop_length].
Qed.

(** *** Priorities *)

(** C5 (amended): [AdjustSamplePriority] sets the priority to 0 when the
    run found new coverage and otherwise subtracts 1 from it as from a
    [double]: the priority becomes the [double] nearest to the priority
    minus 1.  This is the priority minus 1, which is strictly smaller,
    when the priority is above -2^53 and at most 2^53; for a priority
    that is a [double] it is never larger than the priority.  No other
    field of the entry changes. *)
Theorem AdjustSamplePriority_spec (entry : SampleQueueEntry)
    (found_new_coverage : Z) :
  let entry' := AdjustSamplePriority entry found_new_coverage in
  (if decide (found_new_coverage ≠ 0)
   then SampleQueueEntry.priority entry' = 0
   else SampleQueueEntry.priority entry'
        = double_round (SampleQueueEntry.priority entry - 1)
        ∧ (- 2 ^ 53 < SampleQueueEntry.priority entry ≤ 2 ^ 53 →
           SampleQueueEntry.priority entry'
           = SampleQueueEntry.priority entry - 1
           ∧ SampleQueueEntry.priority entry'
             < SampleQueueEntry.priority entry)
        ∧ (double_round (SampleQueueEntry.priority entry)
           = SampleQueueEntry.priority entry →
           SampleQueueEntry.priority entry'
           ≤ SampleQueueEntry.priority entry))
  ∧ entry' = SampleQueueEntry.set_priority (SampleQueueEntry.priority entry') entry
  ∧ SampleQueueEntry.sample entry' = SampleQueueEntry.sample entry
  ∧ SampleQueueEntry.context entry' = SampleQueueEntry.context entry
  ∧ SampleQueueEntry.context_initialized entry'
    = SampleQueueEntry.context_initialized entry
  ∧ SampleQueueEntry.sample_index entry' = SampleQueueEntry.sample_index entry
  ∧ SampleQueueEntry.num_runs entry' = SampleQueueEntry.num_runs entry
  ∧ SampleQueueEntry.num_newcoverage entry'
    = SampleQueueEntry.num_newcoverage entry
  ∧ SampleQueueEntry.num_hangs entry' = SampleQueueEntry.num_hangs entry
  ∧ SampleQueueEntry.num_crashes entry' = SampleQueueEntry.num_crashes entry.
Proof.
  unfold AdjustSamplePriority.
  destruct (decide (found_new_coverage ≠ 0)); simpl.
  - repeat split; done.
  - split; [|repeat split; done].
    split; [done|]. split.
    + intros Hrange. rewrite double_round_pred_exact by done. lia.
    + apply double_round_pred_le.
Qed.

(** *** Coverage bookkeeping *)

(** C1: [InterestingSample] takes the edges of the stable and of the
    variable coverage that are not in [fuzzer_coverage], adds both to
    [fuzzer_coverage], hands both back in place of its two coverage
    arguments, and answers true exactly when there is a new stable edge;
    new variable edges alone make it answer false. *)
Theorem InterestingSample_spec (sample : Sample)
    (stableCoverage variableCoverage : Coverage) (s : machine) :
  let known := fuzzer_coverage s in
  let new_stable := stableCoverage ∖ known in
  let new_variable := variableCoverage ∖ known in
  ∃ verdict : Z,
    InterestingSample sample stableCoverage variableCoverage s
    = Ok ((verdict, new_stable, new_variable),
          set_fuzzer_coverage (known ∪ new_stable ∪ new_variable) s)
    ∧ (verdict ≠ 0 ↔ new_stable ≠ ∅)
    ∧ (new_variable ≠ ∅ → new_stable = ∅ → verdict = 0).
Proof.
  intros known new_stable new_variable.
  exists (if coverage_empty new_stable then 0 else 1).
  split; [reflexivity|].
  unfold coverage_empty. destruct (bool_decide_reflect (new_stable = ∅)).
  - split; [|done]. split; [lia|done].
  - split; [|done]. split; [done|lia].
Qed.

(** *** Hangs *)

(** C9, as the code has it: when a run is classified [HANG], [num_hangs]
    is incremented and, if [save_hangs] is set, the sample is saved as
    [hang_<n>] in the hangs directory, where [n] is the value of
    [num_hangs] before the increment; no other file is written. *)
Theorem hang_saved_under_previous_count (sample : Sample)
    (init_timeout timeout : Z) (s s' : machine) (coverage : Coverage) :
  RunSampleAndGetCoverage sample init_timeout timeout s
  = Ok ((HANG, coverage), s') →
  num_hangs s' = u64 (num_hangs s + 1)
  ∧ files s'
    = if save_hangs (opts s)
      then <[DirJoin (hangs_dir (opts s)) (hang_filename (num_hangs s))
             := sample]> (files s)
      else files s.
Proof.
  intros Hrun.
  apply RunSampleAndGetCoverage_inv in Hrun as (s1 & s2 & s3 & H1 & H2 & H3 & ->).
  simpl in H2, H3. apply ret_Ok in H2 as [_ ->].
  unfold only_collab in H1. rewrite H1 in H3. clear H1.
  unfold RunSampleAndGetCoverage_hang, bind, get, modify, Save, ret in H3.
  simpl in H3. destruct (save_hangs (opts s)); injection H3 as <-; done.
Qed.

(** *** The crash registry *)

(** C3: with a maximum of at least one copy, recording a crash name
    that is unseen stores the count 1, increments [num_unique_crashes] and
    answers (true, 1); recording a name whose count is below the maximum
    increments the count and answers (true, new count); otherwise the
    answer is not to save.  [num_crashes] is incremented in all three
    cases, and by every execution classified as a crash.  Every call of
    the engine maintains the crash cap, which holds when nothing has been
    recorded or saved, and under which a file [<name>_<n>] of the crash
    directory has [n] between 1 and the maximum and at most the count of
    [name]. *)
Theorem crash_registry_spec :
  1 ≤ MAX_IDENTICAL_CRASHES →
  (∀ crash_desc s,
     match unique_crashes s !! crash_desc with
     | None =>
         record_crash crash_desc s
         = Ok ((true, 1),
               set_num_unique_crashes (u64 (num_unique_crashes s + 1))
                 (set_unique_crashes (<[crash_desc := 1]> (unique_crashes s))
                    (set_num_crashes (u64 (num_crashes s + 1)) s)))
     | Some count =>
         if decide (count < MAX_IDENTICAL_CRASHES) then
           record_crash crash_desc s
           = Ok ((true, count + 1),
                 set_unique_crashes
                   (<[crash_desc := count + 1]> (unique_crashes s))
                   (set_num_crashes (u64 (num_crashes s + 1)) s))
         else
           ∃ duplicates,
             record_crash crash_desc s
             = Ok ((false, duplicates),
                   set_num_crashes (u64 (num_crashes s + 1)) s)
     end)
  ∧ (∀ sample init_timeout timeout s coverage s',
       RunSampleAndGetCoverage sample init_timeout timeout s
       = Ok ((CRASH, coverage), s') →
       num_crashes s' = u64 (num_crashes s + 1))
  ∧ (∀ s s', rtc engine_call s s' → crash_cap s → crash_cap s')
  ∧ (∀ s, unique_crashes s = ∅ →
          (∀ name, files s !! DirJoin (crash_dir (opts s)) name = None) →
          crash_cap s)
  ∧ (∀ s crash_desc n,
       crash_cap s →
       is_Some (files s !! DirJoin (crash_dir (opts s))
                             (crash_filename crash_desc n)) →
       1 ≤ n ≤ MAX_IDENTICAL_CRASHES
       ∧ ∃ count, unique_crashes s !! crash_desc = Some count ∧ n ≤ count).
Proof.
  intros Hmax. split_and!.
  - intros crash_desc s.
    destruct (unique_crashes s !! crash_desc) as [count|] eqn:Hlook.
    + destruct (decide (count < MAX_IDENTICAL_CRASHES)) as [Hlt|Hge].
      * by apply record_crash_below.
      * exists 0. by apply (record_crash_capped _ count).
    + by apply record_crash_unseen.
  - intros sample init_timeout timeout s coverage s' Hrun.
    apply RunSampleAndGetCoverage_inv in Hrun
      as (s1 & s2 & s3 & H1 & H2 & H3 & ->).
    simpl in H2, H3. apply ret_Ok in H3 as [_ ->].
    apply crash_block_num_crashes in H2.
    unfold only_collab in H1. rewrite H1 in H2. simpl in *. done.
  - intros s s' Hcalls.
    induction Hcalls as [|s s1 s2 Hcall _ IH]; [done|].
    intros Hcap. apply IH. clear IH.
    destruct Hcall as [sample init_timeout timeout s x s1 Hrun
                      |sample hnc trim report init_timeout timeout s x s1 Hrun
                      |job s job' s1 Hrun
                      |job s s1 Hrun
                      |s s1 Hrun].
    + by eapply crash_cap_RunSampleAndGetCoverage.
    + by eapply crash_cap_RunSample.
    + by eapply crash_cap_SynchronizeAndGetJob.
    + by eapply crash_cap_JobDone.
    + by eapply crash_cap_SaveState.
  - intros s Hreg Hfiles. split.
    + intros d c. by rewrite Hreg, lookup_empty.
    + intros name. rewrite Hfiles. by intros [? ?].
  - intros s crash_desc n [Hreg Hfiles] Hfile.
    destruct (Hfiles _ Hfile) as (d & n' & count & Heq & Hd & Hn).
    apply crash_filename_inj in Heq as [<- <-].
    pose proof (Hreg _ _ Hd). split; [lia|]. exists count. split; [done|lia].
Qed.

(** *** Trimming *)

(** C4: with an initial step that is a non-negative [int], [TrimSample]
    does not exhaust its loop, and it returns whenever samples can be
    delivered to the target; the sample it leaves is the original cut to
    the size accepted last, hence never longer.  The runs
    it makes are a search as the specification words it: every candidate
    is the original cut at its tail to a size below the accepted one, a
    candidate is accepted only when its run is OK and its coverage
    contains the stable coverage, a rejected candidate halves the step and
    goes back to the accepted size, and a run that is not OK is the last
    one. *)
Theorem TrimSample_spec (sample : Sample) (stable_coverage : Coverage)
    (init_timeout timeout : Z) (s : machine) :
  0 ≤ TRIM_STEP_INITIAL < 2 ^ 31 →
  TrimSample sample stable_coverage init_timeout timeout s ≠ OutOfFuel
  ∧ (reliable_delivery →
     ∀ msg,
       TrimSample sample stable_coverage init_timeout timeout s ≠ Fatal msg)
  ∧ ∀ sample' s',
      TrimSample sample stable_coverage init_timeout timeout s
      = Ok (sample', s') →
      ∃ runs trimmed_size,
        history s' = history s ++ runs
        ∧ trim_runs sample stable_coverage TRIM_STEP_INITIAL (size sample)
            runs trimmed_size
        ∧ (trimmed_size ≤ size sample)%nat
        ∧ sample' = take trimmed_size sample
        ∧ (size sample' ≤ size sample)%nat
        ∧ Forall (fun x : Execution =>
                    ∃ j, (0 < j < size sample)%nat ∧ x.1.1 = take j sample)
            runs
        ∧ (∀ pre x, runs = pre ++ [x] →
                    Forall (fun y : Execution => y.1.2 = OK) pre)
        ∧ ((trimmed_size < size sample)%nat →
           ∃ coverage, (take trimmed_size sample, OK, coverage) ∈ runs
                       ∧ stable_coverage ⊆ coverage).
Proof.
  intros Hstep.
  pose proof (TrimSample_search sample stable_coverage init_timeout timeout s
                Hstep) as Hsearch.
  split_and!.
  - intros Hrun. by rewrite Hrun in Hsearch.
  - intros Hdeliver msg. by apply never_fatal_TrimSample.
  - intros sample' s' Hrun. by rewrite Hrun in Hsearch.
Qed.

(** *** Stabilization *)

(** C2: [RunSample] stays within its iteration bounds when the initial
    trim step is a non-negative [int], and it returns whenever samples can
    be delivered to the target.  A call that returns has gone one of two
    ways.
    Either it returned early: its executions of the sample are some OK
    runs, at most [SAMPLE_RETRY_TIMES] of them, and a last run whose
    result it returns, this last run being not OK or being the initial
    run with an empty coverage; then the known coverage and the corpus are
    as before and the sample is not reported as new.  Or the initial run
    was OK with a coverage that is not empty and so were all
    [SAMPLE_RETRY_TIMES] retries; then the stable coverage is what every
    run covered, the total coverage what some run covered, the variable
    coverage their difference, and the stable and the variable coverage
    are what is offered for acceptance: their new edges join the known
    coverage, and the sample is new exactly when a stable edge is new.
    The call goes on from the state after the runs with
    [InterestingSample] on the stable and the variable coverage, then the
    acceptance block when a stable edge is new, and ends by reporting the
    new edges of the variable coverage and ignoring the total
    coverage. *)
Theorem RunSample_spec (sample : Sample) (has_new_coverage : option Z)
    (trim report_to_server : bool) (init_timeout timeout : Z) (s : machine) :
  (0 ≤ TRIM_STEP_INITIAL < 2 ^ 31 →
   RunSample sample has_new_coverage trim report_to_server init_timeout
     timeout s ≠ OutOfFuel)
  ∧ (reliable_delivery →
     ∀ msg,
       RunSample sample has_new_coverage trim report_to_server init_timeout
         timeout s ≠ Fatal msg)
  ∧ ∀ result sample' pointee s',
  RunSample sample has_new_coverage trim report_to_server init_timeout
    timeout s = Ok ((result, sample', pointee), s') →
  let known := fuzzer_coverage s in
  (∃ pre c,
     history s' = history s ++ OK_runs sample pre ++ [(sample, result, c)]
     ∧ (length pre ≤ SAMPLE_RETRY_TIMES)%nat
     ∧ (result ≠ OK ∨ (pre = [] ∧ c = ∅))
     ∧ corpus s' = corpus s
     ∧ sample' = sample
     ∧ pointee = (fun _ => 0) <$> has_new_coverage)
  ∨ (result = OK
     ∧ ∃ coverages rest stable total,
         length coverages = S SAMPLE_RETRY_TIMES
         ∧ history s' = history s ++ OK_runs sample coverages ++ rest
         ∧ head coverages ≠ Some ∅
         ∧ (∀ e, e ∈ stable ↔ in_every coverages e)
         ∧ (∀ e, e ∈ total ↔ in_some coverages e)
         ∧ fuzzer_coverage s'
           = known ∪ stable ∖ known ∪ (total ∖ stable) ∖ known
         ∧ pointee
           = (fun _ => if decide (stable ∖ known = ∅) then 0 else 1)
             <$> has_new_coverage
         ∧ (stable ∖ known = ∅ →
            rest = [] ∧ sample_queue s' = sample_queue s
            ∧ num_samples s' = num_samples s ∧ sample' = sample)
         ∧ ∃ s_runs verdict s_offered s_accepted,
             history s_runs = history s ++ OK_runs sample coverages
             ∧ InterestingSample sample stable (total ∖ stable) s_runs
               = Ok ((verdict, stable ∖ known, (total ∖ stable) ∖ known),
                     s_offered)
             ∧ (if decide (stable ∖ known = ∅) then s_accepted = s_offered
                else RunSample_accept sample
                       ((fun _ => 0) <$> has_new_coverage) (stable ∖ known)
                       trim report_to_server init_timeout timeout s_offered
                     = Ok ((sample', pointee), s_accepted))
             ∧ s' = reported ((total ∖ stable) ∖ known) total
                      report_to_server s_accepted).
Proof.
  split_and!.
  { intros Hstep. by apply within_fuel_RunSample. }
  { intros Hdeliver msg. by apply never_fatal_RunSample. }
  intros result sample' pointee s' Hrun known.
  unfold RunSample in Hrun. simpl in Hrun.
  apply bind_Ok in Hrun as ([r0 c0] & s1 & H1 & Hrun).
  pose proof (preserves_elim (keeps corpus) _ _ _ _
                (keeps_RunSampleAndGetCoverage corpus _ _ _
                   corpus_execution_independent) eq_refl H1) as Hc1.
  apply RunSampleAndGetCoverage_history in H1 as Hh1.
  destruct (decide (r0 ≠ OK)) as [Hne|Heq].
  { apply ret_Ok in Hrun as [[= -> -> ->] ->]. left.
    exists [], c0. split_and!; first [done | simpl; lia | by left]. }
  assert (r0 = OK) as -> by (destruct (decide (r0 = OK)); [done|by destruct Heq]).
  unfold coverage_empty in Hrun.
  destruct (bool_decide_reflect (c0 = ∅)) as [->|Hc0].
  { apply ret_Ok in Hrun as [[= -> -> ->] ->]. left.
    exists [], ∅. split_and!; first [done | simpl; lia | by right]. }
  apply bind_Ok in Hrun as ([] & s2 & H2 & Hrun). apply modify_Ok in H2.
  apply bind_Ok in Hrun as (retried & s3 & H3 & Hrun).
  pose proof (preserves_elim (keeps corpus) _ _ _ _
                (keeps_RunSample_retry corpus _ _ _ _ _ _ _
                   corpus_execution_independent) eq_refl H3) as Hc3.
  apply RunSample_retry_spec in H3.
  assert (corpus s3 = corpus s) as Hcorpus.
  { unfold keeps in *. rewrite Hc3, H2. simpl. exact Hc1. }
  assert (history s2 = history s ++ [(sample, OK, c0)]) as Hh2
    by (by rewrite H2).
  destruct retried as [r|[[r stable] total]].
  - destruct H3 as (Hr & pre & c & Hlen & Hhist).
    apply ret_Ok in Hrun as [[= -> -> ->] ->]. left.
    exists (c0 :: pre), c.
    split_and!;
      first [done | simpl; lia | by left
            | by rewrite Hhist, Hh2, <- app_assoc].
  - destruct H3 as (Hr & coverages & Hlen & Hhist & -> & ->).
    apply bind_Ok in Hrun as ([[interesting stable'] variable'] & s4 & H4 & Hrun).
    rewrite InterestingSample_run in H4.
    injection Hcorpus as Hknown Hqueue Hall Hnum.
    unfold CoverageDifference in H4. rewrite Hknown in H4. fold known in H4.
    set (stable := foldl (∩) c0 coverages) in *.
    set (total := foldl (∪) c0 coverages) in *.
    injection H4 as <- <- <- <-.
    set (s4 := set_fuzzer_coverage _ s3) in Hrun.
    apply bind_Ok in Hrun as ([sample2 pointee2] & s5 & H5 & Hrun).
    apply bind_Ok in Hrun as (o & s6 & H6 & Hrun).
    apply get_Ok in H6 as [-> ->].
    apply bind_Ok in Hrun as ([] & s7 & H7 & Hrun).
    apply bind_Ok in Hrun as ([] & s8 & H8 & Hrun). apply modify_Ok in H8.
    apply ret_Ok in Hrun as [[= -> -> ->] ->]. subst s8.
    assert (set_collab (IgnoreCoverage ops total (collab s7)) s7
            = reported ((total ∖ stable) ∖ known) total report_to_server s5)
      as Hreported.
    { unfold reported.
      destruct (negb _ && server (opts s5) && report_to_server).
      - apply modify_Ok in H7. by rewrite H7.
      - by apply ret_Ok in H7 as [_ ->]. }
    assert (InterestingSample sample stable (total ∖ stable) s3
            = Ok ((if coverage_empty (stable ∖ known) then 0 else 1,
                   stable ∖ known, (total ∖ stable) ∖ known), s4))
      as Hoffered.
    { rewrite InterestingSample_run. by rewrite Hknown. }
    assert (history s3 = history s ++ OK_runs sample (c0 :: coverages))
      as Hruns by (by simpl; rewrite Hhist, Hh2, <- app_assoc).
    assert (s7 = s5 ∨ ∃ e, s7 = set_collab e s5) as H57.
    { destruct (_ && _).
      - right. apply modify_Ok in H7. eauto.
      - left. by apply ret_Ok in H7 as [_ ->]. }
    assert (∀ {B} (f : machine → B), (∀ v s, f (set_collab v s) = f s) →
            f (set_collab (IgnoreCoverage ops total (collab s7)) s7) = f s5)
      as Htail.
    { intros B f Hf. rewrite Hf. destruct H57 as [->|[e ->]]; [done|apply Hf]. }
    right. split; [by destruct Hr|].
    assert (r = OK) as -> by (by destruct Hr).
    unfold coverage_empty in H5.
    destruct (bool_decide_reflect (stable ∖ known = ∅)) as [Hold|Hnew].
    + simpl in H5. apply ret_Ok in H5 as [[= -> ->] ->].
      exists (c0 :: coverages), [], stable, total.
      rewrite (Htail _ fuzzer_coverage), (Htail _ history),
        (Htail _ sample_queue), (Htail _ num_samples) by done.
      split_and!;
        first [done | simpl; lia
              | by simpl; rewrite Hhist, Hh2, <- app_assoc, app_nil_r
              | by simpl; intros [= ->]
              | by intros e; apply elem_of_foldl_intersection
              | by intros e; apply elem_of_foldl_union
              | by destruct has_new_coverage; simpl; rewrite ?decide_True
              | idtac].
      exists s3, (if coverage_empty (stable ∖ known) then 0 else 1), s4, s4.
      rewrite decide_True by done.
      split; [exact Hruns|]. split; [exact Hoffered|].
      split; [done|exact Hreported].
    + simpl in H5.
      pose proof (RunSample_accept_pointee _ _ _ _ _ _ _ _ _ _ _ H5) as ->.
      pose proof (preserves_elim (keeps fuzzer_coverage) _ _ _ _
                    (keeps_fuzzer_coverage_RunSample_accept _ _ _ _ _ _ _)
                    eq_refl H5) as Hfc.
      pose proof (preserves_elim grows _ _ _ _
                    (grows_RunSample_accept _ _ _ _ _ _ _)
                    (grows_refl _) H5) as [rest Hrest].
      exists (c0 :: coverages), rest, stable, total.
      rewrite (Htail _ fuzzer_coverage), (Htail _ history) by done.
      split_and!;
        first [done | simpl; lia
              | by rewrite Hrest; simpl; rewrite Hhist, Hh2, <- !app_assoc
              | by simpl; intros [= ->]
              | by intros e; apply elem_of_foldl_intersection
              | by intros e; apply elem_of_foldl_union
              | by destruct has_new_coverage; simpl; rewrite ?decide_False
              | idtac].
      exists s3, (if coverage_empty (stable ∖ known) then 0 else 1), s4, s5.
      rewrite decide_False by done.
      split; [exact Hruns|]. split; [exact Hoffered|].
      split; [exact H5|exact Hreported].
Qed.

(** *** The phases *)

(** C6: in the phase [INPUT_SAMPLE_PROCESSING], with no input file left
    and no sample pending, job acquisition first extends the worker's view
    of the corpus and skips the server update; then, with an empty corpus
    queue, it is fatal; otherwise, with a server, the known coverage is
    reported, a batch of server samples is pulled and the phase becomes
    [SERVER_SAMPLE_PROCESSING], and without a server the phase becomes
    [FUZZING]; the rest of the acquisition goes on from that state, so that
    the phase in which it returns is [SERVER_SAMPLE_PROCESSING] when a
    server is configured and the batch is not empty, and [FUZZING]
    otherwise.  And whenever job acquisition hands out a [FUZZ] job, the
    phase is [FUZZING]. *)
Theorem SynchronizeAndGetJob_phases :
  (∀ job s,
     state s = INPUT_SAMPLE_PROCESSING → input_files s = [] →
     samples_pending s = 0 →
     ∃ s0,
       SynchronizeAndGetJob_sync s = Ok (tt, s0)
       ∧ s0 = set_all_samples_local (all_samples_local s0) s
       ∧ SynchronizeAndGetJob_update s0 = Ok (tt, s0)
       ∧ if decide (sample_queue s = []) then
           SynchronizeAndGetJob job s = Fatal "No interesting input files"
         else
           let s1 := if server (opts s)
                     then input_phase_ended_with_server s0
                     else set_state FUZZING s0 in
           SynchronizeAndGetJob_input s0 = Ok (tt, s1)
           ∧ state s1 = (if server (opts s) then SERVER_SAMPLE_PROCESSING
                         else FUZZING)
           ∧ SynchronizeAndGetJob job s
             = bind SynchronizeAndGetJob_server
                 (fun _ => SynchronizeAndGetJob_dispense job) s1
           ∧ ∀ job' s',
               SynchronizeAndGetJob job s = Ok (job', s') →
               state s' = if server (opts s) && bool_decide (server_samples s1 ≠ [])
                          then SERVER_SAMPLE_PROCESSING else FUZZING)
  ∧ (∀ job s job' s',
       SynchronizeAndGetJob job s = Ok (job', s') →
       FuzzerJob.type job' = FUZZ → state s' = FUZZING).
Proof.
  split.
  - intros job s Hstate Hinputs Hpending.
    pose (s0 := if decide (length (all_samples_local s) < length (all_samples s))%nat
               then set_all_samples_local
                      (all_samples_local s
                       ++ drop (length (all_samples_local s)) (all_samples s)) s
               else s).
    assert (SynchronizeAndGetJob_sync s = Ok (tt, s0)) as Hsync by done.
    assert (s0 = set_all_samples_local (all_samples_local s0) s) as Hs0.
    { subst s0. destruct (decide _); [done|]. by destruct s. }
    assert (state s0 = INPUT_SAMPLE_PROCESSING ∧ input_files s0 = []
            ∧ samples_pending s0 = 0 ∧ sample_queue s0 = sample_queue s
            ∧ opts s0 = opts s) as (Hst0 & Hin0 & Hpe0 & Hq0 & Ho0).
    { rewrite Hs0. simpl. done. }
    assert (SynchronizeAndGetJob_update s0 = Ok (tt, s0)) as Hupdate.
    { unfold SynchronizeAndGetJob_update, bind, get. by rewrite Hst0. }
    assert (SynchronizeAndGetJob job s
            = bind SynchronizeAndGetJob_input
                (fun _ => bind SynchronizeAndGetJob_server
                            (fun _ => SynchronizeAndGetJob_dispense job)) s0)
      as Hwhole.
    { unfold SynchronizeAndGetJob. unfold bind at 1. rewrite Hsync.
      unfold bind at 1. by rewrite Hupdate. }
    assert (SynchronizeAndGetJob_input s0
            = if decide (sample_queue s = [])
              then Fatal "No interesting input files"
              else Ok (tt, if server (opts s)
                           then input_phase_ended_with_server s0
                           else set_state FUZZING s0)) as Hinput.
    { unfold SynchronizeAndGetJob_input, bind, get. rewrite Hst0. simpl.
      rewrite Hin0, Hpe0. simpl. rewrite Hq0, Ho0.
      destruct (decide (sample_queue s = [])); [done|]. simpl.
      unfold input_phase_ended_with_server, pull_updates, tell, modify, call,
        bind, get.
      destruct (server (opts s)); [|done]. simpl.
      destruct (GetCurTime ops _) as [now asked]. simpl.
      by destruct (GetUpdates ops _ _ _) as [pulled answered]. }
    exists s0. split; [done|]. split; [done|]. split; [done|].
    rewrite Hwhole.
    destruct (decide (sample_queue s = [])) as [Hempty|Hqueue].
    { unfold bind at 1. by rewrite Hinput. }
    cbv zeta.
    assert (state (if server (opts s)
                   then input_phase_ended_with_server s0
                   else set_state FUZZING s0)
            = if server (opts s) then SERVER_SAMPLE_PROCESSING else FUZZING)
      as Hphase by (by destruct (server (opts s))).
    assert (samples_pending (if server (opts s)
                             then input_phase_ended_with_server s0
                             else set_state FUZZING s0) = 0) as Hpending1
      by (by destruct (server (opts s))).
    revert Hinput Hphase Hpending1.
    generalize (if server (opts s)
                then input_phase_ended_with_server s0
                else set_state FUZZING s0).
    intros s1 Hinput Hphase Hpending1.
    assert (bind SynchronizeAndGetJob_input
              (fun _ => bind SynchronizeAndGetJob_server
                          (fun _ => SynchronizeAndGetJob_dispense job)) s0
            = bind SynchronizeAndGetJob_server
                (fun _ => SynchronizeAndGetJob_dispense job) s1) as ->.
    { unfold bind at 1. by rewrite Hinput. }
    split; [done|]. split; [done|]. split; [done|].
    intros job' s' Hrun.
    apply bind_Ok in Hrun as ([] & s2 & Hserver & Hrun).
    pose proof (preserves_elim (keeps state) _ _ _ _
                  (keeps_state_dispense job) eq_refl Hrun) as ->.
    unfold SynchronizeAndGetJob_server, bind, get, modify, ret in Hserver.
    destruct (server (opts s)); rewrite Hphase in Hserver; simpl in Hserver.
    + rewrite Hpending1 in Hserver.
      destruct (server_samples s1); simpl in *; by injection Hserver as <-.
    + by injection Hserver as <-.
  - intros job s job' s' Hrun Htype. unfold SynchronizeAndGetJob in Hrun.
    apply bind_Ok in Hrun as ([] & s1 & _ & Hrun).
    apply bind_Ok in Hrun as ([] & s2 & _ & Hrun).
    apply bind_Ok in Hrun as ([] & s3 & _ & Hrun).
    apply bind_Ok in Hrun as ([] & s4 & _ & Hrun).
    by destruct (SynchronizeAndGetJob_dispense_FUZZ _ _ _ _ Hrun Htype)
      as (_ & ? & _).
Qed.

(** *** The lowest priority seen *)


(** *** Persistence *)

(** C7: for counters that are unsigned 64-bit values, and a binary form
    of [min_priority] and of the known coverage that reads back what was
    written, [SaveState] does nothing during the processing of the input
    samples and otherwise makes [state.dat] hold [num_samples],
    [total_execs], [min_priority] and the known coverage, in this order;
    [RestoreState], run on these files, reads the four back as they were
    and queues, for every index below [num_samples] in increasing order,
    the sample stored as [sample_<index>] with the priority
    [min_priority] and no mutator context. *)
Theorem SaveState_RestoreState_roundtrip (s : machine) :
  0 ≤ num_samples s < 2 ^ 64 → 0 ≤ total_execs s < 2 ^ 64 →
  length (double_bytes (min_priority s)) = 8%nat →
  double_of_bytes (double_bytes (min_priority s)) = min_priority s →
  (ReadCoverageBinary (WriteCoverageBinary (fuzzer_coverage s))).1
  = fuzzer_coverage s →
  (state s = INPUT_SAMPLE_PROCESSING → SaveState s = Ok (tt, s))
  ∧ (state s ≠ INPUT_SAMPLE_PROCESSING →
     SaveState s
     = Ok (tt, set_files (<[state_file (opts s) := snapshot s]> (files s)) s)
     ∧ ∀ r,
         opts r = opts s →
         files r = <[state_file (opts s) := snapshot s]> (files s) →
         ∃ r',
           RestoreState r = Ok (tt, r')
           ∧ num_samples r' = num_samples s
           ∧ total_execs r' = total_execs s
           ∧ min_priority r' = min_priority s
           ∧ fuzzer_coverage r' = fuzzer_coverage s
           ∧ files r' = files r
           ∧ sample_queue r'
             = rev (map (restored_entry (opts s) (files r) (min_priority s))
                      (seqZ 0 (num_samples s)))
               ++ sample_queue r
           ∧ all_samples r'
             = all_samples r
               ++ map (stored_sample (opts s) (files r))
                    (seqZ 0 (num_samples s))).
Proof.
  intros Hn He Hlen Hdouble Hcoverage. split.
  - intros Hstate. unfold SaveState, bind, get. by rewrite Hstate.
  - intros Hstate. split; [by apply SaveState_run|].
    intros r Hopts Hfiles.
    unfold RestoreState, bind, get. simpl.
    rewrite Hopts, Hfiles, lookup_insert_eq. unfold snapshot.
    rewrite (fread8_app decode_le) by apply length_encode_le.
    unfold modify. simpl.
    rewrite (fread8_app decode_le) by apply length_encode_le. simpl.
    rewrite (fread8_app double_of_bytes) by done. simpl.
    destruct (ReadCoverageBinary _) as [coverage rest] eqn:Hread.
    simpl in Hcoverage. subst coverage. simpl.
    rewrite !decode_encode_u64 by done.
    rewrite RestoreState_loop_run. simpl.
    rewrite Hopts, Hfiles, Hdouble, Z2Nat.id by lia.
    eexists. split; [reflexivity|]. simpl. done.
Qed.

Transparent encode_le.

(** ** Further properties of the engine *)

(** *** Executions of the target *)

Lemma only_collab_elim s0 s : only_collab s0 s → s = set_collab (collab s) s0.
Proof. done. Qed.

Lemma counted_iter k (t : Z) :
  u64 (Nat.iter k (fun x => u64 (x + 1)) t + 1)
  = Nat.iter k (fun x => u64 (x + 1)) (u64 (t + 1)).
Proof. induction k as [|k IH]; [done|]. simpl. by rewrite IH. Qed.

(** The loop of [TryReproduceCrash] makes attempts one after the other
    and stops at the first that crashes. *)
Lemma TryReproduceCrash_loop_attempts n sample init_timeout timeout :
  ∀ result s r s',
    TryReproduceCrash_loop n result sample init_timeout timeout s
    = Ok (r, s') →
    ∃ results,
      attempts sample init_timeout timeout s results s'
      ∧ (length results ≤ n)%nat
      ∧ r = default result (list.last results)
      ∧ (∀ i x, results !! i = Some x → (S i < length results)%nat →
                x ≠ CRASH)
      ∧ (list.last results = Some CRASH ∨ length results = n)
      ∧ s' = set_collab (collab s')
               (set_total_execs
                  (Nat.iter (length results) (fun x => u64 (x + 1))
                     (total_execs s)) s).
Proof.
  induction n as [|n IH]; intros result s r s' Hrun.
  - apply ret_Ok in Hrun as [-> ->]. exists [].
    split; [constructor|]. split; [done|]. split; [done|].
    split; [by intros i x|]. split; [by right|]. by destruct s.
  - cbn [TryReproduceCrash_loop] in Hrun.
    apply bind_Ok in Hrun as ([] & s1 & H1 & Hrun). apply modify_Ok in H1.
    apply bind_Ok in Hrun as ([] & s2 & H2 & Hrun).
    apply bind_Ok in Hrun as (r1 & s3 & H3 & Hrun).
    apply bind_Ok in Hrun as ([] & s4 & H4 & Hrun). apply modify_Ok in H4.
    assert (only_collab s1 s2) as Hd.
    { eapply preserves_elim;
        [apply only_collab_deliver|apply only_collab_refl|done]. }
    assert (attempt sample init_timeout timeout s r1 s4) as Hattempt.
    { exists s2. rewrite <- H1. split; [exact H2|].
      unfold call in H3.
      destruct (RunWithCrashAnalysis _ _ _ _) as [r' e3].
      injection H3 as -> <-. by rewrite H4. }
    unfold call in H3. destruct (RunWithCrashAnalysis _ _ _ _) as [r' e3].
    injection H3 as -> <-.
    assert (s4 = set_collab (collab s4)
                   (set_total_execs (u64 (total_execs s + 1)) s)) as Hs4.
    { rewrite H4. unfold only_collab in Hd. rewrite Hd, H1. done. }
    destruct (decide (r1 = CRASH)) as [->|Hne].
    + apply ret_Ok in Hrun as [-> ->]. exists [CRASH].
      split; [by econstructor; [|constructor]|].
      split; [simpl; lia|]. split; [done|].
      split; [intros i x _ Hi; simpl in Hi; lia|].
      split; [by left|exact Hs4].
    + apply IH in Hrun
        as (results & Hattempts & Hlen & Hr & Hbefore & Hlast & Hs').
      exists (r1 :: results).
      split; [by econstructor|]. split; [simpl; lia|].
      split.
      { rewrite last_cons. by destruct (list.last results). }
      split.
      { intros [|i] x Hx Hi; simpl in Hx, Hi.
        - by injection Hx as <-.
        - apply (Hbefore i); [done|lia]. }
      split.
      { rewrite last_cons. destruct Hlast as [->|Hall]; [by left|].
        right. simpl. lia. }
      etrans; [exact Hs'|]. generalize (collab s'). intros c.
      clear Hs' H4 Hattempt Hattempts.
      generalize dependent (collab s4). intros c4 ->.
      unfold set_collab, set_total_execs. simpl. f_equal.
      symmetry. apply counted_iter.
Qed.

(** X1: [TryReproduceCrash] makes at most [CRASH_REPRODUCE_TIMES] attempts
    to reproduce the crash, one after the other, and stops at the first
    that crashes: no attempt before the last has crashed, and the last
    has crashed unless all [CRASH_REPRODUCE_TIMES] attempts were made.
    It returns the result of the last attempt.  Every attempt is counted
    in [total_execs], and nothing else of the fuzzer changes but the
    collaborators. *)
Theorem TryReproduceCrash_attempts (sample : Sample)
    (init_timeout timeout : Z) (s s' : machine) (r : RunResult) :
  TryReproduceCrash sample init_timeout timeout s = Ok (r, s') →
  ∃ results,
    attempts sample init_timeout timeout s results s'
    ∧ (length results ≤ CRASH_REPRODUCE_TIMES)%nat
    ∧ r = default TryReproduceCrash_uninitialized (list.last results)
    ∧ (∀ i x, results !! i = Some x → (S i < length results)%nat →
              x ≠ CRASH)
    ∧ (list.last results = Some CRASH ∨ length results = CRASH_REPRODUCE_TIMES)
    ∧ s' = set_collab (collab s')
             (set_total_execs
                (Nat.iter (length results) (fun x => u64 (x + 1))
                   (total_execs s)) s).
Proof. apply TryReproduceCrash_loop_attempts. Qed.

(** X2: a run of the target that neither crashes nor hangs advances
    [total_execs] by one and is recorded; it writes no file and changes no
    other counter, registry or queue of the fuzzer. *)
Theorem RunSampleAndGetCoverage_quiet (sample : Sample)
    (init_timeout timeout : Z) (s s' : machine) (result : RunResult)
    (coverage : Coverage) :
  RunSampleAndGetCoverage sample init_timeout timeout s
  = Ok ((result, coverage), s') →
  result ≠ CRASH → result ≠ HANG →
  s' = set_history (history s ++ [(sample, result, coverage)])
         (set_collab (collab s')
            (set_total_execs (u64 (total_execs s + 1)) s)).
Proof.
  intros Hrun Hcrash Hhang.
  apply RunSampleAndGetCoverage_inv in Hrun as (s1 & s2 & s3 & H1 & H2 & H3 & ->).
  rewrite decide_False in H2 by done. rewrite decide_False in H3 by done.
  apply ret_Ok in H2 as [_ ->]. apply ret_Ok in H3 as [_ ->].
  unfold only_collab in H1. rewrite H1. done.
Qed.

(** What the block of a crash does, from the state in which the run has
    returned: the crash is reproduced, named and registered. *)
Lemma RunSampleAndGetCoverage_crash_inv sample init_timeout timeout s1 s2 :
  RunSampleAndGetCoverage_crash sample init_timeout timeout s1 = Ok (tt, s2) →
  ∃ reproduced sb crash_desc,
    TryReproduceCrash sample init_timeout timeout s1 = Ok (reproduced, sb)
    ∧ crash_desc
      = (if decide (reproduced = CRASH) then GetCrashName ops (collab sb)
         else "flaky_" +:+ GetCrashName ops (collab s1))
    ∧ total_execs s2 = total_execs sb
    ∧ match unique_crashes sb !! crash_desc with
      | None =>
          unique_crashes s2 = <[crash_desc := 1]> (unique_crashes sb)
          ∧ num_unique_crashes s2 = u64 (num_unique_crashes sb + 1)
          ∧ files s2
            = <[DirJoin (crash_dir (opts sb)) (crash_filename crash_desc 1)
                := sample]> (files sb)
      | Some count =>
          num_unique_crashes s2 = num_unique_crashes sb
          ∧ if decide (count < MAX_IDENTICAL_CRASHES) then
              unique_crashes s2
              = <[crash_desc := count + 1]> (unique_crashes sb)
              ∧ files s2
                = <[DirJoin (crash_dir (opts sb))
                      (crash_filename crash_desc (count + 1))
                    := sample]> (files sb)
            else unique_crashes s2 = unique_crashes sb ∧ files s2 = files sb
      end.
Proof.
  intros H2. unfold RunSampleAndGetCoverage_crash in H2.
  apply bind_Ok in H2 as (desc0 & sa & Ha & H2). apply get_Ok in Ha as [-> ->].
  apply bind_Ok in H2 as (reproduced & sb & Hb & H2).
  apply bind_Ok in H2 as (desc & sc & Hc & H2).
  assert (sc = sb
          ∧ desc = (if decide (reproduced = CRASH)
                    then GetCrashName ops (collab sb)
                    else "flaky_" +:+ GetCrashName ops (collab s1)))
    as [-> Hdesc].
  { destruct (decide (reproduced = CRASH)).
    - by apply get_Ok in Hc as [-> ->].
    - by apply ret_Ok in Hc as [-> ->]. }
  exists reproduced, sb, desc. split; [exact Hb|]. split; [exact Hdesc|].
  clear Hdesc Hb.
  apply bind_Ok in H2 as ([should_save duplicates] & sd & Hd & H2).
  assert (∀ n sd',
            (do o <- get opts;
             Save (DirJoin (crash_dir o) (crash_filename desc n)) sample ;;;
             if server o then tell (ReportCrash ops sample desc) else ret tt)
              sd' = Ok (tt, s2) →
            unique_crashes s2 = unique_crashes sd'
            ∧ num_unique_crashes s2 = num_unique_crashes sd'
            ∧ total_execs s2 = total_execs sd'
            ∧ files s2
              = <[DirJoin (crash_dir (opts sd')) (crash_filename desc n)
                  := sample]> (files sd')) as Hsave.
  { intros n sd'. unfold bind, get, Save, modify, tell, ret. simpl.
    destruct (server (opts sd')); intros [= <-]; done. }
  destruct (unique_crashes sb !! desc) as [count|] eqn:Hlook.
  - destruct (decide (count < MAX_IDENTICAL_CRASHES)) as [Hlt|Hge].
    + rewrite (record_crash_below _ count) in Hd by done.
      injection Hd as <- <- <-. apply Hsave in H2 as (-> & -> & -> & ->). done.
    + rewrite (record_crash_capped _ count) in Hd by done.
      injection Hd as <- <- <-. apply ret_Ok in H2 as [_ ->]. done.
  - rewrite record_crash_unseen in Hd by done.
    injection Hd as <- <- <-. apply Hsave in H2 as (-> & -> & -> & ->). done.
Qed.

(** X3: a run that is classified as a crash registers the crash under one
    name: the name that the instrumentation gives after the attempts to
    reproduce the crash when [TryReproduceCrash] returned [CRASH], and
    otherwise the name that it gave before them, with the prefix
    [flaky_].  The run writes at most one file: the sample itself, as
    [<name>_<count>] in the crash directory with the new count of the
    name, when the name is new or its count is below the maximum; when
    the count has reached the maximum, neither the registry nor any file
    changes.  Here [s1] is the state in which the run has returned and
    [s2] the one in which the attempts have. *)
Theorem crash_saved_once (sample : Sample) (init_timeout timeout : Z)
    (s s' : machine) (coverage : Coverage) :
  RunSampleAndGetCoverage sample init_timeout timeout s
  = Ok ((CRASH, coverage), s') →
  ∃ s1 reproduced s2 crash_desc,
    only_collab (set_total_execs (u64 (total_execs s + 1)) s) s1
    ∧ TryReproduceCrash sample init_timeout timeout s1 = Ok (reproduced, s2)
    ∧ crash_desc
      = (if decide (reproduced = CRASH) then GetCrashName ops (collab s2)
         else "flaky_" +:+ GetCrashName ops (collab s1))
    ∧ match unique_crashes s !! crash_desc with
      | None =>
          unique_crashes s' = <[crash_desc := 1]> (unique_crashes s)
          ∧ num_unique_crashes s' = u64 (num_unique_crashes s + 1)
          ∧ files s'
            = <[DirJoin (crash_dir (opts s)) (crash_filename crash_desc 1)
                := sample]> (files s)
      | Some count =>
          num_unique_crashes s' = num_unique_crashes s
          ∧ if decide (count < MAX_IDENTICAL_CRASHES) then
              unique_crashes s'
              = <[crash_desc := count + 1]> (unique_crashes s)
              ∧ files s'
                = <[DirJoin (crash_dir (opts s))
                      (crash_filename crash_desc (count + 1))
                    := sample]> (files s)
            else unique_crashes s' = unique_crashes s ∧ files s' = files s
      end.
Proof.
  intros Hrun.
  apply RunSampleAndGetCoverage_inv in Hrun as (s1 & s2 & s3 & H1 & H2 & H3 & ->).
  rewrite decide_True in H2 by done. rewrite decide_False in H3 by done.
  apply ret_Ok in H3 as [_ ->].
  apply RunSampleAndGetCoverage_crash_inv in H2
    as (reproduced & sb & desc & Hb & Hdesc & _ & Hreg).
  exists s1, reproduced, sb, desc.
  split; [exact H1|]. split; [exact Hb|]. split; [exact Hdesc|].
  apply TryReproduceCrash_loop_attempts in Hb
    as (results & _ & _ & _ & _ & _ & Hsb).
  unfold only_collab in H1.
  assert (unique_crashes sb = unique_crashes s
          ∧ num_unique_crashes sb = num_unique_crashes s
          ∧ files sb = files s ∧ opts sb = opts s) as (Hr & Hnum & Hfiles & Hopts).
  { rewrite Hsb, H1. done. }
  change (unique_crashes (set_history _ s2)) with (unique_crashes s2).
  change (num_unique_crashes (set_history _ s2)) with (num_unique_crashes s2).
  change (files (set_history _ s2)) with (files s2).
  rewrite <- Hr, <- Hnum, <- Hfiles, <- Hopts. exact Hreg.
Qed.

(** Every execution of the target is counted: a run is counted once, and
    a run that crashes once more for every attempt to reproduce the
    crash. *)
Lemma RunSampleAndGetCoverage_counted sample init_timeout timeout s result
    coverage s' :
  RunSampleAndGetCoverage sample init_timeout timeout s
  = Ok ((result, coverage), s') →
  ∃ k, (k ≤ CRASH_REPRODUCE_TIMES)%nat
       ∧ (result ≠ CRASH → k = O)
       ∧ counted (S k) s s'.
Proof.
  intros Hrun.
  apply RunSampleAndGetCoverage_inv in Hrun as (s1 & s2 & s3 & H1 & H2 & H3 & ->).
  assert (total_execs s1 = u64 (total_execs s + 1)) as E1.
  { unfold only_collab in H1. by rewrite H1. }
  assert (total_execs s3 = total_execs s2) as E3.
  { destruct (decide (result = HANG)).
    - revert H3. unfold RunSampleAndGetCoverage_hang, bind, get, Save, modify,
        ret. simpl. destruct (save_hangs (opts s2)); intros [= <-]; done.
    - by apply ret_Ok in H3 as [_ ->]. }
  unfold counted. change (total_execs (set_history _ s3)) with (total_execs s3).
  rewrite E3. destruct (decide (result = CRASH)) as [->|Hne].
  - apply RunSampleAndGetCoverage_crash_inv in H2
      as (reproduced & sb & desc & Hb & _ & -> & _).
    apply TryReproduceCrash_loop_attempts in Hb
      as (results & _ & Hlen & _ & _ & _ & Hsb).
    exists (length results). split; [exact Hlen|]. split; [done|].
    rewrite Hsb. change (total_execs (set_collab _ ?x)) with (total_execs x).
    change (total_execs (set_total_execs ?v _)) with v.
    rewrite E1. simpl. by rewrite counted_iter.
  - apply ret_Ok in H2 as [_ ->]. exists O.
    split; [lia|]. split; [done|]. by rewrite E1.
Qed.

Lemma counted_trans n m s0 s1 s2 :
  counted n s0 s1 → counted m s1 s2 → counted (m + n) s0 s2.
Proof.
  unfold counted. intros H1 H2. by rewrite H2, H1, Nat.iter_add.
Qed.

(** The loop of [TrimSample] counts one execution for each candidate that
    it runs, and those of the attempts to reproduce the crash of a
    candidate that crashes, which is the last one. *)
Lemma TrimSample_loop_counted sample stable init_timeout timeout fuel :
  ∀ step trimmed test s k' s',
    TrimSample_loop fuel sample stable init_timeout timeout step trimmed test s
    = Ok (k', s') →
    ∃ runs n,
      history s' = history s ++ runs
      ∧ counted n s s'
      ∧ (length runs ≤ n ≤ length runs + CRASH_REPRODUCE_TIMES)%nat
      ∧ (n ≠ length runs →
         ∃ candidate c, list.last runs = Some (candidate, CRASH, c)).
Proof.
  induction fuel as [|fuel IH]; intros step trimmed test s k' s' Hrun;
    [done|].
  rewrite TrimSample_loop_unfold in Hrun.
  assert (∀ x, ret (A := nat) x s = Ok (k', s') →
            ∃ runs n,
              history s' = history s ++ runs
              ∧ counted n s s'
              ∧ (length runs ≤ n ≤ length runs + CRASH_REPRODUCE_TIMES)%nat
              ∧ (n ≠ length runs →
                 ∃ candidate c, list.last runs = Some (candidate, CRASH, c)))
    as Hstop.
  { intros x Hx. apply ret_Ok in Hx as [_ ->]. exists [], O.
    rewrite app_nil_r. split; [done|]. split; [done|].
    split; [simpl; lia|done]. }
  destruct (decide (size test ≤ 1)%nat); [by eapply Hstop|].
  cbv zeta in Hrun.
  destruct (decide (TrimSample_halve _ _ _ = 0)); [by eapply Hstop|].
  apply bind_Ok in Hrun as ([result coverage] & s1 & H1 & Hrun).
  pose proof (RunSampleAndGetCoverage_history _ _ _ _ _ _ _ H1) as Hh1.
  apply RunSampleAndGetCoverage_counted in H1 as (k & Hk & Hok & Hc1).
  assert (∀ x, ret (A := nat) x s1 = Ok (k', s') →
            ∃ runs n,
              history s' = history s ++ runs
              ∧ counted n s s'
              ∧ (length runs ≤ n ≤ length runs + CRASH_REPRODUCE_TIMES)%nat
              ∧ (n ≠ length runs →
                 ∃ candidate c, list.last runs = Some (candidate, CRASH, c)))
    as Hlast.
  { intros x Hx. apply ret_Ok in Hx as [_ ->].
    eexists [_], (S k). split; [exact Hh1|]. split; [exact Hc1|].
    split; [simpl; lia|]. intros Hn. simpl in Hn.
    destruct (decide (result = CRASH)) as [->|Hne]; [by eexists _, _|].
    specialize (Hok Hne). lia. }
  destruct (decide (result ≠ OK)) as [Hne|Heq]; [by eapply Hlast|].
  assert (result = OK) as ->
    by (destruct (decide (result = OK)); [done|by destruct Heq]).
  assert (k = O) as -> by (by apply Hok).
  assert (∀ step' trimmed' test',
            TrimSample_loop fuel sample stable init_timeout timeout step'
              trimmed' test' s1 = Ok (k', s') →
            ∃ runs n,
              history s' = history s ++ runs
              ∧ counted n s s'
              ∧ (length runs ≤ n ≤ length runs + CRASH_REPRODUCE_TIMES)%nat
              ∧ (n ≠ length runs →
                 ∃ candidate c, list.last runs = Some (candidate, CRASH, c)))
    as Hmore.
  { intros step' trimmed' test' Hloop.
    apply IH in Hloop as (runs & m & Hh & Hc & Hm & Hcrash).
    eexists (_ :: runs), (m + 1)%nat.
    split; [by rewrite Hh, Hh1, <- app_assoc|].
    split; [by eapply counted_trans|]. split; [simpl; lia|].
    intros Hne. simpl in Hne.
    destruct Hcrash as (candidate & c & Hl); [lia|].
    exists candidate, c. rewrite last_cons. by rewrite Hl. }
  destruct (negb _).
  - destruct (decide (_ = 0)); [by eapply Hlast|by eapply Hmore].
  - by eapply Hmore.
Qed.

(** *** The cost and the floor of trimming *)

Lemma trim_runs_floor sample stable step k runs k' :
  0 ≤ step → trim_runs sample stable step k runs k' →
  (1 ≤ k)%nat → (1 ≤ k')%nat.
Proof.
  intros Hstep Hruns. induction Hruns as
    [step k Hk|step k Hk Hh|step k step' result coverage Hk Hh Hne Hres
    |step k step' coverage Hk Hh Hne Hcov Hlast
    |step k step' coverage runs k' Hk Hh Hne Hcov Hmore Hruns IH
    |step k step' coverage runs k' Hk Hh Hne Hcov Hruns IH]; try done.
  - intros _. apply IH; [|lia].
    pose proof (halved_bounds _ _ _ Hstep Hh). apply Z.div_pos; lia.
  - intros _. pose proof (halved_bounds _ _ _ Hstep Hh). apply IH; lia.
Qed.

Lemma trim_runs_length sample stable step k runs k' :
  0 ≤ step → trim_runs sample stable step k runs k' →
  (length runs ≤ (k - 1) + (Z.to_nat (Z.log2 step) + 1))%nat.
Proof.
  intros Hstep Hruns. induction Hruns as
    [step k Hk|step k Hk Hh|step k step' result coverage Hk Hh Hne Hres
    |step k step' coverage Hk Hh Hne Hcov Hlast
    |step k step' coverage runs k' Hk Hh Hne Hcov Hmore Hruns IH
    |step k step' coverage runs k' Hk Hh Hne Hcov Hruns IH];
    simpl; try lia.
  - pose proof (halved_bounds _ _ _ Hstep Hh) as Hb.
    pose proof (halved_le _ _ _ Hstep Hh) as Hle.
    assert (0 ≤ step' / 2) as Hhalf by (apply Z.div_pos; lia).
    specialize (IH Hhalf).
    assert (2 ≤ step') as Htwo.
    { destruct (decide (step' < 2)); [|lia].
      destruct Hmore. apply Z.div_small. lia. }
    assert (Z.log2 (step' / 2) = Z.log2 step' - 1) as Hlog.
    { replace (step' / 2) with (Z.shiftr step' 1)
        by (by rewrite Z.shiftr_div_pow2 by lia).
      rewrite Z.log2_shiftr by lia. pose proof (Z.log2_pos step'). lia. }
    pose proof (Z.log2_le_mono step' step Hle).
    pose proof (Z.log2_pos step'). lia.
  - pose proof (halved_bounds _ _ _ Hstep Hh) as Hb.
    pose proof (halved_le _ _ _ Hstep Hh) as Hle.
    assert (0 ≤ step') as Hpos by lia. specialize (IH Hpos).
    pose proof (Z.log2_le_mono step' step Hle).
    pose proof (Z.log2_nonneg step'). lia.
Qed.

(** X4: with an initial step that is a non-negative [int], [TrimSample]
    leaves a sample of at most one byte as it is, without running it, and
    never trims away the last byte of a longer one. *)
Theorem TrimSample_floor (sample : Sample) (stable_coverage : Coverage)
    (init_timeout timeout : Z) (s s' : machine) (sample' : Sample) :
  0 ≤ TRIM_STEP_INITIAL < 2 ^ 31 →
  TrimSample sample stable_coverage init_timeout timeout s
  = Ok (sample', s') →
  ((size sample ≤ 1)%nat → sample' = sample ∧ s' = s)
  ∧ ((1 ≤ size sample)%nat → (1 ≤ size sample')%nat).
Proof.
  intros Hstep Hrun. split.
  - intros Hsmall. unfold TrimSample in Hrun.
    rewrite decide_True in Hrun by done. by apply ret_Ok in Hrun as [-> ->].
  - intros Hbig.
    pose proof (TrimSample_search sample stable_coverage init_timeout timeout s
                  Hstep) as Hsearch.
    rewrite Hrun in Hsearch.
    destruct Hsearch as (runs & k & _ & Hruns & Hle & -> & _).
    apply trim_runs_floor in Hruns; [|lia|done].
    unfold size in *. rewrite length_take. lia.
Qed.

(** X5: with an initial step that is a non-negative [int], [TrimSample]
    tries at most as many candidates as the sample has bytes beyond the
    first, plus the number of binary digits of the initial step.  It runs
    the target once for each candidate and, when a candidate crashes,
    which ends the search, up to [CRASH_REPRODUCE_TIMES] more times to
    reproduce the crash; [total_execs] counts all of these. *)
Theorem TrimSample_cost (sample : Sample) (stable_coverage : Coverage)
    (init_timeout timeout : Z) (s s' : machine) (sample' : Sample) :
  0 ≤ TRIM_STEP_INITIAL < 2 ^ 31 →
  TrimSample sample stable_coverage init_timeout timeout s
  = Ok (sample', s') →
  ∃ runs n,
    history s' = history s ++ runs
    ∧ (length runs
       ≤ (size sample - 1) + (Z.to_nat (Z.log2 TRIM_STEP_INITIAL) + 1))%nat
    ∧ counted n s s'
    ∧ (length runs ≤ n ≤ length runs + CRASH_REPRODUCE_TIMES)%nat
    ∧ (n ≠ length runs →
       ∃ candidate c, list.last runs = Some (candidate, CRASH, c)).
Proof.
  intros Hstep Hrun.
  pose proof (TrimSample_search sample stable_coverage init_timeout timeout s
                Hstep) as Hsearch.
  rewrite Hrun in Hsearch.
  destruct Hsearch as (runs & k & Hhist & Hruns & _).
  assert (length runs
          ≤ (size sample - 1) + (Z.to_nat (Z.log2 TRIM_STEP_INITIAL) + 1))%nat
    as Hbound by (eapply trim_runs_length; [|done]; lia).
  unfold TrimSample in Hrun.
  destruct (decide (size sample ≤ 1)%nat).
  - apply ret_Ok in Hrun as [_ ->]. exists runs, O.
    assert (runs = []) as ->.
    { apply (app_inv_head (history s)). by rewrite app_nil_r. }
    split; [done|]. split; [done|]. split; [done|].
    split; [simpl; lia|done].
  - apply bind_Ok in Hrun as (trimmed & s1 & Hloop & Hrun).
    apply ret_Ok in Hrun as [_ ->].
    apply TrimSample_loop_counted in Hloop
      as (runs' & m & Hhist' & Hcounted & Hm & Hcrash).
    assert (runs' = runs) as ->.
    { apply (app_inv_head (history s)). by rewrite <- Hhist, <- Hhist'. }
    exists runs, m. done.
Qed.

(** *** What job acquisition leaves alone *)

Ltac unfold_acquisition :=
  unfold SynchronizeAndGetJob, SynchronizeAndGetJob_sync,
    SynchronizeAndGetJob_update, SynchronizeAndGetJob_input,
    SynchronizeAndGetJob_server, SynchronizeAndGetJob_dispense, pull_updates.

Lemma preserves_keeps_weaken {A B} (f : machine → B)
    (R : machine → machine → Prop) (m : M A) :
  (∀ s0 s s', R s0 s → f s' = f s → R s0 s') →
  preserves (keeps f) m → preserves R m.
Proof.
  intros HR Hm s0 s Hs. specialize (Hm s s eq_refl).
  destruct (m s) as [[a s']| |]; [|done..]. by eapply HR.
Qed.

Lemma keeps_SynchronizeAndGetJob {B} (f : machine → B) job :
  acquisition_independent f →
  preserves (keeps f) (SynchronizeAndGetJob job).
Proof.
  intros (? & ? & ? & ? & ? & ? & ? & ? & ?). unfold_acquisition.
  keeps_frame.
Qed.

Lemma keeps_JobDone {B} (f : machine → B) job :
  (∀ v s, f (set_num_samples_discarded v s) = f s) →
  (∀ v s, f (set_sample_queue v s) = f s) →
  (∀ v s, f (set_samples_pending v s) = f s) →
  preserves (keeps f) (JobDone job).
Proof. intros ? ? ?. unfold JobDone. keeps_frame. Qed.

Lemma keeps_SaveState {B} (f : machine → B) :
  (∀ v s, f (set_files v s) = f s) → preserves (keeps f) SaveState.
Proof. intros ?. unfold SaveState, fopen_wb, fwrite. keeps_frame. Qed.

(** *** The known coverage *)

Lemma covers_refl s : covers s s.
Proof. unfold covers. reflexivity. Qed.

Lemma covers_keeps s0 s s' :
  covers s0 s → fuzzer_coverage s' = fuzzer_coverage s → covers s0 s'.
Proof. unfold covers. by intros ? ->. Qed.

Ltac covers_step :=
  first [apply preserves_modify; intros ? ? | apply preserves_call; intros ? ? ?
        | apply preserves_tell; intros ? ? ?];
  unfold covers, MergeCoverage; simpl; intros;
  first [assumption | etrans; [eassumption|apply union_subseteq_l]].

Lemma covers_RunSample sample has_new_coverage trim report_to_server
    init_timeout timeout :
  preserves covers
    (RunSample sample has_new_coverage trim report_to_server init_timeout
       timeout).
Proof.
  assert (execution_independent
            (fuzzer_coverage (E := E) (Context := Context))) as Hf
    by (by apply execution_independent_intro).
  pose proof (fun sample =>
    preserves_keeps_weaken _ _ _ covers_keeps
      (keeps_RunSampleAndGetCoverage fuzzer_coverage sample init_timeout
         timeout Hf)).
  pose proof (fun n sample result stable total =>
    preserves_keeps_weaken _ _ _ covers_keeps
      (keeps_RunSample_retry fuzzer_coverage n sample result stable total
         init_timeout timeout Hf)).
  pose proof (fun sample stable =>
    preserves_keeps_weaken _ _ _ covers_keeps
      (keeps_TrimSample fuzzer_coverage sample stable init_timeout timeout Hf)).
  unfold RunSample, RunSample_accept, InterestingSample. simpl.
  repeat frame_step; auto; try covers_step.
Qed.

Lemma engine_call_covers s s' : engine_call s s' → covers s s'.
Proof.
  intros Hcall.
  assert (execution_independent
            (fuzzer_coverage (E := E) (Context := Context))) as Hf
    by (by apply execution_independent_intro).
  destruct Hcall as [sample init_timeout timeout s x s1 Hrun
                    |sample hnc trim report init_timeout timeout s x s1 Hrun
                    |job s job' s1 Hrun
                    |job s s1 Hrun
                    |s s1 Hrun].
  - eapply preserves_elim; [|apply covers_refl|exact Hrun].
    eapply preserves_keeps_weaken; [apply covers_keeps|].
    by apply keeps_RunSampleAndGetCoverage.
  - eapply preserves_elim; [apply covers_RunSample|apply covers_refl|exact Hrun].
  - eapply preserves_elim; [|apply covers_refl|exact Hrun].
    eapply preserves_keeps_weaken; [apply covers_keeps|].
    by apply keeps_SynchronizeAndGetJob.
  - eapply preserves_elim; [|apply covers_refl|exact Hrun].
    eapply preserves_keeps_weaken; [apply covers_keeps|].
    by apply keeps_JobDone.
  - eapply preserves_elim; [|apply covers_refl|exact Hrun].
    eapply preserves_keeps_weaken; [apply covers_keeps|].
    by apply keeps_SaveState.
Qed.

(** X6: no step of a worker or of the main loop, be it a call of the
    engine or of a collaborator, takes an edge away from the known
    coverage [fuzzer_coverage]. *)
Theorem fuzzer_coverage_never_shrinks (s s' : machine) :
  rtc engine_step s s' → fuzzer_coverage s ⊆ fuzzer_coverage s'.
Proof.
  intros Hsteps. change (covers s s').
  induction Hsteps as [s|s s1 s2 Hstep _ IH]; [apply covers_refl|].
  assert (covers s s1) as Hs1; [|unfold covers in *; by etrans].
  destruct Hstep as [s s1 Hcall|e s]; [by apply engine_call_covers|].
  unfold covers. simpl. reflexivity.
Qed.

(** X7: once [InterestingSample] has been offered a stable and a variable
    coverage, no coverage made of their edges is interesting any more: the
    verdict is 0, the two differences are empty and the known coverage
    stays as it is. *)
Theorem InterestingSample_once (sample sample' : Sample)
    (stableCoverage variableCoverage stable' variable' : Coverage)
    (s s1 : machine) (x : Z * Coverage * Coverage) :
  InterestingSample sample stableCoverage variableCoverage s = Ok (x, s1) →
  stable' ⊆ stableCoverage ∪ variableCoverage →
  variable' ⊆ stableCoverage ∪ variableCoverage →
  InterestingSample sample' stable' variable' s1 = Ok ((0, ∅, ∅), s1).
Proof.
  intros Hrun Hstable Hvariable.
  rewrite InterestingSample_run in Hrun. injection Hrun as _ <-.
  rewrite InterestingSample_run. simpl.
  set (known := fuzzer_coverage s ∪ stableCoverage ∖ fuzzer_coverage s
                ∪ variableCoverage ∖ fuzzer_coverage s).
  assert (stableCoverage ∪ variableCoverage ⊆ known) as Hknown.
  { intros e He. unfold known. rewrite !elem_of_union, !elem_of_difference.
    destruct (decide (e ∈ fuzzer_coverage s)); [by left; left|].
    apply elem_of_union in He as [He|He]; [left; right|right]; done. }
  assert (stable' ∖ known = ∅) as ->
    by (apply subseteq_empty_difference_L; by etrans).
  assert (variable' ∖ known = ∅) as ->
    by (apply subseteq_empty_difference_L; by etrans).
  unfold coverage_empty. rewrite bool_decide_eq_true_2 by done.
  do 2 f_equal. unfold set_fuzzer_coverage. simpl. f_equal.
  by rewrite !(right_id_L ∅ (∪)).
Qed.

(** *** The blocks of job acquisition *)

Lemma SynchronizeAndGetJob_blocks job s job' s' :
  SynchronizeAndGetJob job s = Ok (job', s') →
  ∃ s1 s2 s3 s4,
    SynchronizeAndGetJob_sync s = Ok (tt, s1)
    ∧ SynchronizeAndGetJob_update s1 = Ok (tt, s2)
    ∧ SynchronizeAndGetJob_input s2 = Ok (tt, s3)
    ∧ SynchronizeAndGetJob_server s3 = Ok (tt, s4)
    ∧ SynchronizeAndGetJob_dispense job s4 = Ok (job', s').
Proof.
  intros Hrun. unfold SynchronizeAndGetJob in Hrun.
  apply bind_Ok in Hrun as ([] & s1 & H1 & Hrun).
  apply bind_Ok in Hrun as ([] & s2 & H2 & Hrun).
  apply bind_Ok in Hrun as ([] & s3 & H3 & Hrun).
  apply bind_Ok in Hrun as ([] & s4 & H4 & Hrun).
  by exists s1, s2, s3, s4.
Qed.

Lemma SynchronizeAndGetJob_update_skip s :
  state s ≠ FUZZING ∨ server (opts s) = false →
  SynchronizeAndGetJob_update s = Ok (tt, s).
Proof.
  intros Hskip. unfold SynchronizeAndGetJob_update, bind, get. simpl.
  destruct Hskip as [Hstate| ->].
  - by rewrite bool_decide_eq_false_2 by done.
  - by rewrite andb_false_r.
Qed.

Lemma SynchronizeAndGetJob_input_skip s :
  state s ≠ INPUT_SAMPLE_PROCESSING ∨ input_files s ≠ []
  ∨ samples_pending s ≠ 0 →
  SynchronizeAndGetJob_input s = Ok (tt, s).
Proof.
  intros Hskip. unfold SynchronizeAndGetJob_input, bind, get. simpl.
  destruct (decide (state s = INPUT_SAMPLE_PROCESSING)) as [Hin|]; [|done].
  destruct Hskip as [?|[Hfiles|Hpending]]; [done|..].
  - by rewrite (bool_decide_eq_false_2 (input_files s = [])) by done.
  - rewrite (bool_decide_eq_false_2 (samples_pending s = 0)) by done.
    by rewrite andb_false_r.
Qed.

Lemma SynchronizeAndGetJob_input_no_server s s' :
  server (opts s) = false →
  SynchronizeAndGetJob_input s = Ok (tt, s') →
  s' = s ∨ s' = set_state FUZZING s.
Proof.
  intros Hserver. unfold SynchronizeAndGetJob_input, bind, get, modify, ret.
  simpl. rewrite Hserver.
  destruct (decide (state s = INPUT_SAMPLE_PROCESSING)); [|by left; congruence].
  destruct (_ && _); [|by left; congruence].
  destruct (decide (sample_queue s = [])); [done|].
  right. congruence.
Qed.

Lemma SynchronizeAndGetJob_server_run s :
  SynchronizeAndGetJob_server s
  = Ok (tt,
        if decide (state s = SERVER_SAMPLE_PROCESSING)
        then if bool_decide (server_samples s = [])
                && bool_decide (samples_pending s = 0)
             then set_state FUZZING s else s
        else s).
Proof.
  unfold SynchronizeAndGetJob_server, bind, get, modify, ret. simpl.
  destruct (decide (state s = SERVER_SAMPLE_PROCESSING)); [|done].
  by destruct (_ && _).
Qed.

Lemma keeps_before_dispense {B} (f : machine → B) job s job' s' :
  phase_independent f →
  SynchronizeAndGetJob job s = Ok (job', s') →
  ∃ s4, f s4 = f s ∧ SynchronizeAndGetJob_dispense job s4 = Ok (job', s').
Proof.
  intros (Hf1 & Hf2 & Hf3 & Hf4 & Hf5) Hrun.
  apply SynchronizeAndGetJob_blocks in Hrun
    as (s1 & s2 & s3 & s4 & H1 & H2 & H3 & H4 & Hrun).
  exists s4. split; [|done].
  assert (preserves (keeps f) SynchronizeAndGetJob_sync) as K1.
  { unfold SynchronizeAndGetJob_sync. keeps_frame. }
  assert (preserves (keeps f) SynchronizeAndGetJob_update) as K2.
  { unfold SynchronizeAndGetJob_update, pull_updates. keeps_frame. }
  assert (preserves (keeps f) SynchronizeAndGetJob_input) as K3.
  { unfold SynchronizeAndGetJob_input, pull_updates. keeps_frame. }
  assert (preserves (keeps f) SynchronizeAndGetJob_server) as K4.
  { unfold SynchronizeAndGetJob_server. keeps_frame. }
  pose proof (preserves_elim _ _ _ _ _ K1 eq_refl H1) as E1.
  pose proof (preserves_elim _ _ _ _ _ K2 eq_refl H2) as E2.
  pose proof (preserves_elim _ _ _ _ _ K3 eq_refl H3) as E3.
  pose proof (preserves_elim _ _ _ _ _ K4 eq_refl H4) as E4.
  unfold keeps in *. congruence.
Qed.

Lemma SynchronizeAndGetJob_sync_run s :
  ∃ s1, SynchronizeAndGetJob_sync s = Ok (tt, s1)
        ∧ s1 = set_all_samples_local (all_samples_local s1) s.
Proof.
  unfold SynchronizeAndGetJob_sync, modify. eexists. split; [reflexivity|].
  simpl. destruct (decide _); [done|]. by destruct s.
Qed.

Lemma queue_extract_Permutation (q : list SampleQueueEntry) top rest :
  queue_extract q = Some (top, rest) → q ≡ₚ top :: rest.
Proof.
  revert top rest. induction q as [|e q IH]; intros top rest; [done|].
  simpl. destruct (queue_extract q) as [[m r]|] eqn:Hq.
  - destruct (decide _); intros [= <- <-]; [done|].
    rewrite (IH m r eq_refl). apply Permutation_swap.
  - destruct q as [|e' q']; [by intros [= <- <-]|].
    simpl in Hq. destruct (queue_extract q') as [[m r]|]; [|done].
    by destruct (decide _).
Qed.

Lemma SynchronizeAndGetJob_dispense_job job s job' s' :
  SynchronizeAndGetJob_dispense job s = Ok (job', s') →
  match FuzzerJob.type job' with
  | FUZZ =>
      state s = FUZZING
      ∧ ∃ top, FuzzerJob.entry job' = Some top
               ∧ sample_queue s ≡ₚ top :: sample_queue s'
               ∧ samples_pending s' = samples_pending s
               ∧ input_files s' = input_files s
               ∧ server_samples s' = server_samples s
  | PROCESS_SAMPLE =>
      state s ≠ FUZZING
      ∧ is_Some (FuzzerJob.sample job')
      ∧ samples_pending s' = samples_pending s + 1
      ∧ sample_queue s' = sample_queue s
  | WAIT =>
      FuzzerJob.entry job' = FuzzerJob.entry job
      ∧ FuzzerJob.sample job' = FuzzerJob.sample job
      ∧ s' = s
  end.
Proof.
  unfold SynchronizeAndGetJob_dispense, bind, get, modify, ret, Load. simpl.
  destruct (state s) eqn:Hstate.
  - destruct (input_files s); intros [= <- <-]; simpl; [done|].
    split_and!; done.
  - destruct (server_samples s); intros [= <- <-]; simpl; [done|].
    split_and!; done.
  - destruct (queue_extract (sample_queue s)) as [[top rest]|] eqn:Hq;
      intros [= <- <-]; simpl; [|done].
    split; [done|]. exists top. apply queue_extract_Permutation in Hq.
    by destruct (decide _).
Qed.

(** *** Jobs *)

Lemma SynchronizeAndGetJob_accounts (job job' : FuzzerJob) (s s' : machine) :
  SynchronizeAndGetJob job s = Ok (job', s') →
  match FuzzerJob.type job' with
  | FUZZ =>
      state s' = FUZZING
      ∧ ∃ top, FuzzerJob.entry job' = Some top
               ∧ sample_queue s ≡ₚ top :: sample_queue s'
               ∧ samples_pending s' = samples_pending s
               ∧ input_files s' = input_files s
  | PROCESS_SAMPLE =>
      state s' ≠ FUZZING
      ∧ is_Some (FuzzerJob.sample job')
      ∧ samples_pending s' = samples_pending s + 1
      ∧ sample_queue s' = sample_queue s
  | WAIT =>
      samples_pending s' = samples_pending s
      ∧ sample_queue s' = sample_queue s
      ∧ input_files s' = input_files s
  end.
Proof.
  intros Hrun.
  apply (keeps_before_dispense
           (fun s => (sample_queue s, samples_pending s, input_files s)))
    in Hrun as (s4 & [= Hq Hp Hi] & Hrun); [|by repeat split].
  pose proof (preserves_elim _ _ _ _ _ (keeps_state_dispense job) eq_refl Hrun)
    as Hstate. unfold keeps in Hstate.
  apply SynchronizeAndGetJob_dispense_job in Hrun.
  destruct (FuzzerJob.type job').
  - destruct Hrun as (_ & _ & ->). done.
  - destruct Hrun as (Hs & Hsample & Hp' & Hq').
    split_and!; [congruence|done|congruence|congruence].
  - destruct Hrun as (Hs & top & Hentry & Hperm & Hp' & Hi' & _).
    split; [congruence|]. exists top. rewrite <- Hq.
    split_and!; [done|done|congruence|congruence].
Qed.

(** X8: the job that [SynchronizeAndGetJob] hands out is well formed and
    is accounted for.  A [FUZZ] job carries an entry, which has been taken
    out of the queue and out of nothing else.  A [PROCESS_SAMPLE] job
    carries a sample, is never handed out while fuzzing and raises
    [samples_pending] by one.  A [WAIT] job leaves the queue, the input
    files and [samples_pending] as they are. *)
Theorem SynchronizeAndGetJob_job (job job' : FuzzerJob) (s s' : machine) :
  SynchronizeAndGetJob job s = Ok (job', s') →
  match FuzzerJob.type job' with
  | FUZZ =>
      state s' = FUZZING
      ∧ ∃ top, FuzzerJob.entry job' = Some top
               ∧ sample_queue s ≡ₚ top :: sample_queue s'
               ∧ samples_pending s' = samples_pending s
               ∧ input_files s' = input_files s
  | PROCESS_SAMPLE =>
      state s' ≠ FUZZING
      ∧ is_Some (FuzzerJob.sample job')
      ∧ samples_pending s' = samples_pending s + 1
      ∧ sample_queue s' = sample_queue s
  | WAIT =>
      samples_pending s' = samples_pending s
      ∧ sample_queue s' = sample_queue s
      ∧ input_files s' = input_files s
  end.
Proof. apply SynchronizeAndGetJob_accounts. Qed.

(** X9: while the fuzzer is not fuzzing and a sample is pending, job
    acquisition stays in its phase and hands out no [FUZZ] job: the
    processing of the input samples, and that of the server samples, ends
    only when every sample that was handed out has been given back. *)
Theorem SynchronizeAndGetJob_barrier (job job' : FuzzerJob) (s s' : machine) :
  state s ≠ FUZZING → samples_pending s ≠ 0 →
  SynchronizeAndGetJob job s = Ok (job', s') →
  state s' = state s ∧ FuzzerJob.type job' ≠ FUZZ.
Proof.
  intros Hstate Hpending Hrun.
  apply SynchronizeAndGetJob_blocks in Hrun
    as (s1 & s2 & s3 & s4 & H1 & H2 & H3 & H4 & Hrun).
  destruct (SynchronizeAndGetJob_sync_run s) as (s1' & H1' & Hs1).
  rewrite H1' in H1. injection H1 as ->.
  assert (state s1 = state s ∧ samples_pending s1 = samples_pending s)
    as [Hst1 Hp1] by (by rewrite Hs1).
  rewrite SynchronizeAndGetJob_update_skip in H2 by (left; congruence).
  injection H2 as <-.
  rewrite SynchronizeAndGetJob_input_skip in H3 by (right; right; congruence).
  injection H3 as <-.
  rewrite SynchronizeAndGetJob_server_run in H4.
  rewrite (bool_decide_eq_false_2 (samples_pending s1 = 0)) in H4
    by congruence.
  rewrite andb_false_r in H4.
  assert (s4 = s1) as -> by (destruct (decide _); congruence).
  pose proof (preserves_elim _ _ _ _ _ (keeps_state_dispense job) eq_refl Hrun)
    as Hkeep. unfold keeps in Hkeep.
  split; [congruence|]. intros Htype.
  apply SynchronizeAndGetJob_dispense_FUZZ in Hrun as [Hf _]; [|done].
  congruence.
Qed.

(** *** What no call of the engine changes *)

Lemma engine_call_keeps {B} (f : machine → B) s s' :
  run_independent f →
  (∀ v s, f (set_num_samples_discarded v s) = f s) →
  (∀ v s, f (set_samples_pending v s) = f s) →
  (∀ job, preserves (keeps f) (SynchronizeAndGetJob job)) →
  engine_call s s' → f s' = f s.
Proof.
  intros Hf Hd Hp Hacq Hcall.
  assert (execution_independent f) as He by (by destruct Hf).
  assert (∀ v s, f (set_sample_queue v s) = f s) as Hq
    by (by destruct Hf as (_ & _ & _ & _ & ?)).
  assert (∀ v s, f (set_files v s) = f s) as Hfiles
    by (by destruct He as [(_ & _ & _ & _ & _ & _ & ?) _]).
  destruct Hcall as [sample init_timeout timeout s x s1 Hrun
                    |sample hnc trim report init_timeout timeout s x s1 Hrun
                    |job s job' s1 Hrun
                    |job s s1 Hrun
                    |s s1 Hrun].
  - eapply (preserves_elim (keeps f)); [|done|exact Hrun].
    by apply keeps_RunSampleAndGetCoverage.
  - eapply (preserves_elim (keeps f)); [|done|exact Hrun].
    by apply keeps_RunSample.
  - eapply (preserves_elim (keeps f)); [|done|exact Hrun]. apply Hacq.
  - eapply (preserves_elim (keeps f)); [|done|exact Hrun].
    by apply keeps_JobDone.
  - eapply (preserves_elim (keeps f)); [|done|exact Hrun].
    by apply keeps_SaveState.
Qed.

Lemma run_independent_intro {B} (f : machine → B) :
  (∀ v s, f (set_total_execs v s) = f s) →
  (∀ v s, f (set_collab v s) = f s) →
  (∀ v s, f (set_unique_crashes v s) = f s) →
  (∀ v s, f (set_num_crashes v s) = f s) →
  (∀ v s, f (set_num_unique_crashes v s) = f s) →
  (∀ v s, f (set_num_hangs v s) = f s) →
  (∀ v s, f (set_files v s) = f s) →
  (∀ v s, f (set_history v s) = f s) →
  (∀ v s, f (set_fuzzer_coverage v s) = f s) →
  (∀ v s, f (set_num_samples v s) = f s) →
  (∀ v s, f (set_all_samples v s) = f s) →
  (∀ v s, f (set_sample_queue v s) = f s) →
  run_independent f.
Proof. intros. repeat split; done. Qed.

Lemma engine_call_opts s s' : engine_call s s' → opts s' = opts s.
Proof.
  apply (engine_call_keeps opts); [by apply run_independent_intro|done..|].
  intros job. by apply keeps_SynchronizeAndGetJob.
Qed.

(** *** The order of the phases *)

Lemma SynchronizeAndGetJob_leaves_input job :
  preserves (fun s0 s => state s0 ≠ INPUT_SAMPLE_PROCESSING →
                         state s ≠ INPUT_SAMPLE_PROCESSING)
    (SynchronizeAndGetJob job).
Proof.
  unfold_acquisition.
  repeat frame_step;
    first [apply preserves_modify; intros ? ? | apply preserves_call; intros ? ? ?
          | apply preserves_tell; intros ? ? ?];
    simpl; intros; repeat case_decide; simpl; auto.
Qed.

Lemma SynchronizeAndGetJob_no_server job s job' s' :
  server (opts s) = false →
  SynchronizeAndGetJob job s = Ok (job', s') →
  state s' = state s ∨ state s' = FUZZING.
Proof.
  intros Hserver Hrun.
  apply SynchronizeAndGetJob_blocks in Hrun
    as (s1 & s2 & s3 & s4 & H1 & H2 & H3 & H4 & Hrun).
  destruct (SynchronizeAndGetJob_sync_run s) as (s1' & H1' & Hs1).
  rewrite H1' in H1. injection H1 as ->.
  assert (state s1 = state s ∧ opts s1 = opts s) as [Hst1 Ho1]
    by (by rewrite Hs1).
  rewrite SynchronizeAndGetJob_update_skip in H2 by (right; congruence).
  injection H2 as <-.
  apply SynchronizeAndGetJob_input_no_server in H3; [|congruence].
  rewrite SynchronizeAndGetJob_server_run in H4. injection H4 as <-.
  pose proof (preserves_elim _ _ _ _ _ (keeps_state_dispense job) eq_refl Hrun)
    as Hkeep. unfold keeps in Hkeep. rewrite Hkeep.
  destruct H3 as [->| ->]; repeat case_decide; simpl;
    repeat (destruct (_ && _)); simpl; auto.
Qed.

Lemma engine_call_phase s s' : engine_call s s' → phase_advances s s'.
Proof.
  intros Hcall.
  assert (∀ s s' : machine, state s' = state s → phase_advances s s') as Hsame
    by (intros r r' Hr; split; rewrite Hr; auto).
  destruct Hcall as [sample init_timeout timeout s x s1 Hrun
                    |sample hnc trim report init_timeout timeout s x s1 Hrun
                    |job s job' s1 Hrun
                    |job s s1 Hrun
                    |s s1 Hrun].
  - apply Hsame.
    eapply (preserves_elim (keeps state)); [|done|exact Hrun].
    apply keeps_RunSampleAndGetCoverage.
    by apply execution_independent_intro.
  - apply Hsame.
    eapply (preserves_elim (keeps state)); [|done|exact Hrun].
    apply keeps_RunSample. by apply run_independent_intro.
  - split.
    + by apply (preserves_elim _ _ _ _ _
                  (SynchronizeAndGetJob_leaves_input job) (fun H => H) Hrun).
    + intros Hserver Hstate.
      destruct (SynchronizeAndGetJob_no_server _ _ _ _ Hserver Hrun)
        as [-> | ->]; done.
  - apply Hsame.
    eapply (preserves_elim (keeps state)); [|done|exact Hrun].
    by apply keeps_JobDone.
  - apply Hsame.
    eapply (preserves_elim (keeps state)); [|done|exact Hrun].
    by apply keeps_SaveState.
Qed.

(** X10: whatever the workers and the main loop do, the phase never goes
    back: once the processing of the input samples has ended it is not
    entered again, and without a server the processing of server samples is
    never entered. *)
Theorem phases_never_go_back (s s' : machine) :
  rtc engine_step s s' →
  (state s ≠ INPUT_SAMPLE_PROCESSING → state s' ≠ INPUT_SAMPLE_PROCESSING)
  ∧ (server (opts s) = false → state s ≠ SERVER_SAMPLE_PROCESSING →
     state s' ≠ SERVER_SAMPLE_PROCESSING).
Proof.
  intros Hsteps.
  induction Hsteps as [s|s s1 s2 Hstep _ [IHi IHs]]; [done|].
  assert (opts s1 = opts s ∧ phase_advances s s1) as [Ho [Hi Hs]].
  { destruct Hstep as [s s1 Hcall|e s]; [|by repeat split].
    split; [by apply engine_call_opts|by apply engine_call_phase]. }
  split; [auto|]. intros Hserver Hstate. apply IHs; [congruence|auto].
Qed.

(** *** Input files and the worker's view *)

Lemma bind_run {A B} (m : M A) (k : A → M B) s a s1 :
  m s = Ok (a, s1) → bind m k s = k a s1.
Proof. intros Hm. unfold bind. by rewrite Hm. Qed.

(** X11: while input files are left in the phase that processes them, job
    acquisition returns, and hands out the first input file: the job is a
    [PROCESS_SAMPLE] job whose sample is the bytes loaded from that file,
    cut to [MAX_SAMPLE_SIZE]; the file is taken off the list,
    [samples_pending] goes up by one, and the phase and the queue stay. *)
Theorem SynchronizeAndGetJob_input_file (job : FuzzerJob) (s : machine)
    (filename : Path) (rest : list Path) :
  state s = INPUT_SAMPLE_PROCESSING → input_files s = filename :: rest →
  ∃ job' s' bytes,
    SynchronizeAndGetJob job s = Ok (job', s')
    ∧ Load filename s = Ok (bytes, s)
    ∧ FuzzerJob.type job' = PROCESS_SAMPLE
    ∧ FuzzerJob.sample job' = Some (take MAX_SAMPLE_SIZE bytes)
    ∧ (size (take MAX_SAMPLE_SIZE bytes) ≤ MAX_SAMPLE_SIZE)%nat
    ∧ input_files s' = rest
    ∧ samples_pending s' = samples_pending s + 1
    ∧ state s' = INPUT_SAMPLE_PROCESSING
    ∧ sample_queue s' = sample_queue s.
Proof.
  intros Hstate Hfiles.
  destruct (SynchronizeAndGetJob_sync_run s) as (s1 & H1 & Hs1).
  assert (state s1 = INPUT_SAMPLE_PROCESSING
          ∧ input_files s1 = filename :: rest
          ∧ files s1 = files s ∧ samples_pending s1 = samples_pending s
          ∧ sample_queue s1 = sample_queue s) as (Hst1 & Hf1 & Hfs1 & Hp1 & Hq1).
  { rewrite Hs1. simpl. done. }
  assert (SynchronizeAndGetJob job s = SynchronizeAndGetJob_dispense job s1)
    as ->.
  { assert (SynchronizeAndGetJob_update s1 = Ok (tt, s1)) as H2
      by (apply SynchronizeAndGetJob_update_skip; left; congruence).
    assert (SynchronizeAndGetJob_input s1 = Ok (tt, s1)) as H3
      by (apply SynchronizeAndGetJob_input_skip; right; left; congruence).
    assert (SynchronizeAndGetJob_server s1 = Ok (tt, s1)) as H4
      by (rewrite SynchronizeAndGetJob_server_run;
          by rewrite decide_False by congruence).
    unfold SynchronizeAndGetJob. rewrite (bind_run _ _ _ _ _ H1).
    rewrite (bind_run _ _ _ _ _ H2), (bind_run _ _ _ _ _ H3).
    by rewrite (bind_run _ _ _ _ _ H4). }
  unfold SynchronizeAndGetJob_dispense, bind, get, modify, ret, Load. simpl.
  rewrite Hst1, Hf1, Hfs1. simpl.
  set (bytes := default [] (files s !! filename)).
  eexists _, _, bytes. split; [reflexivity|]. simpl.
  split_and!; try done.
  - f_equal. unfold Trim. destruct (decide _); [done|].
    rewrite take_ge; [done|]. unfold size in *. lia.
  - unfold size. rewrite length_take. lia.
  - congruence.
Qed.

(** X12: when the worker's view of the corpus is a prefix of
    [all_samples], as it is by construction, job acquisition brings it up
    to date: on return the view is the whole of [all_samples]. *)
Theorem SynchronizeAndGetJob_view (job job' : FuzzerJob) (s s' : machine) :
  all_samples_local s `prefix_of` all_samples s →
  SynchronizeAndGetJob job s = Ok (job', s') →
  all_samples s' = all_samples s ∧ all_samples_local s' = all_samples s'.
Proof.
  intros [tail Htail] Hrun.
  apply SynchronizeAndGetJob_blocks in Hrun
    as (s1 & s2 & s3 & s4 & H1 & H2 & H3 & H4 & Hrun).
  set (f := fun s : machine => (all_samples s, all_samples_local s)).
  assert (f s1 = (all_samples s, all_samples s)) as E1.
  { apply modify_Ok in H1. rewrite H1. unfold f.
    destruct (decide _) as [Hlt|Hge]; simpl.
    - rewrite Htail. by rewrite drop_app_length.
    - f_equal. rewrite Htail in Hge. rewrite length_app in Hge.
      destruct tail; [by rewrite Htail, app_nil_r|simpl in Hge; lia]. }
  assert (preserves (keeps f) SynchronizeAndGetJob_update) as K2.
  { unfold SynchronizeAndGetJob_update, pull_updates. keeps_fields. }
  assert (preserves (keeps f) SynchronizeAndGetJob_input) as K3.
  { unfold SynchronizeAndGetJob_input, pull_updates. keeps_fields. }
  assert (preserves (keeps f) SynchronizeAndGetJob_server) as K4.
  { unfold SynchronizeAndGetJob_server. keeps_fields. }
  assert (preserves (keeps f) (SynchronizeAndGetJob_dispense job)) as K5.
  { unfold SynchronizeAndGetJob_dispense. keeps_fields. }
  pose proof (preserves_elim _ _ _ _ _ K2 eq_refl H2) as E2.
  pose proof (preserves_elim _ _ _ _ _ K3 eq_refl H3) as E3.
  pose proof (preserves_elim _ _ _ _ _ K4 eq_refl H4) as E4.
  pose proof (preserves_elim _ _ _ _ _ K5 eq_refl Hrun) as E5.
  unfold keeps in *.
  assert (f s' = (all_samples s, all_samples s)) as [= -> ->] by congruence.
  done.
Qed.

(** *** File names of samples *)

Lemma digits_value_pretty_N_go x :
  ∃ k, ∀ acc s,
    digits_value acc (pretty_N_go x s) = digits_value (acc * 10 ^ k + x)%N s.
Proof.
  induction (N.lt_wf_0 x) as [x _ IH].
  destruct (decide (x = 0)%N) as [->|Hx].
  { exists 0%N. intros acc s. rewrite pretty_N_go_0. f_equal. lia. }
  destruct (IH (x `div` 10)%N) as [k Hk]; [apply N.div_lt; lia|].
  exists (k + 1)%N. intros acc s.
  rewrite pretty_N_go_step by lia. rewrite Hk. simpl. f_equal.
  assert (N_of_ascii (pretty_N_char (x `mod` 10)) - 48 = x `mod` 10)%N as ->.
  { assert (x `mod` 10 < 10)%N as Hlt by (apply N.mod_lt; lia).
    destruct (x `mod` 10)%N as [|p]; [done|].
    do 4 (destruct p as [p|p|]; try done); lia. }
  rewrite N.pow_add_r, N.pow_1_r.
  pose proof (N.div_mod x 10). lia.
Qed.

Lemma digits_value_pretty (n : N) : digits_value 0 (pretty n) = n.
Proof.
  unfold pretty, pretty_N. case_decide as Hn; [by subst|].
  destruct (digits_value_pretty_N_go n) as [k Hk]. rewrite Hk. simpl. lia.
Qed.

Lemma pretty_Z_nonneg v : 0 ≤ v → pretty v = pretty (Z.to_N v).
Proof. intros Hv. destruct v as [|p|p]; [done|done|lia]. Qed.

Lemma zeros_String k :
  String.concat "" (replicate (S k) "0"%string)
  = String "0" (String.concat "" (replicate k "0"%string)).
Proof. by destruct k. Qed.

Lemma digits_value_pad0 width s :
  digits_value 0 (pad0 width s) = digits_value 0 s.
Proof.
  unfold pad0. induction (width - String.length s)%nat as [|k IH]; [done|].
  by rewrite zeros_String, append_String.
Qed.

Lemma occurs_digits c x s :
  (∀ d, pretty_N_char d ≠ c) →
  occurs c (pretty_N_go x s) = occurs c s.
Proof.
  intros Hc. revert s. induction (N.lt_wf_0 x) as [x _ IH]; intros s.
  destruct (decide (x = 0)%N) as [->|Hx]; [by rewrite pretty_N_go_0|].
  rewrite pretty_N_go_step by lia. rewrite IH by (apply N.div_lt; lia).
  simpl. rewrite bool_decide_eq_false_2; [done|]. intros Heq.
  by apply (Hc (x `mod` 10)%N).
Qed.

Lemma occurs_dash_pad0 width (n : N) : occurs "-" (pad0 width (pretty n)) = false.
Proof.
  unfold pad0. rewrite occurs_app. apply orb_false_intro.
  - induction (width - _)%nat as [|k IH]; [done|].
    by rewrite zeros_String.
  - unfold pretty, pretty_N. case_decide; [done|].
    rewrite occurs_digits; [done|].
    intros d. unfold pretty_N_char. by repeat case_match.
Qed.

Lemma pad0_pretty_inj width (n m : N) :
  pad0 width (pretty n) = pad0 width (pretty m) → n = m.
Proof.
  intros Heq. apply (f_equal (digits_value 0)) in Heq.
  by rewrite !digits_value_pad0, !digits_value_pretty in Heq.
Qed.

Lemma fmt_05lld_inj n m :
  0 ≤ n < 2 ^ 64 → 0 ≤ m < 2 ^ 64 → fmt_05lld n = fmt_05lld m → n = m.
Proof.
  intros Hn Hm. unfold fmt_05lld, as_signed64.
  set (v := if decide (n < 2 ^ 63) then n else n - 2 ^ 64).
  set (w := if decide (m < 2 ^ 63) then m else m - 2 ^ 64).
  assert (v = w → n = m) as Hvw.
  { unfold v, w. repeat case_decide; lia. }
  destruct (decide (v < 0)) as [Hv|Hv], (decide (w < 0)) as [Hw|Hw].
  - rewrite (pretty_Z_nonneg (- v)), (pretty_Z_nonneg (- w)) by lia.
    rewrite !append_String, !append_empty. intros [= Heq].
    apply pad0_pretty_inj in Heq. apply Hvw. lia.
  - rewrite (pretty_Z_nonneg w) by lia. intros Heq.
    apply (f_equal (occurs "-")) in Heq.
    by rewrite occurs_dash_pad0 in Heq.
  - rewrite (pretty_Z_nonneg v) by lia. intros Heq.
    apply (f_equal (occurs "-")) in Heq.
    by rewrite occurs_dash_pad0 in Heq.
  - rewrite (pretty_Z_nonneg v), (pretty_Z_nonneg w) by lia. intros Heq.
    apply pad0_pretty_inj in Heq. apply Hvw. lia.
Qed.

Lemma sample_file_inj o n m :
  0 ≤ n < 2 ^ 64 → 0 ≤ m < 2 ^ 64 → sample_file o n = sample_file o m →
  n = m.
Proof.
  intros Hn Hm Heq. unfold sample_file in Heq. apply DirJoin_inj in Heq.
  unfold sample_filename in Heq.
  apply fmt_05lld_inj; [done..|].
  revert Heq. generalize (fmt_05lld n), (fmt_05lld m). intros a b.
  rewrite !append_String, !append_empty. by intros [= ->].
Qed.

Lemma sample_file_outside o i :
  outside_crashes_and_hangs o (sample_file o i).
Proof.
  split; intros name; unfold sample_file, sample_dir, crash_dir, hangs_dir,
    DirJoin; rewrite <- !app_assoc; simpl; intros Heq;
    by apply app_inv_head in Heq.
Qed.

Lemma state_file_outside o : outside_crashes_and_hangs o (state_file o).
Proof.
  split; intros name; unfold state_file, crash_dir, hangs_dir, DirJoin;
    rewrite <- !app_assoc; simpl; intros Heq; by apply app_inv_head in Heq.
Qed.

Lemma sample_file_not_state_file o i : sample_file o i ≠ state_file o.
Proof.
  unfold sample_file, sample_dir, state_file, DirJoin.
  rewrite <- !app_assoc. simpl. intros Heq. by apply app_inv_head in Heq.
Qed.

(** *** Executions and the files of the corpus *)

Lemma quiet_outside_refl s : quiet_outside s s.
Proof. by split. Qed.

Lemma quiet_outside_trans s0 s1 s2 :
  quiet_outside s0 s1 → quiet_outside s1 s2 → quiet_outside s0 s2.
Proof.
  intros [Ho1 Hf1] [Ho2 Hf2]. split; [congruence|].
  intros path Hpath. rewrite Hf2, Hf1; [done..|]. by rewrite Ho1.
Qed.

Lemma only_executions_refl s : only_executions s s.
Proof. split; [apply quiet_outside_refl|done]. Qed.

Lemma only_executions_trans s0 s1 s2 :
  only_executions s0 s1 → only_executions s1 s2 → only_executions s0 s2.
Proof.
  intros (Hq1 & ? & ? & ?) (Hq2 & ? & ? & ?).
  split; [by eapply quiet_outside_trans|]. split_and!; congruence.
Qed.

Lemma quiet_outside_Save_crash o name sample s :
  o = opts s →
  quiet_outside s
    (set_files (<[DirJoin (crash_dir o) name := sample]> (files s)) s).
Proof.
  intros ->. split; [done|]. intros path [Hcrash _]. simpl.
  by rewrite lookup_insert_ne.
Qed.

Lemma quiet_outside_crash_block sample init_timeout timeout s s' :
  RunSampleAndGetCoverage_crash sample init_timeout timeout s = Ok (tt, s') →
  quiet_outside s s'.
Proof.
  unfold RunSampleAndGetCoverage_crash. intros H2.
  apply bind_Ok in H2 as (desc0 & sa & Ha & H2). apply get_Ok in Ha as [-> ->].
  apply bind_Ok in H2 as (reproduced & sb & Hb & H2).
  apply TryReproduceCrash_loop_attempts in Hb
    as (results & _ & _ & _ & _ & _ & Hsb).
  apply bind_Ok in H2 as (desc & sc & Hc & H2).
  assert (sc = sb) as ->.
  { destruct (decide (reproduced = CRASH)).
    - by apply get_Ok in Hc as [_ ->].
    - by apply ret_Ok in Hc as [_ ->]. }
  assert (files sb = files s ∧ opts sb = opts s) as (Hfiles & Hopts)
    by (by rewrite Hsb).
  clear Hsb.
  apply bind_Ok in H2 as ([should_save duplicates] & sd & Hd & H2).
  assert (files sd = files s ∧ opts sd = opts s) as (Hfd & Hod).
  { rewrite <- Hfiles, <- Hopts.
    destruct (unique_crashes sb !! desc) as [count|] eqn:Hlook.
    - destruct (decide (count < MAX_IDENTICAL_CRASHES)) as [Hlt|Hge].
      + rewrite (record_crash_below _ count) in Hd by done.
        by injection Hd as _ _ <-.
      + rewrite (record_crash_capped _ count) in Hd by done.
        by injection Hd as _ _ <-.
    - rewrite record_crash_unseen in Hd by done. by injection Hd as _ _ <-. }
  destruct should_save.
  - revert H2. unfold bind, get, Save, modify, tell, ret. simpl.
    destruct (server (opts sd)); intros [= <-]; split; simpl;
      try congruence; intros path [Hcrash _];
      rewrite lookup_insert_ne by (rewrite Hod; apply not_eq_sym, Hcrash);
      congruence.
  - apply ret_Ok in H2 as [_ ->]. split; [congruence|]. intros; congruence.
Qed.

Lemma quiet_outside_hang_block sample s s' :
  RunSampleAndGetCoverage_hang sample s = Ok (tt, s') → quiet_outside s s'.
Proof.
  unfold RunSampleAndGetCoverage_hang, bind, get, modify, Save, ret. simpl.
  destruct (save_hangs (opts s)); intros [= <-]; split; simpl; try done.
  intros path [_ Hhang]. by rewrite lookup_insert_ne.
Qed.

Lemma RunSampleAndGetCoverage_only_executions sample init_timeout timeout s x
    s' :
  RunSampleAndGetCoverage sample init_timeout timeout s = Ok (x, s') →
  only_executions s s'.
Proof.
  intros Hrun. split.
  - destruct x as [result coverage].
    apply RunSampleAndGetCoverage_inv in Hrun
      as (s1 & s2 & s3 & H1 & H2 & H3 & ->).
    assert (quiet_outside s s1) as Q1.
    { unfold only_collab in H1. rewrite H1. by split. }
    assert (quiet_outside s1 s2) as Q2.
    { destruct (decide (result = CRASH)).
      - by eapply quiet_outside_crash_block.
      - apply ret_Ok in H2 as [_ ->]. apply quiet_outside_refl. }
    assert (quiet_outside s2 s3) as Q3.
    { destruct (decide (result = HANG)).
      - by eapply quiet_outside_hang_block.
      - apply ret_Ok in H3 as [_ ->]. apply quiet_outside_refl. }
    eapply quiet_outside_trans; [|eapply quiet_outside_trans; [|exact Q3]];
      [exact Q1|].
    eapply quiet_outside_trans; [exact Q2|]. by split.
  - assert (execution_independent
              (fun s : machine => (all_samples s, num_samples s, sample_queue s)))
      as Hf by (by apply execution_independent_intro).
    pose proof (preserves_elim _ _ _ _ _
                  (keeps_RunSampleAndGetCoverage _ sample init_timeout timeout
                     Hf) eq_refl Hrun) as [= -> -> ->].
    done.
Qed.

Lemma preserves_only_executions_RunSampleAndGetCoverage sample init_timeout
    timeout :
  preserves only_executions
    (RunSampleAndGetCoverage sample init_timeout timeout).
Proof.
  intros s0 s Hs.
  destruct (RunSampleAndGetCoverage _ _ _ s) as [[x s']| |] eqn:Hrun; [|done..].
  eapply only_executions_trans; [exact Hs|].
  by eapply RunSampleAndGetCoverage_only_executions.
Qed.

Lemma only_executions_collab s0 s e :
  only_executions s0 s → only_executions s0 (set_collab e s).
Proof. done. Qed.

Lemma only_executions_fuzzer_coverage s0 s c :
  only_executions s0 s → only_executions s0 (set_fuzzer_coverage c s).
Proof. done. Qed.

Ltac executions_step :=
  first [apply preserves_modify; intros ? ? | apply preserves_call; intros ? ? ?
        | apply preserves_tell; intros ? ? ?];
  intros; assumption.

Lemma only_executions_TrimSample_loop fuel sample stable_coverage init_timeout
    timeout :
  ∀ trim_step trimmed_size test_sample,
    preserves only_executions
      (TrimSample_loop fuel sample stable_coverage init_timeout timeout
         trim_step trimmed_size test_sample).
Proof.
  induction fuel as [|fuel IH]; intros trim_step trimmed_size test_sample;
    simpl; [apply preserves_out_of_fuel|].
  pose proof preserves_only_executions_RunSampleAndGetCoverage.
  repeat frame_step; auto.
Qed.

Lemma only_executions_TrimSample sample stable_coverage init_timeout timeout :
  preserves only_executions
    (TrimSample sample stable_coverage init_timeout timeout).
Proof.
  pose proof only_executions_TrimSample_loop. unfold TrimSample.
  repeat frame_step; auto.
Qed.

Lemma only_executions_RunSample_retry n sample init_timeout timeout :
  ∀ result stableCoverage totalCoverage,
    preserves only_executions
      (RunSample_retry n sample result stableCoverage totalCoverage
         init_timeout timeout).
Proof.
  induction n as [|n IH]; intros result stableCoverage totalCoverage; simpl;
    [apply preserves_ret|].
  pose proof preserves_only_executions_RunSampleAndGetCoverage.
  repeat frame_step; auto.
Qed.

Lemma TrimSample_prefix sample stable_coverage init_timeout timeout s sample'
    s' :
  TrimSample sample stable_coverage init_timeout timeout s = Ok (sample', s') →
  ∃ k, sample' = take k sample.
Proof.
  unfold TrimSample. destruct (decide (size sample ≤ 1)%nat).
  - intros [-> _]%ret_Ok. exists (size sample). by rewrite take_ge.
  - intros (k & s1 & _ & [-> _]%ret_Ok)%bind_Ok.
    destruct (decide _); [by exists k|].
    exists (size sample). by rewrite take_ge.
Qed.

(** *** Acceptance *)

Lemma preserves_step {A} R (m : M A) s0 s a s' :
  preserves R m → R s0 s → m s = Ok (a, s') → R s0 s'.
Proof. intros Hm Hs Hrun. by apply (hoare_elim _ _ _ _ _ _ (Hm s0) Hs Hrun). Qed.

Lemma RunSample_accept_run sample has_new_coverage stableCoverage trim
    report_to_server init_timeout timeout s sample' pointee s' :
  RunSample_accept sample has_new_coverage stableCoverage trim
    report_to_server init_timeout timeout s = Ok ((sample', pointee), s') →
  ∃ sT e context,
    only_executions s sT
    ∧ (∃ k, sample' = take k sample)
    ∧ (trim = false → sample' = sample)
    ∧ pointee = (fun _ => 1) <$> has_new_coverage
    ∧ s' = set_sample_queue
             (accepted_entry sample' context
                (u64 (u64 (num_samples sT + 1) - 1)) :: sample_queue sT)
             (set_all_samples (all_samples sT ++ [sample'])
                (set_collab e
                   (set_num_samples (u64 (num_samples sT + 1))
                      (set_files
                         (<[sample_file (opts sT) (num_samples sT)
                            := sample']> (files sT)) sT)))).
Proof.
  unfold RunSample_accept. intros Hrun.
  apply bind_Ok in Hrun as (trimmed & sT & HT & Hrun).
  assert (only_executions s sT ∧ (∃ k, trimmed = take k sample)
          ∧ (trim = false → trimmed = sample)) as (Hexec & Hprefix & Hsame).
  { destruct trim.
    - split_and!; [|by eapply TrimSample_prefix|done].
      eapply preserves_elim;
        [apply only_executions_TrimSample|apply only_executions_refl|done].
    - apply ret_Ok in HT as [-> ->].
      split_and!; [apply only_executions_refl| |done].
      exists (size sample). by rewrite take_ge. }
  revert Hrun. unfold bind, get, Save, modify, tell, call, ret. simpl.
  destruct (server (opts sT) && report_to_server); simpl;
    destruct (CreateSampleContext ops trimmed _) as [context e] eqn:Hctx;
    intros [= <- <- <-]; exists sT, e, context; split_and!; done.
Qed.

Lemma RunSample_shape sample has_new_coverage trim report_to_server
    init_timeout timeout s result sample' pointee s' :
  RunSample sample has_new_coverage trim report_to_server init_timeout
    timeout s = Ok ((result, sample', pointee), s') →
  (only_executions s s' ∧ sample' = sample
   ∧ pointee = (fun _ => 0) <$> has_new_coverage)
  ∨ (result = OK
     ∧ ∃ sa stableCoverage sb e,
         only_executions s sa
         ∧ RunSample_accept sample ((fun _ => 0) <$> has_new_coverage)
             stableCoverage trim report_to_server init_timeout timeout sa
           = Ok ((sample', pointee), sb)
         ∧ s' = set_collab e sb).
Proof.
  intros Hrun. unfold RunSample in Hrun. simpl in Hrun.
  apply bind_Ok in Hrun as ([r0 c0] & s1 & H1 & Hrun).
  apply RunSampleAndGetCoverage_only_executions in H1 as X1.
  destruct (decide (r0 ≠ OK)) as [Hne|Heq].
  { apply ret_Ok in Hrun as [[= -> -> ->] ->]. by left. }
  assert (r0 = OK) as -> by (destruct (decide (r0 = OK)); [done|by destruct Heq]).
  destruct (coverage_empty c0).
  { apply ret_Ok in Hrun as [[= -> -> ->] ->]. by left. }
  apply bind_Ok in Hrun as ([] & s2 & H2 & Hrun). apply modify_Ok in H2.
  apply bind_Ok in Hrun as (retried & s3 & H3 & Hrun).
  assert (only_executions s s3) as X3.
  { eapply preserves_step; [apply only_executions_RunSample_retry| |exact H3].
    rewrite H2. by apply only_executions_collab. }
  destruct retried as [r|[[r stable] total]].
  { apply ret_Ok in Hrun as [[= -> -> ->] ->]. by left. }
  apply RunSample_retry_spec in H3 as [Hr _].
  apply bind_Ok in Hrun as ([[interesting stable'] variable'] & s4 & H4 & Hrun).
  rewrite InterestingSample_run in H4. injection H4 as <- <- <- <-.
  apply bind_Ok in Hrun as ([sample2 pointee2] & s5 & H5 & Hrun).
  apply bind_Ok in Hrun as (o & s6 & H6 & Hrun). apply get_Ok in H6 as [-> ->].
  apply bind_Ok in Hrun as ([] & s7 & H7 & Hrun).
  apply bind_Ok in Hrun as ([] & s8 & H8 & Hrun). apply modify_Ok in H8.
  apply ret_Ok in Hrun as [[= -> -> ->] ->]. subst s8.
  assert (∃ e, set_collab (IgnoreCoverage ops total (collab s7)) s7
               = set_collab e s5) as [e He].
  { destruct (_ && _).
    - apply modify_Ok in H7. rewrite H7. by eexists.
    - apply ret_Ok in H7 as [_ ->]. by eexists. }
  rewrite He. clear He H7.
  destruct (decide _) as [Hint|Hnot].
  - right. split; [by destruct Hr|].
    eexists _, _, s5, e. split; [|split; [exact H5|done]].
    by apply only_executions_fuzzer_coverage.
  - apply ret_Ok in H5 as [[= -> ->] ->]. left.
    split_and!; [|done..].
    by apply only_executions_collab, only_executions_fuzzer_coverage.
Qed.

(** X13: a call of [RunSample] that returns either leaves the corpus as
    it is, and then hands the sample back unchanged and reports no new
    coverage, or accepts the sample, and then its result is OK, it reports
    new coverage, and exactly this has happened to the corpus: the sample,
    cut to a prefix when trimming was asked for, has been saved in the
    sample directory under the index [num_samples], appended to
    [all_samples] and queued with priority 0, a mutator context and that
    index, and [num_samples] has gone up by one. *)
Theorem RunSample_acceptance (sample : Sample) (has_new_coverage : option Z)
    (trim report_to_server : bool) (init_timeout timeout : Z)
    (s s' : machine) (result : RunResult) (sample' : Sample)
    (pointee : option Z) :
  RunSample sample has_new_coverage trim report_to_server init_timeout
    timeout s = Ok ((result, sample', pointee), s') →
  (all_samples s' = all_samples s ∧ sample_queue s' = sample_queue s
   ∧ num_samples s' = num_samples s
   ∧ (∀ i, files s' !! sample_file (opts s) i
           = files s !! sample_file (opts s) i)
   ∧ sample' = sample
   ∧ pointee = (fun _ => 0) <$> has_new_coverage)
  ∨ (result = OK
     ∧ pointee = (fun _ => 1) <$> has_new_coverage
     ∧ (∃ k, sample' = take k sample)
     ∧ (trim = false → sample' = sample)
     ∧ all_samples s' = all_samples s ++ [sample']
     ∧ (∃ context,
          sample_queue s'
          = accepted_entry sample' context (u64 (u64 (num_samples s + 1) - 1))
            :: sample_queue s)
     ∧ num_samples s' = u64 (num_samples s + 1)
     ∧ files s' !! sample_file (opts s) (num_samples s) = Some sample').
Proof.
  intros Hrun. apply RunSample_shape in Hrun
    as [(([Ho Hf] & Ha & Hn & Hq) & -> & ->)
       |(-> & sa & stable & sb & e & ([Ho Hf] & Ha & Hn & Hq) & Hacc & ->)].
  - left. split_and!; try done. intros i. apply Hf, sample_file_outside.
  - right. apply RunSample_accept_run in Hacc
      as (sT & e' & context
          & ([Ho' Hf'] & Ha' & Hn' & Hq') & Hprefix & Hsame & -> & ->).
    simpl. rewrite Ha', Ha, Hn', Hn, Hq', Hq, Ho', Ho, lookup_insert_eq.
    split_and!; try done; [by destruct has_new_coverage|by exists context].
Qed.

(** *** The corpus across the engine *)

Lemma engine_call_corpus s s' :
  engine_call s s' →
  opts s' = opts s
  ∧ ((all_samples s' = all_samples s ∧ num_samples s' = num_samples s
      ∧ ∀ i, files s' !! sample_file (opts s) i
             = files s !! sample_file (opts s) i)
     ∨ ∃ sample',
         all_samples s' = all_samples s ++ [sample']
         ∧ num_samples s' = u64 (num_samples s + 1)
         ∧ files s' !! sample_file (opts s) (num_samples s) = Some sample'
         ∧ ∀ i, sample_file (opts s) i ≠ sample_file (opts s) (num_samples s) →
                files s' !! sample_file (opts s) i
                = files s !! sample_file (opts s) i).
Proof.
  intros Hcall. split; [by apply engine_call_opts|].
  assert (∀ r r' : machine,
            (opts r', all_samples r', num_samples r', files r')
            = (opts r, all_samples r, num_samples r, files r) →
            all_samples r' = all_samples r ∧ num_samples r' = num_samples r
            ∧ ∀ i, files r' !! sample_file (opts r) i
                   = files r !! sample_file (opts r) i) as Hsame
    by (by intros r r' [= _ -> -> ->]).
  destruct Hcall as [sample init_timeout timeout s x s1 Hrun
                    |sample hnc trim report init_timeout timeout s x s1 Hrun
                    |job s job' s1 Hrun
                    |job s s1 Hrun
                    |s s1 Hrun].
  - left. apply RunSampleAndGetCoverage_only_executions in Hrun
      as ([_ Hf] & Ha & Hn & _).
    split_and!; [done..|]. intros i. apply Hf, sample_file_outside.
  - destruct x as [[result sample'] pointee].
    apply RunSample_shape in Hrun
      as [(([Ho Hf] & Ha & Hn & Hq) & _ & _)
         |(_ & sa & stable & sb & e & ([Ho Hf] & Ha & Hn & Hq) & Hacc & ->)].
    + left. split_and!; [done..|]. intros i. apply Hf, sample_file_outside.
    + right. apply RunSample_accept_run in Hacc
        as (sT & e' & context
            & ([Ho' Hf'] & Ha' & Hn' & Hq') & _ & _ & _ & ->).
      exists sample'. simpl.
      rewrite Ha', Ha, Hn', Hn, Ho', Ho, lookup_insert_eq.
      split_and!; [done..|]. intros i Hi.
      rewrite lookup_insert_ne by done.
      rewrite Hf', Hf; [done|apply sample_file_outside|].
      rewrite Ho. apply sample_file_outside.
  - left. apply Hsame.
    apply (preserves_elim _ _ _ _ _
             (keeps_SynchronizeAndGetJob
                (fun s => (opts s, all_samples s, num_samples s, files s))
                job ltac:(by repeat split)) eq_refl Hrun).
  - left. apply Hsame.
    apply (preserves_elim _ _ _ _ _
             (keeps_JobDone
                (fun s => (opts s, all_samples s, num_samples s, files s))
                job ltac:(done) ltac:(done) ltac:(done)) eq_refl Hrun).
  - left. destruct (decide (state s = INPUT_SAMPLE_PROCESSING)) as [Hstate|Hstate].
    + unfold SaveState, bind, get in Hrun. rewrite Hstate in Hrun. simpl in Hrun.
      by injection Hrun as <-.
    + rewrite SaveState_run in Hrun by done. injection Hrun as <-. simpl.
      split_and!; [done..|]. intros i.
      rewrite lookup_insert_ne; [done|]. apply not_eq_sym, sample_file_not_state_file.
Qed.

Lemma engine_step_corpus s s' :
  engine_step s s' →
  opts s' = opts s
  ∧ ((all_samples s' = all_samples s ∧ num_samples s' = num_samples s
      ∧ ∀ i, files s' !! sample_file (opts s) i
             = files s !! sample_file (opts s) i)
     ∨ ∃ sample',
         all_samples s' = all_samples s ++ [sample']
         ∧ num_samples s' = u64 (num_samples s + 1)
         ∧ files s' !! sample_file (opts s) (num_samples s) = Some sample'
         ∧ ∀ i, sample_file (opts s) i ≠ sample_file (opts s) (num_samples s) →
                files s' !! sample_file (opts s) i
                = files s !! sample_file (opts s) i).
Proof.
  intros Hstep. destruct Hstep as [s s' Hcall|e s];
    [by apply engine_call_corpus|].
  split; [done|]. by left.
Qed.

(** X14: the index of the corpus only grows at its end: whatever the
    workers and the main loop do, [all_samples] keeps every sample at its
    position. *)
Theorem all_samples_append_only (s s' : machine) :
  rtc engine_step s s' → all_samples s `prefix_of` all_samples s'.
Proof.
  intros Hsteps. induction Hsteps as [s|s s1 s2 Hstep _ IH]; [done|].
  etrans; [|exact IH].
  destruct (engine_step_corpus _ _ Hstep)
    as [_ [(-> & _)|(sample' & -> & _)]]; [done|].
  by apply prefix_app_r.
Qed.

Lemma corpus_stored_step s s' :
  engine_step s s' → corpus_stored s → corpus_stored s'.
Proof.
  intros Hstep Hstored.
  destruct (engine_step_corpus _ _ Hstep)
    as [Ho [(Ha & Hn & Hf)|(sample' & Ha & Hn & Hnew & Hf)]].
  - unfold corpus_stored. rewrite Ha, Hn, Ho. intros Hlen.
    destruct (Hstored Hlen) as [Hnum Hfiles]. split; [done|].
    intros i sample Hi. rewrite Hf. by apply Hfiles.
  - unfold corpus_stored. rewrite Ha, Hn, Ho, length_app. simpl.
    intros Hlen.
    destruct Hstored as [Hnum Hfiles]; [lia|]. rewrite Hnum in *.
    split; [unfold u64; rewrite Z.mod_small; lia|].
    intros i sample Hi.
    apply lookup_app_Some in Hi as [Hi|[Hge Hi]].
    + apply lookup_lt_Some in Hi as Hlt. rewrite Hf; [by apply Hfiles|].
      intros Heq. apply sample_file_inj in Heq; lia.
    + apply list_lookup_singleton_Some in Hi as [Hi ->].
      replace i with (length (all_samples s)) by lia. done.
Qed.

(** X15: the corpus stays stored across calls that do not overlap.  When
    [num_samples] is the length of [all_samples] and every sample of
    [all_samples] is in the sample directory in the file [sample_<index>],
    as is the case when the corpus is empty, this is still so after any
    sequence of calls of the engine and of the collaborators that are made
    one after the other, as those of a fuzzer with a single worker are
    (as long as there are fewer than 2^64 samples).  Nothing is said of
    two workers whose calls of [RunSample] overlap between the saving of
    the file and the queuing of the sample. *)
Theorem corpus_stays_stored (s s' : machine) :
  rtc engine_step s s' → corpus_stored s → corpus_stored s'.
Proof.
  intros Hsteps. induction Hsteps as [s|s s1 s2 Hstep _ IH]; [done|].
  intros Hstored. by apply IH, (corpus_stored_step s).
Qed.

(** *** Restoring the corpus *)

Opaque encode_le.

Lemma RestoreState_counts r n rest :
  files r !! state_file (opts r) = Some (encode_le 8 n ++ rest) →
  ∃ r0, RestoreState r
        = RestoreState_loop (Z.to_nat (decode_le (encode_le 8 n))) 0 r0
        ∧ opts r0 = opts r ∧ files r0 = files r
        ∧ all_samples r0 = all_samples r ∧ sample_queue r0 = sample_queue r
        ∧ num_samples r0 = decode_le (encode_le 8 n).
Proof.
  intros Hfile. unfold RestoreState, bind, get. simpl. rewrite Hfile.
  rewrite (fread8_app decode_le) by apply length_encode_le.
  unfold modify. simpl.
  destruct (fread8 decode_le _ rest) as [n2 stream2].
  destruct (fread8 double_of_bytes _ stream2) as [p stream3].
  destruct (ReadCoverageBinary stream3) as [coverage stream4]. simpl.
  eexists. split; [reflexivity|]. done.
Qed.

Transparent encode_le.

Lemma stored_samples_all (o : Options) (stored : gmap Path Sample)
    (samples : list Sample) :
  (∀ i sample, samples !! i = Some sample →
               stored !! sample_file o (Z.of_nat i) = Some sample) →
  map (stored_sample o stored) (seqZ 0 (Z.of_nat (length samples))) = samples.
Proof.
  intros Hstored. apply list_eq. intros i.
  rewrite list_lookup_fmap.
  destruct (samples !! i) as [sample|] eqn:Hi.
  - apply lookup_lt_Some in Hi as Hlt.
    rewrite lookup_seqZ_lt by lia. simpl. f_equal.
    unfold stored_sample. fold (sample_file o (0 + Z.of_nat i)).
    replace (0 + Z.of_nat i) with (Z.of_nat i) by lia.
    by rewrite (Hstored _ _ Hi).
  - apply lookup_ge_None in Hi.
    rewrite lookup_seqZ_ge by lia. done.
Qed.

Lemma RestoreState_corpus (s s1 r : machine) :
  corpus_stored s → Z.of_nat (length (all_samples s)) < 2 ^ 64 →
  state s ≠ INPUT_SAMPLE_PROCESSING →
  SaveState s = Ok (tt, s1) →
  opts r = opts s → files r = files s1 →
  all_samples r = [] → sample_queue r = [] →
  ∃ r',
    RestoreState r = Ok (tt, r')
    ∧ all_samples r' = all_samples s
    ∧ num_samples r' = num_samples s
    ∧ map SampleQueueEntry.sample (rev (sample_queue r')) = all_samples s
    ∧ map SampleQueueEntry.sample_index (rev (sample_queue r'))
      = seqZ 0 (num_samples s)
    ∧ Forall (fun entry =>
                SampleQueueEntry.priority entry = min_priority r'
                ∧ SampleQueueEntry.context_initialized entry = false)
        (sample_queue r').
Proof.
  intros Hstored Hlen Hstate Hsave Hopts Hfiles Hall Hqueue.
  destruct (Hstored Hlen) as [Hnum Hsamples].
  rewrite SaveState_run in Hsave by done. injection Hsave as <-.
  simpl in Hfiles.
  destruct (RestoreState_counts r (num_samples s)
              (encode_le 8 (total_execs s) ++ double_bytes (min_priority s)
               ++ WriteCoverageBinary (fuzzer_coverage s)))
    as (r0 & Hrun & Ho0 & Hf0 & Ha0 & Hq0 & Hn0).
  { by rewrite Hopts, Hfiles, lookup_insert_eq. }
  rewrite decode_encode_u64 in Hrun, Hn0 by lia.
  rewrite RestoreState_loop_run in Hrun.
  eexists. split; [exact Hrun|]. simpl.
  rewrite Ha0, Hall, Hq0, Hqueue, app_nil_r, Z2Nat.id by lia. simpl.
  rewrite rev_involutive, !map_map. simpl.
  assert (map (stored_sample (opts r0) (files r0)) (seqZ 0 (num_samples s))
          = all_samples s) as Hrestored.
  { rewrite Hnum. apply stored_samples_all. intros i sample Hi.
    rewrite Ho0, Hf0, Hopts, Hfiles.
    rewrite lookup_insert_ne by apply not_eq_sym, sample_file_not_state_file.
    by apply Hsamples. }
  split_and!; [done|done|exact Hrestored|by rewrite map_id|].
  apply Forall_rev, Forall_forall. intros entry Hentry.
  apply in_map_iff in Hentry as (i & <- & _). done.
Qed.

(** X16: a snapshot brings the corpus back.  From a state whose corpus is
    stored, with fewer than 2^64 samples and past the processing of the
    input samples, [SaveState] followed by [RestoreState] in a fuzzer that
    starts with an empty corpus on the same files rebuilds [all_samples] and
    [num_samples] as they were, and queues every sample once, with its
    index, the restored [min_priority] and no mutator context yet. *)
Theorem RestoreState_recovers_corpus (s s1 r : machine) :
  corpus_stored s → Z.of_nat (length (all_samples s)) < 2 ^ 64 →
  state s ≠ INPUT_SAMPLE_PROCESSING →
  SaveState s = Ok (tt, s1) →
  opts r = opts s → files r = files s1 →
  all_samples r = [] → sample_queue r = [] →
  ∃ r',
    RestoreState r = Ok (tt, r')
    ∧ all_samples r' = all_samples s
    ∧ num_samples r' = num_samples s
    ∧ map SampleQueueEntry.sample (rev (sample_queue r')) = all_samples s
    ∧ map SampleQueueEntry.sample_index (rev (sample_queue r'))
      = seqZ 0 (num_samples s)
    ∧ Forall (fun entry =>
                SampleQueueEntry.priority entry = min_priority r'
                ∧ SampleQueueEntry.context_initialized entry = false)
        (sample_queue r').
Proof. apply RestoreState_corpus. Qed.

(** *** The size of the samples that are run *)

Lemma bounded_runs_refl n s : bounded_runs n s s.
Proof. exists []. by rewrite app_nil_r. Qed.

Lemma bounded_runs_keeps n s0 s s' :
  bounded_runs n s0 s → history s' = history s → bounded_runs n s0 s'.
Proof. intros (runs & Hh & Hruns) Heq. exists runs. by rewrite Heq. Qed.

Lemma bounded_runs_trans n s0 s1 s2 :
  bounded_runs n s0 s1 → bounded_runs n s1 s2 → bounded_runs n s0 s2.
Proof.
  intros (runs1 & Hh1 & Hruns1) (runs2 & Hh2 & Hruns2).
  exists (runs1 ++ runs2). rewrite Hh2, Hh1, app_assoc. split; [done|].
  by apply Forall_app.
Qed.

Lemma bounded_runs_RunSampleAndGetCoverage n sample init_timeout timeout :
  (size sample ≤ n)%nat →
  preserves (bounded_runs n)
    (RunSampleAndGetCoverage sample init_timeout timeout).
Proof.
  intros Hsize s0 s Hs.
  destruct (RunSampleAndGetCoverage _ _ _ s) as [[[r c] s']| |] eqn:Hrun;
    [|done..].
  eapply bounded_runs_trans; [exact Hs|].
  apply RunSampleAndGetCoverage_history in Hrun.
  exists [(sample, r, c)]. split; [done|]. by constructor.
Qed.

Ltac bounded_step :=
  first [apply preserves_modify; intros ? ? | apply preserves_call; intros ? ? ?
        | apply preserves_tell; intros ? ? ?];
  intros; eapply bounded_runs_keeps; [eassumption|];
  simpl; repeat case_decide; reflexivity.

Lemma size_Trim k (sample : Sample) n :
  (size sample ≤ n)%nat → (size (Trim k sample) ≤ n)%nat.
Proof. unfold size, Trim. rewrite length_take. lia. Qed.

Lemma size_Trim_le k (sample : Sample) : (size (Trim k sample) ≤ k)%nat.
Proof. unfold size, Trim. rewrite length_take. lia. Qed.

Lemma bounded_runs_TrimSample_loop n fuel sample stable_coverage init_timeout
    timeout :
  (size sample ≤ n)%nat →
  ∀ trim_step trimmed_size test_sample,
    (size test_sample ≤ n)%nat →
    preserves (bounded_runs n)
      (TrimSample_loop fuel sample stable_coverage init_timeout timeout
         trim_step trimmed_size test_sample).
Proof.
  intros Hsample.
  induction fuel as [|fuel IH]; intros trim_step trimmed_size test_sample Htest;
    simpl; [apply preserves_out_of_fuel|].
  repeat frame_step;
    first [apply bounded_runs_RunSampleAndGetCoverage | apply IH];
    by apply size_Trim.
Qed.

Lemma bounded_runs_TrimSample n sample stable_coverage init_timeout timeout :
  (size sample ≤ n)%nat →
  preserves (bounded_runs n)
    (TrimSample sample stable_coverage init_timeout timeout).
Proof.
  intros Hsample. unfold TrimSample.
  repeat frame_step. by apply bounded_runs_TrimSample_loop.
Qed.

Lemma bounded_runs_RunSample_retry n k sample init_timeout timeout :
  (size sample ≤ n)%nat →
  ∀ result stableCoverage totalCoverage,
    preserves (bounded_runs n)
      (RunSample_retry k sample result stableCoverage totalCoverage
         init_timeout timeout).
Proof.
  intros Hsample.
  induction k as [|k IH]; intros result stableCoverage totalCoverage; simpl;
    [apply preserves_ret|].
  repeat frame_step;
    first [by apply bounded_runs_RunSampleAndGetCoverage | apply IH].
Qed.

Lemma bounded_runs_RunSample n sample has_new_coverage trim report_to_server
    init_timeout timeout :
  (size sample ≤ n)%nat →
  preserves (bounded_runs n)
    (RunSample sample has_new_coverage trim report_to_server init_timeout
       timeout).
Proof.
  intros Hsample.
  unfold RunSample, RunSample_accept, InterestingSample. simpl.
  repeat frame_step;
    first [by apply bounded_runs_RunSampleAndGetCoverage
          | by apply bounded_runs_RunSample_retry
          | by apply bounded_runs_TrimSample
          | bounded_step].
Qed.

(** *** Fuzzing an entry *)

(** The sample that [FuzzJob] runs: the mutated sample, cut to the maximum
    size. *)
Lemma FuzzJob_loop_unfold fuel init_timeout timeout entry s entry' discard s' :
  FuzzJob_loop (S fuel) init_timeout timeout entry s
  = Ok ((entry', discard), s') →
  ∃ mutated mutated_sample e,
    Mutate mutator (SampleQueueEntry.sample entry) (all_samples_local s)
      (collab s) = (mutated, mutated_sample, e)
    ∧ if negb mutated
      then entry' = entry ∧ discard = false ∧ s' = set_collab e s
      else
        ∃ result sample2 pointee s2,
          (size (if decide (MAX_SAMPLE_SIZE < size mutated_sample)%nat
                 then Trim MAX_SAMPLE_SIZE mutated_sample
                 else mutated_sample) ≤ MAX_SAMPLE_SIZE)%nat
          ∧ RunSample
              (if decide (MAX_SAMPLE_SIZE < size mutated_sample)%nat
               then Trim MAX_SAMPLE_SIZE mutated_sample else mutated_sample)
              (Some 0) true true init_timeout timeout (set_collab e s)
            = Ok ((result, sample2, pointee), s2)
          ∧ let found := default 0 pointee in
            let s3 := set_collab (NotifyResult mutator result found (collab s2))
                        s2 in
            match FuzzJob_account (AdjustSamplePriority entry found) result
                    found with
            | (entry2, Some decided) =>
                entry' = entry2 ∧ discard = decided ∧ s' = s3
            | (entry2, None) =>
                FuzzJob_loop fuel init_timeout timeout entry2 s3
                = Ok ((entry', discard), s')
            end.
Proof.
  cbn [FuzzJob_loop]. intros Hrun.
  apply bind_Ok in Hrun as (view & s0 & H0 & Hrun).
  apply get_Ok in H0 as [-> ->].
  apply bind_Ok in Hrun as ([mutated mutated_sample] & s1 & H1 & Hrun).
  unfold call in H1.
  destruct (Mutate mutator _ _ _) as [[mutated' mutated_sample'] e] eqn:Hm.
  injection H1 as -> -> <-.
  exists mutated, mutated_sample, e. split; [done|].
  destruct mutated; simpl in *.
  - apply bind_Ok in Hrun as ([[result sample2] pointee] & s2 & H2 & Hrun).
    apply bind_Ok in Hrun as ([] & s3 & H3 & Hrun). apply modify_Ok in H3.
    exists result, sample2, pointee, s2. split.
    { destruct (decide _); [|lia]. apply size_Trim_le. }
    split; [exact H2|]. simpl. rewrite <- H3.
    destruct (FuzzJob_account _ _ _) as [entry2 [decided|]]; [|done].
    by apply ret_Ok in Hrun as [[= -> ->] ->].
  - by apply ret_Ok in Hrun as [[= -> ->] ->].
Qed.

Lemma FuzzJob_account_spec entry result found entry' decided :
  FuzzJob_account entry result found = (entry', decided) →
  entry_fuzzed entry entry'
  ∧ SampleQueueEntry.priority entry' = SampleQueueEntry.priority entry
  ∧ (∀ discard, decided = Some discard →
       discard = true
       ∧ (SampleQueueEntry.num_hangs entry' > 10
          ∨ SampleQueueEntry.num_crashes entry' > 100)).
Proof.
  unfold FuzzJob_account.
  set (e1 := set_num_runs _ entry).
  set (e2 := if decide (found ≠ 0) then _ else e1).
  set (e3 := if decide (result = HANG) then _ else e2).
  set (e4 := if decide (result = CRASH) then _ else e3).
  assert (entry_fuzzed entry e4
          ∧ SampleQueueEntry.priority e4 = SampleQueueEntry.priority entry)
    as [Hfuzzed Hpriority].
  { unfold e4, e3, e2, e1, entry_fuzzed.
    repeat case_decide; simpl; split_and!; try done; lia. }
  destruct (bool_decide (SampleQueueEntry.num_hangs e4 > 10)) eqn:Hhangs;
    simpl.
  - destruct (exceeds_hang_ratio _ _).
    + intros [= <- <-]. split_and!; [done..|].
      intros discard [= <-]. apply bool_decide_eq_true in Hhangs. auto.
    + destruct (bool_decide (SampleQueueEntry.num_crashes e4 > 100))
        eqn:Hcrashes; simpl.
      * destruct (exceeds_crash_ratio _ _); intros [= <- <-];
          split_and!; try done.
        intros discard [= <-]. apply bool_decide_eq_true in Hcrashes. auto.
      * intros [= <- <-]. split_and!; done.
  - destruct (bool_decide (SampleQueueEntry.num_crashes e4 > 100))
      eqn:Hcrashes; simpl.
    + destruct (exceeds_crash_ratio _ _); intros [= <- <-];
        split_and!; try done.
      intros discard [= <-]. apply bool_decide_eq_true in Hcrashes. auto.
    + intros [= <- <-]. split_and!; done.
Qed.

Lemma entry_fuzzed_refl entry : entry_fuzzed entry entry.
Proof. unfold entry_fuzzed. split_and!; done. Qed.

Lemma entry_fuzzed_trans e1 e2 e3 :
  entry_fuzzed e1 e2 → entry_fuzzed e2 e3 → entry_fuzzed e1 e3.
Proof.
  unfold entry_fuzzed.
  intros (? & ? & ? & ? & ? & ? & ? & ?) (? & ? & ? & ? & ? & ? & ? & ?).
  split_and!; try congruence; lia.
Qed.

Lemma entry_fuzzed_adjust entry found :
  entry_fuzzed entry (AdjustSamplePriority entry found).
Proof.
  unfold AdjustSamplePriority, entry_fuzzed.
  destruct (decide _); simpl; split_and!; done.
Qed.

Lemma FuzzJob_loop_entry fuel init_timeout timeout :
  ∀ entry s entry' discard s',
    FuzzJob_loop fuel init_timeout timeout entry s
    = Ok ((entry', discard), s') →
    entry_fuzzed entry entry'
    ∧ (discard = true →
       SampleQueueEntry.num_hangs entry' > 10
       ∨ SampleQueueEntry.num_crashes entry' > 100).
Proof.
  induction fuel as [|fuel IH]; intros entry s entry' discard s' Hrun; [done|].
  apply FuzzJob_loop_unfold in Hrun
    as (mutated & mutated_sample & e & _ & Hrun).
  destruct mutated; simpl in Hrun.
  - destruct Hrun as (result & sample2 & pointee & s2 & _ & _ & Hrun).
    simpl in Hrun.
    destruct (FuzzJob_account _ _ _) as [entry2 decided] eqn:Haccount.
    apply FuzzJob_account_spec in Haccount as (Hfuzzed & _ & Hdecided).
    assert (entry_fuzzed entry entry2) as Hentry2.
    { eapply entry_fuzzed_trans; [apply entry_fuzzed_adjust|exact Hfuzzed]. }
    destruct decided as [decided|].
    + destruct Hrun as (-> & -> & _). split; [done|].
      intros ->. by destruct (Hdecided true eq_refl).
    + apply IH in Hrun as [Hrest Hdiscard].
      split; [by eapply entry_fuzzed_trans|done].
  - destruct Hrun as (-> & -> & _). split; [apply entry_fuzzed_refl|done].
Qed.

Lemma FuzzJob_loop_steps fuel init_timeout timeout :
  ∀ entry s x s',
    FuzzJob_loop fuel init_timeout timeout entry s = Ok (x, s') →
    rtc engine_step s s'.
Proof.
  induction fuel as [|fuel IH]; intros entry s [entry' discard] s' Hrun;
    [done|].
  apply FuzzJob_loop_unfold in Hrun
    as (mutated & mutated_sample & e & _ & Hrun).
  eapply rtc_l; [apply (step_collaborator e)|].
  destruct mutated; simpl in Hrun.
  - destruct Hrun as (result & sample2 & pointee & s2 & _ & Hsample & Hrun).
    simpl in Hrun.
    eapply rtc_l; [apply step_engine_call; by eapply call_RunSample|].
    eapply rtc_l; [apply (step_collaborator
                            (NotifyResult mutator result (default 0 pointee)
                               (collab s2)))|].
    destruct (FuzzJob_account _ _ _) as [entry2 [decided|]].
    + destruct Hrun as (_ & _ & ->). done.
    + by eapply IH.
  - destruct Hrun as (_ & _ & ->). done.
Qed.

Lemma FuzzJob_loop_bounded fuel init_timeout timeout :
  ∀ entry s x s',
    FuzzJob_loop fuel init_timeout timeout entry s = Ok (x, s') →
    bounded_runs MAX_SAMPLE_SIZE s s'.
Proof.
  induction fuel as [|fuel IH]; intros entry s [entry' discard] s' Hrun;
    [done|].
  apply FuzzJob_loop_unfold in Hrun
    as (mutated & mutated_sample & e & _ & Hrun).
  destruct mutated; simpl in Hrun.
  - destruct Hrun as (result & sample2 & pointee & s2 & Hsize & Hsample & Hrun).
    simpl in Hrun.
    assert (bounded_runs MAX_SAMPLE_SIZE s s2) as Hs2.
    { eapply preserves_step; [by apply bounded_runs_RunSample| |exact Hsample].
      by eapply bounded_runs_keeps; [apply bounded_runs_refl|]. }
    assert (bounded_runs MAX_SAMPLE_SIZE s
              (set_collab (NotifyResult mutator result (default 0 pointee)
                             (collab s2)) s2)) as Hs3
      by (by eapply bounded_runs_keeps).
    destruct (FuzzJob_account _ _ _) as [entry2 [decided|]].
    + destruct Hrun as (_ & _ & ->). done.
    + eapply bounded_runs_trans; [exact Hs3|by eapply IH].
  - destruct Hrun as (_ & _ & ->).
    by eapply bounded_runs_keeps; [apply bounded_runs_refl|].
Qed.

Lemma FuzzJob_inv fuel init_timeout timeout job s job' s' :
  FuzzJob fuel init_timeout timeout job s = Ok (job', s') →
  ∃ entry e entry1 entry' discard,
    FuzzerJob.entry job = Some entry
    ∧ entry1
      = (if SampleQueueEntry.context_initialized entry then entry
         else SampleQueueEntry.set_context_initialized true
                (SampleQueueEntry.set_context
                   (Some (CreateSampleContext ops
                            (SampleQueueEntry.sample entry) (collab s)).1)
                   entry))
    ∧ FuzzJob_loop fuel init_timeout timeout entry1 (set_collab e s)
      = Ok ((entry', discard), s')
    ∧ job' = set_discard_sample discard (FuzzerJob.set_entry (Some entry') job).
Proof.
  unfold FuzzJob. intros Hrun.
  destruct (FuzzerJob.entry job) as [entry|]; [|done].
  apply bind_Ok in Hrun as (entry1 & s1 & H1 & Hrun).
  apply bind_Ok in Hrun as ([] & s2 & H2 & Hrun). apply modify_Ok in H2.
  apply bind_Ok in Hrun as ([entry' discard] & s3 & H3 & Hrun).
  apply ret_Ok in Hrun as [-> ->].
  assert (∃ e, s2 = set_collab e s
               ∧ entry1
                 = (if SampleQueueEntry.context_initialized entry then entry
                    else SampleQueueEntry.set_context_initialized true
                           (SampleQueueEntry.set_context
                              (Some (CreateSampleContext ops
                                       (SampleQueueEntry.sample entry)
                                       (collab s)).1)
                              entry))) as (e & -> & Hentry1).
  { destruct (SampleQueueEntry.context_initialized entry).
    - apply ret_Ok in H1 as [-> ->]. rewrite H2. by eexists.
    - revert H1. unfold bind, call, ret.
      destruct (CreateSampleContext ops _ _) as [context e1].
      intros [= <- <-]. rewrite H2. by eexists. }
  by exists entry, e, entry1, entry', discard.
Qed.

(** X17: a call of [FuzzJob] that returns has kept the entry of the job:
    the job then holds an entry with the same sample and index and, once
    there is one, the same mutator context, the context is marked as
    initialized, and no statistic has gone down.  Such a call asks for
    the entry to be discarded only when the entry has more than 10 hangs
    or more than 100 crashes.  Whether a call returns is up to the
    mutator, whose refusal to mutate is what ends the loop of an entry
    that is kept; nothing is said of a call that does not return. *)
Theorem FuzzJob_entry (fuel : nat) (init_timeout timeout : Z)
    (job job' : FuzzerJob) (s s' : machine) :
  FuzzJob fuel init_timeout timeout job s = Ok (job', s') →
  ∃ entry entry',
    FuzzerJob.entry job = Some entry
    ∧ FuzzerJob.entry job' = Some entry'
    ∧ FuzzerJob.type job' = FuzzerJob.type job
    ∧ SampleQueueEntry.sample entry' = SampleQueueEntry.sample entry
    ∧ SampleQueueEntry.sample_index entry'
      = SampleQueueEntry.sample_index entry
    ∧ SampleQueueEntry.context_initialized entry' = true
    ∧ (SampleQueueEntry.context_initialized entry = true →
       SampleQueueEntry.context entry' = SampleQueueEntry.context entry)
    ∧ SampleQueueEntry.num_runs entry ≤ SampleQueueEntry.num_runs entry'
    ∧ SampleQueueEntry.num_hangs entry ≤ SampleQueueEntry.num_hangs entry'
    ∧ SampleQueueEntry.num_crashes entry ≤ SampleQueueEntry.num_crashes entry'
    ∧ (FuzzerJob.discard_sample job' = true →
       SampleQueueEntry.num_hangs entry' > 10
       ∨ SampleQueueEntry.num_crashes entry' > 100).
Proof.
  intros Hrun. apply FuzzJob_inv in Hrun
    as (entry & e & entry1 & entry' & discard & Hentry & Hentry1 & Hloop & ->).
  apply FuzzJob_loop_entry in Hloop
    as ((Hs & Hi & Hc & Hci & Hr & _ & Hh & Hcr) & Hdiscard).
  exists entry, entry'. simpl. rewrite Hs, Hi, Hc, Hci.
  destruct (SampleQueueEntry.context_initialized entry) eqn:Hinit;
    rewrite Hentry1 in *; simpl in *; split_and!; done.
Qed.

(** X18: [FuzzJob] never has the target run a sample of more than
    [MAX_SAMPLE_SIZE] bytes: every execution that it makes, the retries and
    the candidates of trimming included, is of a sample within this
    size. *)
Theorem FuzzJob_runs_bounded (fuel : nat) (init_timeout timeout : Z)
    (job job' : FuzzerJob) (s s' : machine) :
  FuzzJob fuel init_timeout timeout job s = Ok (job', s') →
  ∃ runs,
    history s' = history s ++ runs
    ∧ Forall (fun x : Execution => (size x.1.1 ≤ MAX_SAMPLE_SIZE)%nat) runs.
Proof.
  intros Hrun. apply FuzzJob_inv in Hrun
    as (entry & e & entry1 & entry' & discard & _ & _ & Hloop & _).
  by apply FuzzJob_loop_bounded in Hloop.
Qed.

(** *** The loop of a worker *)

Lemma keeps_FuzzJob_loop {B} (f : machine → B) fuel init_timeout timeout :
  run_independent f →
  ∀ entry, preserves (keeps f) (FuzzJob_loop fuel init_timeout timeout entry).
Proof.
  intros Hf.
  pose proof (fun sample hnc trim report =>
                keeps_RunSample f sample hnc trim report init_timeout timeout
                  Hf) as Hrun.
  assert (∀ v s, f (set_collab v s) = f s) as Hcollab
    by (by destruct Hf as [[(_ & ? & _) _] _]).
  induction fuel as [|fuel IH]; intros entry; cbn [FuzzJob_loop];
    [apply preserves_out_of_fuel|].
  keeps_frame.
Qed.

Lemma keeps_FuzzJob {B} (f : machine → B) fuel init_timeout timeout job :
  run_independent f →
  preserves (keeps f) (FuzzJob fuel init_timeout timeout job).
Proof.
  intros Hf. pose proof (keeps_FuzzJob_loop f fuel init_timeout timeout Hf).
  assert (∀ v s, f (set_collab v s) = f s) as Hcollab
    by (by destruct Hf as [[(_ & ? & _) _] _]).
  unfold FuzzJob. keeps_frame.
Qed.

Lemma RunFuzzerThread_iteration_inv fuel init_timeout timeout corpus_timeout
    job s s' :
  RunFuzzerThread_iteration fuel init_timeout timeout corpus_timeout job s
  = Ok (tt, s') →
  ∃ job1 s1 job2 s2,
    SynchronizeAndGetJob job s = Ok (job1, s1)
    ∧ match FuzzerJob.type job1 with
      | WAIT => job2 = job1 ∧ s2 = s1
      | PROCESS_SAMPLE =>
          job2 = job1
          ∧ ∃ sample x,
              FuzzerJob.sample job1 = Some sample
              ∧ RunSample sample None false false init_timeout corpus_timeout
                  s1 = Ok (x, s2)
      | FUZZ => FuzzJob fuel init_timeout timeout job1 s1 = Ok (job2, s2)
      end
    ∧ FuzzerJob.type job2 = FuzzerJob.type job1
    ∧ JobDone job2 s2 = Ok (tt, s').
Proof.
  unfold RunFuzzerThread_iteration. intros Hrun.
  apply bind_Ok in Hrun as (job1 & s1 & H1 & Hrun).
  apply bind_Ok in Hrun as (job2 & s2 & H2 & Hrun).
  exists job1, s1, job2, s2. split; [done|].
  destruct (FuzzerJob.type job1) eqn:Htype.
  - by apply ret_Ok in H2 as [-> ->].
  - destruct (FuzzerJob.sample job1) as [sample|]; [|done].
    apply bind_Ok in H2 as (x & s2' & H2 & [-> ->]%ret_Ok).
    split; [|done]. split; [done|]. by exists sample, x.
  - split_and!; [done| |done].
    apply FuzzJob_inv in H2 as (? & ? & ? & ? & ? & _ & _ & _ & ->). done.
Qed.

(** X19: one turn of the loop of [RunFuzzerThread] is made of calls of
    the engine and of the collaborators, so that what holds across those,
    such as the growth of the known coverage, the order of the phases
    and, for calls that do not overlap, the storage of the corpus, holds
    across the loop of a worker. *)
Theorem RunFuzzerThread_iteration_steps (fuel : nat)
    (init_timeout timeout corpus_timeout : Z) (job : FuzzerJob)
    (s s' : machine) :
  RunFuzzerThread_iteration fuel init_timeout timeout corpus_timeout job s
  = Ok (tt, s') →
  rtc engine_step s s'.
Proof.
  intros Hrun. apply RunFuzzerThread_iteration_inv in Hrun
    as (job1 & s1 & job2 & s2 & H1 & H2 & _ & H3).
  eapply rtc_l; [apply step_engine_call; by eapply call_SynchronizeAndGetJob|].
  apply (rtc_r _ s2); [|apply step_engine_call; by eapply call_JobDone].
  destruct (FuzzerJob.type job1).
  - by destruct H2 as [_ ->].
  - destruct H2 as (_ & sample & x & _ & H2).
    apply rtc_once, step_engine_call. by eapply call_RunSample.
  - apply FuzzJob_inv in H2 as (entry & e & entry1 & entry' & discard
                                 & _ & _ & Hloop & _).
    eapply rtc_l; [apply (step_collaborator e)|].
    by eapply FuzzJob_loop_steps.
Qed.

(** X20: one turn of the loop of [RunFuzzerThread] leaves
    [samples_pending] as it found it: a sample that is handed out for
    processing is counted while it is processed and no longer. *)
Theorem RunFuzzerThread_iteration_pending (fuel : nat)
    (init_timeout timeout corpus_timeout : Z) (job : FuzzerJob)
    (s s' : machine) :
  RunFuzzerThread_iteration fuel init_timeout timeout corpus_timeout job s
  = Ok (tt, s') →
  samples_pending s' = samples_pending s.
Proof.
  intros Hrun. apply RunFuzzerThread_iteration_inv in Hrun
    as (job1 & s1 & job2 & s2 & H1 & H2 & Htype & H3).
  apply SynchronizeAndGetJob_accounts in H1.
  assert (run_independent
            (samples_pending (E := E) (Context := Context))) as Hf
    by (by apply run_independent_intro).
  unfold JobDone in H3. rewrite Htype in H3.
  destruct (FuzzerJob.type job1).
  - destruct H2 as [_ ->]. apply ret_Ok in H3 as [_ ->]. by destruct H1.
  - destruct H2 as (_ & sample & x & _ & H2).
    apply (preserves_elim _ _ _ _ _ (keeps_RunSample _ _ _ _ _ _ _ Hf) eq_refl)
      in H2.
    unfold keeps in H2. apply modify_Ok in H3. rewrite H3. simpl.
    destruct H1 as (_ & _ & H1 & _). lia.
  - apply (preserves_elim _ _ _ _ _ (keeps_FuzzJob _ _ _ _ _ Hf) eq_refl)
      in H2.
    unfold keeps in H2. destruct H1 as (_ & top & _ & _ & H1 & _).
    assert (samples_pending s' = samples_pending s2) as ->; [|congruence].
    destruct (FuzzerJob.discard_sample job2).
    + apply modify_Ok in H3. by rewrite H3.
    + destruct (FuzzerJob.entry job2).
      * apply modify_Ok in H3. by rewrite H3.
      * by apply ret_Ok in H3 as [_ ->].
Qed.

Lemma SynchronizeAndGetJob_dispense_size job s job' s' :
  SynchronizeAndGetJob_dispense job s = Ok (job', s') →
  FuzzerJob.type job' = PROCESS_SAMPLE →
  state s ≠ SERVER_SAMPLE_PROCESSING →
  ∃ sample, FuzzerJob.sample job' = Some sample
            ∧ (size sample ≤ MAX_SAMPLE_SIZE)%nat.
Proof.
  unfold SynchronizeAndGetJob_dispense, bind, get, modify, ret, Load. simpl.
  destruct (state s) eqn:Hstate; [|done|].
  - destruct (input_files s); intros [= <- <-]; simpl; [done|].
    intros _ _. eexists. split; [done|].
    destruct (decide _); [apply size_Trim_le|lia].
  - destruct (queue_extract (sample_queue s)) as [[top rest]|];
      intros [= <- <-]; done.
Qed.

(** X21: without a server, a worker never has the target run a sample of
    more than [MAX_SAMPLE_SIZE] bytes: in every turn of its loop, be it
    for an input file or for an entry to fuzz, every execution is of a
    sample within this size. *)
Theorem RunFuzzerThread_iteration_bounded (fuel : nat)
    (init_timeout timeout corpus_timeout : Z) (job : FuzzerJob)
    (s s' : machine) :
  server (opts s) = false → state s ≠ SERVER_SAMPLE_PROCESSING →
  RunFuzzerThread_iteration fuel init_timeout timeout corpus_timeout job s
  = Ok (tt, s') →
  ∃ runs,
    history s' = history s ++ runs
    ∧ Forall (fun x : Execution => (size x.1.1 ≤ MAX_SAMPLE_SIZE)%nat) runs.
Proof.
  intros Hserver Hstate Hrun. apply RunFuzzerThread_iteration_inv in Hrun
    as (job1 & s1 & job2 & s2 & H1 & H2 & Htype & H3).
  change (bounded_runs MAX_SAMPLE_SIZE s s').
  assert (history s1 = history s) as Hh1.
  { apply (preserves_elim _ _ _ _ _
             (keeps_SynchronizeAndGetJob history job ltac:(by repeat split))
             eq_refl H1). }
  assert (history s' = history s2) as Hh3.
  { apply (preserves_elim _ _ _ _ _
             (keeps_JobDone history job2 ltac:(done) ltac:(done) ltac:(done))
             eq_refl H3). }
  eapply bounded_runs_keeps; [|exact Hh3].
  eapply bounded_runs_trans;
    [eapply bounded_runs_keeps; [apply bounded_runs_refl|exact Hh1]|].
  destruct (FuzzerJob.type job1) eqn:Htype1.
  - destruct H2 as [_ ->]. apply bounded_runs_refl.
  - destruct H2 as (_ & sample & x & Hsample & H2).
    assert (state s1 ≠ SERVER_SAMPLE_PROCESSING) as Hstate1.
    { destruct (SynchronizeAndGetJob_no_server _ _ _ _ Hserver H1) as [->| ->];
        done. }
    apply (keeps_before_dispense opts) in H1 as (s4 & _ & H1);
      [|by repeat split].
    pose proof (preserves_elim _ _ _ _ _ (keeps_state_dispense job) eq_refl H1)
      as Hkeep. unfold keeps in Hkeep.
    apply SynchronizeAndGetJob_dispense_size in H1
      as (sample' & Hsample' & Hsize); [|done|congruence].
    assert (sample' = sample) as -> by congruence.
    eapply preserves_step; [by apply bounded_runs_RunSample| |exact H2].
    apply bounded_runs_refl.
  - apply FuzzJob_inv in H2 as (entry & e & entry1 & entry' & discard
                                 & _ & _ & Hloop & _).
    apply FuzzJob_loop_bounded in Hloop.
    eapply bounded_runs_trans; [|exact Hloop].
    by eapply bounded_runs_keeps; [apply bounded_runs_refl|].
Qed.

Lemma RunSample_queue sample has_new_coverage trim report_to_server
    init_timeout timeout s x s' :
  RunSample sample has_new_coverage trim report_to_server init_timeout
    timeout s = Ok (x, s') →
  ∃ added, sample_queue s' = added ++ sample_queue s.
Proof.
  destruct x as [[result sample'] pointee]. intros Hrun.
  apply RunSample_shape in Hrun
    as [((_ & _ & _ & Hq) & _ & _)
       |(_ & sa & stable & sb & e & (_ & _ & _ & Hq) & Hacc & ->)].
  - exists []. done.
  - apply RunSample_accept_run in Hacc
      as (sT & e' & context & (_ & _ & _ & Hq') & _ & _ & _ & ->).
    eexists [_]. simpl. by rewrite Hq', Hq.
Qed.

Lemma FuzzJob_loop_queue fuel init_timeout timeout :
  ∀ entry s x s',
    FuzzJob_loop fuel init_timeout timeout entry s = Ok (x, s') →
    ∃ added, sample_queue s' = added ++ sample_queue s.
Proof.
  induction fuel as [|fuel IH]; intros entry s [entry' discard] s' Hrun;
    [done|].
  apply FuzzJob_loop_unfold in Hrun
    as (mutated & mutated_sample & e & _ & Hrun).
  destruct mutated; simpl in Hrun.
  - destruct Hrun as (result & sample2 & pointee & s2 & _ & Hsample & Hrun).
    simpl in Hrun. apply RunSample_queue in Hsample as [added Hadded].
    simpl in Hadded.
    destruct (FuzzJob_account _ _ _) as [entry2 [decided|]].
    + destruct Hrun as (_ & _ & ->). by exists added.
    + apply IH in Hrun as [added' Hadded']. simpl in Hadded'.
      exists (added' ++ added). by rewrite Hadded', Hadded, app_assoc.
  - destruct Hrun as (_ & _ & ->). by exists [].
Qed.

(** X22: a worker loses no entry of the corpus.  After one turn of the
    loop of [RunFuzzerThread] every entry that was in the queue is in it
    again, with its sample and its index, unless the turn has discarded
    the entry that it fuzzed, which is the only one to go and is counted
    in [num_samples_discarded]. *)
Theorem RunFuzzerThread_iteration_queue (fuel : nat)
    (init_timeout timeout corpus_timeout : Z) (job : FuzzerJob)
    (s s' : machine) :
  RunFuzzerThread_iteration fuel init_timeout timeout corpus_timeout job s
  = Ok (tt, s') →
  (num_samples_discarded s' = num_samples_discarded s
   ∧ map entry_id (sample_queue s) ⊆+ map entry_id (sample_queue s'))
  ∨ (num_samples_discarded s' = u64 (num_samples_discarded s + 1)
     ∧ ∃ discarded,
         discarded ∈ sample_queue s
         ∧ map entry_id (sample_queue s)
           ⊆+ entry_id discarded :: map entry_id (sample_queue s')).
Proof.
  intros Hrun. apply RunFuzzerThread_iteration_inv in Hrun
    as (job1 & s1 & job2 & s2 & H1 & H2 & Htype & H3).
  assert (run_independent
            (num_samples_discarded (E := E) (Context := Context))) as Hf
    by (by apply run_independent_intro).
  assert (num_samples_discarded s1 = num_samples_discarded s) as Hd1.
  { apply (preserves_elim _ _ _ _ _
             (keeps_SynchronizeAndGetJob num_samples_discarded job
                ltac:(by repeat split)) eq_refl H1). }
  apply SynchronizeAndGetJob_accounts in H1.
  unfold JobDone in H3. rewrite Htype in H3.
  destruct (FuzzerJob.type job1).
  - left. destruct H2 as [_ ->]. apply ret_Ok in H3 as [_ ->].
    destruct H1 as (_ & -> & _). done.
  - left. destruct H2 as (_ & sample & x & _ & H2).
    pose proof (preserves_elim _ _ _ _ _ (keeps_RunSample _ _ _ _ _ _ _ Hf)
                  eq_refl H2) as Hd2. unfold keeps in Hd2.
    apply RunSample_queue in H2 as [added Hadded].
    apply modify_Ok in H3. rewrite H3. simpl.
    destruct H1 as (_ & _ & _ & H1). rewrite Hd2, Hd1, Hadded, H1.
    split; [done|]. rewrite map_app. apply submseteq_inserts_l. done.
  - pose proof (preserves_elim _ _ _ _ _ (keeps_FuzzJob _ _ _ _ _ Hf)
                  eq_refl H2) as Hd2. unfold keeps in Hd2.
    destruct H1 as (_ & top & Htop & Hperm & _).
    apply FuzzJob_inv in H2 as (entry & e & entry1 & entry' & discard
                                 & Hentry & Hentry1 & Hloop & ->).
    assert (entry = top) as -> by congruence.
    apply FuzzJob_loop_entry in Hloop as Hfuzzed.
    destruct Hfuzzed as [(Hs & Hi & _) _].
    assert (entry_id entry' = entry_id top) as Hid.
    { unfold entry_id. rewrite Hs, Hi, Hentry1.
      by destruct (SampleQueueEntry.context_initialized top). }
    apply FuzzJob_loop_queue in Hloop as [added Hadded]. simpl in Hadded.
    assert (map entry_id (sample_queue s)
            ⊆+ entry_id top :: map entry_id (sample_queue s2)) as Hsub.
    { rewrite Hperm, Hadded, map_app. simpl. apply submseteq_skip.
      apply submseteq_inserts_l. done. }
    simpl in H3. destruct discard.
    + right. apply modify_Ok in H3. rewrite H3. simpl. rewrite Hd2, Hd1.
      split; [done|]. exists top. split; [|done].
      rewrite Hperm. apply elem_of_cons. by left.
    + left. apply modify_Ok in H3. rewrite H3. simpl. rewrite Hd2, Hd1.
      split; [done|]. unfold queue_push. simpl. by rewrite Hid.
Qed.

(** *** The magic filter, once more *)

(** X23: what [MagicOutputFilter] writes needs no more filtering.  When it
    has rewritten a sample that is at least as long as the magic, the
    result starts with the magic and a second call returns false; when
    the sample is shorter than the magic, a second call writes the same
    bytes again. *)
Theorem MagicOutputFilter_idempotent (original_sample output_sample
    output_sample' filtered : Sample) (magic : list byte) :
  let k := length magic in
  MagicOutputFilter original_sample output_sample magic k = (true, filtered) →
  if decide (k ≤ size original_sample)%nat
  then MagicOutputFilter filtered output_sample' magic k
       = (false, output_sample')
  else MagicOutputFilter filtered output_sample' magic k = (true, filtered).
Proof.
  cbv zeta. unfold MagicOutputFilter.
  destruct (_ && _) eqn:Htest; [done|]. intros [= <-].
  rewrite !MagicOutputFilter_loop_overwrite. unfold memcmp_eq, size in *.
  set (k := length magic).
  destruct (decide (k ≤ length original_sample)%nat) as [Hle|Hgt].
  - rewrite Nat.min_l by done. rewrite (take_ge magic k) by (subst k; lia).
    rewrite bool_decide_eq_true_2
      by (rewrite length_app, length_drop; subst k; lia).
    unfold k. rewrite take_app_length. by rewrite bool_decide_eq_true_2.
  - rewrite Nat.min_r by lia. rewrite drop_all, app_nil_r.
    rewrite bool_decide_eq_false_2 by (rewrite length_take; lia). simpl.
    unfold k in *. rewrite length_take.
    rewrite (Nat.min_l (length original_sample)) by lia.
    rewrite Nat.min_r by lia.
    rewrite drop_ge by (rewrite length_take; lia).
    by rewrite app_nil_r.
Qed.

(** *** The command line of the target *)

Lemma ReplaceTargetCmdArg_loop_lookup n search replace :
  ∀ i (target_argv : list string) j,
    ReplaceTargetCmdArg_loop n i search replace target_argv !! j
    = if decide (i ≤ j < i + n)%nat
      then (fun arg => if decide (arg = search) then replace else arg)
           <$> target_argv !! j
      else target_argv !! j.
Proof.
  induction n as [|n IH]; intros i l j; simpl.
  - destruct (decide _); [lia|done].
  - rewrite IH. destruct (decide (j = i)) as [->|Hne].
    + rewrite decide_False by lia. rewrite decide_True by lia.
      destruct (l !! i) as [arg|] eqn:Hi; simpl; [|by rewrite Hi].
      destruct (decide (arg = search)); [|by rewrite Hi].
      apply list_lookup_insert_eq. by eapply lookup_lt_Some.
    + assert (match l !! i with
              | Some arg =>
                  if decide (arg = search) then <[i:=replace]> l else l
              | None => l
              end !! j = l !! j) as ->.
      { destruct (l !! i) as [arg|]; [|done].
        destruct (decide _); [|done]. by rewrite list_lookup_insert_ne. }
      destruct (decide (S i ≤ j < S i + n)%nat), (decide (i ≤ j < i + S n)%nat);
        done || lia.
Qed.

(** X24: [ReplaceTargetCmdArg] replaces every argument of the target that
    is equal to [search] by [replace] and leaves the others, and their
    number, as they are; when [replace] differs from [search], no argument
    is equal to [search] afterwards. *)
Theorem ReplaceTargetCmdArg_spec (target_argv : list string)
    (search replace : string) :
  let replaced := ReplaceTargetCmdArg target_argv search replace in
  replaced
  = map (fun arg => if decide (arg = search) then replace else arg) target_argv
  ∧ length replaced = length target_argv
  ∧ (replace ≠ search → search ∉ replaced)
  ∧ (search ∉ target_argv → replaced = target_argv).
Proof.
  intros replaced.
  assert (replaced
          = map (fun arg => if decide (arg = search) then replace else arg)
              target_argv) as Hmap.
  { apply list_eq. intros j. unfold replaced, ReplaceTargetCmdArg.
    rewrite ReplaceTargetCmdArg_loop_lookup, list_lookup_fmap.
    destruct (decide _) as [|Hout]; [done|].
    rewrite lookup_ge_None_2 by lia. done. }
  split; [exact Hmap|]. rewrite Hmap. split_and!.
  - by rewrite length_map.
  - intros Hne Hin. apply list_elem_of_fmap in Hin as (arg & Heq & _).
    destruct (decide (arg = search)); congruence.
  - intros Hnot. rewrite <- (map_id target_argv) at 2.
    apply map_ext_in. intros arg Hin. destruct (decide _) as [->|]; [|done].
    destruct Hnot. by apply list_elem_of_In.
Qed.

Lemma ParseOptions_separator_spec n :
  ∀ i (argv : list string),
    let k := ParseOptions_separator n i argv in
    (k = 0%nat ∧ ∀ j, (i ≤ j < i + n)%nat → argv !! j ≠ Some "--"%string)
    ∨ ((i < k ≤ i + n)%nat ∧ argv !! (k - 1)%nat = Some "--"%string
       ∧ ∀ j, (i ≤ j < k - 1)%nat → argv !! j ≠ Some "--"%string).
Proof.
  induction n as [|n IH]; intros i argv; simpl.
  - left. split; [done|]. intros j Hj. lia.
  - assert (∀ j, (i ≤ j)%nat → j ≠ i → (S i ≤ j)%nat) as Hnext by (intros; lia).
    destruct (argv !! i) as [arg|] eqn:Hi.
    + destruct (decide (arg = "--"%string)) as [->|Hne].
      * right. replace (i + 1 - 1)%nat with i by lia.
        split; [lia|]. split; [done|]. intros j Hj. lia.
      * destruct (IH (S i) argv) as [[-> Hnone]|(Hk & Hsep & Hnone)].
        -- left. split; [done|]. intros j Hj.
           destruct (decide (j = i)) as [->|?]; [congruence|].
           apply Hnone. lia.
        -- right. split; [lia|]. split; [done|]. intros j Hj.
           destruct (decide (j = i)) as [->|?]; [congruence|].
           apply Hnone. lia.
    + destruct (IH (S i) argv) as [[-> Hnone]|(Hk & Hsep & Hnone)].
      * left. split; [done|]. intros j Hj.
        destruct (decide (j = i)) as [->|?]; [congruence|].
        apply Hnone. lia.
      * right. split; [lia|]. split; [done|]. intros j Hj.
        destruct (decide (j = i)) as [->|?]; [congruence|].
        apply Hnone. lia.
Qed.

(** The lines that find the command line of the target take what follows
    the first argument [--] after the name of the program. *)
Lemma ParseOptions_target_scan (argv : list string) :
  ((∀ j, (1 ≤ j)%nat → argv !! j ≠ Some "--"%string) →
   ParseOptions_target argv = (0, []))
  ∧ (∀ before after,
       argv = before ++ "--"%string :: after →
       (1 ≤ length before)%nat →
       (∀ j, (1 ≤ j)%nat → before !! j ≠ Some "--"%string) →
       ParseOptions_target argv = (Z.of_nat (length after), after)).
Proof.
  unfold ParseOptions_target.
  destruct (ParseOptions_separator_spec (length argv - 1) 1 argv)
    as [[Hk Hnone]|(Hk & Hsep & Hnone)].
  - rewrite Hk. split; [done|]. intros before after -> Hlen _.
    destruct (Hnone (length before)).
    + rewrite length_app. simpl. lia.
    + by rewrite list_lookup_middle.
  - set (k := ParseOptions_separator (length argv - 1) 1 argv) in *.
    rewrite decide_True by lia. split.
    + intros Hall. destruct (Hall (k - 1)%nat); [lia|done].
    + intros before after -> Hlen Hbefore.
      assert (k - 1 = length before)%nat as Hpos.
      { destruct (Nat.lt_trichotomy (k - 1) (length before)) as [Hlt|[?|Hgt]];
          [|done|].
        - rewrite lookup_app_l in Hsep by done.
          destruct (Hbefore (k - 1)%nat); [lia|done].
        - destruct (Hnone (length before)); [lia|].
          by rewrite list_lookup_middle. }
      replace k with (S (length before)) by lia.
      rewrite length_app. simpl. f_equal; [lia|].
      rewrite cons_middle, app_assoc. apply drop_app_length'.
      rewrite length_app. simpl. lia.
Qed.

(** X25: [ParseOptions] ends the process, through [PrintUsage], exactly
    when the option [-in] or the option [-out] is missing.  Otherwise it
    takes as the command line of the target what follows the first
    argument [--] after the name of the program: [target_argv] are the
    arguments behind it and [target_argc] is their number, and without
    such an argument the target has no command line.  The state is to be
    restored exactly when the input directory is [-], or [-restore] or
    [-resume] is set. *)
Theorem ParseOptions_target_spec
    (GetOption : string → list string → option string)
    (GetIntOption : string → list string → Z → Z)
    (GetBinaryOption : string → list string → bool → bool)
    (argv : list string) :
  let parse := ParseOptions GetOption GetIntOption GetBinaryOption in
  (parse argv = None
   ↔ GetOption "-in"%string argv = None ∨ GetOption "-out"%string argv = None)
  ∧ ∀ p,
      parse argv = Some p →
      ((∀ j, (1 ≤ j)%nat → argv !! j ≠ Some "--"%string) →
       ParsedOptions.target_argc p = 0 ∧ ParsedOptions.target_argv p = [])
      ∧ (∀ before after,
           argv = before ++ "--"%string :: after →
           (1 ≤ length before)%nat →
           (∀ j, (1 ≤ j)%nat → before !! j ≠ Some "--"%string) →
           ParsedOptions.target_argc p = Z.of_nat (length after)
           ∧ ParsedOptions.target_argv p = after)
      ∧ (ParsedOptions.should_restore_state p = true
         ↔ GetOption "-in"%string argv = Some "-"%string
           ∨ GetBinaryOption "-restore"%string argv false = true
           ∨ GetBinaryOption "-resume"%string argv false = true).
Proof.
  intros parse. unfold parse, ParseOptions.
  destruct (GetOption "-in"%string argv) as [in_dir|] eqn:Hin;
    [|split; [split; [by left|done]|done]].
  destruct (GetOption "-out"%string argv) as [out_dir|] eqn:Hout;
    [|split; [split; [by right|done]|done]].
  destruct (ParseOptions_target argv) as [argc target] eqn:Htarget.
  split; [split; [done|by intros [|]]|].
  intros p [= <-]. simpl.
  destruct (ParseOptions_target_scan argv) as [Hnone Hsome].
  split; [|split].
  - intros Hall. rewrite (Hnone Hall) in Htarget. by injection Htarget as <- <-.
  - intros before after Hargv Hlen Hbefore.
    rewrite (Hsome before after Hargv Hlen Hbefore) in Htarget.
    by injection Htarget as <- <-.
  - rewrite !orb_true_iff, bool_decide_eq_true. split.
    + intros [[->|?]|?]; auto.
    + intros [[= ->]|[?|?]]; auto.
Qed.

(** *** The delivery of a worker *)

Lemma append_inv_head s t1 t2 : s +:+ t1 = s +:+ t2 → t1 = t2.
Proof.
  induction s as [|c s IH]; [done|].
  rewrite !append_String. intros [= Heq]. by apply IH.
Qed.

Lemma length_ReplaceTargetCmdArg target_argv search replace :
  length (ReplaceTargetCmdArg target_argv search replace)
  = length target_argv.
Proof.
  unfold ReplaceTargetCmdArg. generalize 0%nat at 1.
  generalize (length target_argv) at 1. intros n. revert target_argv.
  induction n as [|n IH]; intros l i; simpl; [done|].
  rewrite IH. destruct (l !! i); [|done].
  destruct (decide _); [|done]. by rewrite length_insert.
Qed.

(** X26: [CreateSampleDelivery] is fatal exactly when the option
    [-delivery] is given and is neither [file] nor [shmem], and otherwise
    gives the worker a delivery of its own: two workers of one process
    whose thread identifiers differ never get the same file, nor the same
    name of shared memory.  The arguments of the target keep their
    number. *)
Theorem CreateSampleDelivery_spec (delivery_option : option string) (pid : Z)
    (o : Options) :
  ((∃ msg, ∀ thread_id target_argv,
      CreateSampleDelivery delivery_option pid o thread_id target_argv = Fatal msg)
   ↔ delivery_option ≠ None ∧ delivery_option ≠ Some "file"%string
     ∧ delivery_option ≠ Some "shmem"%string)
  ∧ (∀ thread_id thread_id' target_argv target_argv' delivery delivery'
       argv argv',
       CreateSampleDelivery delivery_option pid o thread_id target_argv
       = Ok (delivery, argv) →
       CreateSampleDelivery delivery_option pid o thread_id' target_argv'
       = Ok (delivery', argv') →
       length argv = length target_argv
       ∧ (thread_id ≠ thread_id' → delivery ≠ delivery')).
Proof.
  unfold CreateSampleDelivery.
  destruct (bool_decide_reflect (delivery_option = None)) as [Hnone|Hnone]; simpl.
  { split; [split; [by intros [msg Hmsg]; specialize (Hmsg 0 [])|by intros [? _]]|].
    intros id id' l l' d d' a a' [= <- <-] [= <- <-]. split.
    - apply length_ReplaceTargetCmdArg.
    - intros Hne [= Heq]. apply DirJoin_inj, append_inv_head in Heq.
      by apply (inj pretty) in Heq. }
  destruct (bool_decide_reflect (delivery_option = Some "file"%string)) as [Hfile|Hfile];
    simpl.
  { split; [split; [by intros [msg Hmsg]; specialize (Hmsg 0 [])
                   |by intros (_ & ? & _)]|].
    intros id id' l l' d d' a a' [= <- <-] [= <- <-]. split.
    - apply length_ReplaceTargetCmdArg.
    - intros Hne [= Heq]. apply DirJoin_inj, append_inv_head in Heq.
      by apply (inj pretty) in Heq. }
  destruct (bool_decide_reflect (delivery_option = Some "shmem"%string)) as [Hshm|Hshm].
  { split; [split; [by intros [msg Hmsg]; specialize (Hmsg 0 [])
                   |by intros (_ & _ & ?)]|].
    intros id id' l l' d d' a a' [= <- <-] [= <- <-]. split.
    - apply length_ReplaceTargetCmdArg.
    - intros Hne [= Heq].
      do 3 apply append_inv_head in Heq. by apply (inj pretty) in Heq. }
  split; [|done]. split; [done|]. intros _. by eexists.
Qed.

(** *** Resuming *)

Lemma keeps_RestoreState_loop {B} (f : machine → B) n :
  (∀ v s, f (set_all_samples v s) = f s) →
  (∀ v s, f (set_sample_queue v s) = f s) →
  ∀ i, preserves (keeps f) (RestoreState_loop n i).
Proof.
  intros ? ?. induction n as [|n IH]; intros i; simpl; [apply preserves_ret|].
  keeps_frame.
Qed.

Lemma keeps_RestoreState {B} (f : machine → B) :
  (∀ v s, f (set_all_samples v s) = f s) →
  (∀ v s, f (set_sample_queue v s) = f s) →
  (∀ v s, f (set_num_samples v s) = f s) →
  (∀ v s, f (set_total_execs v s) = f s) →
  (∀ v s, f (set_min_priority v s) = f s) →
  (∀ v s, f (set_fuzzer_coverage v s) = f s) →
  preserves (keeps f) RestoreState.
Proof.
  intros Ha Hq ? ? ? ?. pose proof (keeps_RestoreState_loop f) as Hloop.
  unfold RestoreState. keeps_frame.
Qed.

Lemma bind_Fatal {A B} (m : M A) (k : A → M B) s msg :
  m s = Fatal msg → bind m k s = Fatal msg.
Proof. intros Hm. unfold bind. by rewrite Hm. Qed.

Lemma SynchronizeAndGetJob_input_end s :
  state s = INPUT_SAMPLE_PROCESSING → input_files s = [] →
  samples_pending s = 0 → server (opts s) = false →
  SynchronizeAndGetJob_input s
  = if decide (sample_queue s = [])
    then Fatal "No interesting input files"
    else Ok (tt, set_state FUZZING s).
Proof.
  intros Hstate Hfiles Hpending Hserver.
  unfold SynchronizeAndGetJob_input, bind, get, modify, FATAL, ret. simpl.
  rewrite Hstate. simpl. rewrite Hfiles, Hpending. simpl.
  destruct (decide (sample_queue s = [])); [done|]. by rewrite Hserver.
Qed.

Lemma queue_extract_None (q : list SampleQueueEntry) :
  queue_extract q = None → q = [].
Proof.
  destruct q as [|e q]; [done|]. simpl.
  destruct (queue_extract q) as [[m r]|]; [|done]. by destruct (decide _).
Qed.

(** X27: resuming goes straight to fuzzing.  When the start of the fuzzer
    restores a snapshot that was taken past the processing of the input
    samples with the corpus stored, it leaves the fuzzer in the phase
    [INPUT_SAMPLE_PROCESSING] with the whole corpus queued and no input
    file; without a server, the first job acquisition then is fatal when
    the corpus is empty, and otherwise turns the phase to [FUZZING] and
    hands out a [FUZZ] job for a sample of the corpus, with the restored
    [min_priority] as its priority and a mutator context still to be
    created. *)
Theorem resume_starts_fuzzing (s s1 r : machine) (listing : list Path)
    (job : FuzzerJob) :
  corpus_stored s → Z.of_nat (length (all_samples s)) < 2 ^ 64 →
  state s ≠ INPUT_SAMPLE_PROCESSING →
  SaveState s = Ok (tt, s1) →
  opts r = opts s → files r = files s1 → server (opts s) = false →
  all_samples r = [] → sample_queue r = [] → input_files r = [] →
  ∃ r1,
    Run_setup true listing r = Ok (tt, r1)
    ∧ state r1 = INPUT_SAMPLE_PROCESSING
    ∧ input_files r1 = []
    ∧ all_samples r1 = all_samples s
    ∧ num_samples r1 = num_samples s
    ∧ if decide (all_samples s = [])
      then SynchronizeAndGetJob job r1 = Fatal "No interesting input files"
      else
        ∃ job' r2 top,
          SynchronizeAndGetJob job r1 = Ok (job', r2)
          ∧ FuzzerJob.type job' = FUZZ
          ∧ FuzzerJob.entry job' = Some top
          ∧ state r2 = FUZZING
          ∧ SampleQueueEntry.sample top ∈ all_samples s
          ∧ SampleQueueEntry.priority top = min_priority r1
          ∧ SampleQueueEntry.context_initialized top = false.
Proof.
  intros Hstored Hlen Hstate Hsave Hopts Hfiles Hserver Hall Hqueue Hinputs.
  set (r0 := set_min_priority (double_round (179 * 10 ^ 306))
               (set_total_execs 0
                  (set_num_samples_discarded 0
                     (set_num_samples 0
                        (set_num_hangs 0
                           (set_num_unique_crashes 0
                              (set_num_crashes 0
                                 (set_samples_pending 0 r)))))))).
  destruct (RestoreState_corpus s s1 r0)
    as (r' & Hrun & Ha & Hn & Hsamples & _ & Hentries); try done.
  assert ((opts r', input_files r', samples_pending r')
          = (opts r0, input_files r0, samples_pending r0)) as [= Ho' Hi' Hp'].
  { apply (preserves_elim _ _ _ _ _
             (keeps_RestoreState
                (fun s => (opts s, input_files s, samples_pending s))
                ltac:(done) ltac:(done) ltac:(done) ltac:(done) ltac:(done)
                ltac:(done)) eq_refl Hrun). }
  simpl in Ho', Hi', Hp'.
  exists (set_state INPUT_SAMPLE_PROCESSING r').
  split.
  { unfold Run_setup, bind, modify. fold r0. by rewrite Hrun. }
  split; [done|]. split; [by rewrite <- Hinputs|]. split; [done|].
  split; [done|].
  set (r1 := set_state INPUT_SAMPLE_PROCESSING r').
  destruct (SynchronizeAndGetJob_sync_run r1) as (q1 & H1 & Hq1).
  assert (state q1 = INPUT_SAMPLE_PROCESSING ∧ input_files q1 = []
          ∧ samples_pending q1 = 0 ∧ server (opts q1) = false
          ∧ sample_queue q1 = sample_queue r'
          ∧ min_priority q1 = min_priority r')
    as (Hst & Hif & Hsp & Hsv & Hsq & Hmp).
  { rewrite Hq1. simpl. rewrite Hi', Hp', Ho', Hinputs. split_and!; try done.
    by rewrite Hopts. }
  assert (SynchronizeAndGetJob_update q1 = Ok (tt, q1)) as H2
    by (apply SynchronizeAndGetJob_update_skip; left; congruence).
  pose proof (SynchronizeAndGetJob_input_end q1 Hst Hif Hsp Hsv) as H3.
  unfold SynchronizeAndGetJob.
  rewrite (bind_run _ _ _ _ _ H1), (bind_run _ _ _ _ _ H2).
  destruct (decide (all_samples s = [])) as [Hempty|Hsome].
  - rewrite decide_True in H3.
    + by rewrite (bind_Fatal _ _ _ _ H3).
    + rewrite Hsq. rewrite Hempty in Hsamples.
      apply map_eq_nil in Hsamples.
      by rewrite <- (rev_involutive (sample_queue r')), Hsamples.
  - rewrite decide_False in H3.
    2:{ rewrite Hsq. intros Hnil. rewrite Hnil in Hsamples. simpl in Hsamples.
        congruence. }
    rewrite (bind_run _ _ _ _ _ H3).
    rewrite (bind_run _ _ _ _ _
               (SynchronizeAndGetJob_server_run (set_state FUZZING q1))).
    simpl.
    unfold SynchronizeAndGetJob_dispense, bind, get, modify, ret. simpl.
    destruct (queue_extract (sample_queue q1)) as [[top rest]|] eqn:Hextract.
    2:{ apply queue_extract_None in Hextract. rewrite Hsq in Hextract.
        rewrite Hextract in Hsamples. simpl in Hsamples. congruence. }
    apply queue_extract_Permutation in Hextract.
    assert (top ∈ sample_queue r') as Hin.
    { rewrite <- Hsq, Hextract. apply elem_of_cons. by left. }
    apply list_elem_of_In in Hin as Hin'.
    rewrite Forall_forall in Hentries.
    destruct (Hentries top Hin') as [Hpriority Hcontext].
    eexists _, _, top. split; [reflexivity|]. simpl.
    split_and!; try done.
    + by destruct (decide _).
    + rewrite <- Hsamples. apply list_elem_of_fmap_2.
      apply list_elem_of_In. by apply -> in_rev.
Qed.

End Engine.

(** ** The properties on the example configuration *)

Lemma InterestingSample_spec_witness :
  ({[edge2]} : Coverage) ∖ {[edge1]} ≠ ∅
  ∧ ({[edge1]} : Coverage) ∖ {[edge1]} = ∅
  ∧ ∃ s', InterestingSample bytes4 {[edge1]} {[edge2]}
            (set_fuzzer_coverage {[edge1]} (script_machine [] []))
          = Ok ((0, ∅, {[edge2]}), s').
Proof.
  assert (H1 : ({[edge2]} : Coverage) ∖ {[edge1]} ≠ ∅).
  { intros H. assert (edge2 ∈ (∅ : Coverage)) as He; [|set_solver].
    rewrite <- H. apply elem_of_difference. split; [set_solver|].
    rewrite elem_of_singleton. discriminate. }
  assert (H2 : ({[edge1]} : Coverage) ∖ {[edge1]} = ∅) by set_solver.
  split; [done|]. split; [done|].
  destruct (InterestingSample_spec bytes4 {[edge1]} {[edge2]}
              (set_fuzzer_coverage {[edge1]} (script_machine [] [])))
    as (verdict & Hrun & _ & Hvar).
  simpl in Hvar. rewrite (Hvar H1 H2) in Hrun.
  eexists. rewrite Hrun. simpl. rewrite H2.
  replace (({[edge2]} : Coverage) ∖ {[edge1]}) with ({[edge2]} : Coverage); [done|].
  apply set_eq. intros x. rewrite elem_of_difference, !elem_of_singleton.
  split; [intros ->; split; [done|discriminate]|by intros [? _]].
Defined.

(** C9 as stated fails: the first hang is saved as [hang_0] while
    [num_hangs] is 1 after it, and there is no file [hang_1]. *)
Lemma hang_suffix_counterexample :
  match RunSampleAndGetCoverage script_ops 4 2 OK bytes4 10 10
          (script_machine [] [(HANG, ∅)]) with
  | Ok ((result, _), s') =>
      result = HANG
      ∧ save_hangs (opts s') = true
      ∧ num_hangs s' = 1
      ∧ files s' !! DirJoin (hangs_dir (opts s')) (hang_filename (num_hangs s'))
        = None
      ∧ files s' !! DirJoin (hangs_dir (opts s')) (hang_filename 0)
        = Some bytes4
  | _ => False
  end.
Proof. vm_compute. repeat split; reflexivity. Qed.

Lemma hang_saved_under_previous_count_witness :
  let s := script_machine [] [(HANG, ∅)] in
  let s' := final (RunSampleAndGetCoverage script_ops 4 2 OK bytes4 10 10 s) s in
  RunSampleAndGetCoverage script_ops 4 2 OK bytes4 10 10 s
  = Ok ((HANG, ∅), s')
  ∧ num_hangs s' = 1
  ∧ files s' = {[ DirJoin (hangs_dir script_options) (hang_filename 0)
                  := bytes4 ]}.
Proof.
  intros s s'.
  assert (RunSampleAndGetCoverage script_ops 4 2 OK bytes4 10 10 s
          = Ok ((HANG, ∅), s')) as Hrun by (vm_compute; reflexivity).
  split; [exact Hrun|].
  destruct (hang_saved_under_previous_count script_ops 4 2 OK bytes4 10 10
              _ _ _ Hrun) as [Hn Hf].
  split; [exact Hn|]. rewrite Hf. reflexivity.
Defined.

Lemma crash_registry_spec_witness :
  1 ≤ 4
  ∧ ∃ s', record_crash 4 "crash" (script_machine [] []) = Ok ((true, 1), s')
          ∧ unique_crashes s' = {[ "crash"%string := 1 ]}
          ∧ num_unique_crashes s' = 1 ∧ num_crashes s' = 1.
Proof.
  assert (1 ≤ 4) as Hmax by lia. split; [exact Hmax|].
  destruct (crash_registry_spec script_ops 4 2 2 16 1000 OK (fun _ => [])
              (fun _ => []) Hmax) as (Hrecord & _).
  specialize (Hrecord "crash"%string (script_machine [] [])).
  eexists. split; [exact Hrecord|]. split_and!; reflexivity.
Defined.

Lemma TrimSample_spec_witness :
  let s := script_machine [] [(OK, {[edge1]}); (OK, ∅); (HANG, ∅)] in
  let s' := final (TrimSample script_ops 4 2 16 OK bytes4 {[edge1]} 10 10 s) s in
  0 ≤ 16 < 2 ^ 31
  ∧ TrimSample script_ops 4 2 16 OK bytes4 {[edge1]} 10 10 s
    = Ok (take 2 bytes4, s')
  ∧ ∃ runs trimmed_size,
      history s' = history s ++ runs
      ∧ trim_runs bytes4 {[edge1]} 16 (size bytes4) runs trimmed_size
      ∧ take 2 bytes4 = take trimmed_size bytes4.
Proof.
  intros s s'. assert (0 ≤ 16 < 2 ^ 31) as Hstep by lia.
  assert (TrimSample script_ops 4 2 16 OK bytes4 {[edge1]} 10 10 s
          = Ok (take 2 bytes4, s')) as Hrun by (vm_compute; reflexivity).
  split; [exact Hstep|]. split; [exact Hrun|].
  destruct (TrimSample_spec script_ops 4 2 16 OK bytes4 {[edge1]} 10 10 s
              Hstep) as (_ & _ & Hspec).
  destruct (Hspec _ _ Hrun) as (runs & k & Hhist & Hruns & _ & Hsample & _).
  exists runs, k. split; [exact Hhist|]. split; [exact Hruns|exact Hsample].
Defined.

(** C5 as stated fails: a fuzzer with a server is saved while it processes
    the samples of the server, when no entry has been popped yet and
    [min_priority] is still the [1.79e+308] of [Run]; the fuzzer that
    resumes from this snapshot gives the restored entry this priority,
    from which a [double] loses nothing when 1 is subtracted: a run
    without new coverage leaves the priority as it is. *)
Lemma priority_decrement_counterexample :
  let r1 := SynchronizeAndGetJob script_ops 1000 blank_job served_machine in
  let s1 := final r1 served_machine in
  let r2 := SaveState example_write_coverage fresh_double_bytes s1 in
  let s2 := final r2 s1 in
  let resumed := set_files (files s2) (script_machine [] []) in
  let r3 := RestoreState example_read_coverage fresh_double_of_bytes resumed in
  let s3 := final r3 resumed in
  let entry :=
    SampleQueueEntry.mk bytes4 None false (double_round (179 * 10 ^ 306))
      0 0 0 0 0 in
  r1 = Ok (returned r1 blank_job, s1)
  ∧ state s1 = SERVER_SAMPLE_PROCESSING
  ∧ r2 = Ok (tt, s2)
  ∧ r3 = Ok (tt, s3)
  ∧ sample_queue s3 = [entry : SampleQueueEntry.t unit]
  ∧ 2 ^ 1023 < SampleQueueEntry.priority entry
  ∧ SampleQueueEntry.priority (AdjustSamplePriority entry 0)
    = SampleQueueEntry.priority entry.
Proof.
  intros r1 s1 r2 s2 resumed r3 s3 entry.
  split_and!; vm_compute; reflexivity.
Qed.

Lemma AdjustSamplePriority_spec_witness :
  - 2 ^ 53 < SampleQueueEntry.priority fresh_entry ≤ 2 ^ 53
  ∧ SampleQueueEntry.priority (AdjustSamplePriority fresh_entry 0) = -1
  ∧ SampleQueueEntry.priority (AdjustSamplePriority fresh_entry 0)
    < SampleQueueEntry.priority fresh_entry.
Proof.
  assert (- 2 ^ 53 < SampleQueueEntry.priority fresh_entry ≤ 2 ^ 53)
    as Hrange by (simpl; lia).
  split; [exact Hrange|].
  exact (proj1 (proj2 (proj1 (AdjustSamplePriority_spec fresh_entry 0)))
           Hrange).
Defined.



Lemma RunSample_spec_witness :
  let s := reporting_machine
             [(OK, {[edge1; edge2]}); (OK, {[edge1]}); (OK, {[edge1; edge3]})] in
  let r := RunSample reporting_ops 4 2 2 16 OK bytes4 (Some 7) false true 10 10
             s in
  let s' := final r s in
  0 ≤ 16 < 2 ^ 31
  ∧ reliable_delivery reporting_ops
  ∧ r = Ok ((OK, bytes4, Some 1), s')
  ∧ (collab s').2
    = [({[edge1]}, Some bytes4); ({[edge2; edge3]}, None)]
  ∧ ∃ coverages rest stable total,
      length coverages = 3%nat
      ∧ history s' = history s ++ OK_runs bytes4 coverages ++ rest
      ∧ (∀ e, e ∈ stable ↔ in_every coverages e)
      ∧ (∀ e, e ∈ total ↔ in_some coverages e)
      ∧ fuzzer_coverage s'
        = fuzzer_coverage s ∪ stable ∖ fuzzer_coverage s
          ∪ (total ∖ stable) ∖ fuzzer_coverage s
      ∧ ∃ s_accepted,
          s' = reported reporting_ops
                 ((total ∖ stable) ∖ fuzzer_coverage s) total true s_accepted.
Proof.
  intros s r s'.
  assert (r = Ok ((OK, bytes4, Some 1), s')) as Hrun
    by (vm_compute; reflexivity).
  assert ((collab s').2
          = [({[edge1]}, Some bytes4); ({[edge2; edge3]}, None)]) as Hlog
    by (vm_compute; reflexivity).
  split; [lia|]. split; [by intros sample [e log]|]. split; [exact Hrun|].
  split; [exact Hlog|].
  destruct (RunSample_spec reporting_ops 4 2 2 16 OK bytes4 (Some 7) false
              true 10 10 s) as (_ & _ & Hspec).
  destruct (Hspec OK bytes4 (Some 1) s' Hrun)
    as [(pre & c & _ & _ & _ & _ & _ & Hpointee)
       |(_ & coverages & rest & stable & total & Hlen & Hhist & _ & Hstable
           & Htotal & Hknown & _ & _ & s_runs & verdict & s_offered
           & s_accepted & _ & _ & _ & Hreported)].
  - discriminate Hpointee.
  - exists coverages, rest, stable, total.
    split; [exact Hlen|]. split; [exact Hhist|]. split; [exact Hstable|].
    split; [exact Htotal|]. split; [exact Hknown|].
    exists s_accepted. exact Hreported.
Defined.

Lemma SynchronizeAndGetJob_phases_witness :
  let s := drained_machine in
  state s = INPUT_SAMPLE_PROCESSING ∧ input_files s = []
  ∧ samples_pending s = 0
  ∧ ∃ s0, SynchronizeAndGetJob_sync s = Ok (tt, s0)
          ∧ SynchronizeAndGetJob_input script_ops s0
            = Ok (tt, set_state FUZZING s0).
Proof.
  intros s.
  assert (state s = INPUT_SAMPLE_PROCESSING) as H1 by reflexivity.
  assert (input_files s = []) as H2 by reflexivity.
  assert (samples_pending s = 0) as H3 by reflexivity.
  split; [exact H1|]. split; [exact H2|]. split; [exact H3|].
  destruct (proj1 (SynchronizeAndGetJob_phases script_ops 1000)
              blank_job s H1 H2 H3) as (s0 & Hsync & _ & _ & Hrest).
  exists s0. split; [exact Hsync|].
  destruct (decide (sample_queue s = [])) as [Hq|Hq]; [discriminate Hq|].
  exact (proj1 Hrest).
Defined.

Lemma SaveState_RestoreState_roundtrip_witness :
  let s := accepted_machine in
  let r := set_files (<[state_file (opts s)
                        := snapshot example_write_coverage
                             example_double_bytes s]> (files s))
             (script_machine [] []) in
  ∃ r',
    RestoreState example_read_coverage example_double_of_bytes r = Ok (tt, r')
    ∧ num_samples r' = 1 ∧ total_execs r' = 3 ∧ min_priority r' = 0
    ∧ fuzzer_coverage r' = {[edge1]}
    ∧ sample_queue r'
      = [SampleQueueEntry.mk bytes4 None false 0 0 0 0 0 0].
Proof.
  intros s r.
  assert (0 ≤ num_samples s < 2 ^ 64) as H1 by (simpl; lia).
  assert (0 ≤ total_execs s < 2 ^ 64) as H2 by (simpl; lia).
  assert (length (example_double_bytes (min_priority s)) = 8%nat) as H3
    by reflexivity.
  assert (example_double_of_bytes (example_double_bytes (min_priority s))
          = min_priority s) as H4 by reflexivity.
  assert ((example_read_coverage
             (example_write_coverage (fuzzer_coverage s))).1
          = fuzzer_coverage s) as H5 by (vm_compute; reflexivity).
  assert (state s ≠ INPUT_SAMPLE_PROCESSING) as H6 by discriminate.
  destruct (SaveState_RestoreState_roundtrip example_write_coverage
              example_read_coverage example_double_bytes
              example_double_of_bytes s H1 H2 H3 H4 H5) as [_ Hsaved].
  destruct (Hsaved H6) as [_ Hrestore].
  destruct (Hrestore r eq_refl eq_refl)
    as (r' & Hrun & Hn & He & Hp & Hc & _ & Hq & _).
  exists r'. split; [exact Hrun|]. split; [exact Hn|]. split; [exact He|].
  split; [exact Hp|]. split; [exact Hc|].
  rewrite Hq. vm_compute. reflexivity.
Defined.

(** ** The further properties on the example configuration *)

Lemma TryReproduceCrash_attempts_witness :
  let s := script_machine [] [] in
  let r := TryReproduceCrash script_ops 2 OK bytes4 10 10 s in
  let s' := final r s in
  r = Ok (CRASH, s')
  ∧ total_execs s' = 1
  ∧ ∃ results,
      attempts script_ops bytes4 10 10 s results s'
      ∧ (length results ≤ 2)%nat
      ∧ CRASH = default OK (list.last results)
      ∧ (∀ i x, results !! i = Some x → (S i < length results)%nat →
                x ≠ CRASH)
      ∧ (list.last results = Some CRASH ∨ length results = 2%nat)
      ∧ s' = set_collab (collab s')
               (set_total_execs
                  (Nat.iter (length results) (fun x => u64 (x + 1))
                     (total_execs s)) s).
Proof.
  intros s r s'.
  assert (r = Ok (CRASH, s')) as Hrun by (vm_compute; reflexivity).
  assert (total_execs s' = 1) as Hexecs by (vm_compute; reflexivity).
  split; [exact Hrun|]. split; [exact Hexecs|].
  exact (TryReproduceCrash_attempts script_ops 2 OK bytes4 10 10 s s' CRASH
           Hrun).
Defined.

Lemma RunSampleAndGetCoverage_quiet_witness :
  let s := script_machine [] [(OK, {[edge1]})] in
  let r := RunSampleAndGetCoverage script_ops 4 2 OK bytes4 10 10 s in
  let s' := final r s in
  r = Ok ((OK, {[edge1]}), s') ∧ OK ≠ CRASH ∧ OK ≠ HANG
  ∧ s' = set_history (history s ++ [(bytes4, OK, {[edge1]})])
           (set_collab (collab s')
              (set_total_execs (u64 (total_execs s + 1)) s)).
Proof.
  intros s r s'.
  assert (r = Ok ((OK, {[edge1]}), s')) as Hrun by (vm_compute; reflexivity).
  assert (OK ≠ CRASH) as Hcrash by discriminate.
  assert (OK ≠ HANG) as Hhang by discriminate.
  split; [exact Hrun|]. split; [exact Hcrash|]. split; [exact Hhang|].
  exact (RunSampleAndGetCoverage_quiet script_ops 4 2 OK bytes4 10 10 s s' OK
           {[edge1]} Hrun Hcrash Hhang).
Defined.

Lemma crash_saved_once_witness :
  let s := script_machine [] [(CRASH, ∅)] in
  let r := RunSampleAndGetCoverage script_ops 4 2 OK bytes4 10 10 s in
  let s' := final r s in
  r = Ok ((CRASH, ∅), s')
  ∧ unique_crashes s' = {[ "crash"%string := 1 ]}
  ∧ ∃ s1 reproduced s2 crash_desc,
      only_collab (set_total_execs (u64 (total_execs s + 1)) s) s1
      ∧ TryReproduceCrash script_ops 2 OK bytes4 10 10 s1
        = Ok (reproduced, s2)
      ∧ crash_desc
        = (if decide (reproduced = CRASH)
           then GetCrashName script_ops (collab s2)
           else "flaky_" +:+ GetCrashName script_ops (collab s1))
      ∧ unique_crashes s' = <[crash_desc := 1]> (unique_crashes s)
      ∧ num_unique_crashes s' = u64 (num_unique_crashes s + 1)
      ∧ files s'
        = <[DirJoin (crash_dir (opts s)) (crash_filename crash_desc 1)
            := bytes4]> (files s).
Proof.
  intros s r s'.
  assert (r = Ok ((CRASH, ∅), s')) as Hrun by (vm_compute; reflexivity).
  split; [exact Hrun|].
  split; [vm_compute; reflexivity|].
  destruct (crash_saved_once script_ops 4 2 OK bytes4 10 10 s s' ∅ Hrun)
    as (s1 & reproduced & s2 & crash_desc & Hs1 & Hreproduce & Hname & Hsaved).
  exists s1, reproduced, s2, crash_desc.
  split; [exact Hs1|]. split; [exact Hreproduce|]. split; [exact Hname|].
  exact Hsaved.
Defined.

Lemma TrimSample_floor_witness :
  let s := script_machine [] [(OK, {[edge1]}); (OK, ∅); (HANG, ∅)] in
  let r := TrimSample script_ops 4 2 16 OK bytes4 {[edge1]} 10 10 s in
  let s' := final r s in
  0 ≤ 16 < 2 ^ 31
  ∧ r = Ok (take 2 bytes4, s')
  ∧ ((size bytes4 ≤ 1)%nat → take 2 bytes4 = bytes4 ∧ s' = s)
  ∧ ((1 ≤ size bytes4)%nat → (1 ≤ size (take 2 bytes4))%nat).
Proof.
  intros s r s'. assert (0 ≤ 16 < 2 ^ 31) as Hstep by lia.
  assert (r = Ok (take 2 bytes4, s')) as Hrun by (vm_compute; reflexivity).
  split; [exact Hstep|]. split; [exact Hrun|].
  exact (TrimSample_floor script_ops 4 2 16 OK bytes4 {[edge1]} 10 10 s s'
           (take 2 bytes4) Hstep Hrun).
Defined.

Lemma TrimSample_cost_witness :
  let s := script_machine [] [(OK, {[edge1]}); (OK, ∅); (HANG, ∅)] in
  let r := TrimSample script_ops 4 2 16 OK bytes4 {[edge1]} 10 10 s in
  let s' := final r s in
  0 ≤ 16 < 2 ^ 31
  ∧ r = Ok (take 2 bytes4, s')
  ∧ ∃ runs n,
      history s' = history s ++ runs
      ∧ (length runs ≤ (size bytes4 - 1) + (Z.to_nat (Z.log2 16) + 1))%nat
      ∧ counted n s s'
      ∧ (length runs ≤ n ≤ length runs + 2)%nat
      ∧ (n ≠ length runs →
         ∃ candidate c, list.last runs = Some (candidate, CRASH, c)).
Proof.
  intros s r s'. assert (0 ≤ 16 < 2 ^ 31) as Hstep by lia.
  assert (r = Ok (take 2 bytes4, s')) as Hrun by (vm_compute; reflexivity).
  split; [exact Hstep|]. split; [exact Hrun|].
  exact (TrimSample_cost script_ops 4 2 16 OK bytes4 {[edge1]} 10 10 s s'
           (take 2 bytes4) Hstep Hrun).
Defined.

(** The machine of the example after [RunSample] has accepted the sample,
    and the step that leads to it. *)
Lemma accepting_step :
  let s := script_machine []
             [(OK, {[edge1; edge2]}); (OK, {[edge1]}); (OK, {[edge1; edge3]})] in
  let r := RunSample script_ops 4 2 2 16 OK bytes4 (Some 7) false false 10 10 s in
  let s' := final r s in
  r = Ok ((OK, bytes4, Some 1), s')
  ∧ rtc (engine_step script_ops 4 2 2 16 1000 OK example_write_coverage
           example_double_bytes) s s'.
Proof.
  intros s r s'.
  assert (r = Ok ((OK, bytes4, Some 1), s')) as Hrun
    by (vm_compute; reflexivity).
  split; [exact Hrun|].
  apply rtc_once, step_engine_call.
  exact (call_RunSample script_ops 4 2 2 16 1000 OK example_write_coverage
           example_double_bytes bytes4 (Some 7) false false 10 10 s _ s' Hrun).
Defined.

Lemma fuzzer_coverage_never_shrinks_witness :
  let s := script_machine []
             [(OK, {[edge1; edge2]}); (OK, {[edge1]}); (OK, {[edge1; edge3]})] in
  let r := RunSample script_ops 4 2 2 16 OK bytes4 (Some 7) false false 10 10 s in
  let s' := final r s in
  rtc (engine_step script_ops 4 2 2 16 1000 OK example_write_coverage
         example_double_bytes) s s'
  ∧ fuzzer_coverage s ⊆ fuzzer_coverage s'.
Proof.
  intros s r s'. pose proof (proj2 accepting_step) as Hsteps.
  split; [exact Hsteps|].
  exact (fuzzer_coverage_never_shrinks script_ops 4 2 2 16 1000 OK
           example_write_coverage example_double_bytes s s' Hsteps).
Defined.

Lemma InterestingSample_once_witness :
  let s := script_machine [] [] in
  let s1 := set_fuzzer_coverage {[edge1]} s in
  InterestingSample bytes4 {[edge1]} ∅ s = Ok ((1, {[edge1]}, ∅), s1)
  ∧ ({[edge1]} : Coverage) ⊆ {[edge1]} ∪ ∅
  ∧ (∅ : Coverage) ⊆ {[edge1]} ∪ ∅
  ∧ InterestingSample bytes4 {[edge1]} ∅ s1 = Ok ((0, ∅, ∅), s1).
Proof.
  intros s s1.
  assert (InterestingSample bytes4 {[edge1]} ∅ s = Ok ((1, {[edge1]}, ∅), s1))
    as Hrun by (vm_compute; reflexivity).
  assert (({[edge1]} : Coverage) ⊆ {[edge1]} ∪ ∅) as Hstable
    by apply union_subseteq_l.
  assert ((∅ : Coverage) ⊆ {[edge1]} ∪ ∅) as Hvariable
    by apply union_subseteq_r.
  split; [exact Hrun|]. split; [exact Hstable|]. split; [exact Hvariable|].
  exact (InterestingSample_once bytes4 bytes4 {[edge1]} ∅ {[edge1]} ∅ s s1 _
           Hrun Hstable Hvariable).
Defined.

Lemma SynchronizeAndGetJob_job_witness :
  let r := SynchronizeAndGetJob script_ops 1000 blank_job fuzzing_machine in
  let job' := returned r blank_job in
  let s' := final r fuzzing_machine in
  r = Ok (job', s')
  ∧ FuzzerJob.type job' = FUZZ
  ∧ state s' = FUZZING
  ∧ ∃ top, FuzzerJob.entry job' = Some top
           ∧ sample_queue fuzzing_machine ≡ₚ top :: sample_queue s'
           ∧ samples_pending s' = samples_pending fuzzing_machine
           ∧ input_files s' = input_files fuzzing_machine.
Proof.
  intros r job' s'.
  assert (r = Ok (job', s')) as Hrun by (vm_compute; reflexivity).
  assert (FuzzerJob.type job' = FUZZ) as Htype by (vm_compute; reflexivity).
  split; [exact Hrun|]. split; [exact Htype|].
  pose proof (SynchronizeAndGetJob_job script_ops 1000 blank_job job'
                fuzzing_machine s' Hrun) as Hjob.
  rewrite Htype in Hjob. exact Hjob.
Defined.

Lemma SynchronizeAndGetJob_barrier_witness :
  let s := set_samples_pending 1 (script_machine [] []) in
  let r := SynchronizeAndGetJob script_ops 1000 blank_job s in
  let job' := returned r blank_job in
  let s' := final r s in
  state s ≠ FUZZING ∧ samples_pending s ≠ 0 ∧ r = Ok (job', s')
  ∧ state s' = state s ∧ FuzzerJob.type job' ≠ FUZZ.
Proof.
  intros s r job' s'.
  assert (state s ≠ FUZZING) as Hstate by discriminate.
  assert (samples_pending s ≠ 0) as Hpending by discriminate.
  assert (r = Ok (job', s')) as Hrun by (vm_compute; reflexivity).
  split; [exact Hstate|]. split; [exact Hpending|]. split; [exact Hrun|].
  exact (SynchronizeAndGetJob_barrier script_ops 1000 blank_job job' s s'
           Hstate Hpending Hrun).
Defined.

Lemma phases_never_go_back_witness :
  let s := drained_machine in
  let r := SynchronizeAndGetJob script_ops 1000 blank_job s in
  let s' := final r s in
  rtc (engine_step script_ops 4 2 2 16 1000 OK example_write_coverage
         example_double_bytes) s s'
  ∧ state s' = FUZZING
  ∧ ∀ s'',
      rtc (engine_step script_ops 4 2 2 16 1000 OK example_write_coverage
             example_double_bytes) s' s'' →
      state s'' ≠ INPUT_SAMPLE_PROCESSING
      ∧ state s'' ≠ SERVER_SAMPLE_PROCESSING.
Proof.
  intros s r s'.
  assert (r = Ok (returned r blank_job, s')) as Hrun
    by (vm_compute; reflexivity).
  assert (state s' = FUZZING) as Hstate by (vm_compute; reflexivity).
  assert (server (opts s') = false) as Hserver by (vm_compute; reflexivity).
  split.
  { apply rtc_once, step_engine_call.
    exact (call_SynchronizeAndGetJob script_ops 4 2 2 16 1000 OK
             example_write_coverage example_double_bytes blank_job s _ s'
             Hrun). }
  split; [exact Hstate|]. intros s'' Hsteps.
  destruct (phases_never_go_back script_ops 4 2 2 16 1000 OK
              example_write_coverage example_double_bytes s' s'' Hsteps)
    as [Hinput Hremote].
  split; [apply Hinput|apply Hremote]; rewrite ?Hstate; done.
Defined.

Lemma SynchronizeAndGetJob_input_file_witness :
  let s := input_machine in
  state s = INPUT_SAMPLE_PROCESSING
  ∧ input_files s = [["in"; "seed"]%string]
  ∧ ∃ job' s' bytes,
      SynchronizeAndGetJob script_ops 2 blank_job s = Ok (job', s')
      ∧ Load ["in"; "seed"]%string s = Ok (bytes, s)
      ∧ FuzzerJob.type job' = PROCESS_SAMPLE
      ∧ FuzzerJob.sample job' = Some (take 2 bytes)
      ∧ (size (take 2 bytes) ≤ 2)%nat
      ∧ input_files s' = []
      ∧ samples_pending s' = samples_pending s + 1
      ∧ state s' = INPUT_SAMPLE_PROCESSING
      ∧ sample_queue s' = sample_queue s.
Proof.
  intros s.
  assert (state s = INPUT_SAMPLE_PROCESSING) as Hstate by reflexivity.
  assert (input_files s = [["in"; "seed"]%string]) as Hfiles by reflexivity.
  split; [exact Hstate|]. split; [exact Hfiles|].
  exact (SynchronizeAndGetJob_input_file script_ops 2 blank_job s
           ["in"; "seed"]%string [] Hstate Hfiles).
Defined.

Lemma SynchronizeAndGetJob_view_witness :
  let s := fuzzing_machine in
  let r := SynchronizeAndGetJob script_ops 1000 blank_job s in
  let job' := returned r blank_job in
  let s' := final r s in
  all_samples_local s `prefix_of` all_samples s
  ∧ r = Ok (job', s')
  ∧ all_samples s' = all_samples s ∧ all_samples_local s' = all_samples s'.
Proof.
  intros s r job' s'.
  assert (all_samples_local s `prefix_of` all_samples s) as Hview
    by (by exists [bytes4]).
  assert (r = Ok (job', s')) as Hrun by (vm_compute; reflexivity).
  split; [exact Hview|]. split; [exact Hrun|].
  exact (SynchronizeAndGetJob_view script_ops 1000 blank_job job' s s' Hview
           Hrun).
Defined.

Lemma RunSample_acceptance_witness :
  let s := script_machine []
             [(OK, {[edge1; edge2]}); (OK, {[edge1]}); (OK, {[edge1; edge3]})] in
  let r := RunSample script_ops 4 2 2 16 OK bytes4 (Some 7) false false 10 10 s in
  let s' := final r s in
  r = Ok ((OK, bytes4, Some 1), s')
  ∧ all_samples s' = [bytes4]
  ∧ sample_queue s' = [accepted_entry bytes4 tt 0]
  ∧ num_samples s' = 1
  ∧ files s' !! sample_file (opts s) 0 = Some bytes4.
Proof.
  intros s r s'. pose proof (proj1 accepting_step) as Hrun.
  split; [exact Hrun|].
  destruct (RunSample_acceptance script_ops 4 2 2 16 OK bytes4 (Some 7) false
              false 10 10 s s' OK bytes4 (Some 1) Hrun)
    as [(_ & _ & _ & _ & _ & Hpointee)
       |(_ & _ & _ & _ & Hall & [[] Hqueue] & Hnum & Hfile)].
  - discriminate Hpointee.
  - split; [exact Hall|]. split; [exact Hqueue|]. split; [exact Hnum|].
    exact Hfile.
Defined.

Lemma all_samples_append_only_witness :
  let s := script_machine []
             [(OK, {[edge1; edge2]}); (OK, {[edge1]}); (OK, {[edge1; edge3]})] in
  let r := RunSample script_ops 4 2 2 16 OK bytes4 (Some 7) false false 10 10 s in
  let s' := final r s in
  rtc (engine_step script_ops 4 2 2 16 1000 OK example_write_coverage
         example_double_bytes) s s'
  ∧ all_samples s `prefix_of` all_samples s'.
Proof.
  intros s r s'. pose proof (proj2 accepting_step) as Hsteps.
  split; [exact Hsteps|].
  exact (all_samples_append_only script_ops 4 2 2 16 1000 OK
           example_write_coverage example_double_bytes s s' Hsteps).
Defined.

Lemma corpus_stays_stored_witness :
  let s := script_machine []
             [(OK, {[edge1; edge2]}); (OK, {[edge1]}); (OK, {[edge1; edge3]})] in
  let r := RunSample script_ops 4 2 2 16 OK bytes4 (Some 7) false false 10 10 s in
  let s' := final r s in
  rtc (engine_step script_ops 4 2 2 16 1000 OK example_write_coverage
         example_double_bytes) s s'
  ∧ corpus_stored s ∧ corpus_stored s'.
Proof.
  intros s r s'. pose proof (proj2 accepting_step) as Hsteps.
  assert (corpus_stored s) as Hstored.
  { intros _. split; [reflexivity|]. intros i sample Hi. discriminate Hi. }
  split; [exact Hsteps|]. split; [exact Hstored|].
  exact (corpus_stays_stored script_ops 4 2 2 16 1000 OK
           example_write_coverage example_double_bytes s s' Hsteps Hstored).
Defined.

(** The files of a machine are the ones that were set. *)
Lemma files_set_files {E Context : Type} (v : gmap Path Sample)
    (s : Machine E Context) :
  files (set_files v s) = v.
Proof. reflexivity. Qed.

(** The machine that accepted one sample has its corpus stored. *)
Lemma accepted_machine_stored : corpus_stored accepted_machine.
Proof.
  intros _. split; [reflexivity|]. intros i sample Hi.
  destruct i as [|i]; [|discriminate Hi].
  injection Hi as <-. vm_compute. reflexivity.
Defined.

Lemma RestoreState_recovers_corpus_witness :
  let s := accepted_machine in
  let s1 := final (SaveState example_write_coverage example_double_bytes s) s in
  let r := set_files (files s1) (script_machine [] []) in
  corpus_stored s
  ∧ SaveState example_write_coverage example_double_bytes s = Ok (tt, s1)
  ∧ ∃ r',
      RestoreState example_read_coverage example_double_of_bytes r
      = Ok (tt, r')
      ∧ all_samples r' = [bytes4]
      ∧ num_samples r' = 1
      ∧ map SampleQueueEntry.sample (rev (sample_queue r')) = [bytes4]
      ∧ map SampleQueueEntry.sample_index (rev (sample_queue r')) = [0].
Proof.
  intros s s1 r. pose proof accepted_machine_stored as Hstored.
  assert (Z.of_nat (length (all_samples s)) < 2 ^ 64) as Hlen
    by (simpl; lia).
  assert (state s ≠ INPUT_SAMPLE_PROCESSING) as Hstate by discriminate.
  assert (SaveState example_write_coverage example_double_bytes s
          = Ok (tt, s1)) as Hsave by (vm_compute; reflexivity).
  assert (opts r = opts s) as Hopts by reflexivity.
  assert (files r = files s1) as Hfiles by apply files_set_files.
  assert (all_samples r = []) as Hall by reflexivity.
  assert (sample_queue r = []) as Hqueue by reflexivity.
  split; [exact Hstored|]. split; [exact Hsave|].
  destruct (RestoreState_recovers_corpus example_write_coverage
              example_read_coverage example_double_bytes
              example_double_of_bytes s s1 r Hstored Hlen Hstate Hsave Hopts
              Hfiles Hall Hqueue)
    as (r' & Hrun & Hsamples & Hnum & Hqueued & Hindices & _).
  exists r'. split; [exact Hrun|]. split; [exact Hsamples|].
  split; [exact Hnum|]. split; [exact Hqueued|exact Hindices].
Defined.

Lemma FuzzJob_entry_witness :
  let s := fuzzing_script [(OK, ∅)] in
  let r := FuzzJob script_ops 4 2 2 16 6 OK script_mutator
             example_exceeds_hang_ratio example_exceeds_crash_ratio 5 10 10
             fuzz_job s in
  let job' := returned r fuzz_job in
  let s' := final r s in
  r = Ok (job', s')
  ∧ ∃ entry',
      FuzzerJob.entry job' = Some entry'
      ∧ FuzzerJob.type job' = FUZZ
      ∧ SampleQueueEntry.sample entry' = bytes4
      ∧ SampleQueueEntry.sample_index entry' = 0
      ∧ SampleQueueEntry.context_initialized entry' = true
      ∧ 0 ≤ SampleQueueEntry.num_runs entry'.
Proof.
  intros s r job' s'.
  assert (r = Ok (job', s')) as Hrun by (vm_compute; reflexivity).
  split; [exact Hrun|].
  destruct (FuzzJob_entry script_ops 4 2 2 16 6 OK script_mutator
              example_exceeds_hang_ratio example_exceeds_crash_ratio 5 10 10
              fuzz_job job' s s' Hrun)
    as (entry & entry' & Hentry & Hentry' & Htype & Hsample & Hindex & Hinit
        & _ & Hruns & _).
  injection Hentry as <-.
  exists entry'. split; [exact Hentry'|]. split; [exact Htype|].
  split; [exact Hsample|]. split; [exact Hindex|]. split; [exact Hinit|].
  exact Hruns.
Defined.

Lemma FuzzJob_runs_bounded_witness :
  let s := fuzzing_script [(OK, ∅)] in
  let r := FuzzJob script_ops 4 2 2 16 6 OK script_mutator
             example_exceeds_hang_ratio example_exceeds_crash_ratio 5 10 10
             fuzz_job s in
  let job' := returned r fuzz_job in
  let s' := final r s in
  r = Ok (job', s')
  ∧ ∃ runs,
      history s' = history s ++ runs
      ∧ Forall (fun x : Execution => (size x.1.1 ≤ 6)%nat) runs.
Proof.
  intros s r job' s'.
  assert (r = Ok (job', s')) as Hrun by (vm_compute; reflexivity).
  split; [exact Hrun|].
  exact (FuzzJob_runs_bounded script_ops 4 2 2 16 6 OK script_mutator
           example_exceeds_hang_ratio example_exceeds_crash_ratio 5 10 10
           fuzz_job job' s s' Hrun).
Defined.

Lemma RunFuzzerThread_iteration_steps_witness :
  let s := fuzzing_script [(OK, ∅)] in
  let r := RunFuzzerThread_iteration script_ops 4 2 2 16 6 OK script_mutator
             example_exceeds_hang_ratio example_exceeds_crash_ratio 5 10 10 10
             blank_job s in
  let s' := final r s in
  r = Ok (tt, s')
  ∧ rtc (engine_step script_ops 4 2 2 16 6 OK example_write_coverage
           example_double_bytes) s s'.
Proof.
  intros s r s'.
  assert (r = Ok (tt, s')) as Hrun by (vm_compute; reflexivity).
  split; [exact Hrun|].
  exact (RunFuzzerThread_iteration_steps script_ops 4 2 2 16 6 OK
           example_write_coverage example_double_bytes script_mutator
           example_exceeds_hang_ratio example_exceeds_crash_ratio 5 10 10 10
           blank_job s s' Hrun).
Defined.

Lemma RunFuzzerThread_iteration_pending_witness :
  let s := input_machine in
  let r := RunFuzzerThread_iteration script_ops 4 2 2 16 6 OK script_mutator
             example_exceeds_hang_ratio example_exceeds_crash_ratio 5 10 10 10
             blank_job s in
  let s' := final r s in
  r = Ok (tt, s') ∧ samples_pending s' = samples_pending s.
Proof.
  intros s r s'.
  assert (r = Ok (tt, s')) as Hrun by (vm_compute; reflexivity).
  split; [exact Hrun|].
  exact (RunFuzzerThread_iteration_pending script_ops 4 2 2 16 6 OK
           script_mutator example_exceeds_hang_ratio
           example_exceeds_crash_ratio 5 10 10 10 blank_job s s' Hrun).
Defined.

Lemma RunFuzzerThread_iteration_bounded_witness :
  let s := input_machine in
  let r := RunFuzzerThread_iteration script_ops 4 2 2 16 2 OK script_mutator
             example_exceeds_hang_ratio example_exceeds_crash_ratio 5 10 10 10
             blank_job s in
  let s' := final r s in
  server (opts s) = false ∧ state s ≠ SERVER_SAMPLE_PROCESSING
  ∧ r = Ok (tt, s')
  ∧ ∃ runs,
      history s' = history s ++ runs
      ∧ Forall (fun x : Execution => (size x.1.1 ≤ 2)%nat) runs.
Proof.
  intros s r s'.
  assert (server (opts s) = false) as Hserver by reflexivity.
  assert (state s ≠ SERVER_SAMPLE_PROCESSING) as Hstate by discriminate.
  assert (r = Ok (tt, s')) as Hrun by (vm_compute; reflexivity).
  split; [exact Hserver|]. split; [exact Hstate|]. split; [exact Hrun|].
  exact (RunFuzzerThread_iteration_bounded script_ops 4 2 2 16 2 OK
           script_mutator example_exceeds_hang_ratio
           example_exceeds_crash_ratio 5 10 10 10 blank_job s s' Hserver
           Hstate Hrun).
Defined.

Lemma RunFuzzerThread_iteration_queue_witness :
  let s := fuzzing_script [(OK, ∅)] in
  let r := RunFuzzerThread_iteration script_ops 4 2 2 16 6 OK script_mutator
             example_exceeds_hang_ratio example_exceeds_crash_ratio 5 10 10 10
             blank_job s in
  let s' := final r s in
  r = Ok (tt, s')
  ∧ num_samples_discarded s' = num_samples_discarded s
  ∧ map entry_id (sample_queue s) ⊆+ map entry_id (sample_queue s').
Proof.
  intros s r s'.
  assert (r = Ok (tt, s')) as Hrun by (vm_compute; reflexivity).
  split; [exact Hrun|].
  destruct (RunFuzzerThread_iteration_queue script_ops 4 2 2 16 6 OK
              script_mutator example_exceeds_hang_ratio
              example_exceeds_crash_ratio 5 10 10 10 blank_job s s' Hrun)
    as [Hkept|[Hdiscarded _]].
  - exact Hkept.
  - vm_compute in Hdiscarded. discriminate Hdiscarded.
Defined.

Lemma MagicOutputFilter_idempotent_witness :
  let magic := ["x"; "y"]%byte in
  let filtered := ["x"; "y"; "c"; "d"]%byte in
  MagicOutputFilter bytes4 [] magic 2 = (true, filtered)
  ∧ MagicOutputFilter filtered bytes4 magic 2 = (false, bytes4).
Proof.
  intros magic filtered.
  assert (MagicOutputFilter bytes4 [] magic 2 = (true, filtered)) as Hrun
    by (vm_compute; reflexivity).
  split; [exact Hrun|].
  pose proof (MagicOutputFilter_idempotent bytes4 [] bytes4 filtered magic
                Hrun) as Hagain.
  simpl in Hagain. exact Hagain.
Defined.

Lemma resume_starts_fuzzing_witness :
  let s := accepted_machine in
  let s1 := final (SaveState example_write_coverage example_double_bytes s) s in
  let r := set_files (files s1) (script_machine [] []) in
  corpus_stored s
  ∧ SaveState example_write_coverage example_double_bytes s = Ok (tt, s1)
  ∧ ∃ r1 job' r2,
      Run_setup example_read_coverage example_double_of_bytes true [] r
      = Ok (tt, r1)
      ∧ state r1 = INPUT_SAMPLE_PROCESSING
      ∧ all_samples r1 = [bytes4]
      ∧ SynchronizeAndGetJob script_ops 1000 blank_job r1 = Ok (job', r2)
      ∧ FuzzerJob.type job' = FUZZ
      ∧ state r2 = FUZZING.
Proof.
  intros s s1 r. pose proof accepted_machine_stored as Hstored.
  assert (Z.of_nat (length (all_samples s)) < 2 ^ 64) as Hlen
    by (simpl; lia).
  assert (state s ≠ INPUT_SAMPLE_PROCESSING) as Hstate by discriminate.
  assert (SaveState example_write_coverage example_double_bytes s
          = Ok (tt, s1)) as Hsave by (vm_compute; reflexivity).
  assert (opts r = opts s) as Hopts by reflexivity.
  assert (files r = files s1) as Hfiles by apply files_set_files.
  assert (server (opts s) = false) as Hserver by reflexivity.
  assert (all_samples r = []) as Hall by reflexivity.
  assert (sample_queue r = []) as Hqueue by reflexivity.
  assert (input_files r = []) as Hinputs by reflexivity.
  split; [exact Hstored|]. split; [exact Hsave|].
  destruct (resume_starts_fuzzing script_ops 1000 example_write_coverage
              example_read_coverage example_double_bytes
              example_double_of_bytes s s1 r [] blank_job Hstored Hlen Hstate
              Hsave Hopts Hfiles Hserver Hall Hqueue Hinputs)
    as (r1 & Hrun & Hphase & _ & Hsamples & _ & Hjob).
  destruct (decide (all_samples s = [])) as [Hnone|_];
    [discriminate Hnone|].
  destruct Hjob as (job' & r2 & top & Hget & Htype & _ & Hfuzzing & _).
  exists r1, job', r2. split; [exact Hrun|]. split; [exact Hphase|].
  split; [exact Hsamples|]. split; [exact Hget|]. split; [exact Htype|].
  exact Hfuzzing.
Defined.

Lemma ReplaceTargetCmdArg_spec_witness :
  let target_argv := ["target"; "@@"; "-x"; "@@"]%string in
  let replaced := ReplaceTargetCmdArg target_argv "@@" "out/input_1" in
  replaced = ["target"; "out/input_1"; "-x"; "out/input_1"]%string
  ∧ "@@"%string ∉ replaced.
Proof.
  intros target_argv replaced.
  pose proof (ReplaceTargetCmdArg_spec target_argv "@@" "out/input_1")
    as Hspec.
  cbv zeta in Hspec. destruct Hspec as (Hmap & _ & Hother & _).
  split.
  - etrans; [exact Hmap|]. vm_compute. reflexivity.
  - apply Hother. discriminate.
Defined.

Lemma ParseOptions_target_spec_witness :
  let parse :=
    ParseOptions example_GetOption example_GetIntOption
      example_GetBinaryOption in
  let argv :=
    ["fuzzer"; "-in"; "seeds"; "-out"; "out"; "--"; "target"; "@@"]%string in
  parse ["fuzzer"; "-in"; "seeds"; "--"; "target"; "@@"]%string = None
  ∧ ∃ p, parse argv = Some p
         ∧ ParsedOptions.target_argc p = 2
         ∧ ParsedOptions.target_argv p = ["target"; "@@"]%string
         ∧ ParsedOptions.should_restore_state p ≠ true.
Proof.
  intros parse argv. split.
  - apply (proj1 (ParseOptions_target_spec example_GetOption
                    example_GetIntOption example_GetBinaryOption _)).
    right. reflexivity.
  - destruct (parse argv) as [p|] eqn:Hparse; [|discriminate Hparse].
    exists p. split; [reflexivity|].
    destruct (proj2 (ParseOptions_target_spec example_GetOption
                       example_GetIntOption example_GetBinaryOption argv)
                p Hparse) as (_ & Htarget & Hrestore).
    destruct (Htarget ["fuzzer"; "-in"; "seeds"; "-out"; "out"]%string
                ["target"; "@@"]%string) as [Hargc Hargv].
    + reflexivity.
    + simpl. lia.
    + intros j Hj. destruct j as [|[|[|[|[|j]]]]]; [lia|discriminate..].
    + split; [exact Hargc|]. split; [exact Hargv|].
      intros Hyes. apply Hrestore in Hyes as [Hdash|[Hflag|Hflag]];
        discriminate.
Defined.

Lemma CreateSampleDelivery_spec_witness :
  let create :=
    CreateSampleDelivery 1000 (fun path => String.concat "/" path)
      (Some "shmem"%string) 77 script_options in
  let first := SHMSampleDelivery "/shm_fuzz_77_1" 1004 in
  let second := SHMSampleDelivery "/shm_fuzz_77_2" 1004 in
  create 1 ["target"; "@@"]%string
  = Ok (first, ["target"; "/shm_fuzz_77_1"]%string)
  ∧ create 2 ["target"; "@@"]%string
    = Ok (second, ["target"; "/shm_fuzz_77_2"]%string)
  ∧ first ≠ second.
Proof.
  intros create first second.
  assert (create 1 ["target"; "@@"]%string
          = Ok (first, ["target"; "/shm_fuzz_77_1"]%string)) as Hfirst
    by (vm_compute; reflexivity).
  assert (create 2 ["target"; "@@"]%string
          = Ok (second, ["target"; "/shm_fuzz_77_2"]%string)) as Hsecond
    by (vm_compute; reflexivity).
  split; [exact Hfirst|]. split; [exact Hsecond|].
  apply (proj2 (CreateSampleDelivery_spec 1000
                  (fun path => String.concat "/" path) (Some "shmem"%string)
                  77 script_options)
           1 2 _ _ _ _ _ _ Hfirst Hsecond).
  lia.
Defined.
